(** * WASAPI capture engine: shallow embedding and verified properties

    This development embeds the capture and streaming-transform engine of
    [src/native/windows/wasapi_capture.cpp] (class [WasapiCapture]): the
    start/stop state machine, the per-batch pipeline (gain, downmix,
    resample), the chunk accumulator and the silence watchdog of the worker
    loop.

    - C++ [float] and [double] are reached through the interface [Arith].
      Its instance [IEEE] is the arithmetic of the program: binary32 and
      binary64 with round-to-nearest-even, built on the Standard Library's
      [SpecFloat].  Structural theorems hold for every instance; evaluations
      and the order properties of the interpolation are stated for [IEEE],
      the latter through the real values of the floats ([Rounding]).
    - [size_t] is an [N] with its 64-bit wrap-around written out.
    - Calls into the platform (COM, WASAPI, the clock) are inputs: an
      outcome record says what each call returned.
    - Callbacks into the host are outputs: each invocation is appended to a
      trace of [Event]s. *)

From Stdlib Require Import ZArith NArith QArith Qround List Bool String Lia Lqa.
From Stdlib Require Import Floats.SpecFloat.
From Stdlib Require Import Reals Qreals Psatz.
Import ListNotations.

Set Implicit Arguments.

Local Open Scope Z_scope.

(** ** Results of a call

    [Undefined] is C++ undefined behaviour (a float-to-integer conversion
    whose value does not fit, a division by zero on [size_t]); [Diverges] is
    a loop that never exits. *)

Inductive result (A : Type) : Type :=
| Ok (a : A)
| Undefined
| Diverges.

Arguments Ok {A} a.
Arguments Undefined {A}.
Arguments Diverges {A}.

Definition bind {A B : Type} (r : result A) (k : A -> result B) : result B :=
  match r with
  | Ok a => k a
  | Undefined => Undefined
  | Diverges => Diverges
  end.

Notation "x <- r ;; k" := (bind r (fun x => k))
  (at level 61, r at next level, right associativity).

(** ** Machine integers *)

Definition SIZE_MAX_plus_1 : N := (2 ^ 64)%N.

(** [size_t] multiplication and addition wrap modulo 2^64. *)
Definition size_mul (a b : N) : N := ((a * b) mod SIZE_MAX_plus_1)%N.
Definition size_add (a b : N) : N := ((a + b) mod SIZE_MAX_plus_1)%N.

(** [static_cast<int32_t>] of a [size_t]: the low 32 bits, read as signed. *)
Definition to_int32 (n : N) : Z :=
  let r := Z.of_N n mod 2 ^ 32 in
  if r <? 2 ^ 31 then r else r - 2 ^ 32.

(** ** The arithmetic interface

    [flt] stands for [float] and [dbl] for [double]. *)

Class Arith (flt dbl : Type) : Type := {
  f_zero : flt;                     (* 0.0f *)
  f_add : flt -> flt -> flt;
  f_mul : flt -> flt -> flt;
  f_div : flt -> flt -> flt;
  f_of_size : N -> flt;             (* size_t -> float *)
  f_of_dbl : dbl -> flt;            (* static_cast<float>(double) *)
  d_of_flt : flt -> dbl;            (* float promoted to double *)
  d_of_size : N -> dbl;             (* size_t, DWORD or literal -> double *)
  d_add : dbl -> dbl -> dbl;
  d_sub : dbl -> dbl -> dbl;
  d_mul : dbl -> dbl -> dbl;
  d_div : dbl -> dbl -> dbl;
  d_gtb : dbl -> dbl -> bool;       (* x > y  *)
  d_neb : dbl -> dbl -> bool;       (* x != y *)
  d_trunc : dbl -> option Z         (* integer part, toward zero; None for NaN, infinity *)
}.

(** [static_cast<size_t>(x)]: truncation; undefined when the integer part is
    not a [size_t] value. *)
Definition to_size_t {flt dbl : Type} {A : Arith flt dbl} (x : dbl) : result N :=
  match d_trunc x with
  | Some z => if (0 <=? z) && (z <? 2 ^ 64) then Ok (Z.to_N z) else Undefined
  | None => Undefined
  end.

(** [static_cast<int64_t>(x)]. *)
Definition to_int64 {flt dbl : Type} {A : Arith flt dbl} (x : dbl) : result Z :=
  match d_trunc x with
  | Some z => if (- 2 ^ 63 <=? z) && (z <? 2 ^ 63) then Ok z else Undefined
  | None => Undefined
  end.

(** *** IEEE 754 instance *)

Module B32.
Definition prec : Z := 24.
Definition emax : Z := 128.
Definition add := SFadd prec emax.
Definition mul := SFmul prec emax.
Definition div := SFdiv prec emax.
Definition of_Z (z : Z) : spec_float := binary_normalize prec emax z 0 false.
End B32.

Module B64.
Definition prec : Z := 53.
Definition emax : Z := 1024.
Definition add := SFadd prec emax.
Definition sub := SFsub prec emax.
Definition mul := SFmul prec emax.
Definition div := SFdiv prec emax.
Definition of_Z (z : Z) : spec_float := binary_normalize prec emax z 0 false.
Definition one : spec_float := S754_finite false 4503599627370496 (-52).
End B64.

(** Conversion between formats: the value is rounded into the target
    format (exact from binary32 to binary64). *)
Definition SFconvert (prec emax : Z) (x : spec_float) : spec_float :=
  match x with
  | S754_finite s m e => binary_round prec emax s m e
  | _ => x
  end.

(** Integer part of a float, toward zero. *)
Definition SFtrunc (x : spec_float) : option Z :=
  match x with
  | S754_zero _ => Some 0
  | S754_finite s m e =>
      Some (cond_Zopp s
              (match e with
               | Zneg p => Z.shiftr (Zpos m) (Zpos p)
               | _ => Z.shiftl (Zpos m) e
               end))
  | _ => None
  end.

(** The rational value of a finite float. *)
Definition SF2Q (x : spec_float) : Q :=
  match x with
  | S754_finite s m e =>
      let v := match e with
               | Zneg p => Qmake (Zpos m) (2 ^ p)
               | _ => inject_Z (Z.shiftl (Zpos m) e)
               end in
      if s then Qopp v else v
  | _ => 0%Q
  end.

#[export] Instance IEEE : Arith spec_float spec_float := {|
  f_zero := S754_zero false;
  f_add := B32.add;
  f_mul := B32.mul;
  f_div := B32.div;
  f_of_size := fun n => B32.of_Z (Z.of_N n);
  f_of_dbl := SFconvert B32.prec B32.emax;
  d_of_flt := SFconvert B64.prec B64.emax;
  d_of_size := fun n => B64.of_Z (Z.of_N n);
  d_add := B64.add;
  d_sub := B64.sub;
  d_mul := B64.mul;
  d_div := B64.div;
  d_gtb := fun x y => SFltb y x;
  d_neb := fun x y => negb (SFeqb x y);
  d_trunc := SFtrunc
|}.

(** Integer part of a rational, toward zero. *)
Definition Qtrunc (q : Q) : Z := Z.quot (Qnum q) (Zpos (Qden q)).


(** ** Platform model

    The engine keeps three kinds of native resource in its fields: the audio
    client, the capture client and the mix-format block.  [Platform] records
    which of them are alive.  Enumerators, devices and activation handlers
    are taken and given back inside one [Initialize...] call and are not
    tracked. *)

Definition HRESULT : Type := Z.
Definition S_OK : HRESULT := 0.
Definition E_FAIL : HRESULT := -2147467259.   (* 0x80004005 *)
Definition FAILED (hr : HRESULT) : bool := hr <? 0.

Inductive ResKind : Type := AudioClient | CaptureClient | MixFormat.

Definition Handle : Type := nat.

Record Platform : Type := {
  next_handle : Handle;
  live : list (ResKind * Handle)
}.

Definition ResKind_eqb (a b : ResKind) : bool :=
  match a, b with
  | AudioClient, AudioClient | CaptureClient, CaptureClient | MixFormat, MixFormat => true
  | _, _ => false
  end.

Definition acquire (k : ResKind) (p : Platform) : Handle * Platform :=
  (next_handle p,
   {| next_handle := S (next_handle p); live := (k, next_handle p) :: live p |}).

Definition release (k : ResKind) (h : Handle) (p : Platform) : Platform :=
  {| next_handle := next_handle p;
     live := filter (fun r => negb (ResKind_eqb (fst r) k && Nat.eqb (snd r) h)) (live p) |}.

Definition is_live (k : ResKind) (h : Handle) (p : Platform) : bool :=
  existsb (fun r => ResKind_eqb (fst r) k && Nat.eqb (snd r) h) (live p).

(** The fields of [WAVEFORMATEX] the engine reads. *)
Record WAVEFORMATEX : Type := {
  nChannels : N;          (* WORD  *)
  nSamplesPerSec : N      (* DWORD *)
}.

(** What the platform answers during one [Start...] call.  A failed call
    that has an out-parameter leaves it null, as COM prescribes. *)
Record Outcome : Type := {
  hr_CoCreateInstance : HRESULT;
  hr_GetDevice : HRESULT;                   (* GetDevice or GetDefaultAudioEndpoint *)
  hr_Activate : HRESULT;
  hr_ActivateAudioInterfaceAsync : HRESULT;
  activation_completed : bool;              (* ActivateCompleted ran within the 5 s wait *)
  hr_GetActivateResult : HRESULT;
  activateResult : HRESULT;
  hr_QueryInterface : HRESULT;
  hr_GetMixFormat : HRESULT;
  device_format : WAVEFORMATEX;
  hr_Initialize : HRESULT;
  hr_GetService : HRESULT;
  hr_Start : HRESULT
}.

Section Engine.

Context {flt dbl : Type} {A : Arith flt dbl}.

(** ** Host callbacks, as a trace *)

Inductive Event : Type :=
| EvData (samples : list flt) (nbytes : Z)
| EvEvent (code : Z) (message : option string)
| EvMetadata (sampleRate : dbl) (channelsPerFrame : N) (bitsPerChannel : N)
             (isFloat : bool) (encoding : string).

(** ** The session object

    A callback field is [true] when the pointer is non-null; [userContext_]
    is passed through unchanged and is left out. *)

Record WasapiCapture : Type := {
  dataCallback_ : bool;   (* data callback registered (non-null) *)
  eventCallback_ : bool;   (* event callback registered *)
  metadataCallback_ : bool;   (* metadata callback registered *)
  audioClient_ : option Handle;
  captureClient_ : option Handle;
  mixFormat_ : option (Handle * WAVEFORMATEX);   (* the block and the format it holds *)
  captureThread_ : bool;   (* joinable *)
  running_ : bool;
  stopEvent_ : bool;   (* signaled *)
  targetSampleRate_ : dbl;
  chunkDurationMs_ : dbl;
  isMono_ : bool;
  gain_ : dbl;
  emitSilence_ : bool;
  lastDataTime_ : Z;   (* steady_clock ticks *)
  chunkBuffer_ : list flt;
  samplesPerChunk_ : N;
  resampleRatio_ : dbl;
  resampleBuffer_ : list flt
}.

(** Field updates. *)

Definition set_audioClient_ (v : option Handle) (o : WasapiCapture) : WasapiCapture :=
  {| dataCallback_ := dataCallback_ o; eventCallback_ := eventCallback_ o;
     metadataCallback_ := metadataCallback_ o; audioClient_ := v; captureClient_ :=
     captureClient_ o; mixFormat_ := mixFormat_ o; captureThread_ := captureThread_ o;
     running_ := running_ o; stopEvent_ := stopEvent_ o; targetSampleRate_ :=
     targetSampleRate_ o; chunkDurationMs_ := chunkDurationMs_ o; isMono_ := isMono_ o;
     gain_ := gain_ o; emitSilence_ := emitSilence_ o; lastDataTime_ := lastDataTime_ o;
     chunkBuffer_ := chunkBuffer_ o; samplesPerChunk_ := samplesPerChunk_ o;
     resampleRatio_ := resampleRatio_ o; resampleBuffer_ := resampleBuffer_ o |}.

Definition set_captureClient_ (v : option Handle) (o : WasapiCapture) : WasapiCapture :=
  {| dataCallback_ := dataCallback_ o; eventCallback_ := eventCallback_ o;
     metadataCallback_ := metadataCallback_ o; audioClient_ := audioClient_ o;
     captureClient_ := v; mixFormat_ := mixFormat_ o; captureThread_ := captureThread_ o;
     running_ := running_ o; stopEvent_ := stopEvent_ o; targetSampleRate_ :=
     targetSampleRate_ o; chunkDurationMs_ := chunkDurationMs_ o; isMono_ := isMono_ o;
     gain_ := gain_ o; emitSilence_ := emitSilence_ o; lastDataTime_ := lastDataTime_ o;
     chunkBuffer_ := chunkBuffer_ o; samplesPerChunk_ := samplesPerChunk_ o;
     resampleRatio_ := resampleRatio_ o; resampleBuffer_ := resampleBuffer_ o |}.

Definition set_mixFormat_ (v : option (Handle * WAVEFORMATEX)) (o : WasapiCapture) : WasapiCapture :=
  {| dataCallback_ := dataCallback_ o; eventCallback_ := eventCallback_ o;
     metadataCallback_ := metadataCallback_ o; audioClient_ := audioClient_ o;
     captureClient_ := captureClient_ o; mixFormat_ := v; captureThread_ :=
     captureThread_ o; running_ := running_ o; stopEvent_ := stopEvent_ o;
     targetSampleRate_ := targetSampleRate_ o; chunkDurationMs_ := chunkDurationMs_ o;
     isMono_ := isMono_ o; gain_ := gain_ o; emitSilence_ := emitSilence_ o;
     lastDataTime_ := lastDataTime_ o; chunkBuffer_ := chunkBuffer_ o; samplesPerChunk_
     := samplesPerChunk_ o; resampleRatio_ := resampleRatio_ o; resampleBuffer_ :=
     resampleBuffer_ o |}.

Definition set_captureThread_ (v : bool) (o : WasapiCapture) : WasapiCapture :=
  {| dataCallback_ := dataCallback_ o; eventCallback_ := eventCallback_ o;
     metadataCallback_ := metadataCallback_ o; audioClient_ := audioClient_ o;
     captureClient_ := captureClient_ o; mixFormat_ := mixFormat_ o; captureThread_ := v;
     running_ := running_ o; stopEvent_ := stopEvent_ o; targetSampleRate_ :=
     targetSampleRate_ o; chunkDurationMs_ := chunkDurationMs_ o; isMono_ := isMono_ o;
     gain_ := gain_ o; emitSilence_ := emitSilence_ o; lastDataTime_ := lastDataTime_ o;
     chunkBuffer_ := chunkBuffer_ o; samplesPerChunk_ := samplesPerChunk_ o;
     resampleRatio_ := resampleRatio_ o; resampleBuffer_ := resampleBuffer_ o |}.

Definition set_running_ (v : bool) (o : WasapiCapture) : WasapiCapture :=
  {| dataCallback_ := dataCallback_ o; eventCallback_ := eventCallback_ o;
     metadataCallback_ := metadataCallback_ o; audioClient_ := audioClient_ o;
     captureClient_ := captureClient_ o; mixFormat_ := mixFormat_ o; captureThread_ :=
     captureThread_ o; running_ := v; stopEvent_ := stopEvent_ o; targetSampleRate_ :=
     targetSampleRate_ o; chunkDurationMs_ := chunkDurationMs_ o; isMono_ := isMono_ o;
     gain_ := gain_ o; emitSilence_ := emitSilence_ o; lastDataTime_ := lastDataTime_ o;
     chunkBuffer_ := chunkBuffer_ o; samplesPerChunk_ := samplesPerChunk_ o;
     resampleRatio_ := resampleRatio_ o; resampleBuffer_ := resampleBuffer_ o |}.

Definition set_stopEvent_ (v : bool) (o : WasapiCapture) : WasapiCapture :=
  {| dataCallback_ := dataCallback_ o; eventCallback_ := eventCallback_ o;
     metadataCallback_ := metadataCallback_ o; audioClient_ := audioClient_ o;
     captureClient_ := captureClient_ o; mixFormat_ := mixFormat_ o; captureThread_ :=
     captureThread_ o; running_ := running_ o; stopEvent_ := v; targetSampleRate_ :=
     targetSampleRate_ o; chunkDurationMs_ := chunkDurationMs_ o; isMono_ := isMono_ o;
     gain_ := gain_ o; emitSilence_ := emitSilence_ o; lastDataTime_ := lastDataTime_ o;
     chunkBuffer_ := chunkBuffer_ o; samplesPerChunk_ := samplesPerChunk_ o;
     resampleRatio_ := resampleRatio_ o; resampleBuffer_ := resampleBuffer_ o |}.

Definition set_targetSampleRate_ (v : dbl) (o : WasapiCapture) : WasapiCapture :=
  {| dataCallback_ := dataCallback_ o; eventCallback_ := eventCallback_ o;
     metadataCallback_ := metadataCallback_ o; audioClient_ := audioClient_ o;
     captureClient_ := captureClient_ o; mixFormat_ := mixFormat_ o; captureThread_ :=
     captureThread_ o; running_ := running_ o; stopEvent_ := stopEvent_ o;
     targetSampleRate_ := v; chunkDurationMs_ := chunkDurationMs_ o; isMono_ := isMono_
     o; gain_ := gain_ o; emitSilence_ := emitSilence_ o; lastDataTime_ := lastDataTime_
     o; chunkBuffer_ := chunkBuffer_ o; samplesPerChunk_ := samplesPerChunk_ o;
     resampleRatio_ := resampleRatio_ o; resampleBuffer_ := resampleBuffer_ o |}.

Definition set_chunkDurationMs_ (v : dbl) (o : WasapiCapture) : WasapiCapture :=
  {| dataCallback_ := dataCallback_ o; eventCallback_ := eventCallback_ o;
     metadataCallback_ := metadataCallback_ o; audioClient_ := audioClient_ o;
     captureClient_ := captureClient_ o; mixFormat_ := mixFormat_ o; captureThread_ :=
     captureThread_ o; running_ := running_ o; stopEvent_ := stopEvent_ o;
     targetSampleRate_ := targetSampleRate_ o; chunkDurationMs_ := v; isMono_ := isMono_
     o; gain_ := gain_ o; emitSilence_ := emitSilence_ o; lastDataTime_ := lastDataTime_
     o; chunkBuffer_ := chunkBuffer_ o; samplesPerChunk_ := samplesPerChunk_ o;
     resampleRatio_ := resampleRatio_ o; resampleBuffer_ := resampleBuffer_ o |}.

Definition set_isMono_ (v : bool) (o : WasapiCapture) : WasapiCapture :=
  {| dataCallback_ := dataCallback_ o; eventCallback_ := eventCallback_ o;
     metadataCallback_ := metadataCallback_ o; audioClient_ := audioClient_ o;
     captureClient_ := captureClient_ o; mixFormat_ := mixFormat_ o; captureThread_ :=
     captureThread_ o; running_ := running_ o; stopEvent_ := stopEvent_ o;
     targetSampleRate_ := targetSampleRate_ o; chunkDurationMs_ := chunkDurationMs_ o;
     isMono_ := v; gain_ := gain_ o; emitSilence_ := emitSilence_ o; lastDataTime_ :=
     lastDataTime_ o; chunkBuffer_ := chunkBuffer_ o; samplesPerChunk_ :=
     samplesPerChunk_ o; resampleRatio_ := resampleRatio_ o; resampleBuffer_ :=
     resampleBuffer_ o |}.

Definition set_gain_ (v : dbl) (o : WasapiCapture) : WasapiCapture :=
  {| dataCallback_ := dataCallback_ o; eventCallback_ := eventCallback_ o;
     metadataCallback_ := metadataCallback_ o; audioClient_ := audioClient_ o;
     captureClient_ := captureClient_ o; mixFormat_ := mixFormat_ o; captureThread_ :=
     captureThread_ o; running_ := running_ o; stopEvent_ := stopEvent_ o;
     targetSampleRate_ := targetSampleRate_ o; chunkDurationMs_ := chunkDurationMs_ o;
     isMono_ := isMono_ o; gain_ := v; emitSilence_ := emitSilence_ o; lastDataTime_ :=
     lastDataTime_ o; chunkBuffer_ := chunkBuffer_ o; samplesPerChunk_ :=
     samplesPerChunk_ o; resampleRatio_ := resampleRatio_ o; resampleBuffer_ :=
     resampleBuffer_ o |}.

Definition set_emitSilence_ (v : bool) (o : WasapiCapture) : WasapiCapture :=
  {| dataCallback_ := dataCallback_ o; eventCallback_ := eventCallback_ o;
     metadataCallback_ := metadataCallback_ o; audioClient_ := audioClient_ o;
     captureClient_ := captureClient_ o; mixFormat_ := mixFormat_ o; captureThread_ :=
     captureThread_ o; running_ := running_ o; stopEvent_ := stopEvent_ o;
     targetSampleRate_ := targetSampleRate_ o; chunkDurationMs_ := chunkDurationMs_ o;
     isMono_ := isMono_ o; gain_ := gain_ o; emitSilence_ := v; lastDataTime_ :=
     lastDataTime_ o; chunkBuffer_ := chunkBuffer_ o; samplesPerChunk_ :=
     samplesPerChunk_ o; resampleRatio_ := resampleRatio_ o; resampleBuffer_ :=
     resampleBuffer_ o |}.

Definition set_lastDataTime_ (v : Z) (o : WasapiCapture) : WasapiCapture :=
  {| dataCallback_ := dataCallback_ o; eventCallback_ := eventCallback_ o;
     metadataCallback_ := metadataCallback_ o; audioClient_ := audioClient_ o;
     captureClient_ := captureClient_ o; mixFormat_ := mixFormat_ o; captureThread_ :=
     captureThread_ o; running_ := running_ o; stopEvent_ := stopEvent_ o;
     targetSampleRate_ := targetSampleRate_ o; chunkDurationMs_ := chunkDurationMs_ o;
     isMono_ := isMono_ o; gain_ := gain_ o; emitSilence_ := emitSilence_ o;
     lastDataTime_ := v; chunkBuffer_ := chunkBuffer_ o; samplesPerChunk_ :=
     samplesPerChunk_ o; resampleRatio_ := resampleRatio_ o; resampleBuffer_ :=
     resampleBuffer_ o |}.

Definition set_chunkBuffer_ (v : list flt) (o : WasapiCapture) : WasapiCapture :=
  {| dataCallback_ := dataCallback_ o; eventCallback_ := eventCallback_ o;
     metadataCallback_ := metadataCallback_ o; audioClient_ := audioClient_ o;
     captureClient_ := captureClient_ o; mixFormat_ := mixFormat_ o; captureThread_ :=
     captureThread_ o; running_ := running_ o; stopEvent_ := stopEvent_ o;
     targetSampleRate_ := targetSampleRate_ o; chunkDurationMs_ := chunkDurationMs_ o;
     isMono_ := isMono_ o; gain_ := gain_ o; emitSilence_ := emitSilence_ o;
     lastDataTime_ := lastDataTime_ o; chunkBuffer_ := v; samplesPerChunk_ :=
     samplesPerChunk_ o; resampleRatio_ := resampleRatio_ o; resampleBuffer_ :=
     resampleBuffer_ o |}.

Definition set_samplesPerChunk_ (v : N) (o : WasapiCapture) : WasapiCapture :=
  {| dataCallback_ := dataCallback_ o; eventCallback_ := eventCallback_ o;
     metadataCallback_ := metadataCallback_ o; audioClient_ := audioClient_ o;
     captureClient_ := captureClient_ o; mixFormat_ := mixFormat_ o; captureThread_ :=
     captureThread_ o; running_ := running_ o; stopEvent_ := stopEvent_ o;
     targetSampleRate_ := targetSampleRate_ o; chunkDurationMs_ := chunkDurationMs_ o;
     isMono_ := isMono_ o; gain_ := gain_ o; emitSilence_ := emitSilence_ o;
     lastDataTime_ := lastDataTime_ o; chunkBuffer_ := chunkBuffer_ o; samplesPerChunk_
     := v; resampleRatio_ := resampleRatio_ o; resampleBuffer_ := resampleBuffer_ o |}.

Definition set_resampleRatio_ (v : dbl) (o : WasapiCapture) : WasapiCapture :=
  {| dataCallback_ := dataCallback_ o; eventCallback_ := eventCallback_ o;
     metadataCallback_ := metadataCallback_ o; audioClient_ := audioClient_ o;
     captureClient_ := captureClient_ o; mixFormat_ := mixFormat_ o; captureThread_ :=
     captureThread_ o; running_ := running_ o; stopEvent_ := stopEvent_ o;
     targetSampleRate_ := targetSampleRate_ o; chunkDurationMs_ := chunkDurationMs_ o;
     isMono_ := isMono_ o; gain_ := gain_ o; emitSilence_ := emitSilence_ o;
     lastDataTime_ := lastDataTime_ o; chunkBuffer_ := chunkBuffer_ o; samplesPerChunk_
     := samplesPerChunk_ o; resampleRatio_ := v; resampleBuffer_ := resampleBuffer_ o |}.

(** ** Program state: the object, the platform and the callback trace *)

Record State : Type := {
  obj : WasapiCapture;
  os : Platform;
  out : list Event
}.

Definition upd (f : WasapiCapture -> WasapiCapture) (st : State) : State :=
  {| obj := f (obj st); os := os st; out := out st |}.

Definition with_os (p : Platform) (st : State) : State :=
  {| obj := obj st; os := p; out := out st |}.

Definition call (e : Event) (st : State) : State :=
  {| obj := obj st; os := os st; out := out st ++ [e] |}.

(** [if (eventCallback_) eventCallback_(code, message, userContext_);] *)
Definition emit_event (code : Z) (message : option string) (st : State) : State :=
  if eventCallback_ (obj st) then call (EvEvent code message) st else st.

(** The constructor (member initialiser list; [CreateEvent] gives a
    non-signaled event; the vectors start empty). *)
Definition WasapiCapture_new (dataCallback eventCallback metadataCallback : bool)
  : WasapiCapture :=
  {| dataCallback_ := dataCallback; eventCallback_ := eventCallback;
     metadataCallback_ := metadataCallback;
     audioClient_ := None; captureClient_ := None; mixFormat_ := None;
     captureThread_ := false; running_ := false; stopEvent_ := false;
     targetSampleRate_ := d_of_size 0; chunkDurationMs_ := d_of_size 200;
     isMono_ := true; gain_ := d_of_size 1; emitSilence_ := true;
     lastDataTime_ := 0;
     chunkBuffer_ := []; samplesPerChunk_ := 0%N;
     resampleRatio_ := d_of_size 1; resampleBuffer_ := [] |}.

(** ** Source negotiation *)

(** A call with an out-parameter stored in a field: the field receives a
    fresh object on success and null on failure. *)
Definition store_client (hr : HRESULT) (st : State) : HRESULT * State :=
  if FAILED hr then (hr, upd (set_audioClient_ None) st)
  else let (h, p) := acquire AudioClient (os st) in
       (hr, upd (set_audioClient_ (Some h)) (with_os p st)).

Definition GetMixFormat (env : Outcome) (st : State) : HRESULT * State :=
  let hr := hr_GetMixFormat env in
  if FAILED hr then (hr, upd (set_mixFormat_ None) st)
  else let (h, p) := acquire MixFormat (os st) in
       (hr, upd (set_mixFormat_ (Some (h, device_format env))) (with_os p st)).

Definition GetService (env : Outcome) (st : State) : HRESULT * State :=
  let hr := hr_GetService env in
  if FAILED hr then (hr, upd (set_captureClient_ None) st)
  else let (h, p) := acquire CaptureClient (os st) in
       (hr, upd (set_captureClient_ (Some h)) (with_os p st)).

(** The common tail of the three initialisers: mix format, [Initialize],
    capture client. *)
Definition negotiate_format (env : Outcome) (st : State) : HRESULT * State :=
  let (hr, st) := GetMixFormat env st in
  if FAILED hr then (hr, st) else
  let hr := hr_Initialize env in
  if FAILED hr then (hr, st) else
  GetService env st.

Definition InitializeSystemLoopback (env : Outcome) (st : State) : HRESULT * State :=
  let hr := hr_CoCreateInstance env in
  if FAILED hr then (hr, st) else
  let hr := hr_GetDevice env in
  if FAILED hr then (hr, st) else
  let (hr, st) := store_client (hr_Activate env) st in
  if FAILED hr then (hr, st) else
  negotiate_format env st.

Inductive PROCESS_LOOPBACK_MODE : Type :=
| PROCESS_LOOPBACK_MODE_INCLUDE_TARGET_PROCESS_TREE
| PROCESS_LOOPBACK_MODE_EXCLUDE_TARGET_PROCESS_TREE.

Definition InitializeProcessLoopback (targetPid : Z) (mode : PROCESS_LOOPBACK_MODE)
    (env : Outcome) (st : State) : HRESULT * State :=
  let hr := hr_ActivateAudioInterfaceAsync env in
  if FAILED hr then (hr, st) else
  if negb (activation_completed env) then (E_FAIL, st) else
  let hr := hr_GetActivateResult env in
  if FAILED hr || FAILED (activateResult env)
  then (if FAILED hr then hr else activateResult env, st) else
  let (hr, st) := store_client (hr_QueryInterface env) st in
  if FAILED hr then (hr, st) else
  negotiate_format env st.

Definition InitializeMicrophone (deviceId : option string) (env : Outcome) (st : State)
  : HRESULT * State :=
  let hr := hr_CoCreateInstance env in
  if FAILED hr then (hr, st) else
  let hr := hr_GetDevice env in
  if FAILED hr then (hr, st) else
  let (hr, st) := store_client (hr_Activate env) st in
  if FAILED hr then (hr, st) else
  negotiate_format env st.

(** ** Finalize *)

(** [targetSampleRate_ > 0 ? targetSampleRate_ : mixFormat_->nSamplesPerSec] *)
Definition output_rate (targetSampleRate : dbl) (fmt : WAVEFORMATEX) : dbl :=
  if d_gtb targetSampleRate (d_of_size 0)
  then targetSampleRate
  else d_of_size (nSamplesPerSec fmt).

Definition FinalizeInitialization (st : State) : result (HRESULT * State) :=
  match mixFormat_ (obj st) with
  | None => Ok (E_FAIL, st)
  | Some (_, fmt) =>
      let outputSampleRate := output_rate (targetSampleRate_ (obj st)) fmt in
      let st := upd (set_resampleRatio_
                       (d_div outputSampleRate (d_of_size (nSamplesPerSec fmt)))) st in
      n <- to_size_t (d_mul (d_div (chunkDurationMs_ (obj st)) (d_of_size 1000))
                            outputSampleRate) ;;
      let st := upd (set_samplesPerChunk_ n) st in
      let st :=
        if metadataCallback_ (obj st)
        then call (EvMetadata outputSampleRate
                     (if isMono_ (obj st) then 1%N else nChannels fmt)
                     32 true "pcm_f32le") st
        else st in
      Ok (S_OK, st)
  end.

(** ** Start and stop *)

(** The part of both [Start...] functions after source negotiation. *)
Definition finish_start (init_message : string) (env : Outcome)
    (r : HRESULT * State) : result (Z * State) :=
  let (hr, st) := r in
  if FAILED hr then Ok (-3, emit_event 2 (Some init_message) st) else
  r <- FinalizeInitialization st ;;
  let (hr, st) := r : HRESULT * State in
  if FAILED hr
  then Ok (-4, emit_event 2 (Some "Failed to finalize audio initialization"%string) st)
  else
  let hr := hr_Start env in
  if FAILED hr
  then Ok (-5, emit_event 2 (Some "Failed to start audio client"%string) st)
  else
  let st := upd (set_running_ true) st in
  let st := upd (set_stopEvent_ false) st in          (* ResetEvent *)
  let st := emit_event 0 None st in
  let st := upd (set_captureThread_ true) st in       (* std::thread started *)
  Ok (0, st).

(** [chunkDurationMs > 0 ? chunkDurationMs : 200] *)
Definition chunk_or_default (chunkDurationMs : dbl) : dbl :=
  if d_gtb chunkDurationMs (d_of_size 0) then chunkDurationMs else d_of_size 200.

(** [count > 0 && processes != nullptr] *)
Definition has_processes (processes : option (list Z)) (count : Z) : bool :=
  (0 <? count) && match processes with Some _ => true | None => false end.

(** [static_cast<DWORD>(processes[0])] *)
Definition first_pid (processes : option (list Z)) : Z :=
  match processes with
  | Some l => hd 0 l mod 2 ^ 32
  | None => 0
  end.

Definition StartSystemAudio (sampleRate chunkDurationMs : dbl)
    (mute isMono emitSilence : bool)
    (includeProcesses : option (list Z)) (includeCount : Z)
    (excludeProcesses : option (list Z)) (excludeCount : Z)
    (env : Outcome) (st : State) : result (Z * State) :=
  if running_ (obj st) then Ok (-2, st) else
  let st := upd (set_targetSampleRate_ sampleRate) st in
  let st := upd (set_chunkDurationMs_ (chunk_or_default chunkDurationMs)) st in
  let st := upd (set_isMono_ isMono) st in
  let st := upd (set_emitSilence_ emitSilence) st in
  let r :=
    if has_processes includeProcesses includeCount
    then InitializeProcessLoopback (first_pid includeProcesses)
           PROCESS_LOOPBACK_MODE_INCLUDE_TARGET_PROCESS_TREE env st
    else if has_processes excludeProcesses excludeCount
    then InitializeProcessLoopback (first_pid excludeProcesses)
           PROCESS_LOOPBACK_MODE_EXCLUDE_TARGET_PROCESS_TREE env st
    else InitializeSystemLoopback env st in
  finish_start "Failed to initialize audio capture" env r.

Definition StartMicrophone (sampleRate chunkDurationMs : dbl)
    (isMono emitSilence : bool) (deviceId : option string) (gain : dbl)
    (env : Outcome) (st : State) : result (Z * State) :=
  if running_ (obj st) then Ok (-2, st) else
  let st := upd (set_targetSampleRate_ sampleRate) st in
  let st := upd (set_chunkDurationMs_ (chunk_or_default chunkDurationMs)) st in
  let st := upd (set_isMono_ isMono) st in
  let st := upd (set_emitSilence_ emitSilence) st in
  let st := upd (set_gain_ gain) st in
  let wideDeviceId := match deviceId with Some d => d | None => EmptyString end in
  let r := InitializeMicrophone
             (if String.eqb wideDeviceId EmptyString then None else Some wideDeviceId)
             env st in
  finish_start "Failed to initialize microphone capture" env r.

(** [Stop]: the worker has nothing left to emit when it is joined. *)
Definition Stop (st : State) : Z * State :=
  if negb (running_ (obj st)) then (0, st) else
  let st := upd (set_running_ false) st in
  let st := upd (set_stopEvent_ true) st in           (* SetEvent *)
  let st := if captureThread_ (obj st)
            then upd (set_captureThread_ false) st    (* join *)
            else st in
  (* audioClient_->Stop() changes no field *)
  let st := emit_event 1 None st in
  (0, st).

Definition IsRunning (st : State) : bool := running_ (obj st).

(** The destructor: [Stop], then the three resources are given back. *)
Definition release_field (k : ResKind) (h : option Handle) (st : State) : State :=
  match h with
  | Some h => with_os (release k h (os st)) st
  | None => st
  end.

Definition WasapiCapture_delete (st : State) : State :=
  let st := snd (Stop st) in
  let st := release_field MixFormat (option_map fst (mixFormat_ (obj st))) st in
  let st := release_field CaptureClient (captureClient_ (obj st)) st in
  release_field AudioClient (audioClient_ (obj st)) st.

(** ** The per-batch pipeline *)

(** [a[i]] on a C array held as a list. *)
Definition read (a : list flt) (i : N) : flt := nth (N.to_nat i) a f_zero.

(** The indices [0 .. n-1] of a [for (size_t i = 0; i < n; i++)] loop. *)
Definition indices (n : N) : list N := map N.of_nat (seq 0 (N.to_nat n)).

(** The gain loop of [ProcessAudioData]. *)
Definition apply_gain (gain : dbl) (floatData : list flt) (totalSamples : N) : list flt :=
  map (fun i => f_mul (read floatData i) (f_of_dbl gain)) (indices totalSamples).

Definition ConvertToMono (channels : N) (input : list flt) (frames : N) : list flt :=
  map (fun i =>
         let sum := fold_left (fun sum c => f_add sum (read input (i * channels + c)%N))
                              (indices channels) f_zero in
         f_div sum (f_of_size channels))
      (indices frames).

(** One output sample of [ResampleAudio]. *)
Definition resample_at (ratio : dbl) (input : list flt) (inputSamples : N) (i : N)
  : result flt :=
  let srcIndex := d_div (d_of_size i) ratio in
  srcIndexInt <- to_size_t srcIndex ;;
  let frac := d_sub srcIndex (d_of_size srcIndexInt) in
  if (size_add srcIndexInt 1 <? inputSamples)%N then
    Ok (f_of_dbl
          (d_add (d_mul (d_of_flt (read input srcIndexInt)) (d_sub (d_of_size 1) frac))
                 (d_mul (d_of_flt (read input (size_add srcIndexInt 1))) frac)))
  else if (srcIndexInt <? inputSamples)%N then Ok (read input srcIndexInt)
  else Ok f_zero.

Fixpoint collect {X Y : Type} (f : X -> result Y) (l : list X) : result (list Y) :=
  match l with
  | [] => Ok []
  | x :: l' => y <- f x ;; ys <- collect f l' ;; Ok (y :: ys)
  end.

Definition ResampleAudio (ratio : dbl) (input : list flt) (inputSamples : N)
  : result (list flt) :=
  outputSamples <- to_size_t (d_mul (d_of_size inputSamples) ratio) ;;
  collect (resample_at ratio input inputSamples) (indices outputSamples).

(** The stages of [ProcessAudioData], up to the samples that are pushed
    onto [chunkBuffer_].  Each stage returns the buffer [floatData] points
    to after it. *)

(** [if (gain_ != 1.0) { ... }] *)
Definition gain_stage (o : WasapiCapture) (fmt : WAVEFORMATEX)
    (data : list flt) (numFrames : N) : list flt :=
  let totalSamples := (numFrames * nChannels fmt)%N in
  if d_neb (gain_ o) (d_of_size 1)
  then apply_gain (gain_ o) data totalSamples
  else data.

(** [if (isMono_ && numChannels > 1) { ... }]; the second component is
    [numChannels] after the stage. *)
Definition downmix_stage (o : WasapiCapture) (fmt : WAVEFORMATEX)
    (floatData : list flt) (numFrames : N) : list flt * N :=
  if isMono_ o && (1 <? nChannels fmt)%N
  then (ConvertToMono (nChannels fmt) floatData numFrames, 1%N)
  else (floatData, nChannels fmt).

(** [if (resampleRatio_ != 1.0) { ... }]; the second component is
    [outputFrames]. *)
Definition resample_stage (o : WasapiCapture) (floatData : list flt)
    (numFrames numChannels : N) : result (list flt * N) :=
  if d_neb (resampleRatio_ o) (d_of_size 1)
  then resampledData <- ResampleAudio (resampleRatio_ o) floatData
                          (numFrames * numChannels)%N ;;
       if (numChannels =? 0)%N then Undefined
       else Ok (resampledData, (N.of_nat (List.length resampledData) / numChannels)%N)
  else Ok (floatData, numFrames).

Definition process_samples (o : WasapiCapture) (fmt : WAVEFORMATEX)
    (data : list flt) (numFrames : N) : result (list flt * N) :=
  let floatData := gain_stage o fmt data numFrames in
  let '(floatData, numChannels) := downmix_stage o fmt floatData numFrames in
  r <- resample_stage o floatData numFrames numChannels ;;
  let '(floatData, outputFrames) := r : list flt * N in
  let outputSamples := (outputFrames * numChannels)%N in
  Ok (map (read floatData) (indices outputSamples), numChannels).

(** ** Chunk accumulator *)

(** The emission loop of [ProcessAudioData]; [fuel] bounds the number of
    turns. *)
Fixpoint emit_chunks (fuel : nat) (samplesNeeded : N) (st : State) : result State :=
  if (samplesNeeded <=? N.of_nat (List.length (chunkBuffer_ (obj st))))%N
     && dataCallback_ (obj st)
  then match fuel with
       | O => Diverges
       | S fuel' =>
           let buf := chunkBuffer_ (obj st) in
           let st := call (EvData (firstn (N.to_nat samplesNeeded) buf)
                                  (to_int32 (size_mul samplesNeeded 4))) st in
           let st := upd (set_chunkBuffer_ (skipn (N.to_nat samplesNeeded) buf)) st in
           emit_chunks fuel' samplesNeeded st
       end
  else Ok st.

Definition ProcessAudioData (data : list flt) (numFrames : N) (st : State)
  : result State :=
  match mixFormat_ (obj st) with
  | Some (_, fmt) =>
      if (numFrames =? 0)%N then Ok st else
      r <- process_samples (obj st) fmt data numFrames ;;
      let '(samples, numChannels) := r : list flt * N in
      let st := upd (set_chunkBuffer_ (chunkBuffer_ (obj st) ++ samples)) st in
      let samplesNeeded :=
        size_mul (samplesPerChunk_ (obj st)) (if isMono_ (obj st) then 1 else numChannels) in
      emit_chunks (S (List.length (chunkBuffer_ (obj st)))) samplesNeeded st
  | None => Ok st
  end.

(** ** The worker loop

    What the worker observes during one turn of its loop: whether the stop
    event was signaled within the 10 ms wait, the packets queued by the
    device (the packet length is positive exactly while packets remain), and
    the two clock readings. *)

Record PacketObs : Type := {
  hr_GetBuffer : HRESULT;
  pk_data : option (list flt);          (* null, or the interleaved frames *)
  pk_numFramesAvailable : N;
  pk_silent : bool;                     (* flags & AUDCLNT_BUFFERFLAGS_SILENT *)
  hr_ReleaseBuffer : HRESULT;
  hr_NextPacketSize : HRESULT
}.

Record IterObs : Type := {
  wait_signaled : bool;                 (* WaitForSingleObject = WAIT_OBJECT_0 *)
  hr_GetNextPacketSize : HRESULT;
  packets : list PacketObs;
  now_after_packets : Z;                (* steady_clock::now() when audio was received *)
  now_watchdog : Z                      (* steady_clock::now() in the silence check *)
}.

(** Ticks of [steady_clock] per millisecond. *)
Definition ticks_per_ms : Z := 1000000.

(** [duration_cast<milliseconds>] *)
Definition to_milliseconds (ticks : Z) : Z := Z.quot ticks ticks_per_ms.

(** [while (packetLength > 0 && running_) { ... }] *)
Fixpoint drain_packets (pks : list PacketObs) (receivedAudio : bool) (st : State)
  : result (bool * State) :=
  match pks with
  | [] => Ok (receivedAudio, st)
  | pk :: rest =>
      if negb (running_ (obj st)) then Ok (receivedAudio, st) else
      if FAILED (hr_GetBuffer pk) then Ok (receivedAudio, st) else
      r <- match pk_data pk with
           | Some data =>
               if negb (pk_silent pk)
               then st' <- ProcessAudioData data (pk_numFramesAvailable pk) st ;;
                    Ok (true, st')
               else Ok (receivedAudio, st)
           | None => Ok (receivedAudio, st)
           end ;;
      let '(receivedAudio, st) := r : bool * State in
      if FAILED (hr_ReleaseBuffer pk) then Ok (receivedAudio, st) else
      if FAILED (hr_NextPacketSize pk) then Ok (receivedAudio, st) else
      drain_packets rest receivedAudio st
  end.

(** [samplesPerChunk_ * numChannels] of the silence check, with
    [numChannels = isMono_ ? 1 : (mixFormat_ ? mixFormat_->nChannels : 2)]. *)
Definition silentSamples (o : WasapiCapture) : N :=
  size_mul (samplesPerChunk_ o)
    (if isMono_ o then 1%N
     else match mixFormat_ o with
          | Some (_, fmt) => nChannels fmt
          | None => 2%N
          end).

(** The silence check at the end of a turn. *)
Definition silence_watchdog (chunkDuration : Z) (receivedAudio : bool) (now : Z)
    (st : State) : State :=
  if emitSilence_ (obj st) && negb receivedAudio then
    let elapsed := to_milliseconds (now - lastDataTime_ (obj st)) in
    if chunkDuration <=? elapsed then
      let st :=
        if (0 <? silentSamples (obj st))%N && dataCallback_ (obj st)
        then call (EvData (repeat f_zero (N.to_nat (silentSamples (obj st))))
                          (to_int32 (size_mul (silentSamples (obj st)) 4))) st
        else st in
      upd (set_lastDataTime_ now) st
    else st
  else st.

(** One turn of [while (running_)]; the boolean says whether the loop goes
    on. *)
Definition CaptureThread_turn (chunkDuration : Z) (ob : IterObs) (st : State)
  : result (bool * State) :=
  if wait_signaled ob then Ok (false, st) else
  if FAILED (hr_GetNextPacketSize ob)
  then Ok (false, emit_event 2 (Some "Failed to get packet size"%string) st) else
  r <- drain_packets (packets ob) false st ;;
  let '(receivedAudio, st) := r : bool * State in
  let st := if receivedAudio
            then upd (set_lastDataTime_ (now_after_packets ob)) st
            else st in
  Ok (true, silence_watchdog chunkDuration receivedAudio (now_watchdog ob) st).

Fixpoint worker_loop (chunkDuration : Z) (obs : list IterObs) (st : State)
  : result State :=
  match obs with
  | [] => Ok st
  | ob :: rest =>
      if negb (running_ (obj st)) then Ok st else
      r <- CaptureThread_turn chunkDuration ob st ;;
      let '(go_on, st) := r : bool * State in
      if go_on then worker_loop chunkDuration rest st else Ok st
  end.

(** The worker over a finite run of observations. *)
Definition CaptureThread (start : Z) (obs : list IterObs) (st : State) : result State :=
  let st := upd (set_lastDataTime_ start) st in
  chunkDuration <- to_int64 (chunkDurationMs_ (obj st)) ;;
  worker_loop chunkDuration obs st.

(** The number of lifecycle events with a given code in a trace. *)
Definition count_code (code : Z) (tr : list Event) : nat :=
  List.length (filter (fun e => match e with
                                | EvEvent c _ => c =? code
                                | _ => false
                                end) tr).

(** The field of the object that holds a resource of each kind. *)
Definition field_of (k : ResKind) (o : WasapiCapture) : option Handle :=
  match k with
  | AudioClient => audioClient_ o
  | CaptureClient => captureClient_ o
  | MixFormat => option_map fst (mixFormat_ o)
  end.

(** The mean of one frame as the code computes it: the channels are added
    left to right, starting from 0.0f, and the sum is divided by the channel
    count. *)
Definition frame_mean (channels : N) (frame : list flt) : flt :=
  f_div (fold_left f_add frame f_zero) (f_of_size channels).

(** An event the worker may produce in a session whose chunks hold [n]
    samples: a data callback with exactly [n] samples and their byte count,
    or an [Error] event. *)
Definition worker_event (n : N) (e : Event) : Prop :=
  match e with
  | EvData samples nbytes =>
      List.length samples = N.to_nat n /\ nbytes = to_int32 (size_mul n 4)
  | EvEvent code _ => code = 2
  | EvMetadata _ _ _ _ _ => False
  end.

(** Either [Start...] function returns 0 from [st], leaving [st']. *)
Definition start_succeeds (st : State) (sampleRate chunkDurationMs : dbl)
    (isMono emitSilence : bool) (env : Outcome) (st' : State) : Prop :=
  (exists deviceId gain,
      StartMicrophone sampleRate chunkDurationMs isMono emitSilence deviceId gain env st
      = Ok (0, st')) \/
  (exists mute inc incCount exc excCount,
      StartSystemAudio sampleRate chunkDurationMs mute isMono emitSilence
        inc incCount exc excCount env st
      = Ok (0, st')).

(** [o'] is [o] up to the two fields the worker writes. *)
Definition worker_only (o o' : WasapiCapture) : Prop :=
  o' = set_lastDataTime_ (lastDataTime_ o') (set_chunkBuffer_ (chunkBuffer_ o') o).

(** What source negotiation does to a state: the trace, the callbacks and
    [running_] are left alone; resources are only acquired, and each one
    acquired is held by its field. *)
Definition negotiated (st : State) (r : HRESULT * State) : Prop :=
  out (snd r) = out st /\
  running_ (obj (snd r)) = running_ (obj st) /\
  eventCallback_ (obj (snd r)) = eventCallback_ (obj st) /\
  exists acquired,
    live (os (snd r)) = acquired ++ live (os st) /\
    forall k h, In (k, h) acquired -> field_of k (obj (snd r)) = Some h.

(** Source negotiation that succeeds stores three fresh resources, the mix
    format being the device's, and touches nothing else but the platform. *)
Definition negotiated_ok (env : Outcome) (st : State) (r : HRESULT * State) : Prop :=
  FAILED (fst r) = false ->
  exists a c m,
    obj (snd r) = set_captureClient_ (Some c)
                    (set_mixFormat_ (Some (m, device_format env))
                       (set_audioClient_ (Some a) (obj st))) /\
    out (snd r) = out st.

(** What a failed [Start...] call leaves behind: a code among -3, -4, -5;
    a session that is not running; with an event callback registered, an
    [Error] event (code 2) as the last callback and no [Started] event
    before it; and no resource released: the live resources are the former
    ones plus those acquired by the call, each still held by its field. *)
Definition failed_start (st : State) (code : Z) (st' : State) : Prop :=
  (code = -3 \/ code = -4 \/ code = -5) /\
  running_ (obj st') = false /\
  (eventCallback_ (obj st) = true ->
   exists before message,
     out st' = out st ++ before ++ [EvEvent 2 (Some message)] /\
     count_code 0 before = 0%nat) /\
  exists acquired,
    live (os st') = acquired ++ live (os st) /\
    forall k h, In (k, h) acquired -> field_of k (obj st') = Some h.

(** The state after a successful [Start...] call that was given these
    settings: the three resources are fresh, the settings are stored, the
    chunk size and the resample ratio are computed from them, and the
    metadata and [Started] callbacks have been invoked, in that order. *)
Definition started (st : State) (sampleRate chunkDurationMs : dbl)
    (isMono emitSilence : bool) (gain : dbl) (env : Outcome) (st' : State) : Prop :=
  let fmt := device_format env in
  let rate := output_rate sampleRate fmt in
  exists n a c m,
    to_size_t (d_mul (d_div (chunk_or_default chunkDurationMs) (d_of_size 1000)) rate)
    = Ok n /\
    obj st' =
      {| dataCallback_ := dataCallback_ (obj st);
         eventCallback_ := eventCallback_ (obj st);
         metadataCallback_ := metadataCallback_ (obj st);
         audioClient_ := Some a; captureClient_ := Some c; mixFormat_ := Some (m, fmt);
         captureThread_ := true; running_ := true; stopEvent_ := false;
         targetSampleRate_ := sampleRate;
         chunkDurationMs_ := chunk_or_default chunkDurationMs;
         isMono_ := isMono; gain_ := gain; emitSilence_ := emitSilence;
         lastDataTime_ := lastDataTime_ (obj st);
         chunkBuffer_ := chunkBuffer_ (obj st);
         samplesPerChunk_ := n;
         resampleRatio_ := d_div rate (d_of_size (nSamplesPerSec fmt));
         resampleBuffer_ := resampleBuffer_ (obj st) |} /\
    out st' =
      out st
      ++ (if metadataCallback_ (obj st)
          then [EvMetadata rate (if isMono then 1%N else nChannels fmt) 32 true
                  "pcm_f32le"%string]
          else [])
      ++ (if eventCallback_ (obj st) then [EvEvent 0 None] else []).

End Engine.

Arguments EvData {flt dbl} samples nbytes.
Arguments EvEvent {flt dbl} code message.
Arguments EvMetadata {flt dbl} sampleRate channelsPerFrame bitsPerChannel isFloat encoding.

(** ** The spec's chunk-size formula

    [round((chunkDurationMs/1000) * outputSampleRate)] over the rationals,
    rounding to the nearest integer (halves upward). *)
Definition spec_samplesPerChunk (chunkDurationMs outputSampleRate : Q) : Z :=
  Qfloor (Qplus (Qmult (Qdiv chunkDurationMs (inject_Z 1000)) outputSampleRate) (Qmake 1 2)).


(** [v] lies between [a] and [b], in either order. *)
Definition between (a b v : Q) : Prop :=
  (a <= v /\ v <= b)%Q \/ (b <= v /\ v <= a)%Q.

(** ** Sample inputs *)

Module Samples.

Definition stereo_48k : WAVEFORMATEX := {| nChannels := 2; nSamplesPerSec := 48000 |}.

(** Every platform call succeeds. *)
Definition all_ok (fmt : WAVEFORMATEX) : Outcome :=
  {| hr_CoCreateInstance := S_OK; hr_GetDevice := S_OK; hr_Activate := S_OK;
     hr_ActivateAudioInterfaceAsync := S_OK; activation_completed := true;
     hr_GetActivateResult := S_OK; activateResult := S_OK; hr_QueryInterface := S_OK;
     hr_GetMixFormat := S_OK; device_format := fmt;
     hr_Initialize := S_OK; hr_GetService := S_OK; hr_Start := S_OK |}.

(** [IAudioClient::Initialize] fails (AUDCLNT_E_DEVICE_IN_USE). *)
Definition initialize_fails (fmt : WAVEFORMATEX) : Outcome :=
  {| hr_CoCreateInstance := S_OK; hr_GetDevice := S_OK; hr_Activate := S_OK;
     hr_ActivateAudioInterfaceAsync := S_OK; activation_completed := true;
     hr_GetActivateResult := S_OK; activateResult := S_OK; hr_QueryInterface := S_OK;
     hr_GetMixFormat := S_OK; device_format := fmt;
     hr_Initialize := -2004287478; hr_GetService := S_OK; hr_Start := S_OK |}.

Definition no_resources : Platform := {| next_handle := 0%nat; live := [] |}.

(** A handle just created with the three callbacks registered. *)
Definition created {flt dbl : Type} {A : Arith flt dbl} : @State flt dbl :=
  {| obj := WasapiCapture_new true true true; os := no_resources; out := [] |}.

(** The state in case of success, the given state otherwise. *)
Definition state_of {flt dbl : Type} (r : result (Z * @State flt dbl))
    (otherwise : @State flt dbl) : @State flt dbl :=
  match r with
  | Ok (_, st) => st
  | _ => otherwise
  end.

(** A running microphone session: 48 kHz, 200 ms chunks, mono, unity gain. *)
Definition running_mic : @State spec_float spec_float :=
  state_of (StartMicrophone (d_of_size 48000) (d_of_size 200) true true None
              (d_of_size 1) (all_ok stereo_48k) created) created.

(** A running microphone session with 1 ms chunks: 48 samples each. *)
Definition running_1ms : @State spec_float spec_float :=
  state_of (StartMicrophone (d_of_size 48000) (d_of_size 1) true true None
              (d_of_size 1) (all_ok stereo_48k) created) created.

(** The binary32 value [m * 2^e]. *)
Definition f32 (m e : Z) : spec_float := binary_normalize B32.prec B32.emax m e false.

(** The samples 0, 1, ..., n-1. *)
Definition ramp (n : N) : list spec_float := map (fun i => f32 (Z.of_N i) 0) (indices n).

(** A microphone session with gain 2.0 (stereo out), stopped, and then a
    system-audio session started on the same handle. *)
Definition mic_gain_2 : @State spec_float spec_float :=
  state_of (StartMicrophone (B64.of_Z 48000) (B64.of_Z 200) false true None
              (B64.of_Z 2) (all_ok stereo_48k) created) created.

Definition system_after_mic : @State spec_float spec_float :=
  state_of (StartSystemAudio (B64.of_Z 48000) (B64.of_Z 200) false false true
              None 0 None 0 (all_ok stereo_48k) (snd (Stop mic_gain_2)))
           (snd (Stop mic_gain_2)).

(** A turn of the worker loop in which the device has nothing queued. *)
Definition quiet_turn (now : Z) : @IterObs spec_float :=
  {| wait_signaled := false; hr_GetNextPacketSize := S_OK; packets := [];
     now_after_packets := now; now_watchdog := now |}.

(** The samples of a result, or nothing. *)
Definition samples_of {X : Type} (r : result (list X)) : list X :=
  match r with
  | Ok l => l
  | _ => []
  end.

(** A microphone session started with target rate 0 on a 48 kHz device. *)
Definition native_rate_mic : @State spec_float spec_float :=
  state_of (StartMicrophone (B64.of_Z 0) (B64.of_Z 200) false true None
              (B64.of_Z 1) (all_ok stereo_48k) created) created.

End Samples.

(** ** Vocabulary for the lifecycle properties *)

Section Lifecycle.

Context {flt dbl : Type} {A : Arith flt dbl}.

(** The callback an event goes to is registered in the object. *)
Definition registered (o : @WasapiCapture flt dbl) (e : @Event flt dbl) : bool :=
  match e with
  | EvData _ _ => dataCallback_ o
  | EvEvent _ _ => eventCallback_ o
  | EvMetadata _ _ _ _ _ => metadataCallback_ o
  end.

Definition is_data (e : @Event flt dbl) : bool :=
  match e with
  | EvData _ _ => true
  | _ => false
  end.

(** The resource [r] is the one held by its field of the object. *)
Definition held_by (o : @WasapiCapture flt dbl) (r : ResKind * Handle) : bool :=
  match field_of (fst r) o with
  | Some h => Nat.eqb (snd r) h
  | None => false
  end.

(** Source negotiation writes the three resource fields and nothing else
    of the object, and invokes no callback. *)
Definition negotiation_frame (st st' : @State flt dbl) : Prop :=
  out st' = out st /\
  obj st' = set_captureClient_ (captureClient_ (obj st'))
              (set_mixFormat_ (mixFormat_ (obj st'))
                 (set_audioClient_ (audioClient_ (obj st')) (obj st))).

(** What a call does to the platform: resources are only acquired, under
    fresh handles; each one acquired is held by its field afterwards, and a
    field holds either a resource acquired by the call or what it held
    before. *)
Definition acquires (st st' : @State flt dbl) : Prop :=
  exists acquired,
    live (os st') = acquired ++ live (os st) /\
    (next_handle (os st) <= next_handle (os st'))%nat /\
    (forall k h, In (k, h) acquired ->
       field_of k (obj st') = Some h /\
       (next_handle (os st) <= h < next_handle (os st'))%nat) /\
    (forall k h, field_of k (obj st') = Some h ->
       In (k, h) acquired \/ field_of k (obj st) = Some h).

(** Source negotiation that succeeds acquires, in this order, the audio
    client, the mix format and the capture client, under the next three
    handles. *)
Definition acquires_all (env : Outcome) (st st' : @State flt dbl) : Prop :=
  let n := next_handle (os st) in
  obj st' = set_captureClient_ (Some (S (S n)))
              (set_mixFormat_ (Some (S n, device_format env))
                 (set_audioClient_ (Some n) (obj st))) /\
  os st' = {| next_handle := S (S (S n));
              live := (CaptureClient, S (S n)) :: (MixFormat, S n) :: (AudioClient, n)
                      :: live (os st) |} /\
  out st' = out st.

End Lifecycle.

(** Handles are handed out in increasing order: every live resource has a
    handle below the next one. *)
Definition platform_wf (p : Platform) : Prop :=
  Forall (fun r => (snd r < next_handle p)%nat) (live p).

(** The platform calls on the path of [InitializeMicrophone] and of
    [InitializeSystemLoopback], in order. *)
Definition endpoint_calls (env : Outcome) : list HRESULT :=
  [hr_CoCreateInstance env; hr_GetDevice env; hr_Activate env;
   hr_GetMixFormat env; hr_Initialize env; hr_GetService env].

(** The checks on the path of [InitializeProcessLoopback], in order; the
    second one is the test of [GetOperation()] after the wait. *)
Definition process_loopback_calls (env : Outcome) : list HRESULT :=
  [hr_ActivateAudioInterfaceAsync env;
   (if activation_completed env then S_OK else E_FAIL);
   hr_GetActivateResult env; activateResult env; hr_QueryInterface env;
   hr_GetMixFormat env; hr_Initialize env; hr_GetService env].

(** The calls on the path [StartSystemAudio] takes for these arguments. *)
Definition system_audio_calls (includeProcesses : option (list Z)) (includeCount : Z)
    (excludeProcesses : option (list Z)) (excludeCount : Z) (env : Outcome)
  : list HRESULT :=
  if has_processes includeProcesses includeCount
     || has_processes excludeProcesses excludeCount
  then process_loopback_calls env
  else endpoint_calls env.

(** The code a [Start...] call on an idle session returns, from the answers
    of the platform. *)
Definition start_code (calls : list HRESULT) (env : Outcome) : Z :=
  if existsb FAILED calls then -3
  else if FAILED (hr_Start env) then -5
  else 0.

Section WorkerTrace.

Context {flt dbl : Type} {A : Arith flt dbl}.

(** A data callback, made by an object that has one registered. *)
Definition data_allowed (o : @WasapiCapture flt dbl) (e : @Event flt dbl) : bool :=
  is_data e && dataCallback_ o.

(** The [Error] event of the worker. *)
Definition packet_size_error : @Event flt dbl :=
  EvEvent 2 (Some "Failed to get packet size"%string).

End WorkerTrace.

(** ** More sample inputs *)

Module Scenarios.

(** The state a step ends in, or the given one. *)
Definition after {flt dbl : Type} (r : result (@State flt dbl))
    (otherwise : @State flt dbl) : @State flt dbl :=
  match r with
  | Ok st => st
  | _ => otherwise
  end.

(** A turn of the worker loop in which [GetNextPacketSize] fails
    (AUDCLNT_E_DEVICE_INVALIDATED). *)
Definition failing_turn : @IterObs spec_float :=
  {| wait_signaled := false; hr_GetNextPacketSize := -2004287484; packets := [];
     now_after_packets := 0; now_watchdog := 0 |}.

(** A packet of [n] stereo frames holding the ramp 0, 1, ..., 2n-1. *)
Definition ramp_packet (n : N) : @PacketObs spec_float :=
  {| hr_GetBuffer := S_OK; pk_data := Some (Samples.ramp (2 * n));
     pk_numFramesAvailable := n; pk_silent := false;
     hr_ReleaseBuffer := S_OK; hr_NextPacketSize := S_OK |}.

(** A turn of the worker loop that finds one such packet. *)
Definition ramp_turn (n : N) (now : Z) : @IterObs spec_float :=
  {| wait_signaled := false; hr_GetNextPacketSize := S_OK; packets := [ramp_packet n];
     now_after_packets := now; now_watchdog := now |}.

(** A handle created with no callback at all, and a session on it. *)
Definition created_mute : @State spec_float spec_float :=
  {| obj := WasapiCapture_new false false false; os := Samples.no_resources; out := [] |}.

Definition running_mute : @State spec_float spec_float :=
  Samples.state_of (StartMicrophone (B64.of_Z 48000) (B64.of_Z 1) true true None
                      (B64.of_Z 1) (Samples.all_ok Samples.stereo_48k) created_mute)
                   created_mute.

(** A microphone session at 500 Hz with 1 ms chunks: half a sample per
    chunk, which the conversion to [size_t] makes zero. *)
Definition running_zero_chunk : @State spec_float spec_float :=
  Samples.state_of (StartMicrophone (B64.of_Z 500) (B64.of_Z 1) true true None
                      (B64.of_Z 1) (Samples.all_ok Samples.stereo_48k) Samples.created)
                   Samples.created.

(** The 1 ms session after a packet of 50 frames: one chunk of 48 samples
    has left, two samples stay in the accumulator. *)
Definition running_1ms_fed : @State spec_float spec_float :=
  after (CaptureThread 0 [ramp_turn 50 1000000] Samples.running_1ms) Samples.running_1ms.

End Scenarios.


(** ** The C interface of the module (windows_bridge.cpp) *)

Definition S_FALSE : HRESULT := 1.
Definition SUCCEEDED (hr : HRESULT) : bool := 0 <=? hr.

(** The calling thread: its thread-local flag [comInitialized], and the
    answers of the [CoInitializeEx] calls it has made through
    [EnsureComInitialized], oldest first. *)
Record ComThread : Type := {
  comInitialized : bool;
  coinit_calls : list HRESULT
}.

Definition new_thread : ComThread := {| comInitialized := false; coinit_calls := [] |}.

(** [hr] is what [CoInitializeEx] answers if it is called. *)
Definition EnsureComInitialized (hr : HRESULT) (t : ComThread) : ComThread :=
  if negb (comInitialized t) then
    {| comInitialized := if SUCCEEDED hr || (hr =? S_FALSE) then true
                         else comInitialized t;
       coinit_calls := coinit_calls t ++ [hr] |}
  else t.

Section Bridge.

Context {flt dbl : Type} {A : Arith flt dbl}.

(** An [AudioRecorderHandle]: null, or a pointer to a session.  The
    pointee is the whole program state of that session. *)
Definition AudioRecorderHandle : Type := option (@State flt dbl).

Definition audio_create (dataCallback eventCallback metadataCallback : bool)
    (hr_CoInitializeEx : HRESULT) (t : ComThread) (p : Platform)
  : ComThread * AudioRecorderHandle :=
  let t := EnsureComInitialized hr_CoInitializeEx t in
  (t, Some {| obj := WasapiCapture_new dataCallback eventCallback metadataCallback;
              os := p; out := [] |}).

Definition audio_start_system_audio (handle : AudioRecorderHandle)
    (sampleRate chunkDurationMs : dbl) (mute isMono emitSilence : bool)
    (includeProcesses : option (list Z)) (includeProcessCount : Z)
    (excludeProcesses : option (list Z)) (excludeProcessCount : Z)
    (env : Outcome) : result (Z * AudioRecorderHandle) :=
  match handle with
  | None => Ok (-1, None)
  | Some capture =>
      r <- StartSystemAudio sampleRate chunkDurationMs mute isMono emitSilence
             includeProcesses includeProcessCount excludeProcesses excludeProcessCount
             env capture ;;
      Ok (fst r, Some (snd r))
  end.

Definition audio_start_microphone (handle : AudioRecorderHandle)
    (sampleRate chunkDurationMs : dbl) (isMono emitSilence : bool)
    (deviceUID : option string) (gain : dbl) (env : Outcome)
  : result (Z * AudioRecorderHandle) :=
  match handle with
  | None => Ok (-1, None)
  | Some capture =>
      r <- StartMicrophone sampleRate chunkDurationMs isMono emitSilence deviceUID gain
             env capture ;;
      Ok (fst r, Some (snd r))
  end.

Definition audio_stop (handle : AudioRecorderHandle) : Z * AudioRecorderHandle :=
  match handle with
  | None => (-1, None)
  | Some capture => let (code, capture) := Stop capture in (code, Some capture)
  end.

(** [audio_destroy]: [Stop], then [delete].  The session object is gone
    afterwards; what is returned is what it leaves behind, the platform and
    the callback trace, or nothing for a null handle. *)
Definition audio_destroy (handle : AudioRecorderHandle)
  : option (Platform * list (@Event flt dbl)) :=
  match handle with
  | None => None
  | Some capture =>
      let capture := snd (Stop capture) in
      let gone := WasapiCapture_delete capture in
      Some (os gone, out gone)
  end.

Definition audio_is_running (handle : AudioRecorderHandle) : bool :=
  match handle with
  | None => false
  | Some capture => IsRunning capture
  end.

(** *** Histories of a handle

    What may happen to a handle between [audio_create] and
    [audio_destroy]: calls of the host, and runs of the worker thread of the
    session. *)
Inductive Step : Type :=
| Call_start_system_audio (sampleRate chunkDurationMs : dbl)
    (mute isMono emitSilence : bool)
    (includeProcesses : option (list Z)) (includeProcessCount : Z)
    (excludeProcesses : option (list Z)) (excludeProcessCount : Z) (env : Outcome)
| Call_start_microphone (sampleRate chunkDurationMs : dbl) (isMono emitSilence : bool)
    (deviceUID : option string) (gain : dbl) (env : Outcome)
| Call_stop
| Worker_run (start : Z) (obs : list (@IterObs flt)).

Definition step (s : Step) (handle : AudioRecorderHandle) : result AudioRecorderHandle :=
  match s with
  | Call_start_system_audio sampleRate chunkDurationMs mute isMono emitSilence
      inc incCount exc excCount env =>
      r <- audio_start_system_audio handle sampleRate chunkDurationMs mute isMono
             emitSilence inc incCount exc excCount env ;;
      Ok (snd r)
  | Call_start_microphone sampleRate chunkDurationMs isMono emitSilence deviceUID gain env =>
      r <- audio_start_microphone handle sampleRate chunkDurationMs isMono emitSilence
             deviceUID gain env ;;
      Ok (snd r)
  | Call_stop => Ok (snd (audio_stop handle))
  | Worker_run start obs =>
      match handle with
      | Some capture =>
          if running_ (obj capture)
          then capture <- CaptureThread start obs capture ;; Ok (Some capture)
          else Ok handle
      | None => Ok None
      end
  end.

Fixpoint history (steps : list Step) (handle : AudioRecorderHandle)
  : result AudioRecorderHandle :=
  match steps with
  | [] => Ok handle
  | s :: rest => h <- step s handle ;; history rest h
  end.

(** *** Invariants of a handle *)

(** The resources of a running session are alive, and held by its fields. *)
Definition holds_resources (st : @State flt dbl) : Prop :=
  running_ (obj st) = true ->
  exists a m fmt c,
    audioClient_ (obj st) = Some a /\
    mixFormat_ (obj st) = Some (m, fmt) /\
    captureClient_ (obj st) = Some c /\
    is_live AudioClient a (os st) = true /\
    is_live MixFormat m (os st) = true /\
    is_live CaptureClient c (os st) = true.

(** [Started] events are matched by [Stopped] events, up to the one of the
    session that is running. *)
Definition events_balanced (st : @State flt dbl) : Prop :=
  count_code 0 (out st)
  = (count_code 1 (out st)
     + (if running_ (obj st) && eventCallback_ (obj st) then 1 else 0))%nat.

End Bridge.

(** ** Keeping the multi-threaded apartment alive (mta_thread.h) *)

(** The global cookie, and the number of [CoIncrementMTAUsage] calls of the
    module that no [CoDecrementMTAUsage] has undone. *)
Record MtaState : Type := {
  g_mtaCookie : option Handle;
  mta_usage : nat
}.

(** [hr] and [cookie] are what [CoIncrementMTAUsage] answers if called. *)
Definition InitializeMTAThread (hr : HRESULT) (cookie : Handle) (s : MtaState)
  : bool * MtaState :=
  match g_mtaCookie s with
  | Some _ => (true, s)
  | None =>
      if SUCCEEDED hr
      then (true, {| g_mtaCookie := Some cookie; mta_usage := S (mta_usage s) |})
      else (false, {| g_mtaCookie := None; mta_usage := mta_usage s |})
  end.

Definition CleanupMTAThread (s : MtaState) : MtaState :=
  match g_mtaCookie s with
  | Some _ => {| g_mtaCookie := None; mta_usage := pred (mta_usage s) |}
  | None => s
  end.

Inductive MtaCall : Type :=
| Call_InitializeMTAThread (hr : HRESULT) (cookie : Handle)
| Call_CleanupMTAThread.

Definition mta_step (s : MtaState) (c : MtaCall) : MtaState :=
  match c with
  | Call_InitializeMTAThread hr cookie => snd (InitializeMTAThread hr cookie s)
  | Call_CleanupMTAThread => CleanupMTAThread s
  end.

Module Histories.

(** A handle just created, with the three callbacks registered. *)
Definition fresh_handle : @AudioRecorderHandle spec_float spec_float :=
  snd (audio_create true true true S_OK new_thread Samples.no_resources).

(** A microphone session that receives a packet and is stopped, then a
    system-audio session on the same handle, whose worker ends on an
    error. *)
Definition two_sessions : list (@Step spec_float spec_float) :=
  [Call_start_microphone (B64.of_Z 48000) (B64.of_Z 1) true true None (B64.of_Z 1)
     (Samples.all_ok Samples.stereo_48k);
   Worker_run 0 [Scenarios.ramp_turn 50 1000000];
   Call_stop;
   Call_start_system_audio (B64.of_Z 48000) (B64.of_Z 1) false true true None 0 None 0
     (Samples.all_ok Samples.stereo_48k);
   Worker_run 0 [Scenarios.failing_turn]].

(** The handle a history ends with, or null. *)
Definition handle_after {flt dbl : Type} (r : result (@AudioRecorderHandle flt dbl))
  : @AudioRecorderHandle flt dbl :=
  match r with
  | Ok h => h
  | _ => None
  end.

End Histories.

(** ** The activation completion handler

    [ActivationCompletionHandler] is a reference-counted COM object.  Its
    calls into the platform are kept as a trace; the object destroys itself
    ([delete this]), after which any call on it is undefined. *)

Definition E_NOINTERFACE : HRESULT := -2147467262.   (* 0x80004002 *)

Inductive IID : Type :=
| IID_IUnknown
| IID_IActivateAudioInterfaceCompletionHandler
| IID_other (guid : N).

Inductive ComCall : Type :=
| CloseHandle_completionEvent
| SetEvent_completionEvent
| WaitForSingleObject_completionEvent (timeout : Z)
| operation_AddRef (op : Handle)
| operation_Release (op : Handle).

(** [LONG] arithmetic of the interlocked operations, and the conversion of
    the result to [ULONG]. *)
Definition wrap_LONG (z : Z) : Z := (z + 2 ^ 31) mod 2 ^ 32 - 2 ^ 31.
Definition to_ULONG (z : Z) : Z := z mod 2 ^ 32.

Record ActivationCompletionHandler : Type := {
  refCount_ : Z;                 (* LONG *)
  completionEvent_ : bool;       (* the event handle is not null *)
  completed_ : bool;
  operation_ : option Handle     (* IActivateAudioInterfaceAsyncOperation* *)
}.

(** The handler, if it still exists, and the platform calls made so far. *)
Record HandlerState : Type := {
  this : option ActivationCompletionHandler;
  com_calls : list ComCall
}.

(** The constructor; [event_created] says whether [CreateEvent] gave a
    handle. *)
Definition ActivationCompletionHandler_new (event_created : bool)
  : ActivationCompletionHandler :=
  {| refCount_ := 1; completionEvent_ := event_created; completed_ := false;
     operation_ := None |}.

(** The calls of the destructor. *)
Definition ActivationCompletionHandler_delete (h : ActivationCompletionHandler)
  : list ComCall :=
  (if completionEvent_ h then [CloseHandle_completionEvent] else [])
  ++ match operation_ h with
     | Some op => [operation_Release op]
     | None => []
     end.

Definition set_refCount_ (v : Z) (h : ActivationCompletionHandler)
  : ActivationCompletionHandler :=
  {| refCount_ := v; completionEvent_ := completionEvent_ h; completed_ := completed_ h;
     operation_ := operation_ h |}.

Definition AddRef (s : HandlerState) : result (Z * HandlerState) :=
  match this s with
  | None => Undefined
  | Some h =>
      let ref := wrap_LONG (refCount_ h + 1) in
      Ok (to_ULONG ref, {| this := Some (set_refCount_ ref h); com_calls := com_calls s |})
  end.

Definition Release (s : HandlerState) : result (Z * HandlerState) :=
  match this s with
  | None => Undefined
  | Some h =>
      let ref := to_ULONG (wrap_LONG (refCount_ h - 1)) in
      if ref =? 0
      then Ok (ref, {| this := None;
                       com_calls := com_calls s
                                    ++ ActivationCompletionHandler_delete
                                         (set_refCount_ (wrap_LONG (refCount_ h - 1)) h) |})
      else Ok (ref, {| this := Some (set_refCount_ (wrap_LONG (refCount_ h - 1)) h);
                       com_calls := com_calls s |})
  end.

(** The second component of the answer says whether [*ppv] is the
    handler (it is null otherwise). *)
Definition QueryInterface (riid : IID) (s : HandlerState)
  : result ((HRESULT * bool) * HandlerState) :=
  match this s with
  | None => Undefined
  | Some _ =>
      match riid with
      | IID_IUnknown | IID_IActivateAudioInterfaceCompletionHandler =>
          r <- AddRef s ;; Ok ((S_OK, true), snd r)
      | IID_other _ => Ok ((E_NOINTERFACE, false), s)
      end
  end.

Definition ActivateCompleted (op : Handle) (s : HandlerState)
  : result (HRESULT * HandlerState) :=
  match this s with
  | None => Undefined
  | Some h =>
      Ok (S_OK,
          {| this := Some {| refCount_ := refCount_ h;
                             completionEvent_ := completionEvent_ h;
                             completed_ := true;
                             operation_ := Some op |};
             com_calls := com_calls s ++ [operation_AddRef op; SetEvent_completionEvent] |})
  end.

Definition Wait (timeout : Z) (s : HandlerState) : result (HRESULT * HandlerState) :=
  match this s with
  | None => Undefined
  | Some h =>
      Ok (if completed_ h then S_OK else E_FAIL,
          {| this := this s;
             com_calls := com_calls s ++ [WaitForSingleObject_completionEvent timeout] |})
  end.

Definition GetOperation (s : HandlerState) : result (option Handle) :=
  match this s with
  | None => Undefined
  | Some h => Ok (operation_ h)
  end.

(** Calls on the handler, by the engine and by the platform. *)
Inductive HandlerCall : Type :=
| Call_AddRef
| Call_Release
| Call_QueryInterface (riid : IID)
| Call_ActivateCompleted (op : Handle)
| Call_Wait (timeout : Z).

Definition handler_step (c : HandlerCall) (s : HandlerState) : result HandlerState :=
  match c with
  | Call_AddRef => r <- AddRef s ;; Ok (snd r)
  | Call_Release => r <- Release s ;; Ok (snd r)
  | Call_QueryInterface riid => r <- QueryInterface riid s ;; Ok (snd r)
  | Call_ActivateCompleted op => r <- ActivateCompleted op s ;; Ok (snd r)
  | Call_Wait timeout => r <- Wait timeout s ;; Ok (snd r)
  end.

Fixpoint handler_run (calls : list HandlerCall) (s : HandlerState) : result HandlerState :=
  match calls with
  | [] => Ok s
  | c :: rest => s' <- handler_step c s ;; handler_run rest s'
  end.

(** A handler just constructed. *)
Definition new_handler (event_created : bool) : HandlerState :=
  {| this := Some (ActivationCompletionHandler_new event_created); com_calls := [] |}.

(** The references a sequence of calls adds and drops. *)
Definition takes_reference (c : HandlerCall) : bool :=
  match c with
  | Call_AddRef
  | Call_QueryInterface IID_IUnknown
  | Call_QueryInterface IID_IActivateAudioInterfaceCompletionHandler => true
  | _ => false
  end.

Definition drops_reference (c : HandlerCall) : bool :=
  match c with
  | Call_Release => true
  | _ => false
  end.

Definition reference_change (calls : list HandlerCall) : Z :=
  Z.of_nat (List.length (filter takes_reference calls))
  - Z.of_nat (List.length (filter drops_reference calls)).

(** The constructor holds one reference. *)
Definition references (calls : list HandlerCall) : Z := 1 + reference_change calls.

(** The operations handed to [ActivateCompleted], oldest first. *)
Definition activations (calls : list HandlerCall) : list Handle :=
  flat_map (fun c => match c with
                     | Call_ActivateCompleted op => [op]
                     | _ => []
                     end) calls.

(** The calls of a trace on operations. *)
Definition operation_calls (tr : list ComCall) : list ComCall :=
  filter (fun c => match c with
                   | operation_AddRef _ | operation_Release _ => true
                   | _ => false
                   end) tr.


(** ** Device enumeration (AudioDeviceEnumerator, audio_list_devices)

    The platform's answers are inputs, as before.  The C strings and the
    array handed to the caller live on a heap of numbered blocks, so that
    what is allocated and what is freed can be compared. *)

Module Devices.

(** A wide string: its UTF-16 code units. *)
Definition wstring : Type := list N.

Fixpoint wstring_eqb (a b : wstring) : bool :=
  match a, b with
  | [], [] => true
  | x :: a', y :: b' => N.eqb x y && wstring_eqb a' b'
  | _, _ => false
  end.

(** A string that comes from the platform: the wide string, and what
    [WideCharToMultiByte] makes of it ([None] when it answers a length that
    is not positive). *)
Record PlatformString : Type := {
  wide : wstring;
  utf8 : option string
}.

Definition no_string : PlatformString := {| wide := []; utf8 := Some EmptyString |}.

Definition WideToUtf8 (wstr : PlatformString) : string :=
  match wide wstr with
  | [] => EmptyString
  | _ => match utf8 wstr with
         | Some s => s
         | None => EmptyString
         end
  end.

(** *** The heap *)

Record Heap : Type := {
  next_block : nat;
  blocks : list nat
}.

Definition malloc (h : Heap) : nat * Heap :=
  (next_block h, {| next_block := S (next_block h); blocks := next_block h :: blocks h |}).

(** Freeing a block that is not allocated is undefined. *)
Definition free (b : nat) (h : Heap) : result Heap :=
  if existsb (Nat.eqb b) (blocks h)
  then Ok {| next_block := next_block h;
             blocks := filter (fun x => negb (Nat.eqb b x)) (blocks h) |}
  else Undefined.

(** A [char*]: null, or a block and the string it holds. *)
Definition cstring : Type := option (nat * string).

(** [_strdup]; [allocated] says whether the allocation succeeds. *)
Definition _strdup (allocated : bool) (s : string) (h : Heap) : cstring * Heap :=
  if allocated
  then let (b, h) := malloc h in (Some (b, s), h)
  else (None, h).

Record AudioDeviceInfo : Type := {
  uid : cstring;
  name : cstring;
  manufacturer : cstring;
  isDefault : bool;
  isInput : bool;
  isOutput : bool;
  sampleRate : N;
  channelCount : N
}.

(** [AudioDeviceInfo info = {};] *)
Definition no_info : AudioDeviceInfo :=
  {| uid := None; name := None; manufacturer := None; isDefault := false;
     isInput := false; isOutput := false; sampleRate := 0; channelCount := 0 |}.

(** *** What the platform answers *)

(** [IPropertyStore::GetValue] for one key. *)
Record PropObs : Type := {
  hr_GetValue : HRESULT;
  vt_is_LPWSTR : bool;
  pwszVal : option PlatformString
}.

(** One endpoint of a collection. *)
Record DeviceObs : Type := {
  hr_Item : HRESULT;
  hr_GetId : HRESULT;                  (* the call in GetDeviceInfo *)
  device_id : PlatformString;
  uid_allocated : bool;
  hr_OpenPropertyStore : HRESULT;
  FriendlyName : PropObs;
  name_allocated : bool;
  DeviceDesc : PropObs;
  manufacturer_allocated : bool;
  hr_ActivateClient : HRESULT;
  hr_ClientMixFormat : HRESULT;
  client_format : WAVEFORMATEX;
  hr_GetIdAgain : HRESULT;             (* the call in ListAllDevices *)
  device_id_again : wstring
}.

(** The lookup of a default endpoint. *)
Record DefaultObs : Type := {
  hr_CreateEnumerator : HRESULT;
  hr_GetDefaultAudioEndpoint : HRESULT;
  hr_DefaultGetId : HRESULT;
  default_id : PlatformString
}.

(** One data flow (capture or render): [endpoints] are the endpoints the
    loop visits, as many as [GetCount] has answered. *)
Record FlowObs : Type := {
  hr_EnumAudioEndpoints : HRESULT;
  default_device : DefaultObs;
  endpoints : list DeviceObs
}.

Record EnumObs : Type := {
  hr_ListEnumerator : HRESULT;
  capture : FlowObs;
  render : FlowObs
}.

(** *** The enumerator *)

Definition GetDeviceProperty (p : PropObs) : PlatformString :=
  if SUCCEEDED (hr_GetValue p) then
    if vt_is_LPWSTR p then
      match pwszVal p with
      | Some value => value
      | None => no_string
      end
    else no_string
  else no_string.

(** [GetDefaultInputDeviceId] and [GetDefaultOutputDeviceId]: they differ
    in the data flow they ask for. *)
Definition GetDefaultDeviceId (d : DefaultObs) : PlatformString :=
  if SUCCEEDED (hr_CreateEnumerator d) then
    if SUCCEEDED (hr_GetDefaultAudioEndpoint d) then
      if SUCCEEDED (hr_DefaultGetId d) then default_id d else no_string
    else no_string
  else no_string.

Definition GetDeviceInfo (d : DeviceObs) (info : AudioDeviceInfo) (isInput : bool)
    (h : Heap) : bool * AudioDeviceInfo * Heap :=
  let '(uid, h) :=
    if SUCCEEDED (hr_GetId d)
    then _strdup (uid_allocated d) (WideToUtf8 (device_id d)) h
    else (uid info, h) in
  let '(name, manufacturer, h) :=
    if SUCCEEDED (hr_OpenPropertyStore d)
    then let (name, h) :=
           _strdup (name_allocated d) (WideToUtf8 (GetDeviceProperty (FriendlyName d))) h in
         let (manufacturer, h) :=
           _strdup (manufacturer_allocated d)
             (WideToUtf8 (GetDeviceProperty (DeviceDesc d))) h in
         (name, manufacturer, h)
    else (name info, manufacturer info, h) in
  let has_format := SUCCEEDED (hr_ActivateClient d) && SUCCEEDED (hr_ClientMixFormat d) in
  let info :=
    {| uid := uid; name := name; manufacturer := manufacturer;
       isDefault := false; isInput := isInput; isOutput := negb isInput;
       sampleRate := if has_format then nSamplesPerSec (client_format d)
                     else sampleRate info;
       channelCount := if has_format then nChannels (client_format d)
                       else channelCount info |} in
  (match uid, name with
   | Some _, Some _ => true
   | _, _ => false
   end, info, h).

Definition set_isDefault (v : bool) (info : AudioDeviceInfo) : AudioDeviceInfo :=
  {| uid := uid info; name := name info; manufacturer := manufacturer info;
     isDefault := v; isInput := isInput info; isOutput := isOutput info;
     sampleRate := sampleRate info; channelCount := channelCount info |}.

(** The loop over one collection: the entries it pushes, in order. *)
Fixpoint list_endpoints (default : PlatformString) (isInput : bool)
    (ds : list DeviceObs) (h : Heap) : list AudioDeviceInfo * Heap :=
  match ds with
  | [] => ([], h)
  | d :: rest =>
      if SUCCEEDED (hr_Item d) then
        let '(ok, info, h) := GetDeviceInfo d no_info isInput h in
        if ok then
          let info :=
            if SUCCEEDED (hr_GetIdAgain d)
            then set_isDefault (wstring_eqb (wide default) (device_id_again d)) info
            else info in
          let (more, h) := list_endpoints default isInput rest h in
          (info :: more, h)
        else list_endpoints default isInput rest h
      else list_endpoints default isInput rest h
  end.

Definition list_flow (f : FlowObs) (isInput : bool) (h : Heap)
  : list AudioDeviceInfo * Heap :=
  if SUCCEEDED (hr_EnumAudioEndpoints f)
  then list_endpoints (GetDefaultDeviceId (default_device f)) isInput (endpoints f) h
  else ([], h).

Definition ListAllDevices (e : EnumObs) (h : Heap) : list AudioDeviceInfo * Heap :=
  if FAILED (hr_ListEnumerator e) then ([], h) else
  let (inputs, h) := list_flow (capture e) true h in
  let (outputs, h) := list_flow (render e) false h in
  (inputs ++ outputs, h).

(** *** The C interface *)

(** An [AudioDeviceInfo*]: null, or the block of the array and its
    elements. *)
Definition device_array : Type := option (nat * list AudioDeviceInfo).

(** [audio_list_devices]; [devices] and [count] say whether the two
    out-pointers are not null.  The third component is what has been
    written through them, if anything. *)
Definition audio_list_devices (devices count : bool) (hr_CoInitializeEx : HRESULT)
    (t : ComThread) (e : EnumObs) (h : Heap)
  : ComThread * Z * option (device_array * Z) * Heap :=
  let t := EnsureComInitialized hr_CoInitializeEx t in
  if negb devices || negb count then (t, -1, None, h) else
  let (deviceList, h) := ListAllDevices e h in
  match deviceList with
  | [] => (t, 0, Some (None, 0), h)
  | _ =>
      let (b, h) := malloc h in
      (t, 0, Some (Some (b, deviceList), to_int32 (N.of_nat (List.length deviceList))), h)
  end.

Definition free_cstring (s : cstring) (h : Heap) : result Heap :=
  match s with
  | Some (b, _) => free b h
  | None => Ok h
  end.

Fixpoint free_entries (l : list AudioDeviceInfo) (h : Heap) : result Heap :=
  match l with
  | [] => Ok h
  | info :: rest =>
      h <- free_cstring (uid info) h ;;
      h <- free_cstring (name info) h ;;
      h <- free_cstring (manufacturer info) h ;;
      free_entries rest h
  end.

(** [audio_free_device_list]; reading past the end of the array is
    undefined. *)
Definition audio_free_device_list (devices : device_array) (count : Z) (h : Heap)
  : result Heap :=
  match devices with
  | None => Ok h
  | Some (b, entries) =>
      if Z.of_nat (List.length entries) <? count then Undefined else
      h <- free_entries (firstn (Z.to_nat count) entries) h ;;
      free b h
  end.

(** *** Vocabulary *)

(** An endpoint for which [GetDeviceInfo] duplicates no string, or both
    the identifier and the name: either it is listed, or nothing was
    allocated for it. *)
Definition all_or_nothing (d : DeviceObs) : bool :=
  FAILED (hr_Item d)
  || (SUCCEEDED (hr_GetId d) && uid_allocated d
      && SUCCEEDED (hr_OpenPropertyStore d) && name_allocated d)
  || (negb (SUCCEEDED (hr_GetId d) && uid_allocated d)
      && negb (SUCCEEDED (hr_OpenPropertyStore d)
               && (name_allocated d || manufacturer_allocated d))).

Definition entries_of (a : device_array) : list AudioDeviceInfo :=
  match a with
  | Some (_, l) => l
  | None => []
  end.

Definition is_set (s : cstring) : bool :=
  match s with
  | Some _ => true
  | None => false
  end.

(** The blocks of the strings of an entry, in the order of allocation. *)
Definition block_of (s : cstring) : list nat :=
  match s with
  | Some (b, _) => [b]
  | None => []
  end.

Definition owned (info : AudioDeviceInfo) : list nat :=
  block_of (uid info) ++ block_of (name info) ++ block_of (manufacturer info).

(** [x] is none of the blocks [bs]. *)
Definition without (bs : list nat) (x : nat) : bool := negb (existsb (Nat.eqb x) bs).

(** [bs] are blocks handed out one after the other, from [lo] on and
    below [hi]. *)
Fixpoint ascending (lo hi : nat) (bs : list nat) : Prop :=
  match bs with
  | [] => (lo <= hi)%nat
  | b :: rest => (lo <= b)%nat /\ ascending (S b) hi rest
  end.

(** Blocks are handed out in increasing order, each one once. *)
Definition heap_wf (h : Heap) : Prop :=
  Forall (fun b => (b < next_block h)%nat) (blocks h).

(** An entry of the list the host receives. *)
Definition well_formed_entry (info : AudioDeviceInfo) : Prop :=
  is_set (uid info) = true /\ is_set (name info) = true /\
  isOutput info = negb (isInput info).

(** What a listing leaves on the heap: [alloc] are the blocks of all the
    strings it has duplicated, those of the listed entries among them. *)
Definition allocation (h h' : Heap) (l : list AudioDeviceInfo) (alloc : list nat) : Prop :=
  blocks h' = rev alloc ++ blocks h /\
  ascending (next_block h) (next_block h') alloc /\
  ascending (next_block h) (next_block h') (flat_map owned l) /\
  incl (flat_map owned l) alloc.

(** A block of [alloc] that no entry of [l] holds. *)
Definition lost (l : list AudioDeviceInfo) (alloc : list nat) : Prop :=
  exists b, In b alloc /\ ~ In b (flat_map owned l).

(** The endpoints [ListAllDevices] asks for their description. *)
Definition visited (e : EnumObs) : list DeviceObs :=
  if FAILED (hr_ListEnumerator e) then [] else
  (if SUCCEEDED (hr_EnumAudioEndpoints (capture e)) then endpoints (capture e) else [])
  ++ (if SUCCEEDED (hr_EnumAudioEndpoints (render e)) then endpoints (render e) else []).

(** The entries flagged as default among the inputs, or the outputs. *)
Definition defaults (input : bool) (l : list AudioDeviceInfo) : list AudioDeviceInfo :=
  filter (fun i => isDefault i && Bool.eqb (isInput i) input) l.

End Devices.

Module DeviceSamples.

Import Devices.

(** The code units of an ASCII string. *)
Fixpoint units (s : string) : wstring :=
  match s with
  | EmptyString => []
  | String c rest => N.of_nat (Ascii.nat_of_ascii c) :: units rest
  end.

Definition ascii_string (s : string) : PlatformString :=
  {| wide := units s; utf8 := Some s |}.

Definition property (s : string) : PropObs :=
  {| hr_GetValue := S_OK; vt_is_LPWSTR := true; pwszVal := Some (ascii_string s) |}.

(** An endpoint that answers every call. *)
Definition endpoint (id friendly desc : string) : DeviceObs :=
  {| hr_Item := S_OK; hr_GetId := S_OK; device_id := ascii_string id;
     uid_allocated := true; hr_OpenPropertyStore := S_OK;
     FriendlyName := property friendly; name_allocated := true;
     DeviceDesc := property desc; manufacturer_allocated := true;
     hr_ActivateClient := S_OK; hr_ClientMixFormat := S_OK;
     client_format := Samples.stereo_48k;
     hr_GetIdAgain := S_OK; device_id_again := units id |}.

(** An endpoint whose property store cannot be opened. *)
Definition nameless (id : string) : DeviceObs :=
  {| hr_Item := S_OK; hr_GetId := S_OK; device_id := ascii_string id;
     uid_allocated := true; hr_OpenPropertyStore := E_FAIL;
     FriendlyName := property ""; name_allocated := true;
     DeviceDesc := property ""; manufacturer_allocated := true;
     hr_ActivateClient := S_OK; hr_ClientMixFormat := S_OK;
     client_format := Samples.stereo_48k;
     hr_GetIdAgain := S_OK; device_id_again := units id |}.

Definition default_is (id : string) : DefaultObs :=
  {| hr_CreateEnumerator := S_OK; hr_GetDefaultAudioEndpoint := S_OK;
     hr_DefaultGetId := S_OK; default_id := ascii_string id |}.

(** Two microphones, the second one the default, and one speaker. *)
Definition three_devices : EnumObs :=
  {| hr_ListEnumerator := S_OK;
     capture := {| hr_EnumAudioEndpoints := S_OK; default_device := default_is "mic2";
                   endpoints := [endpoint "mic1" "Webcam" "USB";
                                 endpoint "mic2" "Headset" "USB"] |};
     render := {| hr_EnumAudioEndpoints := S_OK; default_device := default_is "spk1";
                  endpoints := [endpoint "spk1" "Speakers" "HDA"] |} |}.

(** A microphone whose property store cannot be opened, and no speaker. *)
Definition one_nameless : EnumObs :=
  {| hr_ListEnumerator := S_OK;
     capture := {| hr_EnumAudioEndpoints := S_OK; default_device := default_is "mic1";
                   endpoints := [nameless "mic1"] |};
     render := {| hr_EnumAudioEndpoints := S_OK; default_device := default_is "";
                  endpoints := [] |} |}.

Definition empty_heap : Heap := {| next_block := 0; blocks := [] |}.

(** A heap on which three blocks have been allocated and one freed. *)
Definition used_heap : Heap := {| next_block := 3; blocks := [2; 0]%nat |}.

End DeviceSamples.
(** ** Real values of floats, and rounding to nearest

    The vocabulary in which the IEEE operations of [SpecFloat] are
    specified: the real value of a float, and what it means for a real to
    be the round-to-nearest-even of another in a format. *)

Module Rounding.

Definition bpow (e : Z) : R := powerRZ 2 e.

(** The real value of a finite float; zero for the others. *)
Definition SF2R (x : spec_float) : R :=
  match x with
  | S754_finite s m e => ((if s then - IZR (Zpos m) else IZR (Zpos m)) * bpow e)%R
  | _ => 0%R
  end.

Definition is_finite (x : spec_float) : bool :=
  match x with
  | S754_zero _ | S754_finite _ _ _ => true
  | _ => false
  end.

Definition signed (s : bool) (r : R) : R := if s then (- r)%R else r.

Definition Zfloor (x : R) : Z := up x - 1.

(** The nearest integer, the even one of two that are equally near. *)
Definition Znearest_even (x : R) : Z :=
  let f := Zfloor x in
  if Rlt_dec (x - IZR f) (/ 2) then f
  else if Rlt_dec (/ 2) (x - IZR f) then f + 1
  else if Z.even f then f else f + 1.

(** What a location says about a non-negative real [v], given the integer
    [m] and the exponent [e] it comes with. *)
Definition describes (m e : Z) (l : location) (v : R) : Prop :=
  match l with
  | loc_Exact => v = (IZR m * bpow e)%R
  | loc_Inexact Lt => (IZR m * bpow e < v < (IZR m + / 2) * bpow e)%R
  | loc_Inexact Eq => v = ((IZR m + / 2) * bpow e)%R
  | loc_Inexact Gt => ((IZR m + / 2) * bpow e < v < (IZR m + 1) * bpow e)%R
  end.

Section Format.

Variables prec emax : Z.

(** [r] is the rounding of the positive real [v]: [k] is the magnitude of
    [v], and [v] is rounded to a multiple of 2^[fexp k]. *)
Definition round_pos (v r : R) : Prop :=
  exists k : Z,
    (bpow (k - 1) <= v < bpow k)%R /\
    r = (IZR (Znearest_even (v / bpow (fexp prec emax k))) * bpow (fexp prec emax k))%R.

Definition rounded (v r : R) : Prop :=
  (v = 0 /\ r = 0)%R \/ (0 < v /\ round_pos v r)%R \/ (v < 0 /\ round_pos (- v) (- r))%R.

(** What a float [x] that a rounding step returns says of the rounded
    absolute value [r]: [x] has the sign [s] and the absolute value [r], or
    it is an infinity and [r] is out of range. *)
Definition result_of (s : bool) (r : R) (x : spec_float) : Prop :=
  match x with
  | S754_zero s' => s' = s /\ r = 0%R
  | S754_finite s' m e => s' = s /\ r = (IZR (Zpos m) * bpow e)%R /\ e <= emax - prec
  | S754_infinity s' => s' = s /\ (bpow (emax - prec) < r)%R
  | S754_nan => False
  end.

(** The same for a step that returns canonical floats. *)
Definition canonical_result (r : R) (x : spec_float) : Prop :=
  match x with
  | S754_finite _ m e => canonical_mantissa prec emax m e = true
  | S754_infinity _ => (bpow emax <= r)%R
  | _ => True
  end.

(** The float [z] is the rounding of the real [v]: it is finite and its
    value is the rounding, or it is not finite and the rounding of the
    absolute value of [v] reaches [T]. *)
Definition rounds_to (T v : R) (z : spec_float) : Prop :=
  (is_finite z = true /\ rounded v (SF2R z)) \/
  (is_finite z = false /\ exists r : R, rounded (Rabs v) r /\ (T <= r)%R).

(** [v] is a number of the format, apart from its range. *)
Definition representable (v : R) : Prop :=
  exists m e : Z, v = (IZR m * bpow e)%R /\ Z.abs m < 2 ^ prec /\ emin prec emax <= e.

(** A float whose value is a number of the format. *)
Definition good (x : spec_float) : Prop :=
  is_finite x = true /\ representable (SF2R x).

End Format.

End Rounding.

(** * Properties *)

Section StateMachine.

Context {flt dbl : Type} {A : Arith flt dbl}.

(** ** Exclusivity *)

(** C8. A [StartMicrophone] or [StartSystemAudio] call on a running session
    returns -2 and returns the state it was given: no field of the object
    changes, the platform is not touched and no callback is invoked. *)
Theorem Start_while_running_is_rejected (st : @State flt dbl)
    (Hrun : running_ (obj st) = true) :
  (forall sampleRate chunkDurationMs isMono emitSilence deviceId gain env,
      StartMicrophone sampleRate chunkDurationMs isMono emitSilence deviceId gain env st
      = Ok (-2, st)) /\
  (forall sampleRate chunkDurationMs mute isMono emitSilence inc incCount exc excCount env,
      StartSystemAudio sampleRate chunkDurationMs mute isMono emitSilence
        inc incCount exc excCount env st
      = Ok (-2, st)).
Proof.
  split; intros; [unfold StartMicrophone | unfold StartSystemAudio];
    rewrite Hrun; reflexivity.
Qed.

(** ** Stop *)

Lemma Stop_not_running (st : @State flt dbl) :
  running_ (obj st) = false -> Stop st = (0, st).
Proof. intros H. unfold Stop. rewrite H. reflexivity. Qed.

Lemma obj_emit_event (code : Z) (message : option string) (st : @State flt dbl) :
  obj (emit_event code message st) = obj st.
Proof. unfold emit_event. destruct (eventCallback_ (obj st)); reflexivity. Qed.

Lemma os_emit_event (code : Z) (message : option string) (st : @State flt dbl) :
  os (emit_event code message st) = os st.
Proof. unfold emit_event. destruct (eventCallback_ (obj st)); reflexivity. Qed.

Lemma out_emit_event (code : Z) (message : option string) (st : @State flt dbl) :
  out (emit_event code message st) =
  out st ++ (if eventCallback_ (obj st) then [EvEvent code message] else []).
Proof.
  unfold emit_event. destruct (eventCallback_ (obj st)); cbn;
    [reflexivity | now rewrite app_nil_r].
Qed.

Lemma Stop_leaves_not_running (st : @State flt dbl) :
  running_ (obj (snd (Stop st))) = false.
Proof.
  unfold Stop. destruct (running_ (obj st)) eqn:Hr; cbn [negb snd]; [|exact Hr].
  rewrite obj_emit_event. destruct (captureThread_ _); reflexivity.
Qed.

Lemma Stop_trace (st : @State flt dbl) :
  out (snd (Stop st)) =
  out st ++ (if running_ (obj st) && eventCallback_ (obj st)
             then [EvEvent 1 None] else []).
Proof.
  unfold Stop. destruct (running_ (obj st)) eqn:Hr; cbn [negb snd andb].
  - rewrite out_emit_event. destruct (captureThread_ _); reflexivity.
  - now rewrite app_nil_r.
Qed.


End StateMachine.

Lemma Start_while_running_is_rejected_witness :
  running_ (obj Samples.running_mic) = true /\
  StartSystemAudio (d_of_size 44100) (d_of_size 100) false false true None 0 None 0
    (Samples.all_ok Samples.stereo_48k) Samples.running_mic
  = Ok (-2, Samples.running_mic).
Proof.
  split; [reflexivity|].
  apply (Start_while_running_is_rejected Samples.running_mic). reflexivity.
Defined.


Section Destructor.

Context {flt dbl : Type} {A : Arith flt dbl}.

(** ** The destructor *)

Lemma ResKind_eqb_sym (a b : ResKind) : ResKind_eqb a b = ResKind_eqb b a.
Proof. destruct a, b; reflexivity. Qed.

Lemma is_live_release (k k' : ResKind) (h h' : Handle) (p : Platform) :
  is_live k h (release k' h' p)
  = is_live k h p && negb (ResKind_eqb k k' && Nat.eqb h h').
Proof.
  unfold is_live, release. cbn [live].
  induction (live p) as [|[k0 h0] l IH]; [reflexivity|].
  cbn [filter fst snd existsb].
  destruct (ResKind_eqb k0 k' && Nat.eqb h0 h') eqn:H1; cbn [negb existsb fst snd];
    rewrite IH.
  - destruct (ResKind_eqb k0 k && Nat.eqb h0 h) eqn:H2; cbn [orb]; [|reflexivity].
    apply andb_prop in H1, H2. destruct H1 as [Hk1 Hh1], H2 as [Hk2 Hh2].
    apply Nat.eqb_eq in Hh1, Hh2. subst h h'.
    assert (Hkk : ResKind_eqb k k' = true) by (destruct k0, k, k'; cbn in *; congruence).
    rewrite Hkk, Nat.eqb_refl. cbn. now rewrite andb_false_r.
  - destruct (ResKind_eqb k0 k && Nat.eqb h0 h) eqn:H2; cbn [orb]; [|reflexivity].
    apply andb_prop in H2. destruct H2 as [Hk2 Hh2]. apply Nat.eqb_eq in Hh2. subst h0.
    assert (Hk : k0 = k) by (destruct k0, k; cbn in Hk2; congruence). subst k0.
    rewrite H1. reflexivity.
Qed.

Lemma obj_release_field (k : ResKind) (ho : option Handle) (st : @State flt dbl) :
  obj (release_field k ho st) = obj st.
Proof. destruct ho; reflexivity. Qed.

Lemma is_live_release_field (k k' : ResKind) (h : Handle) (ho : option Handle)
    (st : @State flt dbl) :
  is_live k h (os (release_field k' ho st))
  = is_live k h (os st)
    && negb (match ho with
             | Some h' => ResKind_eqb k k' && Nat.eqb h h'
             | None => false
             end).
Proof.
  destruct ho as [h'|]; cbn [release_field with_os os].
  - apply is_live_release.
  - now rewrite andb_true_r.
Qed.

(** Deleting the object releases whatever its three resource fields hold. *)
Lemma WasapiCapture_delete_releases (st : @State flt dbl) (k : ResKind) (h : Handle) :
  field_of k (obj st) = Some h ->
  is_live k h (os (WasapiCapture_delete st)) = false.
Proof.
  intros Hfield. unfold WasapiCapture_delete.
  assert (Hstop : field_of k (obj (snd (Stop st))) = Some h).
  { rewrite <- Hfield. unfold Stop.
    destruct (running_ (obj st)); cbn [negb snd]; [|reflexivity].
    rewrite obj_emit_event. destruct (captureThread_ _); destruct k; reflexivity. }
  set (s0 := snd (Stop st)) in *.
  rewrite !is_live_release_field, !obj_release_field.
  destruct k; cbn [field_of] in Hstop; rewrite Hstop; cbn [ResKind_eqb];
    rewrite Nat.eqb_refl; cbn [andb negb]; now rewrite ?andb_false_r.
Qed.

End Destructor.

Section StartFailure.

Context {flt dbl : Type} {A : Arith flt dbl}.

(** ** Failed starts *)

Ltac split_ifs :=
  repeat match goal with
         | |- context [if ?b then _ else _] => destruct b eqn:?
         end.

Ltac held :=
  cbn; intros ? ? Hin;
  repeat (destruct Hin as [Hin | Hin]; [inversion Hin; subst; reflexivity|]);
  destruct Hin.

Ltac negotiated_tac :=
  unfold negotiated; cbn; split_ifs; cbn;
  repeat split; try reflexivity;
  first [ exists []; split; [reflexivity | held]
        | eexists [_]; split; [reflexivity | held]
        | eexists [_; _]; split; [reflexivity | held]
        | eexists [_; _; _]; split; [reflexivity | held] ].

Lemma InitializeSystemLoopback_negotiated (env : Outcome) (st : @State flt dbl) :
  negotiated st (InitializeSystemLoopback env st).
Proof.
  unfold InitializeSystemLoopback, negotiate_format, store_client, GetMixFormat,
    GetService, acquire.
  negotiated_tac.
Qed.

Lemma InitializeMicrophone_negotiated (deviceId : option string) (env : Outcome)
    (st : @State flt dbl) :
  negotiated st (InitializeMicrophone deviceId env st).
Proof.
  unfold InitializeMicrophone, negotiate_format, store_client, GetMixFormat,
    GetService, acquire.
  negotiated_tac.
Qed.

Lemma InitializeProcessLoopback_negotiated (pid : Z) (mode : PROCESS_LOOPBACK_MODE)
    (env : Outcome) (st : @State flt dbl) :
  negotiated st (InitializeProcessLoopback pid mode env st).
Proof.
  unfold InitializeProcessLoopback, negotiate_format, store_client, GetMixFormat,
    GetService, acquire.
  negotiated_tac.
Qed.

Lemma finish_start_failure (init_message : string) (env : Outcome)
    (st : @State flt dbl) (r : HRESULT * State) (code : Z) (st' : @State flt dbl) :
  negotiated st r ->
  running_ (obj st) = false ->
  finish_start init_message env r = Ok (code, st') ->
  code <> 0 ->
  failed_start st code st'.
Proof.
  destruct r as [hr st1]. unfold negotiated. cbn [snd].
  intros (Hout & Hrun & Hev & acquired & Hlive & Hheld) Hidle Hfin Hcode.
  unfold finish_start in Hfin.
  assert (Herr : forall c m, (c = -3 \/ c = -4 \/ c = -5) ->
             forall s1, out s1 = out st \/ (exists e, out s1 = out st ++ [e] /\
                                              count_code 0 [e] = 0%nat) ->
             obj s1 = obj st1 \/ (field_of AudioClient (obj s1) = field_of AudioClient (obj st1) /\
                                  field_of CaptureClient (obj s1) = field_of CaptureClient (obj st1) /\
                                  field_of MixFormat (obj s1) = field_of MixFormat (obj st1) /\
                                  running_ (obj s1) = running_ (obj st1) /\
                                  eventCallback_ (obj s1) = eventCallback_ (obj st1)) ->
             os s1 = os st1 ->
             failed_start st c (emit_event 2 (Some m) s1)).
  { intros c m Hc s1 Hs1out Hs1obj Hs1os. unfold failed_start.
    assert (Hf : forall k, field_of k (obj s1) = field_of k (obj st1)).
    { destruct Hs1obj as [-> | (Ha & Hc' & Hm & _)]; [reflexivity|].
      intros []; assumption. }
    assert (Hr1 : running_ (obj s1) = running_ (obj st1))
      by (destruct Hs1obj as [-> | (_ & _ & _ & Hr1 & _)]; [reflexivity | exact Hr1]).
    assert (He1 : eventCallback_ (obj s1) = eventCallback_ (obj st1))
      by (destruct Hs1obj as [-> | (_ & _ & _ & _ & He1)]; [reflexivity | exact He1]).
    split; [exact Hc|]. rewrite obj_emit_event, os_emit_event, out_emit_event.
    split; [congruence|]. split.
    - intros Hcb. rewrite He1, Hev, Hcb.
      destruct Hs1out as [-> | (e & -> & He)].
      + exists [], m. split; reflexivity.
      + exists [e], m. split; [now rewrite <- app_assoc | exact He].
    - exists acquired. split; [congruence|].
      intros k h Hin. rewrite Hf. now apply Hheld. }
  destruct (FAILED hr).
  - inversion Hfin; subst. apply Herr; auto.
  - unfold FinalizeInitialization in Hfin.
    destruct (mixFormat_ (obj st1)) as [[hfmt fmt]|] eqn:Hfmt; cbn [bind] in Hfin.
    + destruct (to_size_t _) as [n| |] eqn:Hn; cbn [bind] in Hfin; try discriminate.
      cbn in Hfin. destruct (FAILED (hr_Start env)).
      * inversion Hfin; subst. apply Herr; auto.
        -- destruct (metadataCallback_ (obj st1)); cbn; [right | left; exact Hout].
           eexists; split; [now rewrite Hout | reflexivity].
        -- right. destruct (metadataCallback_ (obj st1)); cbn; rewrite Hfmt; auto.
        -- destruct (metadataCallback_ (obj st1)); reflexivity.
      * inversion Hfin; subst. contradiction.
    + cbn in Hfin. inversion Hfin; subst. apply Herr; auto.
Qed.

Lemma is_live_In (k : ResKind) (h : Handle) (p : Platform) :
  is_live k h p = true <-> In (k, h) (live p).
Proof.
  unfold is_live. rewrite existsb_exists. split.
  - intros ([k' h'] & Hin & Heq). cbn [fst snd] in Heq.
    apply andb_prop in Heq. destruct Heq as [Hk Hh]. apply Nat.eqb_eq in Hh. subst h'.
    assert (k' = k) by (destruct k', k; cbn in Hk; congruence). now subst k'.
  - intros Hin. exists (k, h). split; [exact Hin|]. cbn [fst snd].
    rewrite Nat.eqb_refl. now destruct k.
Qed.

(** What a failed start has acquired is released by the destructor, when
    it runs on the state the call has left. *)
Lemma failed_start_then_delete (st st' : @State flt dbl) (code : Z) :
  failed_start st code st' ->
  forall k h,
    is_live k h (os st) = false -> is_live k h (os st') = true ->
    is_live k h (os (WasapiCapture_delete st')) = false.
Proof.
  intros (_ & _ & _ & acquired & Hlive & Hheld) k h Hbefore Hafter.
  apply WasapiCapture_delete_releases. apply Hheld.
  apply is_live_In in Hafter. rewrite Hlive, in_app_iff in Hafter.
  destruct Hafter as [Hin | Hin]; [exact Hin|].
  apply is_live_In in Hin. congruence.
Qed.

(** C1, as the code has it. A [StartSystemAudio] or [StartMicrophone] call
    on an idle session that returns a code other than 0 returns -3, -4 or
    -5, leaves the session not running and, when an event callback is
    registered, ends with an [Error] event; it releases nothing: the
    resources it acquired stay alive in the fields of the object.  They
    are released by the destructor, when the session is destroyed in the
    state the call has left. *)
Theorem failed_Start_keeps_what_it_acquired (st st' : @State flt dbl) (code : Z)
    (Hidle : running_ (obj st) = false) (Hcode : code <> 0) :
  (forall sampleRate chunkDurationMs isMono emitSilence deviceId gain env,
      StartMicrophone sampleRate chunkDurationMs isMono emitSilence deviceId gain env st
      = Ok (code, st') ->
      failed_start st code st' /\
      forall k h,
        is_live k h (os st) = false -> is_live k h (os st') = true ->
        is_live k h (os (WasapiCapture_delete st')) = false) /\
  (forall sampleRate chunkDurationMs mute isMono emitSilence inc incCount exc excCount env,
      StartSystemAudio sampleRate chunkDurationMs mute isMono emitSilence
        inc incCount exc excCount env st
      = Ok (code, st') ->
      failed_start st code st' /\
      forall k h,
        is_live k h (os st) = false -> is_live k h (os st') = true ->
        is_live k h (os (WasapiCapture_delete st')) = false).
Proof.
  assert (Hboth : failed_start st code st' ->
                  failed_start st code st' /\
                  forall k h,
                    is_live k h (os st) = false -> is_live k h (os st') = true ->
                    is_live k h (os (WasapiCapture_delete st')) = false)
    by (intros Hf; split; [exact Hf | exact (failed_start_then_delete Hf)]).
  split; intros; apply Hboth.
  - unfold StartMicrophone in H. rewrite Hidle in H.
    match type of H with
    | finish_start _ _ (InitializeMicrophone ?d ?e ?s) = _ =>
        pose proof (InitializeMicrophone_negotiated d e s) as Hn
    end.
    eapply finish_start_failure in H; [exact H | exact Hn | exact Hidle | exact Hcode].
  - unfold StartSystemAudio in H. rewrite Hidle in H.
    match type of H with
    | finish_start _ _ ?r = _ =>
        assert (Hn : negotiated
                       (upd (set_emitSilence_ emitSilence)
                          (upd (set_isMono_ isMono)
                             (upd (set_chunkDurationMs_ (chunk_or_default chunkDurationMs))
                                (upd (set_targetSampleRate_ sampleRate) st)))) r)
    end.
    { destruct (has_processes inc incCount);
        [apply InitializeProcessLoopback_negotiated|].
      destruct (has_processes exc excCount);
        [apply InitializeProcessLoopback_negotiated
        |apply InitializeSystemLoopback_negotiated]. }
    eapply finish_start_failure in H; [exact H | exact Hn | exact Hidle | exact Hcode].
Qed.

End StartFailure.

Lemma failed_Start_keeps_what_it_acquired_witness :
  let st' := Samples.state_of
               (StartSystemAudio (d_of_size 48000) (d_of_size 200) false true true
                  None 0 None 0 (Samples.initialize_fails Samples.stereo_48k)
                  (Samples.created (A := IEEE)))
               Samples.created in
  running_ (obj (Samples.created (A := IEEE))) = false /\
  -3 <> 0 /\
  failed_start Samples.created (-3) st' /\
  is_live AudioClient 0%nat (os st') = true /\
  is_live AudioClient 0%nat (os (WasapiCapture_delete st')) = false.
Proof.
  intros st'. split; [reflexivity|]. split; [discriminate|].
  destruct (proj2 (@failed_Start_keeps_what_it_acquired _ _ IEEE Samples.created st' (-3)
                     eq_refl ltac:(discriminate))
              (d_of_size 48000) (d_of_size 200) false true true None 0 None 0
              (Samples.initialize_fails Samples.stereo_48k)) as [Hfailed Hdelete].
  - vm_compute. reflexivity.
  - split; [exact Hfailed|]. split; [reflexivity|].
    apply Hdelete; reflexivity.
Defined.

(** C1, as stated, fails: when [IAudioClient::Initialize] fails,
    [StartSystemAudio] returns -3 with the audio client and the mix format
    it acquired still alive and still stored in the object. *)
Lemma failed_Start_releases_nothing :
  exists st',
    StartSystemAudio (d_of_size 48000) (d_of_size 200) false true true
      None 0 None 0 (Samples.initialize_fails Samples.stereo_48k)
      (Samples.created (A := IEEE)) = Ok (-3, st') /\
    live (os (Samples.created (A := IEEE))) = [] /\
    live (os st') = [(MixFormat, 1%nat); (AudioClient, 0%nat)] /\
    audioClient_ (obj st') = Some 0%nat /\
    mixFormat_ (obj st') = Some (1%nat, Samples.stereo_48k) /\
    is_live AudioClient 0%nat (os st') = true /\
    is_live MixFormat 1%nat (os st') = true.
Proof.
  eexists. split; [vm_compute; reflexivity|]. repeat split.
Qed.

Section Accumulator.

Context {flt dbl : Type} {A : Arith flt dbl}.

(** ** Chunk accumulation *)

Lemma set_chunkBuffer_same (o : @WasapiCapture flt dbl) :
  set_chunkBuffer_ (chunkBuffer_ o) o = o.
Proof. destruct o; reflexivity. Qed.

(** The emission loop, when it has something to call and the chunk size is
    positive: it ends, every chunk has [samplesNeeded] samples, chunks leave
    oldest first, and fewer than [samplesNeeded] samples stay behind. *)
Lemma emit_chunks_drains (samplesNeeded : N) (fuel : nat) :
  (0 < samplesNeeded)%N ->
  forall st : @State flt dbl,
    dataCallback_ (obj st) = true ->
    (List.length (chunkBuffer_ (obj st)) <= fuel)%nat ->
    exists chunks st',
      emit_chunks fuel samplesNeeded st = Ok st' /\
      out st' = out st ++ map (fun c => EvData c (to_int32 (size_mul samplesNeeded 4)))
                              chunks /\
      Forall (fun c => List.length c = N.to_nat samplesNeeded) chunks /\
      List.concat chunks ++ chunkBuffer_ (obj st') = chunkBuffer_ (obj st) /\
      (N.of_nat (List.length (chunkBuffer_ (obj st'))) < samplesNeeded)%N /\
      obj st' = set_chunkBuffer_ (chunkBuffer_ (obj st')) (obj st) /\
      os st' = os st.
Proof.
  intros Hpos. induction fuel as [|fuel IH]; intros st Hcb Hlen.
  - exists [], st. cbn [emit_chunks]. rewrite Hcb, andb_true_r.
    replace (samplesNeeded <=? _)%N with false by (symmetry; apply N.leb_gt; lia).
    cbn. rewrite app_nil_r, set_chunkBuffer_same. repeat split; auto. lia.
  - cbn [emit_chunks]. rewrite Hcb, andb_true_r.
    destruct (samplesNeeded <=? _)%N eqn:Hle.
    + apply N.leb_le in Hle.
      set (buf := chunkBuffer_ (obj st)) in *.
      set (st1 := upd (set_chunkBuffer_ (skipn (N.to_nat samplesNeeded) buf))
                    (call (EvData (firstn (N.to_nat samplesNeeded) buf)
                             (to_int32 (size_mul samplesNeeded 4))) st)).
      assert (Hlen1 : (List.length (chunkBuffer_ (obj st1)) <= fuel)%nat).
      { subst st1; cbn. rewrite length_skipn. lia. }
      destruct (IH st1 Hcb Hlen1) as (chunks & st' & Hrun & Hout & Hall & Hcat & Hlt & Hobj & Hos).
      exists (firstn (N.to_nat samplesNeeded) buf :: chunks), st'.
      split; [exact Hrun|]. split.
      { rewrite Hout. subst st1; cbn. now rewrite <- app_assoc. }
      split.
      { constructor; [|exact Hall]. rewrite length_firstn. lia. }
      split.
      { cbn [List.concat]. rewrite <- app_assoc, Hcat. subst st1; cbn.
        apply firstn_skipn. }
      split; [exact Hlt|]. split; [|exact Hos].
      rewrite Hobj. subst st1; reflexivity.
    + apply N.leb_gt in Hle. exists [], st. cbn.
      rewrite app_nil_r, set_chunkBuffer_same. repeat split; auto.
Qed.

(** With a chunk size of zero the loop condition never turns false. *)
Lemma emit_chunks_zero_diverges (fuel : nat) (st : @State flt dbl) :
  dataCallback_ (obj st) = true ->
  emit_chunks fuel 0 st = Diverges.
Proof.
  revert st. induction fuel as [|fuel IH]; intros st Hcb; cbn [emit_chunks];
    rewrite Hcb, (proj2 (N.leb_le 0 _) (N.le_0_l _)); cbn [andb];
    [reflexivity|]. now apply IH.
Qed.

(** Without a data callback nothing is emitted and nothing is removed. *)
Lemma emit_chunks_no_callback (fuel : nat) (samplesNeeded : N) (st : @State flt dbl) :
  dataCallback_ (obj st) = false ->
  emit_chunks fuel samplesNeeded st = Ok st.
Proof.
  intros Hcb. destruct fuel; cbn [emit_chunks]; rewrite Hcb, andb_false_r; reflexivity.
Qed.

Lemma process_samples_channels (o : @WasapiCapture flt dbl) (fmt : WAVEFORMATEX)
    (data : list flt) (numFrames : N) (samples : list flt) (numChannels : N) :
  process_samples o fmt data numFrames = Ok (samples, numChannels) ->
  (if isMono_ o then 1%N else numChannels) = (if isMono_ o then 1%N else nChannels fmt).
Proof.
  intros H. destruct (isMono_ o) eqn:Hmono; [reflexivity|].
  unfold process_samples, downmix_stage in H. rewrite Hmono in H. cbn [andb] in H.
  destruct (resample_stage _ _ _ _) as [[fd frames]| |]; cbn in H; congruence.
Qed.

(** C4, as the code has it. A non-empty batch processed by a session with
    a mix format: the processed samples are appended to the accumulator.
    With a data callback and a positive chunk size [samplesNeeded] the step
    ends; chunks of exactly [samplesNeeded] samples are handed to the data
    callback, oldest first, and removed; fewer than [samplesNeeded] samples
    remain buffered.  Without a data callback the step ends too, nothing
    is emitted and nothing is removed: the accumulator keeps every sample
    it has received.  With a data callback and a chunk size of zero the
    step does not end. *)
Theorem ProcessAudioData_leaves_less_than_a_chunk
    (st : @State flt dbl) (h : Handle) (fmt : WAVEFORMATEX)
    (data : list flt) (numFrames : N) (samples : list flt) (numChannels : N)
    (samplesNeeded : N)
    (Hfmt : mixFormat_ (obj st) = Some (h, fmt))
    (Hframes : numFrames <> 0%N)
    (Hsamples : process_samples (obj st) fmt data numFrames = Ok (samples, numChannels))
    (Hneeded : samplesNeeded
               = size_mul (samplesPerChunk_ (obj st))
                          (if isMono_ (obj st) then 1 else nChannels fmt)) :
  (dataCallback_ (obj st) = true -> (0 < samplesNeeded)%N ->
   exists chunks st',
     ProcessAudioData data numFrames st = Ok st' /\
     (N.of_nat (List.length (chunkBuffer_ (obj st'))) < samplesNeeded)%N /\
     out st' = out st ++ map (fun c => EvData c (to_int32 (size_mul samplesNeeded 4)))
                             chunks /\
     Forall (fun c => List.length c = N.to_nat samplesNeeded) chunks /\
     List.concat chunks ++ chunkBuffer_ (obj st') = chunkBuffer_ (obj st) ++ samples) /\
  (dataCallback_ (obj st) = false ->
   ProcessAudioData data numFrames st
   = Ok (upd (set_chunkBuffer_ (chunkBuffer_ (obj st) ++ samples)) st)) /\
  (dataCallback_ (obj st) = true -> samplesNeeded = 0%N ->
   ProcessAudioData data numFrames st = Diverges).
Proof.
  unfold ProcessAudioData. rewrite Hfmt.
  destruct (numFrames =? 0)%N eqn:Hz; [apply N.eqb_eq in Hz; contradiction|].
  rewrite Hsamples. cbn [bind].
  cbn [obj upd set_chunkBuffer_ samplesPerChunk_ isMono_ chunkBuffer_].
  rewrite (process_samples_channels _ _ _ _ Hsamples), <- Hneeded.
  set (st1 := upd (set_chunkBuffer_ (chunkBuffer_ (obj st) ++ samples)) st).
  split; [|split].
  - intros Hcb Hpos.
    destruct (@emit_chunks_drains samplesNeeded (S (List.length (chunkBuffer_ (obj st1))))
                Hpos st1 Hcb ltac:(lia))
      as (chunks & st' & Hrun & Hout & Hall & Hcat & Hlt & _ & _).
    exists chunks, st'. subst st1. cbn in Hrun, Hout, Hcat. auto.
  - intros Hcb. apply emit_chunks_no_callback. exact Hcb.
  - intros Hcb ->. apply emit_chunks_zero_diverges. exact Hcb.
Qed.

(** Whatever the loop emits are chunks of [samplesNeeded] samples. *)
Lemma emit_chunks_sizes (samplesNeeded : N) (fuel : nat) :
  forall st st' : @State flt dbl,
    emit_chunks fuel samplesNeeded st = Ok st' ->
    exists chunks,
      out st' = out st ++ map (fun c => EvData c (to_int32 (size_mul samplesNeeded 4)))
                              chunks /\
      Forall (fun c => List.length c = N.to_nat samplesNeeded) chunks.
Proof.
  induction fuel as [|fuel IH]; intros st st'; cbn [emit_chunks];
    destruct (_ && _) eqn:Htest; try discriminate.
  - intros H; inversion H; subst. exists []. cbn. now rewrite app_nil_r.
  - intros H. apply IH in H. destruct H as (chunks & Hout & Hall).
    apply andb_prop in Htest. destruct Htest as [Hle _]. apply N.leb_le in Hle.
    exists (firstn (N.to_nat samplesNeeded) (chunkBuffer_ (obj st)) :: chunks). split.
    + rewrite Hout. cbn. now rewrite <- app_assoc.
    + constructor; [|exact Hall]. rewrite length_firstn. lia.
  - intros H; inversion H; subst. exists []. cbn. now rewrite app_nil_r.
Qed.

Lemma ProcessAudioData_chunk_sizes (data : list flt) (numFrames : N)
    (st st' : @State flt dbl) (h : Handle) (fmt : WAVEFORMATEX) :
  mixFormat_ (obj st) = Some (h, fmt) ->
  ProcessAudioData data numFrames st = Ok st' ->
  let samplesNeeded :=
    size_mul (samplesPerChunk_ (obj st)) (if isMono_ (obj st) then 1 else nChannels fmt) in
  exists chunks,
    out st' = out st ++ map (fun c => EvData c (to_int32 (size_mul samplesNeeded 4)))
                            chunks /\
    Forall (fun c => List.length c = N.to_nat samplesNeeded) chunks.
Proof.
  intros Hfmt H samplesNeeded. unfold ProcessAudioData in H. rewrite Hfmt in H.
  destruct (numFrames =? 0)%N;
    [inversion H; subst; exists []; cbn; now rewrite app_nil_r|].
  destruct (process_samples _ _ _ _) as [[samples ch]| |] eqn:Hs; cbn [bind] in H;
    try discriminate.
  cbn [obj upd set_chunkBuffer_ samplesPerChunk_ isMono_] in H.
  rewrite (process_samples_channels _ _ _ _ Hs) in H.
  apply emit_chunks_sizes in H. exact H.
Qed.

End Accumulator.

Lemma ProcessAudioData_leaves_less_than_a_chunk_witness :
  exists chunks st',
    ProcessAudioData (Samples.ramp 100) 50 Samples.running_1ms = Ok st' /\
    (N.of_nat (List.length (chunkBuffer_ (obj st'))) < 48)%N /\
    out st' = out Samples.running_1ms ++ map (fun c => EvData c 192) chunks /\
    Forall (fun c => List.length c = 48%nat) chunks /\
    List.concat chunks ++ chunkBuffer_ (obj st')
    = chunkBuffer_ (obj Samples.running_1ms)
      ++ ConvertToMono 2 (Samples.ramp 100) 50.
Proof.
  refine (proj1 (@ProcessAudioData_leaves_less_than_a_chunk _ _ IEEE Samples.running_1ms
                   1%nat Samples.stereo_48k (Samples.ramp 100) 50
                   (ConvertToMono 2 (Samples.ramp 100) 50) 1 48 _ _ _ _) _ _).
  - reflexivity.
  - discriminate.
  - vm_compute. reflexivity.
  - reflexivity.
  - reflexivity.
  - reflexivity.
Defined.

(** C4, as stated, fails: a running session without a data callback
    (the loop at the end of [ProcessAudioData] tests [dataCallback_]) whose
    chunks hold 48 samples ends the step with 50 samples buffered, and
    nothing emitted. *)
Lemma ProcessAudioData_without_callback_keeps_a_full_chunk :
  running_ (obj Scenarios.running_mute) = true /\
  dataCallback_ (obj Scenarios.running_mute) = false /\
  size_mul (samplesPerChunk_ (obj Scenarios.running_mute))
    (if isMono_ (obj Scenarios.running_mute) then 1 else 2) = 48%N /\
  exists st',
    ProcessAudioData (Samples.ramp 100) 50 Scenarios.running_mute = Ok st' /\
    N.of_nat (List.length (chunkBuffer_ (obj st'))) = 50%N /\
    ~ (N.of_nat (List.length (chunkBuffer_ (obj st'))) < 48)%N /\
    out st' = out Scenarios.running_mute.
Proof.
  split; [reflexivity|]. split; [reflexivity|]. split; [reflexivity|].
  eexists. split; [vm_compute; reflexivity|].
  split; [reflexivity|]. split; [|reflexivity].
  vm_compute. discriminate.
Qed.

Section Worker.

Context {flt dbl : Type} {A : Arith flt dbl}.

(** ** What the worker may change *)

Lemma worker_only_refl (o : @WasapiCapture flt dbl) : worker_only o o.
Proof. unfold worker_only. destruct o; reflexivity. Qed.

Lemma worker_only_trans (o1 o2 o3 : @WasapiCapture flt dbl) :
  worker_only o1 o2 -> worker_only o2 o3 -> worker_only o1 o3.
Proof.
  unfold worker_only. intros H12 H23.
  destruct o1, o2, o3; cbn in *. inversion H12; inversion H23; subst. reflexivity.
Qed.

Lemma worker_only_chunkBuffer (buf : list flt) (o : @WasapiCapture flt dbl) :
  worker_only o (set_chunkBuffer_ buf o).
Proof. unfold worker_only. destruct o; reflexivity. Qed.

Lemma worker_only_lastDataTime (t : Z) (o : @WasapiCapture flt dbl) :
  worker_only o (set_lastDataTime_ t o).
Proof. unfold worker_only. destruct o; reflexivity. Qed.

Lemma emit_chunks_worker_only (samplesNeeded : N) (fuel : nat) :
  forall st st' : @State flt dbl,
    emit_chunks fuel samplesNeeded st = Ok st' -> worker_only (obj st) (obj st').
Proof.
  induction fuel as [|fuel IH]; intros st st'; cbn [emit_chunks];
    destruct (_ && _); try discriminate.
  - intros H; inversion H; subst. apply worker_only_refl.
  - intros H. apply IH in H. eapply worker_only_trans; [|exact H].
    apply worker_only_chunkBuffer.
  - intros H; inversion H; subst. apply worker_only_refl.
Qed.

Lemma ProcessAudioData_worker_only (data : list flt) (numFrames : N)
    (st st' : @State flt dbl) :
  ProcessAudioData data numFrames st = Ok st' -> worker_only (obj st) (obj st').
Proof.
  unfold ProcessAudioData.
  destruct (mixFormat_ (obj st)) as [[h fmt]|];
    [|intros H; inversion H; subst; apply worker_only_refl].
  destruct (numFrames =? 0)%N; [intros H; inversion H; subst; apply worker_only_refl|].
  destruct (process_samples _ _ _ _) as [[samples ch]| |]; cbn [bind]; try discriminate.
  intros H. apply emit_chunks_worker_only in H.
  eapply worker_only_trans; [|exact H]. apply worker_only_chunkBuffer.
Qed.

Lemma drain_packets_worker_only (pks : list PacketObs) :
  forall (st st' : @State flt dbl) (b b' : bool),
    drain_packets pks b st = Ok (b', st') -> worker_only (obj st) (obj st').
Proof.
  induction pks as [|pk rest IH]; intros st st' b b'; cbn [drain_packets].
  - intros H; inversion H; subst; apply worker_only_refl.
  - destruct (negb (running_ (obj st)));
      [intros H; inversion H; subst; apply worker_only_refl|].
    destruct (FAILED (hr_GetBuffer pk));
      [intros H; inversion H; subst; apply worker_only_refl|].
    destruct (pk_data pk) as [data|]; [destruct (negb (pk_silent pk))|]; cbn [bind].
    + destruct (ProcessAudioData _ _ _) as [st2| |] eqn:Hp; cbn [bind]; try discriminate.
      apply ProcessAudioData_worker_only in Hp.
      destruct (FAILED (hr_ReleaseBuffer pk)); [intros H; inversion H; subst; exact Hp|].
      destruct (FAILED (hr_NextPacketSize pk)); [intros H; inversion H; subst; exact Hp|].
      intros H. apply IH in H. eapply worker_only_trans; eassumption.
    + destruct (FAILED (hr_ReleaseBuffer pk));
        [intros H; inversion H; subst; apply worker_only_refl|].
      destruct (FAILED (hr_NextPacketSize pk));
        [intros H; inversion H; subst; apply worker_only_refl|].
      apply IH.
    + destruct (FAILED (hr_ReleaseBuffer pk));
        [intros H; inversion H; subst; apply worker_only_refl|].
      destruct (FAILED (hr_NextPacketSize pk));
        [intros H; inversion H; subst; apply worker_only_refl|].
      apply IH.
Qed.

Lemma silence_watchdog_worker_only (chunkDuration : Z) (b : bool) (now : Z)
    (st : @State flt dbl) :
  worker_only (obj st) (obj (silence_watchdog chunkDuration b now st)).
Proof.
  unfold silence_watchdog.
  destruct (_ && _); [|apply worker_only_refl].
  destruct (_ <=? _); [|apply worker_only_refl].
  destruct (_ && _); cbn; apply worker_only_lastDataTime.
Qed.

Lemma CaptureThread_turn_worker_only (chunkDuration : Z) (ob : IterObs)
    (st st' : @State flt dbl) (go_on : bool) :
  CaptureThread_turn chunkDuration ob st = Ok (go_on, st') ->
  worker_only (obj st) (obj st').
Proof.
  unfold CaptureThread_turn.
  destruct (wait_signaled ob); [intros H; inversion H; subst; apply worker_only_refl|].
  destruct (FAILED (hr_GetNextPacketSize ob)).
  { intros H; inversion H; subst. rewrite obj_emit_event. apply worker_only_refl. }
  destruct (drain_packets _ _ _) as [[b st1]| |] eqn:Hd; cbn [bind]; try discriminate.
  apply drain_packets_worker_only in Hd.
  intros H; inversion H; subst.
  eapply worker_only_trans; [exact Hd|].
  eapply worker_only_trans; [|apply silence_watchdog_worker_only].
  destruct b; [apply worker_only_lastDataTime | apply worker_only_refl].
Qed.

Lemma worker_loop_worker_only (chunkDuration : Z) (obs : list IterObs) :
  forall st st' : @State flt dbl,
    worker_loop chunkDuration obs st = Ok st' -> worker_only (obj st) (obj st').
Proof.
  induction obs as [|ob rest IH]; intros st st'; cbn [worker_loop].
  - intros H; inversion H; subst; apply worker_only_refl.
  - destruct (negb (running_ (obj st)));
      [intros H; inversion H; subst; apply worker_only_refl|].
    destruct (CaptureThread_turn _ _ _) as [[go_on st1]| |] eqn:Ht; cbn [bind];
      try discriminate.
    apply CaptureThread_turn_worker_only in Ht.
    destruct go_on; [|intros H; inversion H; subst; exact Ht].
    intros H. apply IH in H. eapply worker_only_trans; eassumption.
Qed.

(** The worker thread writes [chunkBuffer_] and [lastDataTime_] and no
    other field. *)
Lemma CaptureThread_worker_only (start : Z) (obs : list IterObs)
    (st st' : @State flt dbl) :
  CaptureThread start obs st = Ok st' -> worker_only (obj st) (obj st').
Proof.
  unfold CaptureThread.
  destruct (to_int64 _) as [cd| |]; cbn [bind]; try discriminate.
  intros H. apply worker_loop_worker_only in H.
  eapply worker_only_trans; [|exact H]. apply worker_only_lastDataTime.
Qed.

(** ** What the worker may emit *)

Lemma worker_only_chunk_size (o o' : @WasapiCapture flt dbl) :
  worker_only o o' ->
  silentSamples o' = silentSamples o /\ mixFormat_ o' = mixFormat_ o.
Proof. unfold worker_only. intros ->. split; reflexivity. Qed.

Lemma ProcessAudioData_events (data : list flt) (numFrames : N)
    (st st' : @State flt dbl) (h : Handle) (fmt : WAVEFORMATEX) :
  mixFormat_ (obj st) = Some (h, fmt) ->
  ProcessAudioData data numFrames st = Ok st' ->
  exists added,
    out st' = out st ++ added /\ Forall (worker_event (silentSamples (obj st))) added.
Proof.
  intros Hfmt H. eapply ProcessAudioData_chunk_sizes in H; [|exact Hfmt].
  destruct H as (chunks & Hout & Hall). eexists. split; [exact Hout|].
  unfold silentSamples. rewrite Hfmt.
  apply Forall_forall. intros e He. apply in_map_iff in He.
  destruct He as (c & <- & Hc). rewrite Forall_forall in Hall.
  split; [now apply Hall | reflexivity].
Qed.

Lemma drain_packets_events (pks : list PacketObs) :
  forall (st st' : @State flt dbl) (b b' : bool) (h : Handle) (fmt : WAVEFORMATEX),
    mixFormat_ (obj st) = Some (h, fmt) ->
    drain_packets pks b st = Ok (b', st') ->
    exists added,
      out st' = out st ++ added /\ Forall (worker_event (silentSamples (obj st))) added.
Proof.
  assert (Hnil : forall st : @State flt dbl,
             exists added,
               out st = out st ++ added /\
               Forall (worker_event (silentSamples (obj st))) added)
    by (intros st; exists []; split; [now rewrite app_nil_r | constructor]).
  induction pks as [|pk rest IH]; intros st st' b b' h fmt Hfmt; cbn [drain_packets].
  - intros H; inversion H; subst; apply Hnil.
  - destruct (negb (running_ (obj st))); [intros H; inversion H; subst; apply Hnil|].
    destruct (FAILED (hr_GetBuffer pk)); [intros H; inversion H; subst; apply Hnil|].
    destruct (pk_data pk) as [data|]; [destruct (negb (pk_silent pk))|]; cbn [bind].
    + destruct (ProcessAudioData _ _ _) as [st2| |] eqn:Hp; cbn [bind]; try discriminate.
      pose proof (ProcessAudioData_worker_only _ _ _ Hp) as Hw.
      apply worker_only_chunk_size in Hw. destruct Hw as [Hsz Hmf].
      eapply ProcessAudioData_events in Hp; [|exact Hfmt].
      destruct (FAILED (hr_ReleaseBuffer pk)); [intros H; inversion H; subst; exact Hp|].
      destruct (FAILED (hr_NextPacketSize pk)); [intros H; inversion H; subst; exact Hp|].
      intros H. eapply IH in H; [|rewrite Hmf; exact Hfmt].
      destruct Hp as (added1 & Hout1 & Hall1), H as (added2 & Hout2 & Hall2).
      exists (added1 ++ added2). split.
      * rewrite Hout2, Hout1. now rewrite app_assoc.
      * apply Forall_app. split; [exact Hall1 | now rewrite <- Hsz].
    + destruct (FAILED (hr_ReleaseBuffer pk)); [intros H; inversion H; subst; apply Hnil|].
      destruct (FAILED (hr_NextPacketSize pk)); [intros H; inversion H; subst; apply Hnil|].
      intros H; eapply IH; eassumption.
    + destruct (FAILED (hr_ReleaseBuffer pk)); [intros H; inversion H; subst; apply Hnil|].
      destruct (FAILED (hr_NextPacketSize pk)); [intros H; inversion H; subst; apply Hnil|].
      intros H; eapply IH; eassumption.
Qed.

Lemma silence_watchdog_events (chunkDuration : Z) (b : bool) (now : Z)
    (st : @State flt dbl) :
  exists added,
    out (silence_watchdog chunkDuration b now st) = out st ++ added /\
    Forall (worker_event (silentSamples (obj st))) added.
Proof.
  unfold silence_watchdog.
  destruct (_ && _); [|exists []; split; [now rewrite app_nil_r | constructor]].
  destruct (_ <=? _); [|exists []; split; [now rewrite app_nil_r | constructor]].
  destruct (_ && _); cbn.
  - eexists [_]. split; [reflexivity|]. constructor; [|constructor].
    split; [apply repeat_length | reflexivity].
  - exists []. split; [now rewrite app_nil_r | constructor].
Qed.

Lemma CaptureThread_turn_events (chunkDuration : Z) (ob : IterObs)
    (st st' : @State flt dbl) (go_on : bool) (h : Handle) (fmt : WAVEFORMATEX) :
  mixFormat_ (obj st) = Some (h, fmt) ->
  CaptureThread_turn chunkDuration ob st = Ok (go_on, st') ->
  exists added,
    out st' = out st ++ added /\ Forall (worker_event (silentSamples (obj st))) added.
Proof.
  intros Hfmt. unfold CaptureThread_turn.
  destruct (wait_signaled ob).
  { intros H; inversion H; subst. exists []. split; [now rewrite app_nil_r | constructor]. }
  destruct (FAILED (hr_GetNextPacketSize ob)).
  { intros H; inversion H; subst. rewrite out_emit_event. eexists. split; [reflexivity|].
    destruct (eventCallback_ (obj st)); repeat constructor. }
  destruct (drain_packets _ _ _) as [[b st1]| |] eqn:Hd; cbn [bind]; try discriminate.
  pose proof (drain_packets_worker_only _ _ _ Hd) as Hw.
  eapply drain_packets_events in Hd; [|exact Hfmt].
  destruct Hd as (added1 & Hout1 & Hall1).
  intros H; inversion H; subst.
  set (st2 := if b then upd (set_lastDataTime_ (now_after_packets ob)) st1 else st1).
  assert (Hw2 : worker_only (obj st) (obj st2)).
  { eapply worker_only_trans; [exact Hw|]. subst st2.
    destruct b; [apply worker_only_lastDataTime | apply worker_only_refl]. }
  assert (Hout2 : out st2 = out st1) by (subst st2; destruct b; reflexivity).
  apply worker_only_chunk_size in Hw2. destruct Hw2 as [Hsz _].
  destruct (silence_watchdog_events chunkDuration b (now_watchdog ob) st2)
    as (added2 & Hout3 & Hall2).
  exists (added1 ++ added2). split.
  - rewrite Hout3, Hout2, Hout1. now rewrite app_assoc.
  - apply Forall_app. split; [exact Hall1 | now rewrite <- Hsz].
Qed.

Lemma worker_loop_events (chunkDuration : Z) (obs : list IterObs) :
  forall (st st' : @State flt dbl) (h : Handle) (fmt : WAVEFORMATEX),
    mixFormat_ (obj st) = Some (h, fmt) ->
    worker_loop chunkDuration obs st = Ok st' ->
    exists added,
      out st' = out st ++ added /\ Forall (worker_event (silentSamples (obj st))) added.
Proof.
  induction obs as [|ob rest IH]; intros st st' h fmt Hfmt; cbn [worker_loop].
  - intros H; inversion H; subst. exists []. split; [now rewrite app_nil_r | constructor].
  - destruct (negb (running_ (obj st))).
    { intros H; inversion H; subst. exists [].
      split; [now rewrite app_nil_r | constructor]. }
    destruct (CaptureThread_turn _ _ _) as [[go_on st1]| |] eqn:Ht; cbn [bind];
      try discriminate.
    pose proof (CaptureThread_turn_worker_only _ _ _ Ht) as Hw.
    apply worker_only_chunk_size in Hw. destruct Hw as [Hsz Hmf].
    eapply CaptureThread_turn_events in Ht; [|exact Hfmt].
    destruct go_on; [|intros H; inversion H; subst; exact Ht].
    intros H. eapply IH in H; [|rewrite Hmf; exact Hfmt].
    destruct Ht as (added1 & Hout1 & Hall1), H as (added2 & Hout2 & Hall2).
    exists (added1 ++ added2). split.
    + rewrite Hout2, Hout1. now rewrite app_assoc.
    + apply Forall_app. split; [exact Hall1 | now rewrite <- Hsz].
Qed.

(** Every data callback of a worker run carries exactly
    [samplesPerChunk_ * channels] samples; the only other callback the
    worker makes is an [Error] event. *)
Lemma CaptureThread_events (start : Z) (obs : list IterObs)
    (st st' : @State flt dbl) (h : Handle) (fmt : WAVEFORMATEX) :
  mixFormat_ (obj st) = Some (h, fmt) ->
  CaptureThread start obs st = Ok st' ->
  exists added,
    out st' = out st ++ added /\ Forall (worker_event (silentSamples (obj st))) added.
Proof.
  intros Hfmt. unfold CaptureThread.
  destruct (to_int64 _) as [cd| |]; cbn [bind]; try discriminate.
  intros H. eapply worker_loop_events in H; [exact H | exact Hfmt].
Qed.

End Worker.

Section StartSuccess.

Context {flt dbl : Type} {A : Arith flt dbl}.

(** ** Successful starts *)

Ltac split_ifs :=
  repeat match goal with
         | |- context [if ?b then _ else _] => destruct b eqn:?
         end.

Ltac negotiated_ok_tac :=
  unfold negotiated_ok; cbn; split_ifs; cbn; intros Hok;
  try congruence;
  try (eexists _, _, _; split; reflexivity).

Lemma InitializeSystemLoopback_ok (env : Outcome) (st : @State flt dbl) :
  negotiated_ok env st (InitializeSystemLoopback env st).
Proof.
  unfold InitializeSystemLoopback, negotiate_format, store_client, GetMixFormat,
    GetService, acquire.
  negotiated_ok_tac.
Qed.

Lemma InitializeMicrophone_ok (deviceId : option string) (env : Outcome)
    (st : @State flt dbl) :
  negotiated_ok env st (InitializeMicrophone deviceId env st).
Proof.
  unfold InitializeMicrophone, negotiate_format, store_client, GetMixFormat,
    GetService, acquire.
  negotiated_ok_tac.
Qed.

Lemma InitializeProcessLoopback_ok (pid : Z) (mode : PROCESS_LOOPBACK_MODE)
    (env : Outcome) (st : @State flt dbl) :
  negotiated_ok env st (InitializeProcessLoopback pid mode env st).
Proof.
  unfold InitializeProcessLoopback, negotiate_format, store_client, GetMixFormat,
    GetService, acquire.
  negotiated_ok_tac.
  all: match goal with
       | H : _ || _ = true |- _ => rewrite Hok in H; cbn in H; congruence
       | _ => idtac
       end.
Qed.

Lemma finish_start_ok (init_message : string) (env : Outcome)
    (st : @State flt dbl) (r : HRESULT * @State flt dbl) (st' : @State flt dbl) :
  negotiated_ok env st r ->
  finish_start init_message env r = Ok (0, st') ->
  exists n a c m,
    to_size_t (d_mul (d_div (chunkDurationMs_ (obj st)) (d_of_size 1000))
                 (output_rate (targetSampleRate_ (obj st)) (device_format env))) = Ok n /\
    obj st' =
      set_captureThread_ true
        (set_stopEvent_ false
           (set_running_ true
              (set_samplesPerChunk_ n
                 (set_resampleRatio_
                    (d_div (output_rate (targetSampleRate_ (obj st)) (device_format env))
                       (d_of_size (nSamplesPerSec (device_format env))))
                    (set_captureClient_ (Some c)
                       (set_mixFormat_ (Some (m, device_format env))
                          (set_audioClient_ (Some a) (obj st)))))))) /\
    out st' =
      out st
      ++ (if metadataCallback_ (obj st)
          then [EvMetadata (output_rate (targetSampleRate_ (obj st)) (device_format env))
                  (if isMono_ (obj st) then 1%N else nChannels (device_format env))
                  32 true "pcm_f32le"%string]
          else [])
      ++ (if eventCallback_ (obj st) then [EvEvent 0 None] else []).
Proof.
  destruct r as [hr st1]. unfold negotiated_ok. cbn [fst snd]. intros Hneg Hfin.
  unfold finish_start in Hfin.
  destruct (FAILED hr) eqn:Hhr; [discriminate|].
  destruct (Hneg eq_refl) as (a & c & m & Hobj & Hout).
  destruct st1 as [o1 p1 t1]. cbn in Hobj, Hout. subst o1 t1.
  unfold FinalizeInitialization, emit_event in Hfin. cbn in Hfin.
  destruct (to_size_t _) as [n| |] eqn:Hn; cbn in Hfin; try discriminate.
  destruct (FAILED (hr_Start env)); [discriminate|].
  exists n, a, c, m. split; [reflexivity|].
  destruct (metadataCallback_ (obj st)); cbn in Hfin;
    destruct (eventCallback_ (obj st)); cbn in Hfin;
    inversion Hfin; subst; cbn; split; try reflexivity;
    rewrite <- ?app_assoc, ?app_nil_r; reflexivity.
Qed.

Lemma StartMicrophone_started (st st' : @State flt dbl) sampleRate chunkDurationMs
    isMono emitSilence deviceId gain env :
  StartMicrophone sampleRate chunkDurationMs isMono emitSilence deviceId gain env st
  = Ok (0, st') ->
  started st sampleRate chunkDurationMs isMono emitSilence gain env st'.
Proof.
  unfold StartMicrophone. destruct (running_ (obj st)); [discriminate|]. intros H.
  eapply finish_start_ok in H; [|apply InitializeMicrophone_ok].
  destruct H as (n & a & c & m & Hn & Hobj & Hout).
  exists n, a, c, m. split; [exact Hn|]. split; [rewrite Hobj; reflexivity | exact Hout].
Qed.

Lemma StartSystemAudio_started (st st' : @State flt dbl) sampleRate chunkDurationMs
    mute isMono emitSilence inc incCount exc excCount env :
  StartSystemAudio sampleRate chunkDurationMs mute isMono emitSilence
    inc incCount exc excCount env st = Ok (0, st') ->
  started st sampleRate chunkDurationMs isMono emitSilence (gain_ (obj st)) env st'.
Proof.
  unfold StartSystemAudio. destruct (running_ (obj st)); [discriminate|]. intros H.
  eapply finish_start_ok in H;
    [|destruct (has_processes inc incCount); [apply InitializeProcessLoopback_ok|];
      destruct (has_processes exc excCount);
      [apply InitializeProcessLoopback_ok | apply InitializeSystemLoopback_ok]].
  destruct H as (n & a & c & m & Hn & Hobj & Hout).
  exists n, a, c, m. split; [exact Hn|]. split; [rewrite Hobj; reflexivity | exact Hout].
Qed.
Lemma start_succeeds_started (st st' : @State flt dbl) sampleRate chunkDurationMs
    isMono emitSilence env :
  start_succeeds st sampleRate chunkDurationMs isMono emitSilence env st' ->
  exists gain, started st sampleRate chunkDurationMs isMono emitSilence gain env st'.
Proof.
  intros [(deviceId & gain & H) | (mute & inc & incCount & exc & excCount & H)].
  - exists gain. eapply StartMicrophone_started; eassumption.
  - exists (gain_ (obj st)). eapply StartSystemAudio_started; eassumption.
Qed.

End StartSuccess.

Section ChunkSize.

(** ** Chunk size *)

(** [SFtrunc] is the integer part of the value, toward zero. *)
Lemma SFtrunc_spec (x : spec_float) (z : Z) :
  SFtrunc x = Some z -> z = Qtrunc (SF2Q x).
Proof.
  destruct x as [s| s | |s m e]; cbn [SFtrunc SF2Q]; try discriminate;
    intros H; inversion H; subst; clear H; [reflexivity|].
  unfold Qtrunc.
  assert (Hneg : forall p : positive,
             Z.shiftr (Zpos m) (Zpos p) = Z.quot (Zpos m) (Zpos (2 ^ p))).
  { intros p. rewrite Z.shiftr_div_pow2 by lia. rewrite Pos2Z.inj_pow.
    symmetry. apply Z.quot_div_nonneg; lia. }
  destruct e as [|p|p]; destruct s; cbn [cond_Zopp Qnum Qden Qopp inject_Z];
    rewrite ?Z.quot_1_r; try reflexivity.
  - rewrite Hneg. symmetry. apply Z.quot_opp_l. discriminate.
  - apply Hneg.
Qed.

Lemma to_size_t_IEEE (x : spec_float) (n : N) :
  to_size_t (A := IEEE) x = Ok n -> Z.of_N n = Qtrunc (SF2Q x).
Proof.
  unfold to_size_t. cbn [d_trunc IEEE].
  destruct (SFtrunc x) as [z|] eqn:Hz; [|discriminate].
  apply SFtrunc_spec in Hz. subst z.
  destruct (0 <=? _) eqn:H0; cbn [andb]; [|discriminate].
  destruct (_ <? _); [|discriminate]. intros H; inversion H.
  apply Z.leb_le in H0. now rewrite Z2N.id.
Qed.


End ChunkSize.

Section ChunkSizeIEEE.

(** C3, as the code has it. After a successful start the chunk size is the
    integer part (toward zero, not the nearest integer) of the
    double-precision product [(chunkDurationMs / 1000.0) * outputSampleRate].
    For 200 ms at 48000 Hz it is 9600, and every chunk the worker of such a
    mono session hands to the data callback, real or synthetic, holds
    exactly 9600 samples, 38400 bytes. *)
Theorem samplesPerChunk_is_truncated
    (st st' : @State spec_float spec_float)
    (sampleRate chunkDurationMs : spec_float) (isMono emitSilence : bool)
    (env : Outcome)
    (Hstart : start_succeeds st sampleRate chunkDurationMs isMono emitSilence env st') :
  let product :=
    B64.mul (B64.div (chunk_or_default chunkDurationMs) (B64.of_Z 1000))
            (output_rate sampleRate (device_format env)) in
  samplesPerChunk_ (obj st') = Z.to_N (Qtrunc (SF2Q product)) /\
  (sampleRate = B64.of_Z 48000 -> chunkDurationMs = B64.of_Z 200 ->
   samplesPerChunk_ (obj st') = 9600%N /\
   (isMono = true ->
    forall start obs st'',
      CaptureThread start obs st' = Ok st'' ->
      exists added,
        out st'' = out st' ++ added /\
        Forall (fun e => match e with
                         | EvData samples nbytes =>
                             List.length samples = N.to_nat 9600 /\ nbytes = 38400
                         | EvEvent code _ => code = 2
                         | EvMetadata _ _ _ _ _ => False
                         end) added)).
Proof.
  intros product. apply start_succeeds_started in Hstart.
  destruct Hstart as (gain & n & a & c & m & Hn & Hobj & Hout).
  assert (Hspc : samplesPerChunk_ (obj st') = n) by (rewrite Hobj; reflexivity).
  split.
  - rewrite Hspc. apply to_size_t_IEEE in Hn. subst product.
    change B64.mul with (@d_mul _ _ IEEE). change B64.div with (@d_div _ _ IEEE).
    change (B64.of_Z 1000) with (@d_of_size _ _ IEEE 1000).
    rewrite <- Hn. now rewrite N2Z.id.
  - intros -> ->.
    assert (Hn' : n = 9600%N).
    { vm_compute in Hn. inversion Hn. reflexivity. }
    split; [congruence|]. intros -> start obs st'' Hrun.
    eapply CaptureThread_events in Hrun; [|rewrite Hobj; reflexivity].
    destruct Hrun as (added & Hadded & Hall). exists added. split; [exact Hadded|].
    assert (Hsize : silentSamples (obj st') = 9600%N).
    { unfold silentSamples. rewrite Hobj. cbn [samplesPerChunk_ isMono_]. now rewrite Hn'. }
    rewrite Hsize in Hall. exact Hall.
Qed.

End ChunkSizeIEEE.

Lemma samplesPerChunk_is_truncated_witness :
  samplesPerChunk_ (obj Samples.running_mic) = 9600%N.
Proof.
  apply (@samplesPerChunk_is_truncated Samples.created Samples.running_mic
           (B64.of_Z 48000) (B64.of_Z 200) true true
           (Samples.all_ok Samples.stereo_48k)).
  - left. exists None, (B64.of_Z 1). vm_compute. reflexivity.
  - reflexivity.
  - reflexivity.
Defined.

(** C3, as stated, fails. 7 ms at 44100 Hz is 308.7 samples: the code keeps
    308, rounding to the nearest integer gives 309.  9 ms at 48000 Hz is 432
    samples, but the double-precision product falls just below 432 and the
    code keeps 431. *)
Lemma samplesPerChunk_is_not_rounded :
  (exists st',
      StartMicrophone (B64.of_Z 44100) (B64.of_Z 7) true true None (B64.of_Z 1)
        (Samples.all_ok Samples.stereo_48k) (Samples.created (A := IEEE)) = Ok (0, st') /\
      samplesPerChunk_ (obj st') = 308%N /\
      spec_samplesPerChunk (inject_Z 7) (inject_Z 44100) = 309) /\
  (exists st',
      StartMicrophone (B64.of_Z 48000) (B64.of_Z 9) true true None (B64.of_Z 1)
        (Samples.all_ok Samples.stereo_48k) (Samples.created (A := IEEE)) = Ok (0, st') /\
      samplesPerChunk_ (obj st') = 431%N /\
      spec_samplesPerChunk (inject_Z 9) (inject_Z 48000) = 432).
Proof.
  split; eexists; (split; [vm_compute; reflexivity|]); split; reflexivity.
Qed.

Section Gain.

Context {flt dbl : Type} {A : Arith flt dbl}.

(** ** Gain *)

Lemma indices_length (n : N) : List.length (indices n) = N.to_nat n.
Proof. unfold indices. now rewrite length_map, length_seq. Qed.

Lemma map_nth_seq {X : Type} (d : X) (l : list X) :
  map (fun k => nth k l d) (seq 0 (List.length l)) = l.
Proof.
  induction l as [|x l IH]; [reflexivity|].
  cbn [List.length seq map nth]. f_equal.
  rewrite <- seq_shift, map_map. exact IH.
Qed.

(** Reading a whole array index by index gives the array back. *)
Lemma map_read_indices (f : flt -> flt) (l : list flt) :
  map (fun i => f (read l i)) (indices (N.of_nat (List.length l))) = map f l.
Proof.
  unfold indices, read. rewrite Nat2N.id, map_map.
  transitivity (map f (map (fun k => nth k l f_zero) (seq 0 (List.length l)))).
  - rewrite map_map. apply map_ext. intros k. now rewrite Nat2N.id.
  - now rewrite map_nth_seq.
Qed.

(** The gain stage runs exactly when [gain_] differs from 1.0, whichever
    [Start...] function opened the session, and then multiplies every sample
    by [gain_] converted to [float]; nothing is clipped. *)
Lemma gain_stage_spec (o : @WasapiCapture flt dbl) (fmt : WAVEFORMATEX)
    (data : list flt) (numFrames : N) :
  N.of_nat (List.length data) = (numFrames * nChannels fmt)%N ->
  gain_stage o fmt data numFrames =
  if d_neb (gain_ o) (d_of_size 1)
  then map (fun x => f_mul x (f_of_dbl (gain_ o))) data
  else data.
Proof.
  intros Hlen. unfold gain_stage, apply_gain.
  destruct (d_neb _ _); [|reflexivity].
  rewrite <- Hlen. apply (map_read_indices (fun x => f_mul x (f_of_dbl (gain_ o)))).
Qed.

(** [StartSystemAudio] never assigns [gain_]: the session runs with the gain
    of the last microphone session on the handle. *)
Lemma StartSystemAudio_keeps_gain (st st' : @State flt dbl) sampleRate chunkDurationMs
    mute isMono emitSilence inc incCount exc excCount env :
  StartSystemAudio sampleRate chunkDurationMs mute isMono emitSilence
    inc incCount exc excCount env st = Ok (0, st') ->
  gain_ (obj st') = gain_ (obj st).
Proof.
  intros H. apply StartSystemAudio_started in H.
  destruct H as (n & a & c & m & _ & Hobj & _). rewrite Hobj. reflexivity.
Qed.

End Gain.

(** C2 at its failing input. A handle runs a microphone session with gain
    2.0, is stopped, and is started again with [StartSystemAudio]: the
    system-audio session still has [gain_] = 2.0, and the frame (0.75, -0.25)
    reaches the chunk buffer as (1.5, -0.5). *)
Theorem SystemAudio_applies_leftover_gain :
  running_ (obj Samples.system_after_mic) = true /\
  gain_ (obj Samples.system_after_mic) = B64.of_Z 2 /\
  option_map (fun st => chunkBuffer_ (obj st))
    (match ProcessAudioData [Samples.f32 3 (-2); Samples.f32 (-1) (-2)] 1
             Samples.system_after_mic with
     | Ok st => Some st
     | _ => None
     end)
  = Some [Samples.f32 3 (-1); Samples.f32 (-1) (-1)].
Proof. vm_compute. repeat split. Qed.

Section Downmix.

Context {flt dbl : Type} {A : Arith flt dbl}.

(** ** Downmix *)

Lemma fold_left_ext_in {X Y : Type} (f g : X -> Y -> X) (l : list Y) :
  (forall a y, In y l -> f a y = g a y) ->
  forall z, fold_left f l z = fold_left g l z.
Proof.
  induction l as [|y l IH]; intros H z; [reflexivity|].
  cbn. rewrite (H z y) by now left. apply IH. intros a y' Hin. apply H. now right.
Qed.

Lemma fold_left_map {X Y Z : Type} (f : X -> Z -> X) (h : Y -> Z) (l : list Y) :
  forall z, fold_left f (map h l) z = fold_left (fun a y => f a (h y)) l z.
Proof. induction l as [|y l IH]; intros z; [reflexivity | cbn; apply IH]. Qed.

(** Sample [c] of frame [k] sits at index [k * n + c] of the interleaved
    buffer. *)
Lemma nth_interleaved {X : Type} (d : X) (n : nat) (frames : list (list X)) :
  Forall (fun fr => List.length fr = n) frames ->
  forall k c, (k < List.length frames)%nat -> (c < n)%nat ->
    nth (k * n + c) (List.concat frames) d = nth c (nth k frames []) d.
Proof.
  induction 1 as [|fr rest Hfr Hrest IH]; intros k c Hk Hc; [inversion Hk|].
  cbn [List.concat]. destruct k as [|k].
  - cbn [Nat.mul Nat.add nth]. apply app_nth1. lia.
  - rewrite app_nth2 by (rewrite Hfr; lia).
    replace (S k * n + c - List.length fr)%nat with (k * n + c)%nat by (rewrite Hfr; lia).
    cbn [nth]. apply IH; [cbn in Hk; lia | exact Hc].
Qed.

(** On a buffer made of whole frames, [ConvertToMono] gives one sample per
    frame: the mean of its channels. *)
Lemma ConvertToMono_frames (channels : N) (frames : list (list flt)) :
  Forall (fun fr => List.length fr = N.to_nat channels) frames ->
  ConvertToMono channels (List.concat frames) (N.of_nat (List.length frames))
  = map (frame_mean channels) frames.
Proof.
  intros Hall. unfold ConvertToMono, indices. rewrite Nat2N.id, map_map.
  rewrite <- (map_nth_seq [] frames) at 2. rewrite map_map.
  apply map_ext_in. intros k Hk. apply in_seq in Hk.
  unfold frame_mean. f_equal.
  rewrite fold_left_map.
  assert (Hlen : List.length (nth k frames []) = N.to_nat channels).
  { rewrite Forall_forall in Hall. apply Hall, nth_In. lia. }
  rewrite <- (map_nth_seq f_zero (nth k frames [])) at 1.
  rewrite fold_left_map, Hlen.
  apply fold_left_ext_in. intros a c Hc. apply in_seq in Hc. f_equal.
  unfold read.
  replace (N.to_nat (N.of_nat k * channels + N.of_nat c))
    with (k * N.to_nat channels + c)%nat by lia.
  apply nth_interleaved; [exact Hall | lia | lia].
Qed.

End Downmix.



Section Silence.

Context {flt dbl : Type} {A : Arith flt dbl}.

(** ** Silence watchdog *)

Lemma drain_packets_received (pks : list PacketObs) :
  forall (st st1 : @State flt dbl) (b : bool),
    drain_packets pks true st = Ok (b, st1) -> b = true.
Proof.
  induction pks as [|pk rest IH]; intros st st1 b; cbn [drain_packets].
  - intros H; inversion H; reflexivity.
  - destruct (negb (running_ (obj st))); [intros H; inversion H; reflexivity|].
    destruct (FAILED (hr_GetBuffer pk)); [intros H; inversion H; reflexivity|].
    destruct (pk_data pk) as [data|]; [destruct (negb (pk_silent pk))|]; cbn [bind].
    + destruct (ProcessAudioData _ _ _) as [st2| |]; cbn [bind]; try discriminate.
      destruct (FAILED (hr_ReleaseBuffer pk)); [intros H; inversion H; reflexivity|].
      destruct (FAILED (hr_NextPacketSize pk)); [intros H; inversion H; reflexivity|].
      apply IH.
    + destruct (FAILED (hr_ReleaseBuffer pk)); [intros H; inversion H; reflexivity|].
      destruct (FAILED (hr_NextPacketSize pk)); [intros H; inversion H; reflexivity|].
      apply IH.
    + destruct (FAILED (hr_ReleaseBuffer pk)); [intros H; inversion H; reflexivity|].
      destruct (FAILED (hr_NextPacketSize pk)); [intros H; inversion H; reflexivity|].
      apply IH.
Qed.

(** A turn that received no audio has processed no packet: the state is
    untouched when the silence check begins. *)
Lemma drain_packets_nothing (pks : list PacketObs) :
  forall st st1 : @State flt dbl,
    drain_packets pks false st = Ok (false, st1) -> st1 = st.
Proof.
  induction pks as [|pk rest IH]; intros st st1; cbn [drain_packets].
  - intros H; inversion H; reflexivity.
  - destruct (negb (running_ (obj st))); [intros H; inversion H; reflexivity|].
    destruct (FAILED (hr_GetBuffer pk)); [intros H; inversion H; reflexivity|].
    destruct (pk_data pk) as [data|]; [destruct (negb (pk_silent pk))|]; cbn [bind].
    + destruct (ProcessAudioData _ _ _) as [st2| |]; cbn [bind]; try discriminate.
      destruct (FAILED (hr_ReleaseBuffer pk)); [discriminate|].
      destruct (FAILED (hr_NextPacketSize pk)); [discriminate|].
      intros H. apply drain_packets_received in H. discriminate.
    + destruct (FAILED (hr_ReleaseBuffer pk)); [intros H; inversion H; reflexivity|].
      destruct (FAILED (hr_NextPacketSize pk)); [intros H; inversion H; reflexivity|].
      apply IH.
    + destruct (FAILED (hr_ReleaseBuffer pk)); [intros H; inversion H; reflexivity|].
      destruct (FAILED (hr_NextPacketSize pk)); [intros H; inversion H; reflexivity|].
      apply IH.
Qed.

(** The guard of the silence check: with a chunk size of zero or without
    a data callback, a due check emits nothing and still moves
    [lastDataTime_]. *)
Lemma silence_watchdog_guarded (chunkDuration now : Z) (st : @State flt dbl) :
  emitSilence_ (obj st) = true ->
  chunkDuration <= to_milliseconds (now - lastDataTime_ (obj st)) ->
  silentSamples (obj st) = 0%N \/ dataCallback_ (obj st) = false ->
  silence_watchdog chunkDuration false now st = upd (set_lastDataTime_ now) st.
Proof.
  intros Hon Hdue Hguard. unfold silence_watchdog. rewrite Hon. cbn [negb andb].
  apply Z.leb_le in Hdue. rewrite Hdue.
  destruct Hguard as [-> | ->]; [reflexivity | now rewrite andb_false_r].
Qed.

(** C5, as the code has it. With emit-silence on, a turn of the worker loop
    that receives no audio and sees at least [chunkDuration] whole
    milliseconds since [lastDataTime_] sets [lastDataTime_] to now, however
    long the gap was.  With a data callback and a positive chunk size it
    calls the data callback once, with [samplesPerChunk_ * channels] zeros,
    and a following quiet turn less than [chunkDuration] later emits
    nothing.  Without a data callback, or with a chunk size of zero, it
    emits nothing. *)
Theorem silence_watchdog_emits_one_chunk
    (chunkDuration : Z) (ob : IterObs) (st st1 : @State flt dbl)
    (Hwait : wait_signaled ob = false)
    (Hhr : FAILED (hr_GetNextPacketSize ob) = false)
    (Hquiet : drain_packets (packets ob) false st = Ok (false, st1))
    (Hon : emitSilence_ (obj st) = true)
    (Helapsed : chunkDuration
                <= to_milliseconds (now_watchdog ob - lastDataTime_ (obj st))) :
  (dataCallback_ (obj st) = true -> (0 < silentSamples (obj st))%N ->
   let st' :=
     {| obj := set_lastDataTime_ (now_watchdog ob) (obj st);
        os := os st;
        out := out st ++ [EvData (repeat f_zero (N.to_nat (silentSamples (obj st))))
                                 (to_int32 (size_mul (silentSamples (obj st)) 4))] |} in
   CaptureThread_turn chunkDuration ob st = Ok (true, st') /\
   forall ob',
     wait_signaled ob' = false ->
     FAILED (hr_GetNextPacketSize ob') = false ->
     packets ob' = [] ->
     to_milliseconds (now_watchdog ob' - now_watchdog ob) < chunkDuration ->
     CaptureThread_turn chunkDuration ob' st' = Ok (true, st')) /\
  (dataCallback_ (obj st) = false \/ silentSamples (obj st) = 0%N ->
   CaptureThread_turn chunkDuration ob st
   = Ok (true, {| obj := set_lastDataTime_ (now_watchdog ob) (obj st);
                  os := os st;
                  out := out st |})).
Proof.
  split.
  - intros Hcb Hsize st'. split.
    + unfold CaptureThread_turn. rewrite Hwait, Hhr, Hquiet. cbn [bind].
      apply drain_packets_nothing in Hquiet. subst st1.
      unfold silence_watchdog. rewrite Hon. cbn [negb andb].
      apply Z.leb_le in Helapsed. rewrite Helapsed.
      apply N.ltb_lt in Hsize. rewrite Hsize, Hcb. reflexivity.
    + intros ob' Hwait' Hhr' Hpk Hsoon.
      unfold CaptureThread_turn. rewrite Hwait', Hhr', Hpk. cbn [drain_packets bind].
      unfold silence_watchdog. subst st'.
      cbn [obj emitSilence_ set_lastDataTime_ lastDataTime_].
      rewrite Hon. cbn [negb andb].
      apply Z.leb_gt in Hsoon. rewrite Hsoon. reflexivity.
  - intros Hguard.
    unfold CaptureThread_turn. rewrite Hwait, Hhr, Hquiet. cbn [bind].
    apply drain_packets_nothing in Hquiet. subst st1.
    rewrite silence_watchdog_guarded; [reflexivity | exact Hon | exact Helapsed | tauto].
Qed.

End Silence.

Lemma silence_watchdog_emits_one_chunk_witness :
  CaptureThread_turn 1 (Samples.quiet_turn 5000000) Samples.running_1ms
  = Ok (true,
        {| obj := set_lastDataTime_ 5000000 (obj Samples.running_1ms);
           os := os Samples.running_1ms;
           out := out Samples.running_1ms
                  ++ [EvData (repeat (S754_zero false) 48) 192] |}).
Proof.
  refine (proj1 (proj1 (@silence_watchdog_emits_one_chunk _ _ IEEE 1
                          (Samples.quiet_turn 5000000)
                          Samples.running_1ms Samples.running_1ms _ _ _ _ _) _ _)).
  - reflexivity.
  - reflexivity.
  - reflexivity.
  - reflexivity.
  - vm_compute. discriminate.
  - reflexivity.
  - reflexivity.
Defined.

(** C5, as stated, fails: on a running session with emit-silence on and no
    data callback (the silence check tests [dataCallback_]), a quiet turn
    five seconds after the last data emits nothing, and moves
    [lastDataTime_] all the same. *)
Lemma silence_watchdog_emits_nothing_without_callback :
  running_ (obj Scenarios.running_mute) = true /\
  emitSilence_ (obj Scenarios.running_mute) = true /\
  dataCallback_ (obj Scenarios.running_mute) = false /\
  1 <= to_milliseconds (5000000 - lastDataTime_ (obj Scenarios.running_mute)) /\
  exists st',
    CaptureThread_turn 1 (Samples.quiet_turn 5000000) Scenarios.running_mute
    = Ok (true, st') /\
    out st' = out Scenarios.running_mute /\
    lastDataTime_ (obj st') = 5000000.
Proof.
  split; [reflexivity|]. split; [reflexivity|]. split; [reflexivity|].
  split; [vm_compute; discriminate|].
  eexists. split; [vm_compute; reflexivity|]. split; reflexivity.
Qed.

Section NativeRate.

(** ** Sessions that keep the native rate *)

Lemma new_location_zero (n : Z) : new_location n 0 = loc_Exact.
Proof. unfold new_location. destruct (Z.even n); reflexivity. Qed.

Lemma B64_div_self (m : positive) (e : Z) :
  B64.div (S754_finite false m e) (S754_finite false m e) = B64.one.
Proof.
  unfold B64.div, SFdiv, SFdiv_core_binary.
  rewrite !Z.sub_diag.
  change (Z.min (fexp B64.prec B64.emax 0) 0) with (-53).
  change (0 - -53) with 53.
  cbv iota beta.
  assert (Hdiv : Z.div_eucl (Z.shiftl (Zpos m) 53) (Zpos m) = (2 ^ 53, 0)).
  { rewrite Z.shiftl_mul_pow2 by lia.
    destruct (Z.div_eucl (Z.pos m * 2 ^ 53) (Z.pos m)) as [q r] eqn:E.
    assert (Hq : q = Z.pos m * 2 ^ 53 / Z.pos m) by (unfold Z.div; now rewrite E).
    assert (Hr : r = (Z.pos m * 2 ^ 53) mod Z.pos m) by (unfold Z.modulo; now rewrite E).
    rewrite Z.mul_comm, Z.div_mul in Hq by discriminate.
    rewrite Z.mul_comm, Z.mod_mul in Hr by discriminate.
    now subst. }
  rewrite Hdiv. rewrite new_location_zero. vm_compute. reflexivity.
Qed.

Lemma digits2_pos_size (p : positive) : digits2_pos p = Pos.size p.
Proof. induction p; cbn; congruence. Qed.

Lemma digits2_pos_shift (p k : positive) :
  digits2_pos (Pos.iter xO p k) = (digits2_pos p + k)%positive.
Proof.
  induction k as [|k IH] using Pos.peano_ind.
  - cbn. lia.
  - rewrite Pos.iter_succ. cbn [digits2_pos]. rewrite IH. lia.
Qed.

Lemma digits2_pos_bound (p : positive) (k : Z) :
  Zpos p < 2 ^ k -> 0 <= k -> Zpos (digits2_pos p) <= k.
Proof.
  intros Hp Hk. rewrite digits2_pos_size.
  pose proof (Pos.size_le p) as Hle.
  apply Z.nlt_ge. intros Hgt.
  assert (H2 : 2 ^ (k + 1) <= 2 ^ Zpos (Pos.size p)) by (apply Z.pow_le_mono_r; lia).
  rewrite Z.pow_add_r in H2 by lia.
  assert (Hs : 2 ^ Zpos (Pos.size p) <= Zpos p~0).
  { rewrite <- Pos2Z.inj_pow. apply Pos2Z.pos_le_pos. exact Hle. }
  rewrite Pos2Z.inj_xO in Hs. lia.
Qed.

(** A positive integer below 2^53 converts to a finite double. *)
Lemma B64_of_Z_finite (p : positive) :
  Zpos p < 2 ^ 53 -> exists m e, B64.of_Z (Zpos p) = S754_finite false m e.
Proof.
  intros Hp.
  pose proof (@digits2_pos_bound p 53 Hp ltac:(lia)) as Hd.
  unfold B64.of_Z, binary_normalize, binary_round.
  set (d := digits2_pos p) in *.
  assert (Hfexp : fexp B64.prec B64.emax (Zpos d + 0) = Zpos d - 53).
  { unfold fexp, emin, B64.prec, B64.emax. lia. }
  rewrite Hfexp.
  assert (Hal : exists mz, shl_align p 0 (Zpos d - 53) = (mz, Zpos d - 53) /\
                           Zpos (digits2_pos mz) = 53).
  { unfold shl_align. rewrite Z.sub_0_r.
    destruct (Zpos d - 53) as [|q|q] eqn:Hq; try lia.
    - exists p. split; [reflexivity|]. fold d. lia.
    - exists (Pos.iter xO p q). split; [reflexivity|].
      rewrite digits2_pos_shift. fold d. lia. }
  destruct Hal as (mz & -> & Hmz).
  unfold binary_round_aux, shr_fexp.
  cbn [Zdigits2 shr_record_of_loc]. rewrite Hmz.
  assert (Hf2 : fexp B64.prec B64.emax (53 + (Zpos d - 53)) - (Zpos d - 53) = 0).
  { unfold fexp, emin, B64.prec, B64.emax. lia. }
  rewrite Hf2. cbn [shr shr_m loc_of_shr_record round_nearest_even Zdigits2 shr_record_of_loc].
  rewrite Hmz, Hf2. cbn [shr shr_m].
  assert (Hle : (Zpos d - 53 <=? B64.emax - B64.prec) = true).
  { apply Z.leb_le. unfold B64.emax, B64.prec. lia. }
  rewrite Hle. eauto.
Qed.

(** C10. A [Start...] call whose target sample rate is not positive and
    that succeeds on a device with a non-zero native rate reports the
    native rate through the metadata callback and stores a resample ratio
    of exactly 1.0; from then on, whatever the worker does, the resample
    stage hands its input through untouched. *)
Theorem nonpositive_target_keeps_native_rate
    (st st' : @State spec_float spec_float)
    (sampleRate chunkDurationMs : spec_float) (isMono emitSilence : bool)
    (env : Outcome)
    (Hstart : start_succeeds st sampleRate chunkDurationMs isMono emitSilence env st')
    (Htarget : d_gtb sampleRate (d_of_size 0) = false)
    (Hnative : (0 < nSamplesPerSec (device_format env) < 2 ^ 32)%N) :
  let native := d_of_size (nSamplesPerSec (device_format env)) in
  (metadataCallback_ (obj st) = true ->
   exists rest,
     out st' = out st
               ++ EvMetadata native (if isMono then 1%N else nChannels (device_format env))
                    32 true "pcm_f32le"%string :: rest) /\
  resampleRatio_ (obj st') = B64.one /\
  forall start obs st'',
    CaptureThread start obs st' = Ok st'' ->
    forall floatData numFrames numChannels,
      resample_stage (obj st'') floatData numFrames numChannels
      = Ok (floatData, numFrames).
Proof.
  intros native. apply start_succeeds_started in Hstart.
  destruct Hstart as (gain & n & a & c & m & Hn & Hobj & Hout).
  assert (Hrate : output_rate sampleRate (device_format env) = native).
  { unfold output_rate. now rewrite Htarget. }
  rewrite Hrate in Hobj, Hout.
  assert (Hone : d_div native native = B64.one).
  { subst native. cbn [d_of_size IEEE d_div].
    destruct (nSamplesPerSec (device_format env)) as [|p] eqn:Hp; [lia|].
    cbn [Z.of_N].
    destruct (@B64_of_Z_finite p) as (mz & ez & ->); [|apply B64_div_self].
    assert (Z.of_N (N.pos p) < 2 ^ 32) by lia. cbn [Z.of_N] in *. lia. }
  assert (Hratio : resampleRatio_ (obj st') = B64.one) by (rewrite Hobj; exact Hone).
  split; [|split; [exact Hratio|]].
  - intros Hmeta. rewrite Hout, Hmeta. eexists. reflexivity.
  - intros start obs st'' Hrun floatData numFrames numChannels.
    apply CaptureThread_worker_only in Hrun.
    assert (Hsame : resampleRatio_ (obj st'') = resampleRatio_ (obj st'))
      by (rewrite Hrun; reflexivity).
    unfold resample_stage. rewrite Hsame, Hratio. reflexivity.
Qed.

End NativeRate.

Lemma nonpositive_target_keeps_native_rate_witness :
  let st' := Samples.state_of
               (StartSystemAudio (B64.of_Z 0) (B64.of_Z 200) false false true
                  None 0 None 0 (Samples.all_ok Samples.stereo_48k)
                  (Samples.created (A := IEEE)))
               Samples.created in
  resampleRatio_ (obj st') = B64.one.
Proof.
  intros st'.
  apply (@nonpositive_target_keeps_native_rate Samples.created st'
           (B64.of_Z 0) (B64.of_Z 200) false true (Samples.all_ok Samples.stereo_48k)).
  - right. exists false, None, 0, None, 0. vm_compute. reflexivity.
  - reflexivity.
  - split; reflexivity.
Defined.

Section Resample.

Context {flt dbl : Type} {A : Arith flt dbl}.

(** ** Resampling *)

Lemma collect_spec {X Y : Type} (f : X -> result Y) (l : list X) :
  forall ys, collect f l = Ok ys ->
    List.length ys = List.length l /\
    forall j dx dy, (j < List.length l)%nat -> f (nth j l dx) = Ok (nth j ys dy).
Proof.
  induction l as [|x l IH]; intros ys; cbn [collect].
  - intros H; inversion H; subst. split; [reflexivity|]. intros j dx dy Hj; inversion Hj.
  - destruct (f x) as [y| |] eqn:Hx; cbn [bind]; try discriminate.
    destruct (collect f l) as [ys'| |]; cbn [bind]; try discriminate.
    intros H; inversion H; subst. destruct (IH ys' eq_refl) as [Hlen Hnth].
    split; [cbn; congruence|].
    intros [|j] dx dy Hj; cbn [nth]; [exact Hx|]. apply Hnth. cbn in Hj. lia.
Qed.

Lemma nth_indices (n i d : N) : (i < n)%N -> nth (N.to_nat i) (indices n) d = i.
Proof.
  intros Hi. unfold indices.
  rewrite nth_indep with (d' := N.of_nat 0) by (rewrite length_map, length_seq; lia).
  rewrite map_nth, seq_nth by lia. lia.
Qed.

(** [ResampleAudio], sample by sample. *)
Lemma ResampleAudio_spec (ratio : dbl) (input : list flt) (inputSamples : N)
    (output : list flt) :
  ResampleAudio ratio input inputSamples = Ok output ->
  to_size_t (d_mul (d_of_size inputSamples) ratio) = Ok (N.of_nat (List.length output)) /\
  forall i, (i < N.of_nat (List.length output))%N ->
    resample_at ratio input inputSamples i = Ok (read output i).
Proof.
  unfold ResampleAudio.
  destruct (to_size_t _) as [outputSamples| |]; cbn [bind]; try discriminate.
  intros H. apply collect_spec in H. destruct H as [Hlen Hnth].
  rewrite indices_length in Hlen.
  split; [f_equal; lia|].
  intros i Hi. unfold read.
  rewrite <- (Hnth (N.to_nat i) 0%N f_zero) by (rewrite indices_length; lia).
  rewrite nth_indices by lia. reflexivity.
Qed.

End Resample.

Section IntegerPart.

Lemma Qtrunc_nonneg (q : Q) :
  (0 <= q)%Q -> (inject_Z (Qtrunc q) <= q /\ q < inject_Z (Qtrunc q) + 1)%Q.
Proof.
  intros Hq. assert (Hfl : Qtrunc q = Qfloor q).
  { destruct q as [n d]. unfold Qtrunc, Qfloor. cbn [Qnum Qden].
    apply Z.quot_div_nonneg; [|lia]. unfold Qle in Hq. cbn in Hq. lia. }
  rewrite Hfl. split; [apply Qfloor_le|].
  pose proof (Qlt_floor q) as H. rewrite inject_Z_plus in H. exact H.
Qed.

Lemma Qtrunc_opp (q : Q) : Qtrunc (- q) = - Qtrunc q.
Proof.
  destruct q as [n d]. unfold Qtrunc. cbn [Qopp Qnum Qden].
  apply Z.quot_opp_l. discriminate.
Qed.

Lemma Qtrunc_within_one (q : Q) :
  (inject_Z (Qtrunc q) - 1 < q /\ q < inject_Z (Qtrunc q) + 1)%Q.
Proof.
  destruct (Qlt_le_dec q 0) as [Hneg | Hpos].
  - assert (H : (0 <= - q)%Q) by lra.
    apply Qtrunc_nonneg in H. rewrite Qtrunc_opp, inject_Z_opp in H. lra.
  - apply Qtrunc_nonneg in Hpos. lra.
Qed.

End IntegerPart.

(** ** IEEE arithmetic: the operations round to nearest *)

Section RealFacts.

Import Rounding.
Local Open Scope R_scope.
Local Unset Implicit Arguments.

Lemma bpow_pos (e : Z) : 0 < bpow e.
Proof. apply powerRZ_lt. lra. Qed.

Lemma bpow_add (a b : Z) : bpow (a + b) = bpow a * bpow b.
Proof. apply powerRZ_add. lra. Qed.

Lemma bpow_0 : bpow 0 = 1.
Proof. reflexivity. Qed.

Lemma bpow_1 : bpow 1 = 2.
Proof. unfold bpow, powerRZ. rewrite Pos2Nat.inj_1. simpl. lra. Qed.

Lemma Rabs_le_inv (x y : R) : Rabs x <= y -> - y <= x <= y.
Proof. unfold Rabs. destruct (Rcase_abs x); lra. Qed.

Lemma bpow_m1 : bpow (- 1) = / 2.
Proof. unfold bpow, powerRZ. rewrite Pos2Nat.inj_1. simpl. f_equal. lra. Qed.

Lemma bpow_m2 : bpow (- 2) = / 4.
Proof.
  unfold bpow, powerRZ. change (Pos.to_nat 2) with 2%nat. simpl. f_equal. lra.
Qed.

Lemma bpow_2 : bpow 2 = 4.
Proof. unfold bpow, powerRZ. change (Pos.to_nat 2) with 2%nat. simpl. lra. Qed.

Lemma bpow_3 : bpow 3 = 8.
Proof. unfold bpow, powerRZ. change (Pos.to_nat 3) with 3%nat. simpl. lra. Qed.

Lemma bpow_m3 : bpow (- 3) = / 8.
Proof.
  unfold bpow, powerRZ. change (Pos.to_nat 3) with 3%nat. simpl. f_equal. lra.
Qed.

Lemma bpow_opp (e : Z) : bpow (- e) = / bpow e.
Proof.
  pose proof (bpow_add e (- e)) as H. rewrite Z.add_opp_diag_r, bpow_0 in H.
  pose proof (bpow_pos e). pose proof (bpow_pos (- e)).
  apply (Rmult_eq_reg_l (bpow e)); [|lra]. rewrite Rinv_r by lra. lra.
Qed.

Lemma bpow_IZR (e : Z) : (0 <= e)%Z -> bpow e = IZR (2 ^ e).
Proof.
  intros He. unfold bpow. destruct e as [|p|p]; [reflexivity| |lia].
  cbn [powerRZ]. rewrite <- (positive_nat_Z p).
  rewrite <- pow_IZR. reflexivity.
Qed.

Lemma bpow_ge_1 (e : Z) : (0 <= e)%Z -> 1 <= bpow e.
Proof.
  intros He. rewrite bpow_IZR by exact He. apply IZR_le.
  pose proof (Z.pow_pos_nonneg 2 e). lia.
Qed.

Lemma bpow_le (a b : Z) : (a <= b)%Z -> bpow a <= bpow b.
Proof.
  intros H. replace b with (a + (b - a))%Z by lia. rewrite bpow_add.
  pose proof (bpow_pos a). pose proof (bpow_ge_1 (b - a)%Z ltac:(lia)). nra.
Qed.

Lemma bpow_lt (a b : Z) : (a < b)%Z -> bpow a < bpow b.
Proof.
  intros H. replace b with (a + 1 + (b - a - 1))%Z by lia. rewrite !bpow_add, bpow_1.
  pose proof (bpow_pos a). pose proof (bpow_ge_1 (b - a - 1)%Z ltac:(lia)). nra.
Qed.

Lemma bpow_lt_inv (a b : Z) : bpow a < bpow b -> (a < b)%Z.
Proof.
  intros H. destruct (Z_lt_le_dec a b) as [Hlt | Hge]; [exact Hlt|].
  apply bpow_le in Hge. lra.
Qed.

Lemma bpow_le_inv (a b : Z) : bpow a <= bpow b -> (a <= b)%Z.
Proof.
  intros H. destruct (Z_le_gt_dec a b) as [Hle | Hgt]; [exact Hle|].
  apply Z.gt_lt, bpow_lt in Hgt. lra.
Qed.

Lemma bpow_succ (e : Z) : bpow (e + 1) = 2 * bpow e.
Proof. rewrite bpow_add, bpow_1. ring. Qed.

Lemma bpow_pred (e : Z) : bpow (e - 1) = bpow e / 2.
Proof.
  pose proof (bpow_succ (e - 1)%Z) as H. replace (e - 1 + 1)%Z with e in H by lia. lra.
Qed.

(** The magnitude of a positive real is unique. *)
Lemma mag_unique (v : R) (k k' : Z) :
  bpow (k - 1) <= v < bpow k -> bpow (k' - 1) <= v < bpow k' -> k = k'.
Proof.
  intros [H1 H2] [H3 H4].
  assert (k - 1 < k')%Z by (apply bpow_lt_inv; lra).
  assert (k' - 1 < k)%Z by (apply bpow_lt_inv; lra).
  lia.
Qed.

Lemma mag_search (v : R) (j : nat) :
  forall a : Z, bpow a <= v < bpow (a + Z.of_nat j) ->
                exists k : Z, bpow (k - 1) <= v < bpow k.
Proof.
  induction j as [|j IH]; intros a [H1 H2].
  - rewrite Z.add_0_r in H2. lra.
  - destruct (Rlt_le_dec v (bpow (a + Z.of_nat j))) as [Hlt | Hge].
    + apply (IH a). split; assumption.
    + exists (a + Z.of_nat j + 1)%Z. split.
      * replace (a + Z.of_nat j + 1 - 1)%Z with (a + Z.of_nat j)%Z by lia. exact Hge.
      * replace (a + Z.of_nat j + 1)%Z with (a + Z.of_nat (S j))%Z by lia. exact H2.
Qed.

Lemma bpow_above (x : R) : exists n : Z, (0 <= n)%Z /\ x < bpow n.
Proof.
  exists (Z.max (up x) 0). split; [lia|].
  destruct (archimed x) as [Hup _].
  apply Rlt_le_trans with (IZR (up x)); [lra|].
  rewrite bpow_IZR by lia. apply IZR_le.
  pose proof (Z.pow_gt_lin_r 2 (Z.max (up x) 0) ltac:(lia) ltac:(lia)). lia.
Qed.

(** Every positive real has a magnitude. *)
Lemma mag_exists (v : R) : 0 < v -> exists k : Z, bpow (k - 1) <= v < bpow k.
Proof.
  intros Hv.
  destruct (bpow_above v) as (n & Hn & Hvn).
  destruct (bpow_above (/ v)) as (n' & Hn' & Hvn').
  apply (mag_search v (Z.to_nat (n + n')) (- n')).
  split.
  - rewrite bpow_opp. pose proof (bpow_pos n').
    apply Rlt_le. rewrite <- (Rinv_inv v).
    apply Rinv_lt_contravar; [|exact Hvn'].
    apply Rmult_lt_0_compat; [apply Rinv_0_lt_compat, Hv | lra].
  - rewrite Z2Nat.id by lia. replace (- n' + (n + n'))%Z with n by lia. exact Hvn.
Qed.

(** *** Floor *)

Lemma Zfloor_spec (x : R) : IZR (Zfloor x) <= x < IZR (Zfloor x) + 1.
Proof.
  unfold Zfloor. rewrite minus_IZR. destruct (archimed x) as [H1 H2]. lra.
Qed.

Lemma Zfloor_unique (x : R) (n : Z) : IZR n <= x < IZR n + 1 -> Zfloor x = n.
Proof.
  intros [H1 H2]. destruct (Zfloor_spec x) as [H3 H4].
  assert (Zfloor x < n + 1)%Z by (apply lt_IZR; rewrite plus_IZR; lra).
  assert (n < Zfloor x + 1)%Z by (apply lt_IZR; rewrite plus_IZR; lra).
  lia.
Qed.

Lemma Zfloor_IZR (n : Z) : Zfloor (IZR n) = n.
Proof. apply Zfloor_unique. lra. Qed.

Lemma Zfloor_le (x y : R) : x <= y -> (Zfloor x <= Zfloor y)%Z.
Proof.
  intros H. destruct (Zfloor_spec x) as [H1 H2], (Zfloor_spec y) as [H3 H4].
  assert (Zfloor x < Zfloor y + 1)%Z by (apply lt_IZR; rewrite plus_IZR; lra). lia.
Qed.

(** *** Nearest integer, ties to even *)

Lemma Znearest_even_cases (x : R) (m : Z) :
  (x = IZR m -> Znearest_even x = m) /\
  (IZR m < x < IZR m + / 2 -> Znearest_even x = m) /\
  (x = IZR m + / 2 -> Znearest_even x = if Z.even m then m else (m + 1)%Z) /\
  (IZR m + / 2 < x < IZR m + 1 -> Znearest_even x = (m + 1)%Z).
Proof.
  unfold Znearest_even.
  split; [|split; [|split]]; intros H;
    (assert (Hf : Zfloor x = m) by (apply Zfloor_unique; lra)); rewrite Hf;
    destruct (Rlt_dec (x - IZR m) (/ 2)); try lra;
    destruct (Rlt_dec (/ 2) (x - IZR m)); try lra; reflexivity.
Qed.

Lemma Znearest_even_IZR (n : Z) : Znearest_even (IZR n) = n.
Proof. apply (proj1 (Znearest_even_cases (IZR n) n)). reflexivity. Qed.

Lemma Znearest_even_floor (x : R) :
  Znearest_even x = Zfloor x \/ Znearest_even x = (Zfloor x + 1)%Z.
Proof.
  unfold Znearest_even. destruct (Rlt_dec _ _); [auto|].
  destruct (Rlt_dec _ _); [auto|]. destruct (Z.even _); auto.
Qed.

Lemma Znearest_even_error (x : R) : Rabs (IZR (Znearest_even x) - x) <= / 2.
Proof.
  unfold Znearest_even. destruct (Zfloor_spec x) as [H1 H2].
  destruct (Rlt_dec (x - IZR (Zfloor x)) (/ 2));
    [|destruct (Rlt_dec (/ 2) (x - IZR (Zfloor x))); [|destruct (Z.even _)]];
    rewrite ?plus_IZR; apply Rabs_le; lra.
Qed.

Lemma Znearest_even_le (x y : R) : x <= y -> (Znearest_even x <= Znearest_even y)%Z.
Proof.
  intros H. pose proof (Zfloor_le _ _ H) as Hf.
  destruct (Z.eq_dec (Zfloor x) (Zfloor y)) as [Heq | Hne].
  - unfold Znearest_even. rewrite Heq.
    destruct (Rlt_dec (x - IZR (Zfloor y)) (/ 2));
      destruct (Rlt_dec (y - IZR (Zfloor y)) (/ 2)); try lia; try lra;
      destruct (Rlt_dec (/ 2) (x - IZR (Zfloor y)));
      destruct (Rlt_dec (/ 2) (y - IZR (Zfloor y))); try lia; try lra;
      destruct (Z.even _); try lia; lra.
  - destruct (Znearest_even_floor x) as [-> | ->]; [|];
      destruct (Znearest_even_floor y) as [-> | ->]; lia.
Qed.

End RealFacts.

Section RoundingFacts.

Import Rounding.
Local Open Scope R_scope.
Local Unset Implicit Arguments.

Variables prec emax : Z.
Hypothesis Hprec : (0 < prec)%Z.

Local Abbreviation fexp := (SpecFloat.fexp prec emax).
Local Abbreviation emin := (SpecFloat.emin prec emax).
Local Abbreviation round_pos := (Rounding.round_pos prec emax).
Local Abbreviation rounded := (Rounding.rounded prec emax).
Local Abbreviation representable := (Rounding.representable prec emax).

Lemma fexp_spec (k : Z) : fexp k = Z.max (k - prec) emin.
Proof. reflexivity. Qed.

Lemma fexp_le (k k' : Z) : (k <= k')%Z -> (fexp k <= fexp k')%Z.
Proof. rewrite !fexp_spec. lia. Qed.

Lemma Rdiv_bpow (m : R) (e E : Z) : m * bpow e / bpow E = m * bpow (e - E).
Proof.
  unfold Z.sub. rewrite bpow_add, bpow_opp. unfold Rdiv. ring.
Qed.

Lemma bpow_div (e E : Z) : bpow e / bpow E = bpow (e - E).
Proof. pose proof (Rdiv_bpow 1 e E) as H. rewrite !Rmult_1_l in H. exact H. Qed.

(** The digits of a positive integer. *)
Lemma Zdigits_spec (m : Z) :
  (0 < m)%Z -> (2 ^ Z.log2 m <= m < 2 ^ (Z.log2 m + 1))%Z.
Proof. intros H. pose proof (Z.log2_spec m H). now rewrite <- Z.add_1_r in *. Qed.

Lemma IZR_bpow_mag (m e : Z) :
  (0 < m)%Z ->
  bpow (Z.log2 m + 1 + e - 1) <= IZR m * bpow e < bpow (Z.log2 m + 1 + e).
Proof.
  intros Hm. destruct (Zdigits_spec m Hm) as [H1 H2].
  pose proof (Z.log2_nonneg m) as Hl.
  replace (Z.log2 m + 1 + e - 1)%Z with (Z.log2 m + e)%Z by lia.
  rewrite !bpow_add, bpow_1, (bpow_IZR (Z.log2 m)) by lia.
  apply IZR_le in H1. apply IZR_lt in H2.
  rewrite <- (bpow_IZR (Z.log2 m + 1)) in H2 by lia. rewrite bpow_add, bpow_1 in H2.
  rewrite (bpow_IZR (Z.log2 m)) in H2 by lia.
  pose proof (bpow_pos e). split; nra.
Qed.

(** *** Rounding a positive real *)

Lemma round_pos_nonneg (v r : R) : 0 < v -> round_pos v r -> 0 <= r.
Proof.
  intros Hv (k & Hk & ->).
  pose proof (bpow_pos (fexp k)) as HE.
  assert (0 <= Znearest_even (v / bpow (fexp k)))%Z.
  { rewrite <- (Znearest_even_IZR 0). apply Znearest_even_le.
    apply Rlt_le, Rdiv_lt_0_compat; lra. }
  apply IZR_le in H. nra.
Qed.

Lemma round_pos_le (v w r r' : R) :
  0 < v -> round_pos v r -> round_pos w r' -> v <= w -> r <= r'.
Proof.
  intros Hv (k & Hk & ->) (k' & Hk' & ->) Hvw.
  assert (Hkk : (k <= k')%Z).
  { assert (k - 1 < k')%Z by (apply bpow_lt_inv; lra). lia. }
  pose proof (fexp_le _ _ Hkk) as HEE.
  pose proof (bpow_pos (fexp k)) as HE. pose proof (bpow_pos (fexp k')) as HE'.
  destruct (Z.eq_dec (fexp k) (fexp k')) as [Heq | Hne].
  - rewrite <- Heq.
    assert (Hle : (Znearest_even (v / bpow (fexp k))
                   <= Znearest_even (w / bpow (fexp k)))%Z).
    { apply Znearest_even_le. unfold Rdiv.
      apply Rmult_le_compat_r; [|exact Hvw].
      apply Rlt_le, Rinv_0_lt_compat, HE. }
    apply IZR_le in Hle. nra.
  - assert (HE'k : fexp k' = (k' - prec)%Z) by (rewrite !fexp_spec in *; lia).
    assert (Hklt : (k < k')%Z) by (rewrite !fexp_spec in *; lia).
    apply Rle_trans with (bpow (k' - 1)).
    + (* the rounding of [v] stays below the next binade *)
      set (j := Z.max (k - fexp k) 0).
      assert (Hj : (Znearest_even (v / bpow (fexp k)) <= 2 ^ j)%Z).
      { rewrite <- (Znearest_even_IZR (2 ^ j)). apply Znearest_even_le.
        rewrite <- bpow_IZR by lia.
        apply Rle_trans with (bpow (k - fexp k)); [|apply bpow_le; lia].
        rewrite <- bpow_div. unfold Rdiv.
        apply Rmult_le_compat_r; [apply Rlt_le, Rinv_0_lt_compat, HE | lra]. }
      apply IZR_le in Hj. rewrite <- bpow_IZR in Hj by lia.
      apply Rle_trans with (bpow j * bpow (fexp k)); [nra|].
      rewrite <- bpow_add. apply bpow_le. unfold j. rewrite !fexp_spec in *. lia.
    + (* the rounding of [w] stays in its binade *)
      assert (Hp : (2 ^ (prec - 1) <= Znearest_even (w / bpow (fexp k')))%Z).
      { rewrite <- (Znearest_even_IZR (2 ^ (prec - 1))). apply Znearest_even_le.
        rewrite <- bpow_IZR by lia.
        replace (prec - 1)%Z with (k' - 1 - fexp k')%Z by lia.
        rewrite <- bpow_div. unfold Rdiv.
        apply Rmult_le_compat_r; [apply Rlt_le, Rinv_0_lt_compat, HE' | lra]. }
      apply IZR_le in Hp. rewrite <- bpow_IZR in Hp by lia.
      replace (k' - 1)%Z with (prec - 1 + fexp k')%Z by lia.
      rewrite bpow_add. nra.
Qed.

Lemma round_pos_error (v r : R) :
  round_pos v r -> Rabs (r - v) <= bpow (- prec) * v + bpow (emin - 1).
Proof.
  intros (k & Hk & ->).
  pose proof (bpow_pos (fexp k)) as HE.
  pose proof (Znearest_even_error (v / bpow (fexp k))) as Herr.
  set (n := IZR (Znearest_even (v / bpow (fexp k)))) in *.
  assert (Hv : v = v / bpow (fexp k) * bpow (fexp k)) by (field; lra).
  assert (Hhalf : Rabs (n * bpow (fexp k) - v) <= bpow (fexp k) / 2).
  { rewrite Hv at 1. rewrite <- Rmult_minus_distr_r, Rabs_mult.
    rewrite (Rabs_pos_eq (bpow _)) by lra. nra. }
  apply Rle_trans with (1 := Hhalf).
  pose proof (bpow_pos (emin - 1)). pose proof (bpow_pos (- prec)).
  pose proof (bpow_pos (k - 1)).
  assert (0 <= bpow (- prec) * v) by (apply Rmult_le_pos; lra).
  destruct (Z.max_spec (k - prec) emin) as [[_ Hm] | [_ Hm]];
    rewrite fexp_spec, Hm.
  - rewrite <- bpow_pred. lra.
  - replace (k - prec)%Z with (k - 1 + - prec + 1)%Z by lia.
    rewrite bpow_succ, bpow_add. nra.
Qed.

(** The rounding of a positive real is a multiple of a power of two that
    fits the precision. *)
Lemma round_pos_representable (v r : R) : 0 < v -> round_pos v r -> representable r.
Proof.
  intros Hv Hr. pose proof (round_pos_nonneg _ _ Hv Hr) as Hr0.
  destruct Hr as (k & Hk & ->).
  pose proof (bpow_pos (fexp k)) as HE.
  set (n := Znearest_even (v / bpow (fexp k))) in *.
  assert (Hn0 : (0 <= n)%Z).
  { apply le_IZR. nra. }
  set (j := Z.max (k - fexp k) 0).
  assert (Hj : (n <= 2 ^ j)%Z).
  { unfold n. rewrite <- (Znearest_even_IZR (2 ^ j)). apply Znearest_even_le.
    rewrite <- bpow_IZR by lia.
    apply Rle_trans with (bpow (k - fexp k)); [|apply bpow_le; lia].
    rewrite <- bpow_div. unfold Rdiv.
    apply Rmult_le_compat_r; [apply Rlt_le, Rinv_0_lt_compat, HE | lra]. }
  assert (Hjp : (j <= prec)%Z) by (unfold j; rewrite fexp_spec; lia).
  assert (Hpow : (2 ^ j <= 2 ^ prec)%Z) by (apply Z.pow_le_mono_r; lia).
  destruct (Z.eq_dec n (2 ^ prec)) as [Heq | Hne].
  - exists (2 ^ (prec - 1))%Z, (fexp k + 1)%Z. split; [|split].
    + rewrite Heq, <- !bpow_IZR, <- !bpow_add by lia. f_equal. lia.
    + rewrite Z.abs_eq by (apply Z.pow_nonneg; lia).
      apply Z.pow_lt_mono_r; lia.
    + rewrite fexp_spec. lia.
  - exists n, (fexp k). split; [reflexivity|]. split; [|rewrite fexp_spec; lia].
    rewrite Z.abs_eq by exact Hn0. lia.
Qed.

(** A positive number of the format is its own rounding. *)
Lemma round_pos_fixed (v : R) : 0 < v -> representable v -> round_pos v v.
Proof.
  intros Hv (m & e & -> & Hm & He).
  assert (Hm0 : (0 < m)%Z).
  { pose proof (bpow_pos e). apply lt_IZR. nra. }
  rewrite Z.abs_eq in Hm by lia.
  exists (Z.log2 m + 1 + e)%Z. split; [apply IZR_bpow_mag, Hm0|].
  set (k := (Z.log2 m + 1 + e)%Z).
  assert (Hlog : (Z.log2 m < prec)%Z) by (apply Z.log2_lt_pow2; lia).
  assert (HE : (fexp k <= e)%Z) by (rewrite fexp_spec; unfold k; lia).
  rewrite Rdiv_bpow, (bpow_IZR (e - fexp k)) by lia.
  rewrite <- mult_IZR, Znearest_even_IZR, mult_IZR, <- bpow_IZR by lia.
  rewrite Rmult_assoc, <- bpow_add. do 2 f_equal. lia.
Qed.

(** *** Rounding a real *)

Lemma rounded_opp (v r : R) : rounded v r -> rounded (- v) (- r).
Proof.
  intros [[-> ->] | [[Hv Hr] | [Hv Hr]]].
  - left. split; ring.
  - right. right. split; [lra|]. now rewrite !Ropp_involutive.
  - right. left. split; [lra | exact Hr].
Qed.

Lemma rounded_le (v w r r' : R) : rounded v r -> rounded w r' -> v <= w -> r <= r'.
Proof.
  intros [[-> ->] | [[Hv Hr] | [Hv Hr]]] [[-> ->] | [[Hw Hr'] | [Hw Hr']]] Hvw;
    try lra.
  - apply (round_pos_nonneg _ _ Hw Hr').
  - apply (round_pos_le _ _ _ _ Hv Hr Hr' Hvw).
  - assert (0 <= - r) by (apply (round_pos_nonneg (- v)); [lra | exact Hr]). lra.
  - assert (0 <= - r) by (apply (round_pos_nonneg (- v)); [lra | exact Hr]).
    pose proof (round_pos_nonneg _ _ Hw Hr'). lra.
  - assert (- r' <= - r); [|lra].
    apply (round_pos_le (- w) (- v)); try assumption; lra.
Qed.

Lemma rounded_unique (v r r' : R) : rounded v r -> rounded v r' -> r = r'.
Proof.
  intros H H'. apply Rle_antisym; eapply rounded_le; eauto; lra.
Qed.

Lemma representable_opp (v : R) : representable v -> representable (- v).
Proof.
  intros (m & e & -> & Hm & He). exists (- m)%Z, e.
  rewrite opp_IZR, Z.abs_opp. split; [ring | auto].
Qed.

Lemma representable_0 : representable 0.
Proof.
  exists 0%Z, emin. split; [ring|]. split; [|lia].
  cbn. apply Z.pow_pos_nonneg; lia.
Qed.

Lemma rounded_fixed (v : R) : representable v -> rounded v v.
Proof.
  intros Hv. destruct (Rtotal_order v 0) as [Hneg | [-> | Hpos]].
  - right. right. split; [exact Hneg|].
    apply round_pos_fixed; [lra | now apply representable_opp].
  - left. auto.
  - right. left. split; [exact Hpos | now apply round_pos_fixed].
Qed.

Lemma rounded_representable (v r : R) : rounded v r -> representable r.
Proof.
  intros [[-> ->] | [[Hv Hr] | [Hv Hr]]].
  - apply representable_0.
  - eapply round_pos_representable; eauto.
  - rewrite <- (Ropp_involutive r). apply representable_opp.
    eapply round_pos_representable; [|exact Hr]. lra.
Qed.

Lemma rounded_error (v r : R) :
  rounded v r -> Rabs (r - v) <= bpow (- prec) * Rabs v + bpow (emin - 1).
Proof.
  pose proof (bpow_pos (emin - 1)).
  intros [[-> ->] | [[Hv Hr] | [Hv Hr]]].
  - rewrite Rminus_0_r, Rabs_R0. lra.
  - rewrite (Rabs_pos_eq v) by lra. now apply round_pos_error.
  - apply round_pos_error in Hr.
    replace (- r - - v) with (- (r - v)) in Hr by ring. rewrite Rabs_Ropp in Hr.
    rewrite (Rabs_left v) by lra. exact Hr.
Qed.

(** Anchors: the rounding of a real does not cross a number of the
    format. *)
Lemma rounded_le_anchor (v r c : R) : rounded v r -> representable c -> v <= c -> r <= c.
Proof. intros Hr Hc. apply rounded_le; [exact Hr | now apply rounded_fixed]. Qed.

Lemma rounded_ge_anchor (v r c : R) : rounded v r -> representable c -> c <= v -> c <= r.
Proof. intros Hr Hc. apply rounded_le; [now apply rounded_fixed | exact Hr]. Qed.

Lemma Znearest_even_near (t : R) (n : Z) :
  Rabs (t - IZR n) < / 2 -> Znearest_even t = n.
Proof.
  intros H. apply Rabs_def2 in H. destruct H as [H1 H2].
  destruct (Rtotal_order t (IZR n)) as [Hlt | [Heq | Hgt]].
  - rewrite (proj2 (proj2 (proj2 (Znearest_even_cases t (n - 1)))));
      [lia | rewrite minus_IZR; lra].
  - now apply (proj1 (Znearest_even_cases t n)).
  - apply (proj1 (proj2 (Znearest_even_cases t n))). lra.
Qed.

(** A real close enough to a number of the format rounds to it. *)
Lemma round_pos_near (c v r : R) :
  0 < c -> representable c -> round_pos v r ->
  Rabs (v - c) <= bpow (- prec - 2) * c -> r = c.
Proof.
  intros Hc (m & e & Hcm & Hm & He) (k & Hk & ->) Hnear.
  assert (Hm0 : (0 < m)%Z).
  { pose proof (bpow_pos e). apply lt_IZR. nra. }
  rewrite Z.abs_eq in Hm by lia.
  pose proof (IZR_bpow_mag m e Hm0) as Hmag. rewrite <- Hcm in Hmag.
  set (kc := (Z.log2 m + 1 + e)%Z) in *.
  assert (Hlog : (Z.log2 m < prec)%Z) by (apply Z.log2_lt_pow2; lia).
  pose proof (Z.log2_nonneg m) as Hlog0.
  assert (HEc : (fexp kc <= e)%Z) by (rewrite fexp_spec; unfold kc; lia).
  assert (Hquarter : bpow (- prec - 2) <= / 4).
  { rewrite <- bpow_m2. apply bpow_le. lia. }
  pose proof (bpow_pos (- prec - 2)) as Hupos.
  apply Rabs_le_inv in Hnear. destruct Hnear as [Hn1 Hn2].
  (* [c] as a multiple of a smaller power of two *)
  assert (Hmult : forall E, (E <= e)%Z -> c = IZR (m * 2 ^ (e - E)) * bpow E).
  { intros E HE. rewrite mult_IZR, <- bpow_IZR by lia.
    rewrite Rmult_assoc, <- bpow_add, Hcm. do 2 f_equal. lia. }
  (* the magnitude of [v] is that of [c], or one less *)
  assert (Hd : bpow (- prec - 2) * c < bpow (kc - prec - 2)).
  { replace (kc - prec - 2)%Z with (- prec - 2 + kc)%Z by lia. rewrite bpow_add.
    apply Rmult_lt_compat_l; [exact Hupos | lra]. }
  assert (Hkle : (k <= kc)%Z).
  { assert (k - 1 < kc)%Z; [|lia]. apply bpow_lt_inv.
    apply Rle_lt_trans with v; [lra|].
    pose proof (bpow_pos (fexp kc)) as HEpos.
    assert (HN : (m * 2 ^ (e - fexp kc) + 1 <= 2 ^ (kc - fexp kc))%Z).
    { assert (m * 2 ^ (e - fexp kc) < 2 ^ (kc - fexp kc))%Z; [|lia].
      apply lt_IZR. rewrite <- (bpow_IZR (kc - fexp kc)) by (unfold kc in *; lia).
      apply (Rmult_lt_reg_r (bpow (fexp kc))); [exact HEpos|].
      rewrite <- (Hmult (fexp kc) HEc), <- bpow_add.
      replace (kc - fexp kc + fexp kc)%Z with kc by lia. lra. }
    apply IZR_le in HN. rewrite plus_IZR, <- (bpow_IZR (kc - fexp kc)) in HN
      by (unfold kc in *; lia).
    assert (HN' : c + bpow (fexp kc) <= bpow kc).
    { assert (Hb : bpow kc = bpow (kc - fexp kc) * bpow (fexp kc))
        by (rewrite <- bpow_add; f_equal; lia).
      rewrite Hb, (Hmult (fexp kc) HEc). nra. }
    assert (bpow (kc - prec - 2) <= bpow (fexp kc))
      by (apply bpow_le; rewrite fexp_spec; lia).
    lra. }
  assert (Hkge : (kc - 1 <= k)%Z).
  { assert (kc - 2 < k)%Z; [|lia]. apply bpow_lt_inv.
    apply Rle_lt_trans with v; [|lra].
    replace (kc - 2)%Z with (kc - 1 - 1)%Z by lia. rewrite bpow_pred. nra. }
  assert (HE : (fexp k <= e)%Z).
  { pose proof (fexp_le _ _ Hkle). lia. }
  pose proof (bpow_pos (fexp k)) as HEpos.
  rewrite (Hmult (fexp k) HE). f_equal. f_equal. apply Znearest_even_near.
  replace (IZR (m * 2 ^ (e - fexp k))) with (c / bpow (fexp k))
    by (rewrite (Hmult (fexp k) HE) at 1; field; lra).
  replace (v / bpow (fexp k) - c / bpow (fexp k)) with ((v - c) / bpow (fexp k))
    by (field; lra).
  unfold Rdiv. rewrite Rabs_mult, (Rabs_pos_eq (/ _))
    by (apply Rlt_le, Rinv_0_lt_compat, HEpos).
  apply (Rmult_lt_reg_r (bpow (fexp k))); [exact HEpos|].
  rewrite Rmult_assoc, Rinv_l, Rmult_1_r by lra.
  apply Rle_lt_trans with (bpow (- prec - 2) * c); [apply Rabs_le; lra|].
  apply Rlt_le_trans with (1 := Hd).
  rewrite <- bpow_m1, <- bpow_add. apply bpow_le. rewrite fexp_spec. lia.
Qed.

Lemma rounded_near (c v r : R) :
  representable c -> rounded v r ->
  Rabs (v - c) <= bpow (- prec - 2) * Rabs c -> r = c.
Proof.
  intros Hc Hr Hnear.
  assert (Hquarter : bpow (- prec - 2) <= / 4).
  { rewrite <- bpow_m2.
    apply bpow_le. lia. }
  pose proof (bpow_pos (- prec - 2)) as Hpos.
  destruct (Rtotal_order c 0) as [Hneg | [-> | Hcpos]].
  - rewrite (Rabs_left c) in Hnear by lra.
    apply Rabs_le_inv in Hnear.
    assert (Hv : v < 0) by nra.
    destruct Hr as [[-> _] | [[Hv' _] | [_ Hr]]]; try lra.
    assert (- r = - c); [|lra].
    apply (round_pos_near (- c) (- v)); [lra | now apply representable_opp | exact Hr |].
    apply Rabs_le. lra.
  - rewrite Rabs_R0, Rmult_0_r, Rminus_0_r in Hnear.
    assert (v = 0).
    { pose proof (Rabs_pos v). destruct (Req_dec v 0) as [Hz | Hz]; [exact Hz|].
      apply Rabs_pos_lt in Hz. lra. }
    subst v. destruct Hr as [[_ ->] | [[Hv' _] | [Hv' _]]]; lra.
  - rewrite (Rabs_pos_eq c) in Hnear by lra.
    pose proof Hnear as Hnear'. apply Rabs_le_inv in Hnear'.
    assert (Hv : 0 < v) by nra.
    destruct Hr as [[-> _] | [[_ Hr] | [Hv' _]]]; try lra.
    apply (round_pos_near c v); assumption.
Qed.

(** The rounding of a real that exceeds a number of the format by little
    does not exceed it. *)
Lemma rounded_le_near (c v r : R) :
  representable c -> rounded v r ->
  v <= c + bpow (- prec - 2) * Rabs c -> r <= c.
Proof.
  intros Hc Hr Hv. destruct (Rle_lt_dec v c) as [Hle | Hgt].
  - eapply rounded_le_anchor; eauto.
  - apply Req_le. apply (rounded_near c v); [assumption..|].
    apply Rabs_le. pose proof (bpow_pos (- prec - 2)). pose proof (Rabs_pos c).
    assert (0 <= bpow (- prec - 2) * Rabs c) by (apply Rmult_le_pos; lra). lra.
Qed.

Lemma rounded_ge_near (c v r : R) :
  representable c -> rounded v r ->
  c - bpow (- prec - 2) * Rabs c <= v -> c <= r.
Proof.
  intros Hc Hr Hv.
  assert (- r <= - c); [|lra].
  apply (rounded_le_near (- c) (- v)).
  - now apply representable_opp.
  - now apply rounded_opp.
  - rewrite Rabs_Ropp. lra.
Qed.

End RoundingFacts.

Section Algorithm.

Import Rounding.
Local Unset Implicit Arguments.

Variables prec emax : Z.
Hypothesis Hprec : 0 < prec.
Hypothesis Hemax : prec < emax.

Local Abbreviation fexp := (SpecFloat.fexp prec emax).
Local Abbreviation emin := (SpecFloat.emin prec emax).
Local Abbreviation round_pos := (Rounding.round_pos prec emax).
Local Abbreviation rounded := (Rounding.rounded prec emax).
Local Abbreviation representable := (Rounding.representable prec emax).

(** *** Digits *)

Lemma Zdigits2_pos (m : Z) :
  0 < m -> 0 < Zdigits2 m /\ 2 ^ (Zdigits2 m - 1) <= m < 2 ^ Zdigits2 m.
Proof.
  destruct m as [|p|p]; try lia. intros _. cbn [Zdigits2].
  rewrite digits2_pos_size. split; [lia|].
  pose proof (Pos.size_gt p) as Hgt. pose proof (Pos.size_le p) as Hle.
  apply Pos2Z.pos_lt_pos in Hgt. apply Pos2Z.pos_le_pos in Hle.
  rewrite Pos2Z.inj_pow in Hgt, Hle.
  split; [|exact Hgt].
  assert (Hp : 2 ^ Zpos (Pos.size p) = 2 * 2 ^ (Zpos (Pos.size p) - 1))
    by (rewrite <- Z.pow_succ_r by lia; f_equal; lia).
  lia.
Qed.

Lemma Zdigits2_nonneg (m : Z) : 0 <= m -> 0 <= Zdigits2 m.
Proof. destruct m; cbn; lia. Qed.

Lemma Zdigits2_le (m j : Z) : 0 <= m -> 0 <= j -> m < 2 ^ j -> Zdigits2 m <= j.
Proof.
  intros Hm Hj Hlt. destruct (Z.eq_dec m 0) as [-> | Hne]; [cbn; lia|].
  destruct (Zdigits2_pos m ltac:(lia)) as (Hd & Hlo & _).
  apply Z.nlt_ge. intros Hgt.
  assert (2 ^ j <= 2 ^ (Zdigits2 m - 1)) by (apply Z.pow_le_mono_r; lia). lia.
Qed.

Lemma Zdigits2_ge (m j : Z) : 0 < m -> 2 ^ (j - 1) <= m -> j <= Zdigits2 m.
Proof.
  intros Hm Hle. destruct (Zdigits2_pos m Hm) as (Hd & _ & Hhi).
  apply Z.nlt_ge. intros Hgt.
  assert (2 ^ Zdigits2 m <= 2 ^ (j - 1)) by (apply Z.pow_le_mono_r; lia). lia.
Qed.

Lemma Zdigits2_mag (m e : Z) :
  0 < m ->
  (bpow (Zdigits2 m + e - 1) <= IZR m * bpow e < bpow (Zdigits2 m + e))%R.
Proof.
  intros Hm. destruct (Zdigits2_pos m Hm) as (Hd & Hlo & Hhi).
  apply IZR_le in Hlo. apply IZR_lt in Hhi.
  rewrite <- bpow_IZR in Hlo, Hhi by lia.
  replace (Zdigits2 m + e - 1) with (Zdigits2 m - 1 + e) by lia.
  rewrite !bpow_add. pose proof (bpow_pos e). split; nra.
Qed.

(** *** Shifting to the right keeps the location *)

Lemma shr_1_describes (mrs : shr_record) (e : Z) (v : R) :
  0 <= shr_m mrs ->
  describes (shr_m mrs) e (loc_of_shr_record mrs) v ->
  0 <= shr_m (shr_1 mrs) /\
  describes (shr_m (shr_1 mrs)) (e + 1) (loc_of_shr_record (shr_1 mrs)) v.
Proof.
  destruct mrs as [m r s]. cbn [shr_m]. intros Hm Hd.
  pose proof (bpow_pos e) as HB.
  destruct m as [|p|p]; [| |lia].
  - destruct r, s; cbn in *; rewrite bpow_succ; split; try lia; lra.
  - destruct p as [p|p|]; destruct r, s; cbn [shr_1 orb shr_m loc_of_shr_record];
      (split; [lia|]); cbn [describes loc_of_shr_record] in *; rewrite bpow_succ;
      try (change (Zpos p~1) with (2 * Zpos p + 1) in Hd;
           rewrite plus_IZR, mult_IZR in Hd);
      try (change (Zpos p~0) with (2 * Zpos p) in Hd; rewrite mult_IZR in Hd);
      lra.
Qed.

Lemma iter_pos_shr_1_describes (p : positive) :
  forall (mrs : shr_record) (e : Z) (v : R),
    0 <= shr_m mrs ->
    describes (shr_m mrs) e (loc_of_shr_record mrs) v ->
    0 <= shr_m (SpecFloat.iter_pos shr_1 p mrs) /\
    describes (shr_m (SpecFloat.iter_pos shr_1 p mrs)) (e + Zpos p)
      (loc_of_shr_record (SpecFloat.iter_pos shr_1 p mrs)) v.
Proof.
  induction p as [p IH | p IH |]; intros mrs e v Hm Hd; cbn [SpecFloat.iter_pos].
  - destruct (shr_1_describes mrs e v Hm Hd) as [Hm1 Hd1].
    destruct (IH _ _ _ Hm1 Hd1) as [Hm2 Hd2].
    destruct (IH _ _ _ Hm2 Hd2) as [Hm3 Hd3].
    split; [exact Hm3|].
    replace (e + Zpos p~1) with (e + 1 + Zpos p + Zpos p) by lia. exact Hd3.
  - destruct (IH _ _ _ Hm Hd) as [Hm2 Hd2].
    destruct (IH _ _ _ Hm2 Hd2) as [Hm3 Hd3].
    split; [exact Hm3|].
    replace (e + Zpos p~0) with (e + Zpos p + Zpos p) by lia. exact Hd3.
  - apply shr_1_describes; assumption.
Qed.

Lemma shr_fexp_describes (m e : Z) (l : location) (v : R) :
  0 <= m -> describes m e l v ->
  let r := shr_fexp prec emax m e l in
  0 <= shr_m (fst r) /\
  snd r = Z.max e (fexp (Zdigits2 m + e)) /\
  describes (shr_m (fst r)) (snd r) (loc_of_shr_record (fst r)) v.
Proof.
  intros Hm Hd. unfold shr_fexp, shr.
  assert (Hsame : loc_of_shr_record (shr_record_of_loc m l) = l
                  /\ shr_m (shr_record_of_loc m l) = m)
    by (destruct l as [|[]]; split; reflexivity).
  destruct Hsame as [Hl Hsm].
  destruct (fexp (Zdigits2 m + e) - e) as [|p|p] eqn:Hn; cbn [fst snd].
  - rewrite Hl, Hsm. repeat split; try assumption. lia.
  - destruct (iter_pos_shr_1_describes p (shr_record_of_loc m l) e v) as [H1 H2].
    + now rewrite Hsm.
    + now rewrite Hl, Hsm.
    + repeat split; try assumption. lia.
  - rewrite Hl, Hsm. repeat split; try assumption. lia.
Qed.

(** *** The choice between the two neighbours *)

Lemma round_nearest_even_describes (m e : Z) (l : location) (v : R) :
  describes m e l v ->
  round_nearest_even m l = Znearest_even (v / bpow e).
Proof.
  pose proof (bpow_pos e) as HB. intros Hd.
  assert (Hv : v = (v / bpow e * bpow e)%R) by (field; lra).
  set (t := (v / bpow e)%R) in *.
  symmetry. destruct l as [|[]]; cbn [describes round_nearest_even] in *.
  - apply (proj1 (Znearest_even_cases t m)). nra.
  - apply (proj1 (proj2 (proj2 (Znearest_even_cases t m)))). nra.
  - apply (proj1 (proj2 (Znearest_even_cases t m))). split; nra.
  - apply (proj2 (proj2 (proj2 (Znearest_even_cases t m)))). split; nra.
Qed.

Lemma describes_bounds (m e : Z) (l : location) (v : R) :
  describes m e l v -> (IZR m * bpow e <= v < (IZR m + 1) * bpow e)%R.
Proof.
  pose proof (bpow_pos e). destruct l as [|[]]; cbn [describes]; intros Hd; nra.
Qed.

Lemma IZR_sandwich (a b : Z) (B : R) :
  (0 < B)%R -> (IZR a * B <= IZR b * B < (IZR a + 1) * B)%R -> a = b.
Proof.
  intros HB [H1 H2].
  assert (a <= b) by (apply le_IZR; nra).
  assert (b < a + 1) by (apply lt_IZR; rewrite plus_IZR; nra).
  lia.
Qed.

(** *** The rounding step *)

Lemma binary_round_aux_correct (s : bool) (m e : Z) (l : location) (v : R) :
  0 <= m -> describes m e l v ->
  l = loc_Exact \/ e <= fexp (Zdigits2 m + e) ->
  exists r : R,
    rounded v r /\ (0 <= r)%R /\
    result_of prec emax s r (binary_round_aux prec emax s m e l) /\
    (e <= fexp (Zdigits2 m + e) ->
     canonical_result prec emax r (binary_round_aux prec emax s m e l)).
Proof.
  intros Hm Hd Hcase.
  pose proof (describes_bounds _ _ _ _ Hd) as Hvb.
  pose proof (bpow_pos e) as HBe.
  assert (Hv0 : (0 <= v)%R).
  { apply IZR_le in Hm. nra. }
  (* the first shift *)
  pose proof (shr_fexp_describes m e l v Hm Hd) as H1.
  unfold binary_round_aux.
  destruct (shr_fexp prec emax m e l) as [mrs1 e1]. cbn [fst snd] in H1.
  destruct H1 as (Hm1 & He1 & Hd1).
  pose proof (round_nearest_even_describes _ _ _ _ Hd1) as Hrne.
  set (m2 := round_nearest_even (shr_m mrs1) (loc_of_shr_record mrs1)) in *.
  pose proof (bpow_pos e1) as HB1.
  assert (Hm2 : 0 <= m2).
  { rewrite Hrne, <- (Znearest_even_IZR 0). apply Znearest_even_le.
    apply Rmult_le_pos; [exact Hv0 | apply Rlt_le, Rinv_0_lt_compat, HB1]. }
  (* the second shift *)
  pose proof (shr_fexp_describes m2 e1 loc_Exact (IZR m2 * bpow e1)%R Hm2 eq_refl) as H3.
  destruct (shr_fexp prec emax m2 e1 loc_Exact) as [mrs3 e3]. cbn [fst snd] in H3.
  destruct H3 as (Hm3 & He3 & Hd3).
  apply describes_bounds in Hd3.
  pose proof (bpow_pos e3) as HB3.
  set (m3 := shr_m mrs3) in *.
  exists (IZR m2 * bpow e1)%R.
  assert (Hr0 : (0 <= IZR m2 * bpow e1)%R).
  { apply IZR_le in Hm2. nra. }
  (* what is left is the value of the result, and its exponent *)
  assert (Hfinal :
            (IZR m3 * bpow e3 = IZR m2 * bpow e1)%R ->
            (e <= fexp (Zdigits2 m + e) -> 0 < m3 -> fexp (Zdigits2 m3 + e3) = e3) ->
            result_of prec emax s (IZR m2 * bpow e1)
              match m3 with
              | 0 => S754_zero s
              | Z.pos m0 =>
                  if e3 <=? emax - prec then S754_finite s m0 e3 else S754_infinity s
              | Z.neg _ => S754_nan
              end /\
            (e <= fexp (Zdigits2 m + e) ->
             canonical_result prec emax (IZR m2 * bpow e1)
               match m3 with
               | 0 => S754_zero s
               | Z.pos m0 =>
                   if e3 <=? emax - prec then S754_finite s m0 e3 else S754_infinity s
               | Z.neg _ => S754_nan
               end)).
  { intros Hval Hcan. destruct m3 as [|q|q] eqn:Hq; [| |lia].
    - cbn. split; [|auto]. split; [reflexivity|]. rewrite <- Hval. ring.
    - destruct (e3 <=? emax - prec) eqn:Hle.
      + apply Z.leb_le in Hle. cbn. split; [auto|].
        intros HA. unfold canonical_mantissa. apply Z.eqb_eq.
        apply (Hcan HA). lia.
      + apply Z.leb_gt in Hle. cbn. split.
        * split; [reflexivity|]. rewrite <- Hval.
          apply Rlt_le_trans with (bpow e3); [apply bpow_lt; lia|].
          assert (1 <= IZR (Z.pos q))%R by (apply IZR_le; lia). nra.
        * intros HA. specialize (Hcan HA ltac:(lia)). rewrite <- Hval.
          cbn [Zdigits2] in Hcan.
          rewrite fexp_spec in Hcan.
          assert (Hd3' : Zdigits2 (Z.pos q) = prec).
          { cbn [Zdigits2]. unfold SpecFloat.emin in *. lia. }
          destruct (Zdigits2_pos (Z.pos q) ltac:(lia)) as (_ & Hlo & _).
          rewrite Hd3' in Hlo. apply IZR_le in Hlo. rewrite <- bpow_IZR in Hlo by lia.
          apply Rle_trans with (bpow (prec - 1) * bpow e3)%R; [|nra].
          rewrite <- bpow_add. apply bpow_le. lia. }
  destruct (Z_le_gt_dec e (fexp (Zdigits2 m + e))) as [HA | HB].
  - (* the mantissa is shifted to the exponent of the format *)
    assert (HE : e1 = fexp (Zdigits2 m + e)) by lia.
    set (K := Zdigits2 m + e) in *.
    pose proof (Zdigits2_nonneg m Hm) as Hd0.
    assert (HvK : (v < bpow K)%R).
    { apply Rlt_le_trans with (1 := proj2 Hvb). unfold K. rewrite bpow_add.
      apply Rmult_le_compat_r; [lra|].
      rewrite bpow_IZR by lia. rewrite <- plus_IZR. apply IZR_le.
      destruct (Z.eq_dec m 0) as [-> | Hne]; [cbn; lia|].
      destruct (Zdigits2_pos m ltac:(lia)) as (_ & _ & Hhi). lia. }
    assert (HK1 : 0 < m -> (bpow (K - 1) <= v)%R).
    { intros Hmpos. apply Rle_trans with (2 := proj1 Hvb).
      apply (Zdigits2_mag m e Hmpos). }
    assert (Hmin : m = 0 -> e1 = emin /\ K <= emin).
    { intros ->. cbn in K. unfold K in *. rewrite fexp_spec in *. lia. }
    remember (Z.max (K - e1) 0) as J eqn:HJdef.
    assert (HJp : J <= prec) by (rewrite HJdef, HE, fexp_spec; lia).
    assert (Hm2J : m2 <= 2 ^ J).
    { rewrite Hrne, <- (Znearest_even_IZR (2 ^ J)). apply Znearest_even_le.
      rewrite <- bpow_IZR by (lia).
      apply Rle_trans with (bpow (K - e1)); [|apply bpow_le; lia].
      rewrite <- bpow_div. unfold Rdiv.
      apply Rmult_le_compat_r; [apply Rlt_le, Rinv_0_lt_compat, HB1 | lra]. }
    assert (Hm2lo : 0 < m -> e1 = K - prec -> 2 ^ (prec - 1) <= m2).
    { intros Hmpos Hnormal.
      rewrite Hrne, <- (Znearest_even_IZR (2 ^ (prec - 1))). apply Znearest_even_le.
      rewrite <- bpow_IZR by lia.
      replace (prec - 1) with (K - 1 - e1) by lia.
      rewrite <- bpow_div. unfold Rdiv.
      apply Rmult_le_compat_r; [apply Rlt_le, Rinv_0_lt_compat, HB1 | auto]. }
    split; [|split; [exact Hr0|]].
    + (* the value is the rounding of [v] *)
      destruct (Req_dec v 0) as [Hz | Hnz].
      * left. split; [exact Hz|]. rewrite Hrne, Hz. unfold Rdiv. rewrite Rmult_0_l.
        rewrite Znearest_even_IZR. ring.
      * right. left. split; [lra|].
        destruct (Z.eq_dec m 0) as [Hm0 | Hm0].
        -- destruct (mag_exists v ltac:(lra)) as (k & Hk).
           exists k. split; [exact Hk|].
           destruct (Hmin Hm0) as [Hemin HKmin].
           assert (k - 1 < K) by (apply bpow_lt_inv; lra).
           assert (Hfk : fexp k = e1) by (rewrite fexp_spec; lia).
           rewrite Hfk, Hrne. reflexivity.
        -- exists K. split; [split; [apply HK1; lia | exact HvK]|].
           rewrite <- HE, Hrne. reflexivity.
    + (* the second shift is by one place at most, and is exact *)
      apply Hfinal.
      * destruct (Z.eq_dec e3 e1) as [Heq | Hne].
        -- rewrite Heq in *. do 2 f_equal. apply (IZR_sandwich m3 m2 (bpow e1) HB1 Hd3).
        -- (* the rounding has reached the next binade *)
           assert (Hd2 : Zdigits2 m2 <= J + 1).
           { apply Zdigits2_le; [lia | lia|].
             rewrite Z.pow_add_r, Z.pow_1_r by (lia). lia. }
           assert (HJ : J = prec /\ e3 = e1 + 1 /\ m2 = 2 ^ J).
           { assert (He3' : e3 = fexp (Zdigits2 m2 + e1)) by lia.
             rewrite fexp_spec in He3'.
             assert (Hemin1 : emin <= e1) by (rewrite HE, fexp_spec; lia).
             assert (HJ1 : Zdigits2 m2 = J + 1 /\ J = prec) by lia.
             destruct HJ1 as [HJ1 HJ2]. repeat split; try lia.
             destruct (Z.eq_dec m2 (2 ^ J)) as [Hpow | Hnp]; [exact Hpow|].
             assert (Zdigits2 m2 <= J) by (apply Zdigits2_le; lia). lia. }
           destruct HJ as (HJ1 & HJ2 & HJ3). rewrite HJ2 in *.
           rewrite HJ3, HJ1 in *.
           rewrite bpow_succ in Hd3 |- *.
           assert (Hpow : IZR (2 ^ prec) = (2 * IZR (2 ^ (prec - 1)))%R).
           { rewrite <- mult_IZR. f_equal. rewrite <- Z.pow_succ_r by lia. f_equal. lia. }
           rewrite Hpow in Hd3 |- *.
           assert (m3 = 2 ^ (prec - 1)); [|subst m3; rewrite H; ring].
           apply (IZR_sandwich m3 (2 ^ (prec - 1)) (bpow e1) HB1). lra.
      * intros _ Hm3pos.
        destruct (Z.eq_dec e3 e1) as [Heq | Hne].
        -- rewrite Heq in *.
           assert (m3 = m2) by (apply (IZR_sandwich m3 m2 (bpow e1) HB1 Hd3)).
           rewrite H in *.
           apply Z.le_antisymm; [lia|].
           rewrite fexp_spec.
           destruct (Z.eq_dec m 0) as [Hm0 | Hm0];
             [destruct (Hmin Hm0); lia|].
           destruct (Z.eq_dec e1 emin) as [Hsub | Hnorm]; [lia|].
           assert (Hnormal : e1 = K - prec) by (rewrite HE, fexp_spec in *; lia).
           assert (prec <= Zdigits2 m2).
           { apply Zdigits2_ge; [lia|]. apply Hm2lo; [lia | exact Hnormal]. }
           lia.
        -- assert (Hd2 : Zdigits2 m2 <= J + 1).
           { apply Zdigits2_le; [lia | lia|].
             rewrite Z.pow_add_r, Z.pow_1_r by (lia). lia. }
           assert (He3' : e3 = fexp (Zdigits2 m2 + e1)) by lia.
           rewrite fexp_spec in He3'.
           assert (Hemin1 : emin <= e1) by (rewrite HE, fexp_spec; lia).
           assert (HJ1 : Zdigits2 m2 = J + 1 /\ J = prec) by lia.
           destruct HJ1 as [HJ1 HJ2].
           assert (HJ3 : m2 = 2 ^ J).
           { destruct (Z.eq_dec m2 (2 ^ J)) as [Hpow | Hnp]; [exact Hpow|].
             assert (Zdigits2 m2 <= J) by (apply Zdigits2_le; lia). lia. }
           assert (He31 : e3 = e1 + 1) by lia.
           rewrite He31, HJ3, HJ2 in *.
           rewrite bpow_succ in Hd3.
           assert (Hpow : IZR (2 ^ prec) = (2 * IZR (2 ^ (prec - 1)))%R).
           { rewrite <- mult_IZR. f_equal. rewrite <- Z.pow_succ_r by lia. f_equal. lia. }
           rewrite Hpow in Hd3.
           assert (Hm3v : m3 = 2 ^ (prec - 1)).
           { apply (IZR_sandwich m3 (2 ^ (prec - 1)) (bpow e1) HB1). lra. }
           assert (Zdigits2 m3 = prec).
           { apply Z.le_antisymm.
             - apply Zdigits2_le; [lia | lia|]. rewrite Hm3v.
               apply Z.pow_lt_mono_r; lia.
             - apply Zdigits2_ge; [lia|]. rewrite Hm3v. lia. }
           rewrite fexp_spec. lia.
  - (* an exact value that needs no shift *)
    destruct Hcase as [-> | Hle]; [|lia].
    cbn [describes] in Hd.
    assert (He1' : e1 = e) by lia. rewrite He1' in *.
    assert (Hm2m : m2 = m).
    { rewrite Hrne, Hd. unfold Rdiv. rewrite Rmult_assoc, Rinv_r, Rmult_1_r by lra.
      apply Znearest_even_IZR. }
    rewrite Hm2m in *.
    assert (He3' : e3 = e) by lia. rewrite He3' in *.
    assert (Hm3m : m3 = m) by (apply (IZR_sandwich m3 m (bpow e) HBe Hd3)).
    split; [|split; [exact Hr0|]].
    + rewrite <- Hd. apply rounded_fixed; [exact Hprec|].
      exists m, e. split; [exact Hd|]. rewrite fexp_spec in HB.
      split; [|lia]. rewrite Z.abs_eq by lia.
      destruct (Z.eq_dec m 0) as [-> | Hne]; [apply Z.pow_pos_nonneg; lia|].
      destruct (Zdigits2_pos m ltac:(lia)) as (Hd1' & _ & Hhi).
      apply Z.lt_le_trans with (1 := Hhi). apply Z.pow_le_mono_r; lia.
    + apply Hfinal; [rewrite Hm3m; reflexivity | intros; lia].
Qed.

End Algorithm.

Section Operations.

Import Rounding.
Local Unset Implicit Arguments.

Variables prec emax : Z.
Hypothesis Hprec : 0 < prec.
Hypothesis Hemax : prec < emax.

Local Abbreviation fexp := (SpecFloat.fexp prec emax).
Local Abbreviation emin := (SpecFloat.emin prec emax).
Local Abbreviation rounded := (Rounding.rounded prec emax).
Local Abbreviation representable := (Rounding.representable prec emax).
Local Abbreviation rounds_to := (Rounding.rounds_to prec emax).
Local Abbreviation good := (Rounding.good prec emax).

Lemma rounded_signed (s : bool) (v r : R) :
  rounded v r -> rounded (signed s v) (signed s r).
Proof. destruct s; cbn [signed]; [apply rounded_opp | auto]. Qed.

Lemma Rabs_signed (s : bool) (v : R) : (0 <= v)%R -> Rabs (signed s v) = v.
Proof.
  intros Hv. destruct s; cbn [signed]; [rewrite Rabs_Ropp|]; now apply Rabs_pos_eq.
Qed.

Lemma rounds_to_weaken (T T' v : R) (z : spec_float) :
  (T' <= T)%R -> rounds_to T v z -> rounds_to T' v z.
Proof.
  intros HT [H | (Hinf & r & Hr & Hle)]; [left; exact H | right].
  split; [exact Hinf|]. exists r. split; [exact Hr | lra].
Qed.

(** *** The rounding step, on signed values *)

Lemma binary_round_aux_rounds (s : bool) (m e : Z) (l : location) (v : R) :
  0 <= m -> describes m e l v ->
  l = loc_Exact \/ e <= fexp (Zdigits2 m + e) ->
  rounds_to (bpow (emax - prec)) (signed s v) (binary_round_aux prec emax s m e l) /\
  (e <= fexp (Zdigits2 m + e) ->
   rounds_to (bpow emax) (signed s v) (binary_round_aux prec emax s m e l) /\
   valid_binary prec emax (binary_round_aux prec emax s m e l) = true).
Proof.
  intros Hm Hd Hcase.
  destruct (binary_round_aux_correct prec emax Hprec Hemax s m e l v Hm Hd Hcase)
    as (r & Hr & Hr0 & Hres & Hcan).
  assert (Hv0 : (0 <= v)%R).
  { pose proof (describes_bounds _ _ _ _ Hd). pose proof (bpow_pos e).
    apply IZR_le in Hm. nra. }
  destruct (binary_round_aux prec emax s m e l) as [s'|s'| |s' m' e'];
    cbn [result_of canonical_result] in Hres, Hcan.
  - destruct Hres as [-> ->].
    assert (Hz : rounds_to (bpow (emax - prec)) (signed s v) (S754_zero s)
                 /\ rounds_to (bpow emax) (signed s v) (S754_zero s)).
    { split; left; (split; [reflexivity|]); cbn [SF2R];
        apply (rounded_signed s) in Hr;
        (replace (signed s 0) with 0%R in Hr by (destruct s; cbn; ring)); exact Hr. }
    split; [apply Hz|]. intros _. split; [apply Hz | reflexivity].
  - destruct Hres as [-> Hlt]. split.
    + right. split; [reflexivity|]. exists r. rewrite Rabs_signed by exact Hv0.
      split; [exact Hr | lra].
    + intros HA. split; [|reflexivity].
      right. split; [reflexivity|]. exists r. rewrite Rabs_signed by exact Hv0.
      split; [exact Hr | exact (Hcan HA)].
  - destruct Hres.
  - destruct Hres as (-> & Hval & Hle).
    assert (Hz : forall T, rounds_to T (signed s v) (S754_finite s m' e')).
    { intros T. left. split; [reflexivity|]. cbn [SF2R].
      replace ((if s then - IZR (Z.pos m') else IZR (Z.pos m')) * bpow e')%R
        with (signed s r) by (rewrite Hval; destruct s; cbn [signed]; ring).
      now apply rounded_signed. }
    split; [apply Hz|]. intros HA. split; [apply Hz|].
    cbn [valid_binary]. unfold bounded.
    apply andb_true_intro. split; [exact (Hcan HA) | now apply Z.leb_le].
Qed.

(** *** Rounding a mantissa and an exponent *)

Lemma Pos_iter_xO (m d : positive) : Zpos (Pos.iter xO m d) = Zpos m * 2 ^ Zpos d.
Proof.
  induction d as [|d IH] using Pos.peano_ind.
  - cbn [Pos.iter]. rewrite Z.pow_1_r. lia.
  - rewrite Pos.iter_succ, Pos2Z.inj_xO, IH, Pos2Z.inj_succ, Z.pow_succ_r by lia. ring.
Qed.

Lemma shl_align_spec (mx : positive) (ex ex' : Z) :
  (IZR (Zpos (fst (shl_align mx ex ex'))) * bpow (snd (shl_align mx ex ex'))
   = IZR (Zpos mx) * bpow ex)%R /\
  snd (shl_align mx ex ex') = Z.min ex ex' /\
  Zpos (digits2_pos (fst (shl_align mx ex ex'))) + snd (shl_align mx ex ex')
  = Zpos (digits2_pos mx) + ex.
Proof.
  unfold shl_align. destruct (ex' - ex) as [|d|d] eqn:Hd; cbn [fst snd].
  - repeat split; lia.
  - repeat split; lia.
  - rewrite Pos_iter_xO, digits2_pos_shift. repeat split; try lia.
    rewrite mult_IZR, <- bpow_IZR by lia. rewrite Rmult_assoc, <- bpow_add.
    do 2 f_equal. lia.
Qed.

Lemma binary_round_rounds (s : bool) (m : positive) (e : Z) :
  rounds_to (bpow emax) (signed s (IZR (Zpos m) * bpow e))
    (binary_round prec emax s m e) /\
  valid_binary prec emax (binary_round prec emax s m e) = true.
Proof.
  unfold binary_round.
  destruct (shl_align_spec m e (fexp (Zpos (digits2_pos m) + e))) as (Hv & He & Hdg).
  destruct (shl_align m e (fexp (Zpos (digits2_pos m) + e))) as [mz ez].
  cbn [fst snd] in *.
  apply (binary_round_aux_rounds s (Zpos mz) ez loc_Exact); try lia.
  - cbn [describes]. now rewrite Hv.
  - right. cbn [Zdigits2]. rewrite Hdg. lia.
  - cbn [Zdigits2]. rewrite Hdg. lia.
Qed.

Lemma binary_normalize_rounds (m e : Z) (szero : bool) :
  rounds_to (bpow emax) (IZR m * bpow e) (binary_normalize prec emax m e szero) /\
  valid_binary prec emax (binary_normalize prec emax m e szero) = true.
Proof.
  destruct m as [|p|p]; cbn [binary_normalize].
  - split; [|reflexivity]. left. split; [reflexivity|]. cbn [SF2R].
    rewrite Rmult_0_l. left. auto.
  - apply (binary_round_rounds false p e).
  - pose proof (binary_round_rounds true p e) as H. cbn [signed] in H.
    replace (IZR (Z.neg p) * bpow e)%R with (- (IZR (Z.pos p) * bpow e))%R
      by (change (Z.neg p) with (- Z.pos p); rewrite opp_IZR; ring).
    exact H.
Qed.

(** *** Floats of the format *)

Lemma valid_binary_good (x : spec_float) :
  is_finite x = true -> valid_binary prec emax x = true ->
  good x /\ (Rabs (SF2R x) < bpow emax)%R.
Proof.
  destruct x as [s|s| |s m e]; try discriminate; intros _ Hv.
  - cbn [SF2R]. split; [split; [reflexivity | apply representable_0, Hprec]|].
    rewrite Rabs_R0. apply bpow_pos.
  - cbn [valid_binary] in Hv. unfold bounded, canonical_mantissa in Hv.
    apply andb_prop in Hv. destruct Hv as [Hc Hb].
    apply Z.eqb_eq in Hc. apply Z.leb_le in Hb. rewrite fexp_spec in Hc.
    destruct (Zdigits2_pos (Zpos m) ltac:(lia)) as (_ & _ & Hhi).
    cbn [Zdigits2] in Hhi.
    assert (Hm : Zpos m < 2 ^ prec).
    { apply Z.lt_le_trans with (1 := Hhi). apply Z.pow_le_mono_r; lia. }
    split.
    + split; [reflexivity|]. cbn [SF2R].
      exists (if s then - Zpos m else Zpos m), e.
      split; [destruct s; [rewrite opp_IZR|]; reflexivity|].
      split; [destruct s; rewrite ?Z.abs_opp; cbn [Z.abs]; exact Hm | lia].
    + cbn [SF2R]. rewrite Rabs_mult, (Rabs_pos_eq (bpow e)) by (apply Rlt_le, bpow_pos).
      replace (Rabs (if s then - IZR (Z.pos m) else IZR (Z.pos m)))
        with (IZR (Zpos m))
        by (destruct s; [rewrite Rabs_Ropp|]; symmetry; apply Rabs_pos_eq, IZR_le; lia).
      apply IZR_lt in Hm. rewrite <- bpow_IZR in Hm by lia.
      apply Rlt_le_trans with (bpow prec * bpow e)%R.
      * apply Rmult_lt_compat_r; [apply bpow_pos | exact Hm].
      * rewrite <- bpow_add. apply bpow_le. lia.
Qed.

(** A finite result is the rounding, when the rounding is in range. *)
Lemma rounds_to_finite (T v : R) (z : spec_float) (c : R) :
  rounds_to T v z -> representable c -> (Rabs v <= c)%R -> (c < T)%R ->
  is_finite z = true /\ rounded v (SF2R z).
Proof.
  intros [H | (_ & r & Hr & Hle)] Hc Hv HT; [exact H|].
  pose proof (rounded_le_anchor prec emax Hprec _ _ _ Hr Hc Hv). lra.
Qed.

(** *** Multiplication *)

Lemma SFmul_rounds (x y : spec_float) :
  is_finite x = true -> is_finite y = true ->
  rounds_to (bpow (emax - prec)) (SF2R x * SF2R y) (SFmul prec emax x y).
Proof.
  destruct x as [sx|sx| |sx mx ex]; try discriminate;
    destruct y as [sy|sy| |sy my ey]; try discriminate; intros _ _;
    cbn [SFmul SF2R].
  1-3: left; split; [reflexivity|]; cbn [SF2R];
       rewrite ?Rmult_0_l, ?Rmult_0_r; left; auto.
  replace ((if sx then - IZR (Z.pos mx) else IZR (Z.pos mx)) * bpow ex *
           ((if sy then - IZR (Z.pos my) else IZR (Z.pos my)) * bpow ey))%R
    with (signed (xorb sx sy) (IZR (Zpos (mx * my)) * bpow (ex + ey))).
  - apply (binary_round_aux_rounds (xorb sx sy) (Zpos (mx * my)) (ex + ey) loc_Exact);
      [lia | reflexivity | now left].
  - rewrite Pos2Z.inj_mul, mult_IZR, bpow_add.
    destruct sx, sy; cbn [xorb signed]; ring.
Qed.

(** *** Addition and subtraction *)

Lemma SFadd_finite_rounds (sx : bool) (mx : positive) (ex : Z)
    (sy : bool) (my : positive) (ey : Z) :
  let ez := Z.min ex ey in
  rounds_to (bpow emax)
    (SF2R (S754_finite sx mx ex) + SF2R (S754_finite sy my ey))
    (binary_normalize prec emax
       (cond_Zopp sx (Zpos (fst (shl_align mx ex ez)))
        + cond_Zopp sy (Zpos (fst (shl_align my ey ez)))) ez false).
Proof.
  intros ez.
  destruct (shl_align_spec mx ex ez) as (Hvx & Hex & _).
  destruct (shl_align_spec my ey ez) as (Hvy & Hey & _).
  replace (snd (shl_align mx ex ez)) with ez in Hvx by (unfold ez in *; lia).
  replace (snd (shl_align my ey ez)) with ez in Hvy by (unfold ez in *; lia).
  replace (SF2R (S754_finite sx mx ex) + SF2R (S754_finite sy my ey))%R
    with (IZR (cond_Zopp sx (Zpos (fst (shl_align mx ex ez)))
               + cond_Zopp sy (Zpos (fst (shl_align my ey ez)))) * bpow ez)%R.
  - apply binary_normalize_rounds.
  - cbn [SF2R]. rewrite plus_IZR, Rmult_plus_distr_r.
    destruct sx, sy; cbn [cond_Zopp]; rewrite ?opp_IZR; nra.
Qed.

Lemma SFadd_rounds (x y : spec_float) :
  good x -> good y ->
  rounds_to (bpow emax) (SF2R x + SF2R y) (SFadd prec emax x y).
Proof.
  intros [Hfx Hrx] [Hfy Hry].
  destruct x as [sx|sx| |sx mx ex]; try discriminate;
    destruct y as [sy|sy| |sy my ey]; try discriminate.
  - left. split; [destruct sx, sy; reflexivity|].
    replace (SF2R (SFadd prec emax (S754_zero sx) (S754_zero sy))) with 0%R
      by (destruct sx, sy; reflexivity).
    cbn [SF2R]. rewrite Rplus_0_l. left. auto.
  - left. split; [reflexivity|]. cbn [SFadd]. change (SF2R (S754_zero sx)) with 0%R. rewrite Rplus_0_l.
    apply rounded_fixed; assumption.
  - left. split; [reflexivity|]. cbn [SFadd]. change (SF2R (S754_zero sy)) with 0%R. rewrite Rplus_0_r.
    apply rounded_fixed; assumption.
  - cbn [SFadd]. apply SFadd_finite_rounds.
Qed.

Lemma SFsub_rounds (x y : spec_float) :
  good x -> good y ->
  rounds_to (bpow emax) (SF2R x - SF2R y) (SFsub prec emax x y).
Proof.
  intros [Hfx Hrx] [Hfy Hry].
  destruct x as [sx|sx| |sx mx ex]; try discriminate;
    destruct y as [sy|sy| |sy my ey]; try discriminate.
  - left. split; [destruct sx, sy; reflexivity|].
    replace (SF2R (SFsub prec emax (S754_zero sx) (S754_zero sy))) with 0%R
      by (destruct sx, sy; reflexivity).
    cbn [SF2R]. rewrite Rminus_0_r. left. auto.
  - left. split; [reflexivity|]. cbn [SFsub].
    replace (SF2R (S754_zero sx) - SF2R (S754_finite sy my ey))%R
      with (SF2R (S754_finite (negb sy) my ey))
      by (cbn [SF2R]; destruct sy; cbn [negb]; ring).
    apply rounded_fixed; [assumption|].
    replace (SF2R (S754_finite (negb sy) my ey)) with (- SF2R (S754_finite sy my ey))%R
      by (cbn [SF2R]; destruct sy; cbn [negb]; ring).
    now apply representable_opp.
  - left. split; [reflexivity|]. cbn [SFsub]. change (SF2R (S754_zero sy)) with 0%R. rewrite Rminus_0_r.
    apply rounded_fixed; assumption.
  - cbn [SFsub].
    pose proof (SFadd_finite_rounds sx mx ex (negb sy) my ey) as H. cbv zeta in H.
    replace (SF2R (S754_finite sx mx ex) - SF2R (S754_finite sy my ey))%R
      with (SF2R (S754_finite sx mx ex) + SF2R (S754_finite (negb sy) my ey))%R
      by (cbn [SF2R]; destruct sy; cbn [negb]; ring).
    replace (cond_Zopp sx (Z.pos (fst (shl_align mx ex (Z.min ex ey))))
             - cond_Zopp sy (Z.pos (fst (shl_align my ey (Z.min ex ey)))))
      with (cond_Zopp sx (Z.pos (fst (shl_align mx ex (Z.min ex ey))))
            + cond_Zopp (negb sy) (Z.pos (fst (shl_align my ey (Z.min ex ey)))))
      by (destruct sy; cbn [negb cond_Zopp]; lia).
    exact H.
Qed.

(** *** Division *)

Lemma new_location_describes (q m2 r e : Z) :
  0 < m2 -> 0 <= r < m2 ->
  describes q e (new_location m2 r) ((IZR q + IZR r / IZR m2) * bpow e).
Proof.
  intros Hm2 Hr. pose proof (bpow_pos e) as HB.
  assert (Hm2R : (0 < IZR m2)%R) by (apply IZR_lt; lia).
  assert (Hfrac : forall c : comparison,
             (2 * r ?= m2) = c ->
             describes q e (if r =? 0 then loc_Exact else loc_Inexact c)
               ((IZR q + IZR r / IZR m2) * bpow e)).
  { intros c Hc. destruct (r =? 0) eqn:Hr0.
    - apply Z.eqb_eq in Hr0. subst r. cbn [describes]. unfold Rdiv. rewrite Rmult_0_l. ring.
    - apply Z.eqb_neq in Hr0.
      assert (Hrpos : (0 < IZR r / IZR m2)%R).
      { apply Rdiv_lt_0_compat; [apply IZR_lt; lia | exact Hm2R]. }
      destruct c; cbn [describes].
      + apply Z.compare_eq in Hc.
        assert (Hhalf : (IZR r / IZR m2 = / 2)%R).
        { rewrite <- Hc, mult_IZR. field. apply eq_IZR_contrapositive. lia. }
        rewrite Hhalf. reflexivity.
      + rewrite Z.compare_lt_iff in Hc.
        assert (Hhalf : (IZR r / IZR m2 < / 2)%R).
        { apply (Rmult_lt_reg_r (IZR m2)); [exact Hm2R|].
          unfold Rdiv. rewrite Rmult_assoc, Rinv_l, Rmult_1_r by lra.
          apply IZR_lt in Hc. rewrite mult_IZR in Hc. lra. }
        split; nra.
      + rewrite Z.compare_gt_iff in Hc.
        assert (Hhalf : (/ 2 < IZR r / IZR m2 < 1)%R).
        { split; apply (Rmult_lt_reg_r (IZR m2)); try exact Hm2R;
            unfold Rdiv; rewrite Rmult_assoc, Rinv_l, Rmult_1_r by lra.
          - apply IZR_lt in Hc. rewrite mult_IZR in Hc. lra.
          - rewrite Rmult_1_l. apply IZR_lt. lia. }
        split; nra. }
  unfold new_location. destruct (Z.even m2) eqn:Hev.
  - unfold new_location_even. apply Hfrac. reflexivity.
  - unfold new_location_odd.
    assert (Hodd : 2 * r <> m2).
    { intros <-. rewrite Z.even_mul in Hev. discriminate. }
    destruct (2 * r + 1 ?= m2) eqn:Hc.
    + apply Z.compare_eq in Hc. apply Hfrac. apply Z.compare_lt_iff. lia.
    + rewrite Z.compare_lt_iff in Hc. apply Hfrac. apply Z.compare_lt_iff. lia.
    + rewrite Z.compare_gt_iff in Hc. apply Hfrac. apply Z.compare_gt_iff. lia.
Qed.

Lemma SFdiv_core_binary_describes (mx my : positive) (ex ey : Z) :
  let r := SFdiv_core_binary prec emax (Zpos mx) ex (Zpos my) ey in
  0 <= fst (fst r) /\
  describes (fst (fst r)) (snd (fst r)) (snd r)
    (IZR (Zpos mx) * bpow ex / (IZR (Zpos my) * bpow ey)) /\
  snd (fst r) <= fexp (Zdigits2 (fst (fst r)) + snd (fst r)).
Proof.
  unfold SFdiv_core_binary.
  set (D := Zdigits2 (Zpos mx) + ex - (Zdigits2 (Zpos my) + ey)).
  set (e' := Z.min (fexp D) (ex - ey)).
  set (s := ex - ey - e').
  assert (Hs : 0 <= s) by (unfold s, e'; lia).
  set (m' := match s with Z.pos _ => Z.shiftl (Zpos mx) s | 0 => Zpos mx | Z.neg _ => 0 end).
  assert (Hm' : m' = Zpos mx * 2 ^ s).
  { unfold m'. destruct s as [|p|p]; [lia | | lia].
    rewrite Z.shiftl_mul_pow2 by lia. reflexivity. }
  pose proof (Z.div_eucl_eq m' (Zpos my) ltac:(lia)) as Heq.
  pose proof (Z.mod_pos_bound m' (Zpos my) ltac:(lia)) as Hmod.
  assert (Hq0 : 0 <= m' / Zpos my).
  { apply Z.div_pos; [|lia]. rewrite Hm'. apply Z.mul_nonneg_nonneg; [lia|].
    apply Z.pow_nonneg. lia. }
  unfold Z.div, Z.modulo in *.
  destruct (Z.div_eucl m' (Zpos my)) as [q r]. cbn [fst snd] in *.
  pose proof (bpow_pos ex) as HBx. pose proof (bpow_pos ey) as HBy.
  pose proof (bpow_pos e') as HBe.
  assert (HmyR : (0 < IZR (Zpos my))%R) by (apply IZR_lt; lia).
  assert (HmxR : (0 < IZR (Zpos mx))%R) by (apply IZR_lt; lia).
  assert (Hv : (IZR (Zpos mx) * bpow ex / (IZR (Zpos my) * bpow ey)
                = (IZR q + IZR r / IZR (Zpos my)) * bpow e')%R).
  { assert (Hm'R : (IZR (Zpos mx) * bpow s = IZR (Zpos my) * IZR q + IZR r)%R).
    { rewrite bpow_IZR by lia. rewrite <- !mult_IZR, <- plus_IZR. f_equal. lia. }
    assert (Hex : bpow ex = (bpow s * bpow ey * bpow e')%R).
    { rewrite <- !bpow_add. f_equal. unfold s. lia. }
    rewrite Hex.
    replace (IZR (Z.pos mx) * (bpow s * bpow ey * bpow e') / (IZR (Z.pos my) * bpow ey))%R
      with ((IZR (Z.pos mx) * bpow s) / IZR (Z.pos my) * bpow e')%R by (field; lra).
    rewrite Hm'R. field. lra. }
  split; [exact Hq0|]. split.
  - rewrite Hv. apply new_location_describes; lia.
  - (* the quotient is long enough *)
    pose proof (new_location_describes q (Zpos my) r e' ltac:(lia) Hmod) as Hd.
    rewrite <- Hv in Hd. apply describes_bounds in Hd.
    set (v := (IZR (Z.pos mx) * bpow ex / (IZR (Z.pos my) * bpow ey))%R) in *.
    assert (HvD : (bpow (D - 1) < v)%R).
    { destruct (Zdigits2_mag (Zpos mx) ex ltac:(lia)) as [Hx1 _].
      destruct (Zdigits2_mag (Zpos my) ey ltac:(lia)) as [_ Hy2].
      unfold v.
      apply (Rmult_lt_reg_r (IZR (Zpos my) * bpow ey));
        [apply Rmult_lt_0_compat; lra|].
      unfold Rdiv. rewrite Rmult_assoc, Rinv_l, Rmult_1_r
        by (apply Rgt_not_eq, Rmult_lt_0_compat; lra).
      apply Rlt_le_trans with (bpow (D - 1) * bpow (Zdigits2 (Zpos my) + ey))%R.
      - apply Rmult_lt_compat_l; [apply bpow_pos | exact Hy2].
      - rewrite <- bpow_add.
        replace (D - 1 + (Zdigits2 (Z.pos my) + ey))
          with (Zdigits2 (Z.pos mx) + ex - 1) by (unfold D; lia).
        exact Hx1. }
    assert (HDle : D <= Zdigits2 q + e').
    { assert (D - 1 < Zdigits2 q + e'); [|lia]. apply bpow_lt_inv.
      apply Rlt_le_trans with (1 := HvD). apply Rlt_le.
      apply Rlt_le_trans with (1 := proj2 Hd). rewrite bpow_add.
      apply Rmult_le_compat_r; [lra|].
      pose proof (Zdigits2_nonneg q Hq0).
      rewrite bpow_IZR by lia. rewrite <- plus_IZR. apply IZR_le.
      destruct (Z.eq_dec q 0) as [-> | Hne]; [cbn; lia|].
      destruct (Zdigits2_pos q ltac:(lia)) as (_ & _ & Hhi). lia. }
    destruct (Z.eq_dec q 0) as [Hq | Hq].
    + rewrite Hq in *. cbn [Zdigits2] in *. rewrite fexp_spec.
      unfold e' in *. rewrite fexp_spec in *. lia.
    + apply Z.le_trans with (fexp D); [unfold e'; lia|].
      apply fexp_le. exact HDle.
Qed.

Lemma SFdiv_rounds (x : spec_float) (sy : bool) (my : positive) (ey : Z) :
  is_finite x = true ->
  let z := SFdiv prec emax x (S754_finite sy my ey) in
  rounds_to (bpow emax) (SF2R x / SF2R (S754_finite sy my ey)) z /\
  valid_binary prec emax z = true.
Proof.
  destruct x as [sx|sx| |sx mx ex]; try discriminate; intros _; cbn [SFdiv].
  - split; [|reflexivity]. left. split; [reflexivity|]. cbn [SF2R].
    unfold Rdiv. rewrite Rmult_0_l. left. auto.
  - destruct (SFdiv_core_binary_describes mx my ex ey) as (Hq & Hd & Hle).
    destruct (SFdiv_core_binary prec emax (Zpos mx) ex (Zpos my) ey) as [[q e'] l].
    cbn [fst snd] in *.
    destruct (binary_round_aux_rounds (xorb sx sy) q e' l _ Hq Hd (or_intror Hle))
      as [_ H].
    specialize (H Hle).
    replace (SF2R (S754_finite sx mx ex) / SF2R (S754_finite sy my ey))%R
      with (signed (xorb sx sy)
              (IZR (Z.pos mx) * bpow ex / (IZR (Z.pos my) * bpow ey))); [exact H|].
    pose proof (bpow_pos ey). assert (0 < IZR (Zpos my))%R by (apply IZR_lt; lia).
    cbn [SF2R]. destruct sx, sy; cbn [xorb signed]; field; lra.
Qed.

(** *** The integer part *)

Lemma SFtrunc_floor (x : spec_float) (z : Z) :
  SFtrunc x = Some z ->
  is_finite x = true /\
  ((0 <= SF2R x)%R -> (IZR z <= SF2R x < IZR z + 1)%R).
Proof.
  destruct x as [s|s| |s m e]; cbn [SFtrunc SF2R is_finite]; try discriminate;
    intros H; inversion H; subst; clear H; (split; [reflexivity|]).
  - intros _. lra.
  - pose proof (bpow_pos e) as HB.
    assert (HmR : (0 < IZR (Zpos m))%R) by (apply IZR_lt; lia).
    intros Hpos. destruct s; [nra|]. cbn [cond_Zopp].
    destruct e as [|p|p].
    + rewrite Z.shiftl_0_r, bpow_0. lra.
    + rewrite Z.shiftl_mul_pow2, mult_IZR, <- bpow_IZR by lia. lra.
    + rewrite Z.shiftr_div_pow2 by lia.
      pose proof (Z.div_mod (Zpos m) (2 ^ Zpos p) ltac:(lia)) as Hdm.
      pose proof (Z.mod_pos_bound (Zpos m) (2 ^ Zpos p) ltac:(lia)) as Hmod.
      set (q := Z.pos m / 2 ^ Z.pos p) in *. set (r := Z.pos m mod 2 ^ Z.pos p) in *.
      rewrite Hdm, plus_IZR, mult_IZR, <- bpow_IZR by lia.
      change (Z.neg p) with (- Z.pos p). rewrite bpow_opp.
      pose proof (bpow_pos (Zpos p)) as HBp.
      assert (Hr : (0 <= IZR r < bpow (Zpos p))%R).
      { rewrite bpow_IZR by lia. split; [apply IZR_le | apply IZR_lt]; lia. }
      assert (Hfr : (0 <= IZR r * / bpow (Zpos p) < 1)%R).
      { split.
        - apply Rmult_le_pos; [lra | apply Rlt_le, Rinv_0_lt_compat, HBp].
        - apply (Rmult_lt_reg_r (bpow (Zpos p))); [exact HBp|].
          rewrite Rmult_assoc, Rinv_l by lra. lra. }
      replace ((bpow (Z.pos p) * IZR q + IZR r) * / bpow (Z.pos p))%R
        with (IZR q + IZR r * / bpow (Zpos p))%R by (field; lra).
      lra.
Qed.

(** A rounding is a float of the format. *)
Lemma rounds_to_good (T v : R) (z : spec_float) :
  rounds_to T v z -> is_finite z = true -> good z.
Proof.
  intros [[_ Hr] | [Hinf _]] Hf; [|congruence].
  split; [exact Hf|]. eapply rounded_representable; eauto.
Qed.

End Operations.

(** ** Interpolation in binary64, stored in binary32 *)

Section Interpolation.

Import Rounding.
Local Open Scope R_scope.
Local Unset Implicit Arguments.

Local Abbreviation r64 := (Rounding.rounded 53 1024).
Local Abbreviation r32 := (Rounding.rounded 24 128).
Local Abbreviation rep64 := (Rounding.representable 53 1024).
Local Abbreviation rep32 := (Rounding.representable 24 128).

Lemma prec64_pos : (0 < 53)%Z.
Proof. reflexivity. Qed.

Lemma prec32_pos : (0 < 24)%Z.
Proof. reflexivity. Qed.

Lemma rep32_rep64 (v : R) : rep32 v -> rep64 v.
Proof.
  intros (m & e & Hv & Hm & He). exists m, e. split; [exact Hv|].
  unfold SpecFloat.emin in *. split; lia.
Qed.

Lemma rep32_lower (v : R) : rep32 v -> 0 < v -> bpow (- 149) <= v.
Proof.
  intros (m & e & -> & Hm & He) Hv. pose proof (bpow_pos e) as HB.
  assert (0 < m)%Z by (apply lt_IZR; nra).
  assert (1 <= IZR m) by (apply IZR_le; lia).
  assert (bpow (- 149) <= bpow e) by (apply bpow_le; unfold SpecFloat.emin in He; lia).
  nra.
Qed.

Lemma r64_error (v r : R) :
  r64 v r -> Rabs (r - v) <= bpow (- 53) * Rabs v + bpow (- 1075).
Proof. intros H. apply (rounded_error 53 1024) in H. exact H. Qed.

(** The constants of the two formats. *)
Lemma format_constants :
  0 < bpow (- 53) <= / 8 /\
  0 < bpow (- 1075) <= bpow (- 53) /\
  8 * bpow (- 53) <= bpow (Z.opp 24 - 2) /\
  8 * bpow (- 1075) <= bpow (- 53) * bpow (- 149).
Proof.
  pose proof (bpow_pos (- 53)). pose proof (bpow_pos (- 1075)).
  split; [split; [lra|]|split; [split; [lra|]|split]].
  - rewrite <- bpow_m3. apply bpow_le. lia.
  - apply bpow_le. lia.
  - rewrite <- bpow_3, <- bpow_add. apply bpow_le. lia.
  - rewrite <- bpow_3, <- !bpow_add. apply bpow_le. lia.
Qed.

Lemma interpolation_upper (a b f g p1 p2 s out M : R) :
  rep32 M -> a <= M -> b <= M ->
  0 <= f <= 1 ->
  r64 (1 - f) g -> r64 (a * g) p1 -> r64 (b * f) p2 -> r64 (p1 + p2) s ->
  r32 s out ->
  out <= M.
Proof.
  intros HM Ha Hb Hf Hg Hp1 Hp2 Hs Hout.
  destruct format_constants as ((Hu0 & Hu8) & (Hh0 & Hhu) & Hw & HhL).
  set (u := bpow (- 53)) in *. set (h := bpow (- 1075)) in *.
  set (w := bpow (Z.opp 24 - 2)) in *. set (L := bpow (- 149)) in *.
  assert (HL0 : 0 < L) by apply bpow_pos.
  assert (Hrep0 : rep64 0) by (apply representable_0; reflexivity).
  assert (Hrep1 : rep64 1).
  { exists 1%Z, 0%Z. rewrite bpow_0. unfold SpecFloat.emin. repeat split; lra || lia. }
  (* the weight of the first sample *)
  assert (Hg0 : 0 <= g) by (apply (rounded_ge_anchor 53 1024 prec64_pos (1 - f)); auto; lra).
  assert (Hg1 : g <= 1) by (apply (rounded_le_anchor 53 1024 prec64_pos (1 - f)); auto; lra).
  pose proof (r64_error _ _ Hg) as Hge. fold u h in Hge.
  rewrite (Rabs_pos_eq (1 - f)) in Hge by lra.
  apply Rabs_le_inv in Hge.
  pose proof (r64_error _ _ Hp1) as Hp1e. fold u h in Hp1e. apply Rabs_le_inv in Hp1e.
  pose proof (r64_error _ _ Hp2) as Hp2e. fold u h in Hp2e. apply Rabs_le_inv in Hp2e.
  pose proof (r64_error _ _ Hs) as Hse. fold u h in Hse. apply Rabs_le_inv in Hse.
  assert (Huf : 0 <= u * (1 - f) <= u).
  { split; [apply Rmult_le_pos; lra|].
    rewrite <- (Rmult_1_r u) at 2. apply Rmult_le_compat_l; lra. }
  assert (Hgf1 : g + f <= 1 + u + h) by lra.
  assert (Hgf2 : 1 - u - h <= g + f) by lra.
  assert (Huu : 0 <= u * u <= u / 8).
  { split; [apply Rmult_le_pos; lra|].
    replace (u / 8) with (u * / 8) by (unfold Rdiv; ring).
    apply Rmult_le_compat_l; lra. }
  assert (Huh : 0 <= u * h <= u * u).
  { split; [apply Rmult_le_pos; lra | apply Rmult_le_compat_l; lra]. }
  destruct (Rtotal_order M 0) as [Hneg | [Hzero | Hpos]].
  - (* both samples are negative *)
    assert (HL : L <= - M).
    { apply rep32_lower; [now apply representable_opp | lra]. }
    assert (Hag : a * g <= 0).
    { rewrite <- (Rmult_0_l g). apply Rmult_le_compat_r; lra. }
    assert (Hbf : b * f <= 0).
    { rewrite <- (Rmult_0_l f). apply Rmult_le_compat_r; lra. }
    rewrite (Rabs_left1 (a * g)) in Hp1e by exact Hag.
    rewrite (Rabs_left1 (b * f)) in Hp2e by exact Hbf.
    assert (H1 : p1 <= M * g * (1 - u) + h).
    { assert (a * g * (1 - u) <= M * g * (1 - u)); [|lra].
      apply Rmult_le_compat_r; [lra|]. apply Rmult_le_compat_r; lra. }
    assert (H2 : p2 <= M * f * (1 - u) + h).
    { assert (b * f * (1 - u) <= M * f * (1 - u)); [|lra].
      apply Rmult_le_compat_r; [lra|]. apply Rmult_le_compat_r; lra. }
    set (X := (1 - u - h) * (1 - u)).
    assert (HX : 1 - 3 * u <= X <= 1) by (unfold X; lra).
    assert (H3 : p1 + p2 <= M * X + 2 * h).
    { assert (M * (g + f) * (1 - u) <= M * (1 - u - h) * (1 - u)).
      { apply Rmult_le_compat_r; [lra|].
        apply Ropp_le_cancel. rewrite !Ropp_mult_distr_l.
        apply Rmult_le_compat_l; lra. }
      unfold X. lra. }
    assert (HuL : u * L <= L / 8).
    { replace (L / 8) with (/ 8 * L) by (unfold Rdiv; ring).
      apply Rmult_le_compat_r; lra. }
    assert (HMX : M * X <= M * / 2).
    { apply Ropp_le_cancel. rewrite !Ropp_mult_distr_l.
      apply Rmult_le_compat_l; lra. }
    assert (H4 : p1 + p2 <= 0) by lra.
    rewrite (Rabs_left1 (p1 + p2)) in Hse by exact H4.
    assert (H5 : s <= (M * X + 2 * h) * (1 - u) + h).
    { assert ((p1 + p2) * (1 - u) <= (M * X + 2 * h) * (1 - u)).
      { apply Rmult_le_compat_r; lra. }
      lra. }
    apply (rounded_le_near 24 128 prec32_pos M s out HM Hout).
    fold w. rewrite (Rabs_left M) by exact Hneg.
    set (Y := X * (1 - u)).
    assert (HY : 1 - 4 * u <= Y).
    { unfold Y. assert (0 <= u * X <= u).
      { split; [apply Rmult_le_pos; lra|].
        rewrite <- (Rmult_1_r u) at 2. apply Rmult_le_compat_l; lra. }
      lra. }
    assert (HMY : M * Y <= M * (1 - 4 * u)).
    { apply Ropp_le_cancel. rewrite !Ropp_mult_distr_l.
      apply Rmult_le_compat_l; lra. }
    assert (HuM : u * L <= u * - M) by (apply Rmult_le_compat_l; lra).
    assert (HwM : 0 <= (w - 8 * u) * - M) by (apply Rmult_le_pos; lra).
    assert (Hhu' : 0 <= h * u) by (apply Rmult_le_pos; lra).
    unfold Y in HMY. lra.
  - (* the larger sample is zero *)
    subst M.
    assert (Hag : a * g <= 0).
    { rewrite <- (Rmult_0_l g). apply Rmult_le_compat_r; lra. }
    assert (Hbf : b * f <= 0).
    { rewrite <- (Rmult_0_l f). apply Rmult_le_compat_r; lra. }
    assert (p1 <= 0) by (apply (rounded_le_anchor 53 1024 prec64_pos (a * g)); auto).
    assert (p2 <= 0) by (apply (rounded_le_anchor 53 1024 prec64_pos (b * f)); auto).
    assert (s <= 0)
      by (apply (rounded_le_anchor 53 1024 prec64_pos (p1 + p2)); auto; lra).
    apply (rounded_le_anchor 24 128 prec32_pos s); auto.
  - (* the larger sample is positive *)
    assert (HL : L <= M) by (apply rep32_lower; assumption).
    assert (H1 : p1 <= M * g * (1 + u) + h).
    { destruct (Rle_lt_dec 0 a) as [Ha0 | Ha0].
      - rewrite (Rabs_pos_eq (a * g)) in Hp1e by (apply Rmult_le_pos; lra).
        assert (a * g * (1 + u) <= M * g * (1 + u)); [|lra].
        apply Rmult_le_compat_r; [lra|]. apply Rmult_le_compat_r; lra.
      - assert (Hag : a * g <= 0).
        { rewrite <- (Rmult_0_l g). apply Rmult_le_compat_r; lra. }
        assert (p1 <= 0)
          by (apply (rounded_le_anchor 53 1024 prec64_pos (a * g)); auto).
        assert (0 <= M * g * (1 + u))
          by (apply Rmult_le_pos; [apply Rmult_le_pos|]; lra).
        lra. }
    assert (H2 : p2 <= M * f * (1 + u) + h).
    { destruct (Rle_lt_dec 0 b) as [Hb0 | Hb0].
      - rewrite (Rabs_pos_eq (b * f)) in Hp2e by (apply Rmult_le_pos; lra).
        assert (b * f * (1 + u) <= M * f * (1 + u)); [|lra].
        apply Rmult_le_compat_r; [lra|]. apply Rmult_le_compat_r; lra.
      - assert (Hbf : b * f <= 0).
        { rewrite <- (Rmult_0_l f). apply Rmult_le_compat_r; lra. }
        assert (p2 <= 0)
          by (apply (rounded_le_anchor 53 1024 prec64_pos (b * f)); auto).
        assert (0 <= M * f * (1 + u))
          by (apply Rmult_le_pos; [apply Rmult_le_pos|]; lra).
        lra. }
    set (X := (1 + u + h) * (1 + u)).
    assert (HX : 1 <= X <= 1 + 4 * u) by (unfold X; lra).
    assert (H3 : p1 + p2 <= M * X + 2 * h).
    { assert (M * (g + f) * (1 + u) <= M * (1 + u + h) * (1 + u)).
      { apply Rmult_le_compat_r; [lra|]. apply Rmult_le_compat_l; lra. }
      unfold X. lra. }
    apply (rounded_le_near 24 128 prec32_pos M s out HM Hout).
    fold w. rewrite (Rabs_pos_eq M) by lra.
    assert (HwM : 0 <= (w - 8 * u) * M) by (apply Rmult_le_pos; lra).
    destruct (Rle_lt_dec (p1 + p2) 0) as [Hs0 | Hs0].
    + assert (s <= 0)
        by (apply (rounded_le_anchor 53 1024 prec64_pos (p1 + p2)); auto).
      assert (0 <= u * M) by (apply Rmult_le_pos; lra). lra.
    + rewrite (Rabs_pos_eq (p1 + p2)) in Hse by lra.
      assert (H5 : s <= (M * X + 2 * h) * (1 + u) + h).
      { assert ((p1 + p2) * (1 + u) <= (M * X + 2 * h) * (1 + u)).
        { apply Rmult_le_compat_r; lra. }
        lra. }
      set (Y := X * (1 + u)).
      assert (HY : Y <= 1 + 6 * u).
      { unfold Y. assert (0 <= u * X <= u * (1 + 4 * u)).
        { split; [apply Rmult_le_pos; lra | apply Rmult_le_compat_l; lra]. }
        lra. }
      assert (HMY : M * Y <= M * (1 + 6 * u)) by (apply Rmult_le_compat_l; lra).
      assert (HuM : u * L <= u * M) by (apply Rmult_le_compat_l; lra).
      assert (Hhu' : 0 <= h * u <= h / 8).
      { split; [apply Rmult_le_pos; lra|].
        replace (h / 8) with (h * / 8) by (unfold Rdiv; ring).
        apply Rmult_le_compat_l; lra. }
      unfold Y in HMY. lra.
Qed.

Lemma interpolation_lower (a b f g p1 p2 s out M : R) :
  rep32 M -> M <= a -> M <= b ->
  0 <= f <= 1 ->
  r64 (1 - f) g -> r64 (a * g) p1 -> r64 (b * f) p2 -> r64 (p1 + p2) s ->
  r32 s out ->
  M <= out.
Proof.
  intros HM Ha Hb Hf Hg Hp1 Hp2 Hs Hout.
  assert (- out <= - M); [|lra].
  apply (interpolation_upper (- a) (- b) f g (- p1) (- p2) (- s) (- out) (- M));
    try lra; try assumption.
  - now apply representable_opp.
  - replace (- a * g) with (- (a * g)) by ring. now apply rounded_opp.
  - replace (- b * f) with (- (b * f)) by ring. now apply rounded_opp.
  - replace (- p1 + - p2) with (- (p1 + p2)) by ring. now apply rounded_opp.
  - now apply rounded_opp.
Qed.

End Interpolation.

Section SampleValues.

Import Rounding.
Local Open Scope R_scope.
Local Unset Implicit Arguments.

Local Abbreviation r64 := (Rounding.rounded 53 1024).
Local Abbreviation r32 := (Rounding.rounded 24 128).
Local Abbreviation rep64 := (Rounding.representable 53 1024).
Local Abbreviation rep32 := (Rounding.representable 24 128).
Local Abbreviation good64 := (Rounding.good 53 1024).

Lemma emax64 : (53 < 1024)%Z.
Proof. reflexivity. Qed.

Lemma emax32 : (24 < 128)%Z.
Proof. reflexivity. Qed.

Lemma representable_IZR (prec emax z : Z) :
  (0 < prec)%Z -> (prec < emax)%Z -> (Z.abs z < 2 ^ prec)%Z ->
  representable prec emax (IZR z).
Proof.
  intros Hp He Hz. exists z, 0%Z. split; [rewrite bpow_0; ring|].
  split; [exact Hz | unfold emin; lia].
Qed.

Lemma representable_bpow (prec emax e : Z) :
  (0 < prec)%Z -> (emin prec emax <= e)%Z -> representable prec emax (bpow e).
Proof.
  intros Hp He. exists 1%Z, e. split; [ring|]. split; [|exact He].
  change (Z.abs 1) with (1 ^ prec)%Z at 1 || idtac.
  cbn [Z.abs]. apply Z.pow_gt_1; lia.
Qed.

Lemma representable_abs (prec emax : Z) (v : R) :
  representable prec emax v -> representable prec emax (Rabs v).
Proof.
  intros H. unfold Rabs. destruct (Rcase_abs v); [now apply representable_opp | exact H].
Qed.

(** A rounding of a number of the format, in range, is that number. *)
Lemma rounds_to_exact (prec emax : Z) (T v : R) (z : spec_float) :
  (0 < prec)%Z ->
  rounds_to prec emax T v z -> representable prec emax v -> Rabs v < T ->
  is_finite z = true /\ SF2R z = v.
Proof.
  intros Hp Hr Hv HT.
  destruct (rounds_to_finite prec emax Hp T v z (Rabs v) Hr
              (representable_abs _ _ _ Hv) (Rle_refl _) HT) as [Hf Hro].
  split; [exact Hf|].
  eapply (rounded_unique prec emax Hp); [exact Hro | now apply rounded_fixed].
Qed.

Lemma B64_of_Z_exact (z : Z) :
  rep64 (IZR z) -> Rabs (IZR z) < bpow 1024 ->
  good64 (B64.of_Z z) /\ SF2R (B64.of_Z z) = IZR z.
Proof.
  intros Hrep Hlt. unfold B64.of_Z.
  destruct (binary_normalize_rounds 53 1024 prec64_pos emax64 z 0 false) as [Hr _].
  rewrite bpow_0, Rmult_1_r in Hr.
  destruct (rounds_to_exact 53 1024 _ _ _ prec64_pos Hr Hrep Hlt) as [Hf He].
  split; [|exact He]. split; [exact Hf|].
  change (rep64 (SF2R (binary_normalize 53 1024 z 0 false))).
  rewrite He. exact Hrep.
Qed.

Lemma IZR_below_bpow (z e : Z) : (0 <= e)%Z -> (Z.abs z < 2 ^ e)%Z -> Rabs (IZR z) < bpow e.
Proof.
  intros He Hz. rewrite bpow_IZR by exact He. rewrite <- abs_IZR. now apply IZR_lt.
Qed.

(** The integer part of a non-negative double is a double. *)
Lemma floor_representable (v : R) (z : Z) :
  rep64 v -> 0 <= v -> IZR z <= v < IZR z + 1 -> rep64 (IZR z).
Proof.
  intros (m & e & Hv & Hm & He) H0 [Hlo Hhi].
  assert (Hz0 : (0 <= z)%Z).
  { assert (-1 < z)%Z; [|lia]. apply lt_IZR. lra. }
  destruct (Z_lt_le_dec z (2 ^ 53)) as [Hsmall | Hbig].
  - apply representable_IZR; [reflexivity | reflexivity | lia].
  - assert (H53 : IZR (2 ^ 53) <= v) by (apply IZR_le in Hbig; lra).
    assert (Hm53 : IZR (Z.abs m) < IZR (2 ^ 53)) by now apply IZR_lt.
    assert (Hpos53 : 0 < IZR (2 ^ 53)) by (apply IZR_lt; reflexivity).
    assert (Hmpos : (0 < m)%Z).
    { destruct (Z_lt_le_dec 0 m) as [|Hneg]; [assumption|exfalso].
      apply IZR_le in Hneg. pose proof (bpow_pos e). nra. }
    rewrite Z.abs_eq in Hm53 by lia.
    assert (Hepos : (0 < e)%Z).
    { destruct (Z_lt_le_dec 0 e) as [|Hneg]; [assumption|exfalso].
      pose proof (bpow_le e 0 Hneg) as Hb. rewrite bpow_0 in Hb.
      pose proof (bpow_pos e). apply IZR_lt in Hmpos. nra. }
    pose proof Hv as Hv0.
    rewrite bpow_IZR in Hv by lia. rewrite <- mult_IZR in Hv.
    assert (z = m * 2 ^ e)%Z.
    { rewrite Hv in Hlo, Hhi. apply le_IZR in Hlo.
      rewrite <- plus_IZR in Hhi. apply lt_IZR in Hhi. lia. }
    subst z. rewrite <- Hv. exists m, e.
    split; [exact Hv0|]. split; [lia | exact He].
Qed.

Lemma SFconvert_rounds (prec emax : Z) (x : spec_float) :
  (0 < prec)%Z -> (prec < emax)%Z -> is_finite x = true ->
  rounds_to prec emax (bpow emax) (SF2R x) (SFconvert prec emax x).
Proof.
  intros Hp He Hf. destruct x as [s|s| |s m e]; try discriminate.
  - left. split; [reflexivity|]. left. split; reflexivity.
  - cbn [SFconvert SF2R].
    destruct (binary_round_rounds prec emax Hp He s m e) as [Hr _].
    destruct s; cbn [signed] in Hr.
    + replace (- IZR (Zpos m) * bpow e) with (- (IZR (Zpos m) * bpow e)) by ring. exact Hr.
    + exact Hr.
Qed.

(** A binary32 value converts to binary64 without change. *)
Lemma d_of_flt_exact (a : spec_float) :
  is_finite a = true -> valid_binary 24 128 a = true ->
  good64 (SFconvert 53 1024 a) /\ SF2R (SFconvert 53 1024 a) = SF2R a /\
  rep32 (SF2R a) /\ Rabs (SF2R a) < bpow 128.
Proof.
  intros Hf Hv.
  destruct (valid_binary_good 24 128 prec32_pos a Hf Hv) as [[_ Hrep] Hlt].
  pose proof (SFconvert_rounds 53 1024 a prec64_pos emax64 Hf) as Hr.
  assert (Hlt' : Rabs (SF2R a) < bpow 1024).
  { pose proof (bpow_lt 128 1024 ltac:(lia)). lra. }
  destruct (rounds_to_exact 53 1024 _ _ _ prec64_pos Hr (rep32_rep64 _ Hrep) Hlt')
    as [Hfin He].
  split; [|split; [exact He | split; assumption]].
  split; [exact Hfin|]. rewrite He. now apply rep32_rep64.
Qed.

Lemma Rmax_rep (a b : R) : rep32 a -> rep32 b -> rep32 (Rmax a b).
Proof. intros Ha Hb. unfold Rmax. destruct (Rle_dec a b); assumption. Qed.

Lemma Rmin_rep (a b : R) : rep32 a -> rep32 b -> rep32 (Rmin a b).
Proof. intros Ha Hb. unfold Rmin. destruct (Rle_dec a b); assumption. Qed.

(** The interpolation of [ResampleAudio] in binary64, stored as binary32:
    [x] is the source position, [z] its integer part. *)
Lemma interpolate_sample_eq (x a b frac g p1 p2 s out : spec_float) (z : Z) :
  good64 x -> 0 <= SF2R x -> SFtrunc x = Some z -> (z < 2 ^ 64)%Z ->
  is_finite a = true -> valid_binary 24 128 a = true ->
  is_finite b = true -> valid_binary 24 128 b = true ->
  frac = B64.sub x (B64.of_Z z) ->
  g = B64.sub (B64.of_Z 1) frac ->
  p1 = B64.mul (SFconvert 53 1024 a) g ->
  p2 = B64.mul (SFconvert 53 1024 b) frac ->
  s = B64.add p1 p2 ->
  out = SFconvert 24 128 s ->
  is_finite out = true /\
  Rmin (SF2R a) (SF2R b) <= SF2R out <= Rmax (SF2R a) (SF2R b).
Proof.
  intros Hx Hx0 Hz Hz64 Hfa Hva Hfb Hvb Efrac Eg Ep1 Ep2 Es Eout.
  pose proof prec64_pos as P64. pose proof emax64 as E64.
  pose proof prec32_pos as P32. pose proof emax32 as E32.
  (* the integer part *)
  destruct (SFtrunc_floor x z Hz) as [_ Hfloor]. specialize (Hfloor Hx0).
  assert (Hz0 : (0 <= z)%Z).
  { assert (-1 < z)%Z; [|lia]. apply lt_IZR. lra. }
  pose proof (floor_representable _ z (proj2 Hx) Hx0 Hfloor) as Hzrep.
  destruct (B64_of_Z_exact z Hzrep) as [Hkgood Hk].
  { apply Rlt_trans with (bpow 64); [|apply bpow_lt; lia].
    apply IZR_below_bpow; lia. }
  (* frac *)
  assert (Hfrac : rounds_to 53 1024 (bpow 1024) (SF2R x - IZR z) frac).
  { rewrite Efrac, <- Hk. now apply SFsub_rounds. }
  assert (Hone : rep64 1).
  { apply (representable_IZR 53 1024 1); [lia | lia | reflexivity]. }
  assert (H1big : 1 < bpow 1024).
  { rewrite <- bpow_0. apply bpow_lt. lia. }
  destruct (rounds_to_finite 53 1024 P64 _ _ _ 1 Hfrac Hone) as [Hffin Hfr];
    [apply Rabs_le; lra | exact H1big |].
  pose proof (rounds_to_good 53 1024 P64 _ _ _ Hfrac Hffin) as Hfgood.
  assert (Hf01 : 0 <= SF2R frac <= 1).
  { split.
    - apply (rounded_ge_anchor 53 1024 P64 _ _ 0 Hfr (representable_0 53 1024 P64)). lra.
    - apply (rounded_le_anchor 53 1024 P64 _ _ 1 Hfr Hone). lra. }
  (* 1 - frac *)
  destruct (B64_of_Z_exact 1 Hone) as [H1good H1].
  { rewrite Rabs_right by lra. exact H1big. }
  assert (Hg : rounds_to 53 1024 (bpow 1024) (1 - SF2R frac) g).
  { rewrite Eg, <- H1. now apply SFsub_rounds. }
  destruct (rounds_to_finite 53 1024 P64 _ _ _ 1 Hg Hone) as [Hgfin Hgr];
    [apply Rabs_le; lra | exact H1big |].
  assert (Hg01 : 0 <= SF2R g <= 1).
  { split.
    - apply (rounded_ge_anchor 53 1024 P64 _ _ 0 Hgr (representable_0 53 1024 P64)). lra.
    - apply (rounded_le_anchor 53 1024 P64 _ _ 1 Hgr Hone). lra. }
  (* the samples *)
  destruct (d_of_flt_exact a Hfa Hva) as ([Hdafin _] & Hda & Harep & Halt).
  destruct (d_of_flt_exact b Hfb Hvb) as ([Hdbfin _] & Hdb & Hbrep & Hblt).
  assert (H128 : bpow 128 < bpow (1024 - 53)) by (apply bpow_lt; lia).
  pose proof (representable_abs _ _ _ (rep32_rep64 _ Harep)) as Haabs.
  pose proof (representable_abs _ _ _ (rep32_rep64 _ Hbrep)) as Hbabs.
  (* the products *)
  assert (Hp1 : rounds_to 53 1024 (bpow (1024 - 53)) (SF2R a * SF2R g) p1).
  { rewrite Ep1, <- Hda. now apply SFmul_rounds. }
  assert (Hprod1 : Rabs (SF2R a * SF2R g) <= Rabs (SF2R a)).
  { rewrite Rabs_mult. rewrite (Rabs_right (SF2R g)) by lra.
    pose proof (Rabs_pos (SF2R a)). nra. }
  destruct (rounds_to_finite 53 1024 P64 _ _ _ (Rabs (SF2R a)) Hp1 Haabs Hprod1)
    as [Hp1fin Hp1r]; [lra|].
  pose proof (rounds_to_good 53 1024 P64 _ _ _ Hp1 Hp1fin) as Hp1good.
  assert (Hp2 : rounds_to 53 1024 (bpow (1024 - 53)) (SF2R b * SF2R frac) p2).
  { rewrite Ep2, <- Hdb. now apply SFmul_rounds. }
  assert (Hprod2 : Rabs (SF2R b * SF2R frac) <= Rabs (SF2R b)).
  { rewrite Rabs_mult. rewrite (Rabs_right (SF2R frac)) by lra.
    pose proof (Rabs_pos (SF2R b)). nra. }
  destruct (rounds_to_finite 53 1024 P64 _ _ _ (Rabs (SF2R b)) Hp2 Hbabs Hprod2)
    as [Hp2fin Hp2r]; [lra|].
  pose proof (rounds_to_good 53 1024 P64 _ _ _ Hp2 Hp2fin) as Hp2good.
  (* their bounds *)
  assert (Hp1b : Rabs (SF2R p1) <= Rabs (SF2R a)).
  { apply Rabs_le_inv in Hprod1. apply Rabs_le. split.
    - apply (rounded_ge_anchor 53 1024 P64 _ _ _ Hp1r (representable_opp _ _ _ Haabs)). lra.
    - apply (rounded_le_anchor 53 1024 P64 _ _ _ Hp1r Haabs). lra. }
  assert (Hp2b : Rabs (SF2R p2) <= Rabs (SF2R b)).
  { apply Rabs_le_inv in Hprod2. apply Rabs_le. split.
    - apply (rounded_ge_anchor 53 1024 P64 _ _ _ Hp2r (representable_opp _ _ _ Hbabs)). lra.
    - apply (rounded_le_anchor 53 1024 P64 _ _ _ Hp2r Hbabs). lra. }
  (* the sum *)
  assert (Hs : rounds_to 53 1024 (bpow 1024) (SF2R p1 + SF2R p2) s).
  { rewrite Es. now apply SFadd_rounds. }
  destruct (rounds_to_finite 53 1024 P64 _ _ _ (bpow 129) Hs) as [Hsfin Hsr].
  { apply representable_bpow; [lia | unfold emin; lia]. }
  { eapply Rle_trans; [apply Rabs_triang|].
    replace 129%Z with (128 + 1)%Z by lia. rewrite bpow_add, bpow_1. lra. }
  { apply bpow_lt. lia. }
  (* the stored sample *)
  assert (Hout : rounds_to 24 128 (bpow 128) (SF2R s) out).
  { rewrite Eout. now apply SFconvert_rounds. }
  pose proof (Rmax_rep _ _ Harep Hbrep) as Hmaxrep.
  pose proof (Rmin_rep _ _ Harep Hbrep) as Hminrep.
  pose proof (Rmax_l (SF2R a) (SF2R b)) as Hmaxl.
  pose proof (Rmax_r (SF2R a) (SF2R b)) as Hmaxr.
  pose proof (Rmin_l (SF2R a) (SF2R b)) as Hminl.
  pose proof (Rmin_r (SF2R a) (SF2R b)) as Hminr.
  assert (Hup : forall r, r32 (SF2R s) r -> r <= Rmax (SF2R a) (SF2R b)).
  { intros r Hr.
    exact (interpolation_upper _ _ _ _ _ _ _ _ _ Hmaxrep Hmaxl Hmaxr Hf01 Hgr Hp1r Hp2r Hsr Hr). }
  assert (Hdown : forall r, r32 (SF2R s) r -> Rmin (SF2R a) (SF2R b) <= r).
  { intros r Hr.
    exact (interpolation_lower _ _ _ _ _ _ _ _ _ Hminrep Hminl Hminr Hf01 Hgr Hp1r Hp2r Hsr Hr). }
  assert (Hmaxlt : Rmax (SF2R a) (SF2R b) < bpow 128).
  { apply Rabs_def2 in Halt. apply Rabs_def2 in Hblt.
    unfold Rmax. destruct (Rle_dec _ _); lra. }
  assert (Hminlt : - bpow 128 < Rmin (SF2R a) (SF2R b)).
  { apply Rabs_def2 in Halt. apply Rabs_def2 in Hblt.
    unfold Rmin. destruct (Rle_dec _ _); lra. }
  destruct Hout as [[Hofin Hor] | [_ (r & Hr & Hbig)]].
  - split; [exact Hofin|]. split; [now apply Hdown | now apply Hup].
  - exfalso. unfold Rabs in Hr. destruct (Rcase_abs _) as [Hneg | Hpos].
    + apply rounded_opp in Hr. rewrite Ropp_involutive in Hr.
      apply Hdown in Hr. lra.
    + apply Hup in Hr. lra.
Qed.

End SampleValues.

Section SourcePosition.

Import Rounding.
Local Open Scope R_scope.
Local Unset Implicit Arguments.

Local Abbreviation r64 := (Rounding.rounded 53 1024).
Local Abbreviation rep64 := (Rounding.representable 53 1024).
Local Abbreviation good64 := (Rounding.good 53 1024).

Lemma SF2R_pos (x : spec_float) :
  0 < SF2R x -> exists m e, x = S754_finite false m e.
Proof.
  destruct x as [s|s| |s m e]; cbn [SF2R]; try lra.
  destruct s; [|eauto]. intros H. exfalso.
  pose proof (bpow_pos e). assert (0 < IZR (Zpos m)) by (apply IZR_lt; lia). nra.
Qed.

Lemma SFmul_finite_inv (prec emax : Z) (x y : spec_float) :
  is_finite (SFmul prec emax x y) = true -> is_finite x = true /\ is_finite y = true.
Proof.
  destruct x as [sx|sx| |sx mx ex], y as [sy|sy| |sy my ey];
    cbn [SFmul is_finite]; try discriminate; auto.
Qed.

Lemma SFdiv_finite_inv (prec emax : Z) (x y : spec_float) :
  is_finite (SFdiv prec emax x y) = true -> is_finite x = true.
Proof.
  destruct x as [sx|sx| |sx mx ex], y as [sy|sy| |sy my ey];
    cbn [SFdiv is_finite]; try discriminate; auto.
Qed.

Lemma SFtrunc_positive (x : spec_float) (z : Z) :
  SFtrunc x = Some z -> (0 < z)%Z -> 0 < SF2R x.
Proof.
  destruct x as [s|s| |s m e]; cbn [SFtrunc SF2R]; try discriminate;
    intros H Hz; inversion H; subst; clear H; [lia|].
  assert (Hnn : (0 <= match e with
                      | Z.neg p => Z.shiftr (Z.pos m) (Z.pos p)
                      | _ => Z.shiftl (Z.pos m) e
                      end)%Z).
  { destruct e; [apply Z.shiftl_nonneg | apply Z.shiftl_nonneg | apply Z.shiftr_nonneg]; lia. }
  destruct s; cbn [cond_Zopp] in Hz; [lia|].
  pose proof (bpow_pos e). assert (0 < IZR (Zpos m)) by (apply IZR_lt; lia). nra.
Qed.

Lemma B64_of_N_nonneg (n : N) :
  is_finite (B64.of_Z (Z.of_N n)) = true -> 0 <= SF2R (B64.of_Z (Z.of_N n)).
Proof.
  intros Hf.
  destruct (binary_normalize_rounds 53 1024 prec64_pos emax64 (Z.of_N n) 0 false)
    as [[[_ Hr] | [Hinf _]] _].
  - rewrite bpow_0, Rmult_1_r in Hr.
    apply (rounded_ge_anchor 53 1024 prec64_pos _ _ 0 Hr (representable_0 53 1024 prec64_pos)).
    apply IZR_le. lia.
  - unfold B64.of_Z in Hf. change B64.prec with 53%Z in Hf.
    change B64.emax with 1024%Z in Hf. congruence.
Qed.

(** A run of [ResampleAudio] that produces a sample has a positive finite
    ratio. *)
Lemma ratio_positive (ratio : spec_float) (n L : N) :
  to_size_t (A := IEEE) (d_mul (d_of_size n) ratio) = Ok L -> (0 < L)%N ->
  exists m e, ratio = S754_finite false m e.
Proof.
  unfold to_size_t. cbn [d_trunc d_mul d_of_size IEEE].
  destruct (SFtrunc _) as [z|] eqn:Hz; [|discriminate].
  destruct (0 <=? z)%Z eqn:H0; cbn [andb]; [|discriminate].
  destruct (z <? 2 ^ 64)%Z; [|discriminate].
  intros H HL. inversion H; subst L; clear H.
  assert (Hzpos : (0 < z)%Z) by lia.
  pose proof (SFtrunc_positive _ z Hz Hzpos) as Hpos.
  destruct (SFtrunc_floor _ z Hz) as [Hfin _].
  destruct (SFmul_finite_inv _ _ _ _ Hfin) as [HfN Hfr].
  pose proof (B64_of_N_nonneg n HfN) as HN.
  destruct (SFmul_rounds 53 1024 prec64_pos emax64 _ _ HfN Hfr) as [[_ Hr] | [Hinf _]].
  - apply SF2R_pos.
    destruct (Rlt_le_dec 0 (SF2R ratio)) as [|Hneg]; [assumption|exfalso].
    assert (Hle : SF2R (B64.mul (B64.of_Z (Z.of_N n)) ratio) <= 0).
    { apply (rounded_le_anchor 53 1024 prec64_pos _ _ 0 Hr
               (representable_0 53 1024 prec64_pos)). nra. }
    lra.
  - unfold B64.mul in Hfin. change B64.prec with 53%Z in Hfin.
    change B64.emax with 1024%Z in Hfin. congruence.
Qed.

(** The source position of output sample [i]. *)
Lemma source_position (m : positive) (e : Z) (i : N) (z : Z) :
  (Z.of_N i < 2 ^ 64)%Z ->
  SFtrunc (B64.div (B64.of_Z (Z.of_N i)) (S754_finite false m e)) = Some z ->
  good64 (B64.div (B64.of_Z (Z.of_N i)) (S754_finite false m e)) /\
  0 <= SF2R (B64.div (B64.of_Z (Z.of_N i)) (S754_finite false m e)).
Proof.
  intros Hi Hz.
  destruct (SFtrunc_floor _ z Hz) as [Hfin _].
  pose proof (SFdiv_finite_inv _ _ _ _ Hfin) as Hfi.
  pose proof (B64_of_N_nonneg i Hfi) as Hi0.
  destruct (SFdiv_rounds 53 1024 prec64_pos emax64 _ false m e Hfi) as [Hr _].
  split; [exact (rounds_to_good 53 1024 prec64_pos _ _ _ Hr Hfin)|].
  destruct Hr as [[_ Hr] | [Hinf _]].
  - apply (rounded_ge_anchor 53 1024 prec64_pos _ _ 0 Hr (representable_0 53 1024 prec64_pos)).
    assert (0 < SF2R (S754_finite false m e)).
    { cbn [SF2R]. pose proof (bpow_pos e).
      assert (0 < IZR (Zpos m)) by (apply IZR_lt; lia). nra. }
    apply Rmult_le_pos; [exact Hi0|]. left. now apply Rinv_0_lt_compat.
  - unfold B64.div in Hfin. change B64.prec with 53%Z in Hfin.
    change B64.emax with 1024%Z in Hfin. congruence.
Qed.

(** The rational and the real value of a float agree. *)
Lemma Q2R_SF2Q (x : spec_float) : Q2R (SF2Q x) = SF2R x.
Proof.
  destruct x as [s|s| |s m e]; cbn [SF2Q SF2R]; try (unfold Q2R; cbn; lra).
  assert (H : Q2R match e with
                  | Z.neg p => Z.pos m # 2 ^ p
                  | _ => inject_Z (Z.shiftl (Z.pos m) e)
                  end = IZR (Zpos m) * bpow e).
  { destruct e as [|p|p].
    - cbn [Z.shiftl]. unfold Q2R, inject_Z. cbn [Qnum Qden].
      rewrite bpow_0, Rinv_1. reflexivity.
    - rewrite Z.shiftl_mul_pow2 by lia. unfold Q2R, inject_Z. cbn [Qnum Qden].
      rewrite Rinv_1, mult_IZR, <- bpow_IZR by lia. ring.
    - unfold Q2R. cbn [Qnum Qden]. rewrite Pos2Z.inj_pow.
      change (Z.pos 2) with 2%Z. rewrite <- bpow_IZR by lia.
      change (Z.neg p) with (- Z.pos p)%Z. rewrite bpow_opp. reflexivity. }
  destruct s; [rewrite Q2R_opp, H; ring | exact H].
Qed.

Lemma between_of_reals (a b v : spec_float) :
  Rmin (SF2R a) (SF2R b) <= SF2R v <= Rmax (SF2R a) (SF2R b) ->
  between (SF2Q a) (SF2Q b) (SF2Q v).
Proof.
  intros [Hlo Hhi]. unfold between.
  unfold Rmin, Rmax in *. destruct (Rle_dec (SF2R a) (SF2R b)).
  - left. split; apply Rle_Qle; rewrite !Q2R_SF2Q; assumption.
  - right. split; apply Rle_Qle; rewrite !Q2R_SF2Q; assumption.
Qed.

(** Every interpolated sample of a binary64 run on binary32 data is finite
    and lies between the two finite samples it is computed from. *)
Lemma ResampleAudio_between_IEEE (ratio : spec_float) (input : list spec_float)
    (inputSamples : N) (output : list spec_float) (i floorIdx : N) :
  ResampleAudio (A := IEEE) ratio input inputSamples = Ok output ->
  (i < N.of_nat (List.length output))%N ->
  to_size_t (A := IEEE) (d_div (d_of_size i) ratio) = Ok floorIdx ->
  (size_add floorIdx 1 < inputSamples)%N ->
  is_finite (read input floorIdx) = true ->
  valid_binary 24 128 (read input floorIdx) = true ->
  is_finite (read input (size_add floorIdx 1)) = true ->
  valid_binary 24 128 (read input (size_add floorIdx 1)) = true ->
  is_finite (read output i) = true /\
  between (SF2Q (read input floorIdx)) (SF2Q (read input (size_add floorIdx 1)))
          (SF2Q (read output i)).
Proof.
  intros Hres Hi Hk Hin Hfa Hva Hfb Hvb.
  apply ResampleAudio_spec in Hres. destruct Hres as [Hlen Hat].
  specialize (Hat i Hi).
  assert (HL : (0 < N.of_nat (List.length output))%N) by lia.
  destruct (ratio_positive ratio inputSamples _ Hlen HL) as (m & e & ->).
  assert (Hi64 : (Z.of_N i < 2 ^ 64)%Z).
  { revert Hlen. unfold to_size_t.
    destruct (d_trunc _) as [z|]; [|discriminate].
    destruct (0 <=? z)%Z eqn:H0; cbn [andb]; [|discriminate].
    destruct (z <? 2 ^ 64)%Z eqn:H64; [|discriminate].
    intros H. inversion H as [HzL]. apply Z.leb_le in H0. apply Z.ltb_lt in H64.
    rewrite <- HzL in Hi. lia. }
  unfold resample_at in Hat. rewrite Hk in Hat. cbn [bind] in Hat.
  apply N.ltb_lt in Hin. rewrite Hin in Hat. injection Hat as Hout.
  revert Hk. unfold to_size_t. cbn [d_trunc d_div d_of_size IEEE].
  destruct (SFtrunc _) as [z|] eqn:Hz; [|discriminate].
  destruct (0 <=? z)%Z eqn:H0; cbn [andb]; [|discriminate].
  destruct (z <? 2 ^ 64)%Z eqn:H64; [|discriminate].
  intros H. injection H as Hzk.
  apply Z.leb_le in H0. apply Z.ltb_lt in H64.
  destruct (source_position m e i z Hi64 Hz) as [Hgood Hnn].
  assert (Hkz : Z.of_N floorIdx = z) by (rewrite <- Hzk; now rewrite Z2N.id).
  destruct (interpolate_sample_eq _ (read input floorIdx)
              (read input (size_add floorIdx 1)) _ _ _ _ _ (read output i) z
              Hgood Hnn Hz H64 Hfa Hva Hfb Hvb eq_refl eq_refl eq_refl eq_refl eq_refl)
    as [Hfin Hbetween].
  { rewrite <- Hout. cbn [f_of_dbl d_add d_mul d_sub d_of_flt d_of_size d_div IEEE].
    rewrite Hkz. reflexivity. }
  split; [exact Hfin | apply between_of_reals; exact Hbetween].
Qed.

End SourcePosition.

Section RatioIsOne.

Import Rounding.
Local Open Scope R_scope.
Local Unset Implicit Arguments.

Local Abbreviation r64 := (Rounding.rounded 53 1024).
Local Abbreviation rep64 := (Rounding.representable 53 1024).
Local Abbreviation good64 := (Rounding.good 53 1024).

Lemma eps64 : bpow (- 53) * IZR (2 ^ 53) = 1.
Proof.
  rewrite <- bpow_IZR by lia. rewrite <- bpow_add. apply bpow_0.
Qed.

(** Two positive doubles that differ, differ by more than 2^-53 of the
    smaller one. *)
Lemma rep64_gap (u v : R) :
  rep64 u -> rep64 v -> 0 < v -> v < u -> v * (1 + bpow (- 53)) < u.
Proof.
  intros (mu & eu & Hu & Hmu & _) (mv & ev & Hv & Hmv & _) Hv0 Hvu.
  assert (Hmv0 : (0 < mv)%Z).
  { apply lt_IZR. pose proof (bpow_pos ev). nra. }
  assert (Hmu0 : (0 < mu)%Z).
  { apply lt_IZR. pose proof (bpow_pos eu). nra. }
  rewrite Z.abs_eq in Hmu, Hmv by lia.
  pose proof eps64 as Heps. pose proof (bpow_pos (- 53)) as He.
  apply IZR_lt in Hmu. apply IZR_lt in Hmv.
  apply IZR_lt in Hmu0. apply IZR_lt in Hmv0.
  assert (Hemu : bpow (- 53) * IZR mu < 1) by nra.
  assert (Hemv : bpow (- 53) * IZR mv < 1) by nra.
  destruct (Z_le_gt_dec ev eu) as [Hle | Hgt].
  - assert (Hu' : u = IZR (mu * 2 ^ (eu - ev)) * bpow ev).
    { rewrite mult_IZR, <- bpow_IZR by lia.
      rewrite Rmult_assoc, <- bpow_add, Hu. do 2 f_equal. lia. }
    pose proof (bpow_pos ev) as Hbe.
    assert (HK : (mv + 1 <= mu * 2 ^ (eu - ev))%Z).
    { assert (mv < mu * 2 ^ (eu - ev))%Z; [|lia]. apply lt_IZR.
      apply (Rmult_lt_reg_r (bpow ev)); [exact Hbe|].
      rewrite <- Hu', <- Hv. exact Hvu. }
    apply IZR_le in HK. rewrite plus_IZR in HK.
    rewrite Hu', Hv.
    replace (IZR mv * bpow ev * (1 + bpow (- 53)))
      with ((IZR mv + bpow (- 53) * IZR mv) * bpow ev) by ring.
    apply Rmult_lt_compat_r; [exact Hbe | lra].
  - assert (Hv' : v = IZR (mv * 2 ^ (ev - eu)) * bpow eu).
    { rewrite mult_IZR, <- bpow_IZR by lia.
      rewrite Rmult_assoc, <- bpow_add, Hv. do 2 f_equal. lia. }
    pose proof (bpow_pos eu) as Hbe.
    assert (HK : (mv * 2 ^ (ev - eu) + 1 <= mu)%Z).
    { assert (mv * 2 ^ (ev - eu) < mu)%Z; [|lia]. apply lt_IZR.
      apply (Rmult_lt_reg_r (bpow eu)); [exact Hbe|].
      rewrite <- Hu, <- Hv'. exact Hvu. }
    apply IZR_le in HK. rewrite plus_IZR in HK.
    assert (Hgap : v + bpow eu <= u).
    { rewrite Hu, Hv'. nra. }
    assert (Hsmall : v * bpow (- 53) < bpow eu).
    { apply Rlt_trans with (u * bpow (- 53)); [nra|].
      rewrite Hu.
      replace (IZR mu * bpow eu * bpow (- 53))
        with ((bpow (- 53) * IZR mu) * bpow eu) by ring.
      nra. }
    lra.
Qed.

Lemma rounded_above_one (v r : R) : r64 v r -> 1 + bpow (- 53) < v -> 1 < r.
Proof.
  intros Hr Hv.
  pose proof (bpow_pos (- 53)) as He.
  pose proof (bpow_pos (- 52)) as He2.
  assert (H52 : bpow (- 52) = 2 * bpow (- 53)).
  { replace (- 52)%Z with (1 + - 53)%Z by lia. now rewrite bpow_add, bpow_1. }
  assert (Hc : rep64 (1 + bpow (- 52))).
  { exists (2 ^ 52 + 1)%Z, (- 52)%Z. split; [|split; [reflexivity | unfold emin; lia]].
    rewrite plus_IZR, <- bpow_IZR by lia. rewrite Rmult_plus_distr_r, <- bpow_add.
    change (52 + - 52)%Z with 0%Z. rewrite bpow_0. ring. }
  destruct (Rle_lt_dec (1 + bpow (- 52)) v) as [Hbig | Hsmall].
  - pose proof (rounded_ge_anchor 53 1024 prec64_pos _ _ _ Hr Hc Hbig). lra.
  - destruct Hr as [[-> _] | [[_ (k & Hk & ->)] | [Hneg _]]]; try lra.
    assert (k = 1%Z).
    { apply (mag_unique v); [exact Hk|].
      change (1 - 1)%Z with 0%Z. rewrite bpow_0, bpow_1.
      assert (bpow (- 52) <= 1).
      { rewrite <- bpow_0. apply bpow_le. lia. }
      lra. }
    subst k. change (fexp 53 1024 1) with (- 52)%Z.
    assert (Hinv : / bpow (- 52) = bpow 52).
    { rewrite <- bpow_opp. reflexivity. }
    assert (H1 : bpow (- 52) * bpow 52 = 1).
    { rewrite <- bpow_add. apply bpow_0. }
    assert (H2 : bpow (- 53) * bpow 52 = / 2).
    { rewrite <- bpow_add. exact bpow_m1. }
    pose proof (bpow_pos 52) as H52pos.
    rewrite (proj2 (proj2 (proj2 (Znearest_even_cases (v / bpow (- 52)) (2 ^ 52))))).
    + rewrite plus_IZR, <- bpow_IZR by lia. nra.
    + unfold Rdiv. rewrite Hinv, <- bpow_IZR by lia. nra.
Qed.

Lemma rounded_below_one (v r : R) : r64 v r -> v * (1 + bpow (- 53)) < 1 -> r < 1.
Proof.
  intros Hr Hv.
  pose proof (bpow_pos (- 53)) as He.
  assert (He8 : bpow (- 53) <= / 8).
  { rewrite <- bpow_m3. apply bpow_le. lia. }
  assert (Hc : rep64 (1 - bpow (- 53))).
  { exists (2 ^ 53 - 1)%Z, (- 53)%Z. split; [|split; [reflexivity | unfold emin; lia]].
    rewrite minus_IZR, <- bpow_IZR by lia. rewrite Rmult_minus_distr_r, <- bpow_add.
    change (53 + - 53)%Z with 0%Z. rewrite bpow_0. ring. }
  assert (H55 : bpow (Z.opp 53 - 2) = bpow (- 53) * / 4).
  { change (Z.opp 53 - 2)%Z with (- 53 + - 2)%Z. now rewrite bpow_add, bpow_m2. }
  assert (r <= 1 - bpow (- 53)); [|lra].
  apply (rounded_le_near 53 1024 prec64_pos _ v _ Hc Hr).
  rewrite H55, Rabs_pos_eq by lra.
  assert (Hpoly : 1 <= (1 - bpow (- 53) + bpow (- 53) * / 4 * (1 - bpow (- 53)))
                       * (1 + bpow (- 53))) by nra.
  apply (Rmult_le_reg_r (1 + bpow (- 53))); [lra|]. lra.
Qed.

(** A quotient of two positive doubles rounds to 1.0 only if they are equal. *)
Lemma quotient_rounds_to_one (vx vy : R) :
  rep64 vx -> rep64 vy -> 0 < vx -> 0 < vy -> r64 (vx / vy) 1 -> vx = vy.
Proof.
  intros Hx Hy Hx0 Hy0 Hr.
  pose proof (bpow_pos (- 53)) as He.
  destruct (Rtotal_order vx vy) as [Hlt | [Heq | Hgt]]; [exfalso | exact Heq | exfalso].
  - pose proof (rep64_gap vy vx Hy Hx Hx0 Hlt) as Hgap.
    assert (1 < 1); [|lra]. apply (rounded_below_one (vx / vy) 1 Hr).
    apply (Rmult_lt_reg_r vy); [exact Hy0|]. unfold Rdiv.
    replace (vx * / vy * (1 + bpow (- 53)) * vy)
      with (vx * (1 + bpow (- 53)) * (/ vy * vy)) by ring.
    rewrite Rinv_l by lra. lra.
  - pose proof (rep64_gap vx vy Hx Hy Hy0 Hgt) as Hgap.
    assert (1 < 1); [|lra]. apply (rounded_above_one (vx / vy) 1 Hr).
    apply (Rmult_lt_reg_r vy); [exact Hy0|]. unfold Rdiv.
    rewrite Rmult_assoc, Rinv_l by lra. lra.
Qed.

(** A value has one canonical representation. *)
Lemma canonical_unique (m1 m2 : positive) (e1 e2 : Z) :
  canonical_mantissa 53 1024 m1 e1 = true ->
  canonical_mantissa 53 1024 m2 e2 = true ->
  IZR (Zpos m1) * bpow e1 = IZR (Zpos m2) * bpow e2 ->
  m1 = m2 /\ e1 = e2.
Proof.
  unfold canonical_mantissa. intros H1 H2 Hv.
  apply Z.eqb_eq in H1, H2.
  pose proof (Zdigits2_mag (Zpos m1) e1 ltac:(lia)) as M1.
  pose proof (Zdigits2_mag (Zpos m2) e2 ltac:(lia)) as M2.
  rewrite Hv in M1. cbn [Zdigits2] in M1, M2.
  pose proof (mag_unique _ _ _ M1 M2) as Hmag.
  assert (He : e1 = e2) by (rewrite <- H1, <- H2, Hmag; reflexivity).
  split; [|exact He]. subst e2.
  pose proof (bpow_pos e1).
  apply Rmult_eq_reg_r in Hv; [|lra]. apply eq_IZR in Hv. congruence.
Qed.

Lemma SFeqb_finite (x : spec_float) (m : positive) (e : Z) :
  SFeqb x (S754_finite false m e) = true <-> x = S754_finite false m e.
Proof.
  split.
  - destruct x as [s|s| |s mx ex]; unfold SFeqb; cbn [SFcompare];
      try discriminate; try (destruct s; discriminate).
    destruct s; [discriminate|].
    destruct (Z.compare ex e) eqn:Hce; try discriminate.
    destruct (Pos.compare_cont Eq mx m) eqn:Hcm; try discriminate.
    apply Z.compare_eq in Hce. apply Pos.compare_eq in Hcm. now subst.
  - intros ->. unfold SFeqb. cbn [SFcompare].
    rewrite Z.compare_refl. change (Pos.compare_cont Eq m m) with (Pos.compare m m).
    now rewrite Pos.compare_refl.
Qed.

Lemma SFltb_zero (x : spec_float) :
  SFltb (S754_zero false) x = true ->
  x = S754_infinity false \/ exists m e, x = S754_finite false m e.
Proof.
  destruct x as [s|s| |s m e]; unfold SFltb; cbn [SFcompare]; try discriminate.
  - destruct s; [discriminate|]. auto.
  - destruct s; [discriminate|]. eauto.
Qed.

(** The native rate as a double. *)
Lemma native_rate_double (n : N) :
  (0 < n < 2 ^ 32)%N ->
  exists m e, B64.of_Z (Z.of_N n) = S754_finite false m e /\
              valid_binary 53 1024 (S754_finite false m e) = true /\
              (IZR (Zpos m) * bpow e = IZR (Z.of_N n)).
Proof.
  intros Hn.
  assert (Hn' : (0 < Z.of_N n < 2 ^ 32)%Z) by lia.
  assert (Hrep : rep64 (IZR (Z.of_N n))).
  { apply representable_IZR; [reflexivity | reflexivity | lia]. }
  destruct (B64_of_Z_exact (Z.of_N n) Hrep) as [_ Hval].
  { apply Rlt_trans with (bpow 53); [apply IZR_below_bpow; lia | apply bpow_lt; lia]. }
  destruct (binary_normalize_rounds 53 1024 prec64_pos emax64 (Z.of_N n) 0 false)
    as [_ Hvalid].
  change (binary_normalize 53 1024 (Z.of_N n) 0 false)
    with (B64.of_Z (Z.of_N n)) in Hvalid.
  assert (Hpos : 0 < SF2R (B64.of_Z (Z.of_N n))).
  { rewrite Hval. apply IZR_lt. lia. }
  destruct (SF2R_pos _ Hpos) as (m & e & Heq).
  exists m, e. rewrite Heq in *. split; [reflexivity|]. split; [exact Hvalid|].
  exact Hval.
Qed.

(** The stored ratio is 1.0 exactly when the output rate equals the native
    rate. *)
Lemma ratio_is_one_iff (x : spec_float) (n : N) :
  valid_binary 53 1024 x = true -> (0 < n < 2 ^ 32)%N ->
  SFltb (S754_zero false) x = true ->
  SFeqb (B64.div x (B64.of_Z (Z.of_N n))) B64.one = SFeqb x (B64.of_Z (Z.of_N n)).
Proof.
  intros Hvx Hn Hpos.
  destruct (native_rate_double n Hn) as (my & ey & Hy & Hvy & Hyval).
  rewrite Hy.
  destruct (SFltb_zero x Hpos) as [-> | (mx & ex & ->)]; [reflexivity|].
  apply eq_true_iff_eq. rewrite SFeqb_finite. unfold B64.one. rewrite SFeqb_finite.
  split.
  - intros Hdiv.
    destruct (SFdiv_rounds 53 1024 prec64_pos emax64 (S754_finite false mx ex)
                false my ey eq_refl) as [Hr _].
    cbv zeta in Hr.
    change (SFdiv 53 1024) with B64.div in Hr. rewrite Hdiv in Hr.
    destruct Hr as [[_ Hr] | [Hinf _]]; [|discriminate].
    assert (Hone : SF2R (S754_finite false 4503599627370496 (-52)) = 1).
    { cbn [SF2R]. change 4503599627370496%Z with (2 ^ 52)%Z.
      rewrite <- bpow_IZR by lia. rewrite <- bpow_add. apply bpow_0. }
    rewrite Hone in Hr.
    destruct (valid_binary_good 53 1024 prec64_pos (S754_finite false mx ex) eq_refl Hvx)
      as [[_ Hxrep] _].
    destruct (valid_binary_good 53 1024 prec64_pos (S754_finite false my ey) eq_refl Hvy)
      as [[_ Hyrep] _].
    assert (Hx0 : 0 < SF2R (S754_finite false mx ex)).
    { cbn [SF2R]. pose proof (bpow_pos ex).
      assert (0 < IZR (Zpos mx)) by (apply IZR_lt; lia). nra. }
    assert (Hy0 : 0 < SF2R (S754_finite false my ey)).
    { cbn [SF2R]. pose proof (bpow_pos ey).
      assert (0 < IZR (Zpos my)) by (apply IZR_lt; lia). nra. }
    pose proof (quotient_rounds_to_one _ _ Hxrep Hyrep Hx0 Hy0 Hr) as Heq.
    cbn [SF2R] in Heq.
    cbn [valid_binary] in Hvx, Hvy. unfold bounded in Hvx, Hvy.
    apply andb_prop in Hvx, Hvy.
    destruct (canonical_unique mx my ex ey (proj1 Hvx) (proj1 Hvy) Heq) as [-> ->].
    reflexivity.
  - intros H. injection H as -> ->. apply B64_div_self.
Qed.

End RatioIsOne.

Section OutputRate.

Import Rounding.
Local Unset Implicit Arguments.

(** Under IEEE arithmetic the test [resampleRatio_ != 1.0] on the stored
    ratio is the test that the output rate differs from the native rate. *)
Lemma ratio_differs_iff_rates_differ (target : spec_float) (fmt : WAVEFORMATEX) :
  valid_binary B64.prec B64.emax target = true ->
  (0 < nSamplesPerSec fmt < 2 ^ 32)%N ->
  d_neb (Arith := IEEE)
    (d_div (output_rate target fmt) (d_of_size (nSamplesPerSec fmt))) (d_of_size 1)
  = d_neb (output_rate target fmt) (d_of_size (nSamplesPerSec fmt)).
Proof.
  intros Hv Hn. unfold output_rate. cbn [d_gtb d_neb d_div d_of_size IEEE].
  change (B64.of_Z (Z.of_N 0)) with (S754_zero false).
  change (B64.of_Z (Z.of_N 1)) with B64.one.
  f_equal.
  destruct (SFltb (S754_zero false) target) eqn:Hgt.
  - now apply ratio_is_one_iff.
  - destruct (native_rate_double _ Hn) as (m & e & Hy & Hvy & _).
    apply ratio_is_one_iff; [now rewrite Hy | exact Hn | now rewrite Hy].
Qed.

End OutputRate.



(** * Further properties of the engine *)

Section StartResources.

Context {flt dbl : Type} {A : Arith flt dbl}.

(** ** What source negotiation does to the object and the platform *)

Ltac in_cases Hin :=
  repeat (destruct Hin as [Hin | Hin];
          [inversion Hin; subst; cbn; split; [reflexivity | lia] |]);
  destruct Hin.

Ltac field_cases :=
  let k := fresh "k" in
  let h := fresh "h" in
  let H := fresh "H" in
  intros k h H; destruct k; cbn in H;
  first [ discriminate H
        | right; exact H
        | left; inversion H; subst; cbn; tauto ].

Ltac acquires_rest :=
  (split; [cbn; lia|]);
  (split; [intros ? ? Hin; cbn in Hin; in_cases Hin | field_cases]).

Ltac acquires_tac :=
  first [ exists []; split; [reflexivity | acquires_rest]
        | eexists [_]; split; [reflexivity | acquires_rest]
        | eexists [_; _]; split; [reflexivity | acquires_rest]
        | eexists [_; _; _]; split; [reflexivity | acquires_rest] ].

Ltac known :=
  repeat match goal with
         | H : ?x = true |- context [?x] => rewrite H; cbn
         | H : ?x = false |- context [?x] => rewrite H; cbn
         end.

Ltac resources_tac env st :=
  destruct st as [[] ? ?]; cbn;
  repeat (match goal with
          | |- context [FAILED (?f env)] => destruct (FAILED (f env)) eqn:?
          | |- context [activation_completed env] =>
              destruct (activation_completed env) eqn:?
          end; cbn; known);
  (split; [reflexivity|]);
  (split; [split; reflexivity|]);
  (split; [acquires_tac|]);
  intros Hok; first [discriminate Hok | repeat split; reflexivity].

Ltac unfold_negotiation :=
  unfold InitializeMicrophone, InitializeSystemLoopback, InitializeProcessLoopback,
    negotiate_format, store_client, GetMixFormat, GetService, acquire,
    negotiation_frame, acquires, acquires_all, endpoint_calls, process_loopback_calls.

Lemma InitializeMicrophone_resources (deviceId : option string) (env : Outcome)
    (st : @State flt dbl) :
  let r := InitializeMicrophone deviceId env st in
  FAILED (fst r) = existsb FAILED (endpoint_calls env) /\
  negotiation_frame st (snd r) /\
  acquires st (snd r) /\
  (FAILED (fst r) = false -> acquires_all env st (snd r)).
Proof.
  unfold_negotiation. resources_tac env st.
Qed.

Lemma InitializeSystemLoopback_resources (env : Outcome) (st : @State flt dbl) :
  let r := InitializeSystemLoopback env st in
  FAILED (fst r) = existsb FAILED (endpoint_calls env) /\
  negotiation_frame st (snd r) /\
  acquires st (snd r) /\
  (FAILED (fst r) = false -> acquires_all env st (snd r)).
Proof. unfold_negotiation. resources_tac env st. Qed.

Lemma InitializeProcessLoopback_resources (pid : Z) (mode : PROCESS_LOOPBACK_MODE)
    (env : Outcome) (st : @State flt dbl) :
  let r := InitializeProcessLoopback pid mode env st in
  FAILED (fst r) = existsb FAILED (process_loopback_calls env) /\
  negotiation_frame st (snd r) /\
  acquires st (snd r) /\
  (FAILED (fst r) = false -> acquires_all env st (snd r)).
Proof. unfold_negotiation. resources_tac env st. Qed.

Lemma acquires_ext (st0 st0' st1 st1' : @State flt dbl) :
  acquires st0 st1 ->
  os st0' = os st0 -> (forall k, field_of k (obj st0') = field_of k (obj st0)) ->
  os st1' = os st1 -> (forall k, field_of k (obj st1') = field_of k (obj st1)) ->
  acquires st0' st1'.
Proof.
  intros (acquired & Hlive & Hnext & Hheld & Hfield) Hos0 Hf0 Hos1 Hf1.
  exists acquired. rewrite Hos0, Hos1. split; [exact Hlive|]. split; [exact Hnext|].
  split; intros k h; rewrite Hf1, ?Hf0; auto.
Qed.

(** The tail of a [Start...] call, given what negotiation did: the code
    returned, the resources, and the callbacks invoked. *)
Lemma finish_start_effect (init_message : string) (env : Outcome)
    (calls : list HRESULT) (st0 : @State flt dbl) (r : HRESULT * @State flt dbl)
    (code : Z) (st' : @State flt dbl) :
  FAILED (fst r) = existsb FAILED calls ->
  negotiation_frame st0 (snd r) ->
  acquires st0 (snd r) ->
  (FAILED (fst r) = false -> acquires_all env st0 (snd r)) ->
  finish_start init_message env r = Ok (code, st') ->
  code = start_code calls env /\
  acquires st0 st' /\
  (code = 0 ->
   let n := next_handle (os st0) in
   audioClient_ (obj st') = Some n /\
   mixFormat_ (obj st') = Some (S n, device_format env) /\
   captureClient_ (obj st') = Some (S (S n)) /\
   os st' = {| next_handle := S (S (S n));
               live := (CaptureClient, S (S n)) :: (MixFormat, S n) :: (AudioClient, n)
                       :: live (os st0) |}) /\
  exists added,
    out st' = out st0 ++ added /\ forallb (registered (obj st0)) added = true.
Proof.
  destruct r as [hr st1]. cbn [fst snd]. intros Hhr [Hout Hobj] Hacq Hall Hfin.
  unfold finish_start in Hfin. unfold start_code. rewrite <- Hhr.
  assert (Hev : eventCallback_ (obj st1) = eventCallback_ (obj st0))
    by (rewrite Hobj; reflexivity).
  assert (Hmd : metadataCallback_ (obj st1) = metadataCallback_ (obj st0))
    by (rewrite Hobj; reflexivity).
  destruct (FAILED hr) eqn:Hf.
  - inversion Hfin; subst. split; [reflexivity|].
    split.
    { eapply acquires_ext; [exact Hacq | reflexivity | reflexivity
                           | apply os_emit_event | intros k; now rewrite obj_emit_event]. }
    split; [discriminate|].
    rewrite out_emit_event, Hout, Hev. eexists. split; [reflexivity|].
    destruct (eventCallback_ (obj st0)) eqn:E; cbn; [now rewrite E | reflexivity].
  - destruct (Hall eq_refl) as (Hobj1 & Hos1 & _).
    unfold FinalizeInitialization in Hfin. rewrite Hobj1 in Hfin.
    cbn [mixFormat_ set_captureClient_ set_mixFormat_ bind] in Hfin.
    destruct (to_size_t _) as [n| |]; cbn [bind] in Hfin; try discriminate.
    match type of Hfin with
    | context [if ?b then call ?e ?s else _] =>
        assert (Hb : b = metadataCallback_ (obj st0)) by (cbn; rewrite Hobj1; reflexivity);
        rewrite Hb in Hfin; clear Hb
    end.
    cbn [FAILED S_OK] in Hfin. change (0 <? 0) with false in Hfin. cbv iota in Hfin.
    destruct (FAILED (hr_Start env)) eqn:Hs; inversion Hfin; subst; clear Hfin.
    + split; [reflexivity|].
      split.
      { eapply acquires_ext; [exact Hacq | reflexivity | reflexivity | |].
        - rewrite os_emit_event. destruct (metadataCallback_ (obj st0)); reflexivity.
        - intros k. rewrite obj_emit_event.
          destruct (metadataCallback_ (obj st0)); destruct k; reflexivity. }
      split; [discriminate|].
      rewrite out_emit_event.
      destruct (metadataCallback_ (obj st0)) eqn:E1; cbn [out obj upd call];
        rewrite Hout; cbn; rewrite Hev;
        destruct (eventCallback_ (obj st0)) eqn:E2;
        rewrite <- ?app_assoc, ?app_nil_r; eexists;
        (split; [first [reflexivity | symmetry; apply app_nil_r]|]);
        cbn; rewrite ?E1, ?E2; reflexivity.
    + split; [reflexivity|].
      split.
      { eapply acquires_ext; [exact Hacq | reflexivity | reflexivity | |].
        - cbn. rewrite os_emit_event. destruct (metadataCallback_ (obj st0)); reflexivity.
        - intros k. cbn. rewrite obj_emit_event.
          destruct (metadataCallback_ (obj st0)); destruct k; reflexivity. }
      split.
      { intros _. cbv zeta. cbn. rewrite obj_emit_event, os_emit_event.
        destruct (metadataCallback_ (obj st0)); cbn; rewrite Hobj1, Hos1; repeat split. }
      cbn. rewrite out_emit_event.
      destruct (metadataCallback_ (obj st0)) eqn:E1; cbn [out obj upd call];
        rewrite Hout; cbn; rewrite Hev;
        destruct (eventCallback_ (obj st0)) eqn:E2;
        rewrite <- ?app_assoc, ?app_nil_r; eexists;
        (split; [first [reflexivity | symmetry; apply app_nil_r]|]);
        cbn; rewrite ?E1, ?E2; reflexivity.
Qed.

Lemma registered_settings (st st0 : @State flt dbl) :
  dataCallback_ (obj st0) = dataCallback_ (obj st) ->
  eventCallback_ (obj st0) = eventCallback_ (obj st) ->
  metadataCallback_ (obj st0) = metadataCallback_ (obj st) ->
  forall added, forallb (registered (obj st0)) added = forallb (registered (obj st)) added.
Proof.
  intros Hd He Hm added. induction added as [|e l IH]; [reflexivity|].
  cbn [forallb]. rewrite IH. f_equal. destruct e; cbn; assumption.
Qed.

(** What a [StartMicrophone] call on an idle session does. *)
Lemma StartMicrophone_effect (st st' : @State flt dbl) (code : Z)
    sampleRate chunkDurationMs isMono emitSilence deviceId gain env :
  running_ (obj st) = false ->
  StartMicrophone sampleRate chunkDurationMs isMono emitSilence deviceId gain env st
  = Ok (code, st') ->
  code = start_code (endpoint_calls env) env /\
  acquires st st' /\
  (code = 0 ->
   let n := next_handle (os st) in
   audioClient_ (obj st') = Some n /\
   mixFormat_ (obj st') = Some (S n, device_format env) /\
   captureClient_ (obj st') = Some (S (S n)) /\
   os st' = {| next_handle := S (S (S n));
               live := (CaptureClient, S (S n)) :: (MixFormat, S n) :: (AudioClient, n)
                       :: live (os st) |}) /\
  exists added,
    out st' = out st ++ added /\ forallb (registered (obj st)) added = true.
Proof.
  intros Hidle H. unfold StartMicrophone in H. rewrite Hidle in H.
  match type of H with
  | finish_start _ _ (InitializeMicrophone ?d ?e ?s) = _ =>
      destruct (InitializeMicrophone_resources d e s) as (H1 & H2 & H3 & H4);
      set (st0 := s) in *
  end.
  destruct (finish_start_effect _ _ _ H1 H2 H3 H4 H) as (Hc & Hacq & Hok & added & Hout & Hreg).
  split; [exact Hc|]. split.
  { eapply acquires_ext; [exact Hacq | | | |]; reflexivity. }
  split; [exact Hok|].
  exists added. split; [exact Hout|].
  rewrite <- Hreg. symmetry. apply registered_settings; reflexivity.
Qed.

(** What a [StartSystemAudio] call on an idle session does. *)
Lemma StartSystemAudio_effect (st st' : @State flt dbl) (code : Z)
    sampleRate chunkDurationMs mute isMono emitSilence inc incCount exc excCount env :
  running_ (obj st) = false ->
  StartSystemAudio sampleRate chunkDurationMs mute isMono emitSilence
    inc incCount exc excCount env st = Ok (code, st') ->
  code = start_code (system_audio_calls inc incCount exc excCount env) env /\
  acquires st st' /\
  (code = 0 ->
   let n := next_handle (os st) in
   audioClient_ (obj st') = Some n /\
   mixFormat_ (obj st') = Some (S n, device_format env) /\
   captureClient_ (obj st') = Some (S (S n)) /\
   os st' = {| next_handle := S (S (S n));
               live := (CaptureClient, S (S n)) :: (MixFormat, S n) :: (AudioClient, n)
                       :: live (os st) |}) /\
  exists added,
    out st' = out st ++ added /\ forallb (registered (obj st)) added = true.
Proof.
  intros Hidle H. unfold StartSystemAudio in H. rewrite Hidle in H.
  match type of H with
  | finish_start _ _ ?r = _ =>
      match r with
      | context [InitializeSystemLoopback _ ?s] => set (st0 := s) in *
      end;
      assert (Hr : FAILED (fst r)
                   = existsb FAILED (system_audio_calls inc incCount exc excCount env) /\
                   negotiation_frame st0 (snd r) /\
                   acquires st0 (snd r) /\
                   (FAILED (fst r) = false -> acquires_all env st0 (snd r)))
  end.
  { unfold system_audio_calls.
    destruct (has_processes inc incCount); cbn [orb];
      [apply InitializeProcessLoopback_resources|].
    destruct (has_processes exc excCount);
      [apply InitializeProcessLoopback_resources
      |apply InitializeSystemLoopback_resources]. }
  destruct Hr as (H1 & H2 & H3 & H4).
  destruct (finish_start_effect _ _ _ H1 H2 H3 H4 H) as (Hc & Hacq & Hok & added & Hout & Hreg).
  split; [exact Hc|]. split.
  { eapply acquires_ext; [exact Hacq | | | |]; reflexivity. }
  split; [exact Hok|].
  exists added. split; [exact Hout|].
  rewrite <- Hreg. symmetry. apply registered_settings; reflexivity.
Qed.

Lemma start_code_values (calls : list HRESULT) (env : Outcome) :
  start_code calls env = -3 \/ start_code calls env = -5 \/ start_code calls env = 0.
Proof.
  unfold start_code. destruct (existsb FAILED calls); [tauto|].
  destruct (FAILED (hr_Start env)); tauto.
Qed.

(** X1. The code a [Start...] call returns is -2 on a running session and
    otherwise follows from the platform's answers alone: -3 when a call on
    the negotiation path failed, else -5 when [IAudioClient::Start] failed,
    else 0.  The code -4 is never returned: negotiation that succeeds has
    stored a mix format, which is all [FinalizeInitialization] tests.  And a
    failed negotiation is reported as -3 whatever the other arguments are. *)
Theorem Start_return_code (st : @State flt dbl) :
  (forall sampleRate chunkDurationMs isMono emitSilence deviceId gain env code st',
      StartMicrophone sampleRate chunkDurationMs isMono emitSilence deviceId gain env st
      = Ok (code, st') ->
      code = (if running_ (obj st) then -2 else start_code (endpoint_calls env) env) /\
      code <> -4) /\
  (forall sampleRate chunkDurationMs mute isMono emitSilence inc incCount exc excCount env
          code st',
      StartSystemAudio sampleRate chunkDurationMs mute isMono emitSilence
        inc incCount exc excCount env st = Ok (code, st') ->
      code = (if running_ (obj st) then -2
              else start_code (system_audio_calls inc incCount exc excCount env) env) /\
      code <> -4) /\
  (running_ (obj st) = false ->
   (forall sampleRate chunkDurationMs isMono emitSilence deviceId gain env,
       existsb FAILED (endpoint_calls env) = true ->
       exists st',
         StartMicrophone sampleRate chunkDurationMs isMono emitSilence deviceId gain env st
         = Ok (-3, st')) /\
   (forall sampleRate chunkDurationMs mute isMono emitSilence inc incCount exc excCount env,
       existsb FAILED (system_audio_calls inc incCount exc excCount env) = true ->
       exists st',
         StartSystemAudio sampleRate chunkDurationMs mute isMono emitSilence
           inc incCount exc excCount env st = Ok (-3, st'))).
Proof.
  split; [|split].
  - intros sampleRate chunkDurationMs isMono emitSilence deviceId gain env code st' H.
    destruct (running_ (obj st)) eqn:Hrun.
    + unfold StartMicrophone in H. rewrite Hrun in H. inversion H. split; [reflexivity | lia].
    + apply StartMicrophone_effect in H; [|exact Hrun]. destruct H as [-> _].
      split; [reflexivity|].
      destruct (start_code_values (endpoint_calls env) env) as [-> | [-> | ->]]; lia.
  - intros sampleRate chunkDurationMs mute isMono emitSilence inc incCount exc excCount env
      code st' H.
    destruct (running_ (obj st)) eqn:Hrun.
    + unfold StartSystemAudio in H. rewrite Hrun in H. inversion H.
      split; [reflexivity | lia].
    + apply StartSystemAudio_effect in H; [|exact Hrun]. destruct H as [-> _].
      split; [reflexivity|].
      destruct (start_code_values (system_audio_calls inc incCount exc excCount env) env)
        as [-> | [-> | ->]]; lia.
  - intros Hidle. split.
    + intros sampleRate chunkDurationMs isMono emitSilence deviceId gain env Hfail.
      unfold StartMicrophone. rewrite Hidle.
      match goal with
      | |- context [InitializeMicrophone ?d ?e ?s] =>
          destruct (InitializeMicrophone_resources d e s) as (H1 & _);
          destruct (InitializeMicrophone d e s) as [hr st1]
      end.
      cbn [fst] in H1. unfold finish_start. rewrite H1, Hfail. eexists. reflexivity.
    + intros sampleRate chunkDurationMs mute isMono emitSilence inc incCount exc excCount env
        Hfail.
      unfold StartSystemAudio. rewrite Hidle. unfold system_audio_calls in Hfail.
      match goal with
      | |- context [finish_start _ _ ?r] =>
          assert (H1 : FAILED (fst r) = true); [|destruct r as [hr st1]]
      end.
      { destruct (has_processes inc incCount); cbn [orb] in Hfail.
        - match goal with
          | |- context [InitializeProcessLoopback ?p ?m ?e ?s] =>
              rewrite (proj1 (InitializeProcessLoopback_resources p m e s))
          end. exact Hfail.
        - destruct (has_processes exc excCount).
          + match goal with
            | |- context [InitializeProcessLoopback ?p ?m ?e ?s] =>
                rewrite (proj1 (InitializeProcessLoopback_resources p m e s))
            end. exact Hfail.
          + match goal with
            | |- context [InitializeSystemLoopback ?e ?s] =>
                rewrite (proj1 (InitializeSystemLoopback_resources e s))
            end. exact Hfail. }
      cbn [fst] in H1. unfold finish_start. rewrite H1. eexists. reflexivity.
Qed.

End StartResources.

Lemma Start_return_code_witness :
  -3 = (if running_ (obj (Samples.created (A := IEEE))) then -2
        else start_code (system_audio_calls None 0 None 0
                           (Samples.initialize_fails Samples.stereo_48k))
                        (Samples.initialize_fails Samples.stereo_48k)) /\
  -3 <> -4.
Proof.
  apply (proj1 (proj2 (Start_return_code (Samples.created (A := IEEE))))
           (d_of_size 48000) (d_of_size 200) false true true None 0 None 0
           (Samples.initialize_fails Samples.stereo_48k) (-3)
           (Samples.state_of
              (StartSystemAudio (d_of_size 48000) (d_of_size 200) false true true
                 None 0 None 0 (Samples.initialize_fails Samples.stereo_48k)
                 (Samples.created (A := IEEE)))
              Samples.created)).
  vm_compute. reflexivity.
Defined.

Section DestroyResources.

Context {flt dbl : Type} {A : Arith flt dbl}.

(** ** What the destructor leaves alive *)

Lemma filter_and {X : Type} (f g : X -> bool) (l : list X) :
  filter f (filter g l) = filter (fun x => g x && f x) l.
Proof.
  induction l as [|x l IH]; [reflexivity|]. cbn [filter].
  destruct (g x); cbn [filter andb]; [destruct (f x)|]; now rewrite IH.
Qed.

Lemma filter_all {X : Type} (f : X -> bool) (l : list X) :
  (forall x, In x l -> f x = true) -> filter f l = l.
Proof.
  induction l as [|x l IH]; intros H; [reflexivity|]. cbn [filter].
  rewrite (H x) by now left. f_equal. apply IH. intros y Hy. apply H. now right.
Qed.

Lemma filter_none {X : Type} (f : X -> bool) (l : list X) :
  (forall x, In x l -> f x = false) -> filter f l = [].
Proof.
  induction l as [|x l IH]; intros H; [reflexivity|]. cbn [filter].
  rewrite (H x) by now left. apply IH. intros y Hy. apply H. now right.
Qed.

Lemma live_release_field (k : ResKind) (ho : option Handle) (st : @State flt dbl) :
  live (os (release_field k ho st))
  = filter (fun r => negb (match ho with
                           | Some h => ResKind_eqb (fst r) k && Nat.eqb (snd r) h
                           | None => false
                           end)) (live (os st)).
Proof.
  destruct ho as [h|]; cbn [release_field with_os os release live]; [reflexivity|].
  symmetry. apply filter_all. reflexivity.
Qed.

Lemma Stop_keeps_resources (st : @State flt dbl) :
  os (snd (Stop st)) = os st /\
  audioClient_ (obj (snd (Stop st))) = audioClient_ (obj st) /\
  mixFormat_ (obj (snd (Stop st))) = mixFormat_ (obj st) /\
  captureClient_ (obj (snd (Stop st))) = captureClient_ (obj st) /\
  chunkBuffer_ (obj (snd (Stop st))) = chunkBuffer_ (obj st).
Proof.
  unfold Stop. destruct (running_ (obj st)); cbn [negb snd]; [|repeat split].
  rewrite os_emit_event, obj_emit_event.
  destruct (captureThread_ _); repeat split.
Qed.

(** The destructor releases exactly the live resources held by the three
    resource fields. *)
Lemma WasapiCapture_delete_live (st : @State flt dbl) :
  live (os (WasapiCapture_delete st))
  = filter (fun r => negb (held_by (obj st) r)) (live (os st)).
Proof.
  unfold WasapiCapture_delete.
  destruct (Stop_keeps_resources st) as (Hos & Ha & Hm & Hc & _).
  set (s0 := snd (Stop st)) in *.
  rewrite !live_release_field, !obj_release_field, !filter_and, Hos, Ha, Hm, Hc.
  apply filter_ext. intros [k h]. unfold held_by. cbn [fst snd].
  destruct k; cbn [field_of ResKind_eqb andb negb];
    destruct (mixFormat_ (obj st)) as [[hm fmt]|];
    destruct (captureClient_ (obj st)) as [hc|];
    destruct (audioClient_ (obj st)) as [ha|];
    cbn [option_map fst ResKind_eqb andb negb];
    rewrite ?andb_true_r; reflexivity.
Qed.

Lemma held_by_acquired (st st' : @State flt dbl) (acquired : list (ResKind * Handle)) :
  (forall k h, In (k, h) acquired -> field_of k (obj st') = Some h) ->
  filter (fun r => negb (held_by (obj st') r)) acquired = [].
Proof.
  intros H. apply filter_none. intros [k h] Hin. unfold held_by. cbn [fst snd].
  rewrite (H k h Hin), Nat.eqb_refl. reflexivity.
Qed.

(** A [Start...] call on a handle whose resource fields are empty, followed
    by the destructor, gives back everything the call acquired. *)
Lemma acquires_then_delete (st st' : @State flt dbl) :
  platform_wf (os st) ->
  (forall k, field_of k (obj st) = None) ->
  acquires st st' ->
  live (os (WasapiCapture_delete st')) = live (os st).
Proof.
  intros Hwf Hnone (acquired & Hlive & Hnext & Hheld & Hfield).
  rewrite WasapiCapture_delete_live, Hlive, filter_app.
  rewrite (@held_by_acquired st st') by (intros k h Hin; apply (Hheld k h Hin)).
  cbn [app]. apply filter_all. intros [k h] Hin.
  unfold held_by. cbn [fst snd].
  destruct (field_of k (obj st')) as [h'|] eqn:Hf; [|reflexivity].
  destruct (Nat.eqb h h') eqn:He; [|reflexivity].
  apply Nat.eqb_eq in He. subst h'. exfalso.
  destruct (Hfield k h Hf) as [Hacq | Hold].
  - apply Hheld in Hacq. destruct Hacq as [_ Hrange].
    unfold platform_wf in Hwf. rewrite Forall_forall in Hwf.
    specialize (Hwf (k, h) Hin). cbn in Hwf. lia.
  - rewrite Hnone in Hold. discriminate.
Qed.

(** X2. A handle whose resource fields are empty (a new one) is given one
    [Start...] call, whatever its outcome, and is then destroyed: the
    platform is left with exactly the resources that were alive before the
    call.  Whatever the call acquired, on success or on failure, is given
    back by the destructor. *)
Theorem Start_then_destroy_gives_back (st : @State flt dbl)
    (Hwf : platform_wf (os st))
    (Hnone : forall k, field_of k (obj st) = None) :
  (forall sampleRate chunkDurationMs isMono emitSilence deviceId gain env code st',
      StartMicrophone sampleRate chunkDurationMs isMono emitSilence deviceId gain env st
      = Ok (code, st') ->
      live (os (WasapiCapture_delete st')) = live (os st)) /\
  (forall sampleRate chunkDurationMs mute isMono emitSilence inc incCount exc excCount env
          code st',
      StartSystemAudio sampleRate chunkDurationMs mute isMono emitSilence
        inc incCount exc excCount env st = Ok (code, st') ->
      live (os (WasapiCapture_delete st')) = live (os st)).
Proof.
  assert (Hsame : live (os (WasapiCapture_delete st)) = live (os st)).
  { rewrite WasapiCapture_delete_live. apply filter_all. intros [k h] _.
    unfold held_by. cbn [fst]. now rewrite Hnone. }
  split.
  - intros sampleRate chunkDurationMs isMono emitSilence deviceId gain env code st' H.
    destruct (running_ (obj st)) eqn:Hrun.
    + unfold StartMicrophone in H. rewrite Hrun in H. inversion H; subst. exact Hsame.
    + apply StartMicrophone_effect in H; [|exact Hrun].
      apply acquires_then_delete; tauto.
  - intros sampleRate chunkDurationMs mute isMono emitSilence inc incCount exc excCount env
      code st' H.
    destruct (running_ (obj st)) eqn:Hrun.
    + unfold StartSystemAudio in H. rewrite Hrun in H. inversion H; subst. exact Hsame.
    + apply StartSystemAudio_effect in H; [|exact Hrun].
      apply acquires_then_delete; tauto.
Qed.

End DestroyResources.

Lemma Start_then_destroy_gives_back_witness :
  let st' := Samples.state_of
               (StartSystemAudio (d_of_size 48000) (d_of_size 200) false true true
                  None 0 None 0 (Samples.initialize_fails Samples.stereo_48k)
                  (Samples.created (A := IEEE)))
               Samples.created in
  platform_wf (os (Samples.created (A := IEEE))) /\
  live (os st') = [(MixFormat, 1%nat); (AudioClient, 0%nat)] /\
  live (os (WasapiCapture_delete st')) = [].
Proof.
  intros st'. split; [apply Forall_nil|]. split; [reflexivity|].
  apply (proj2 (@Start_then_destroy_gives_back _ _ IEEE Samples.created
                  (@Forall_nil _ _) ltac:(intros []; reflexivity))
           (d_of_size 48000) (d_of_size 200) false true true None 0 None 0
           (Samples.initialize_fails Samples.stereo_48k) (-3) st').
  vm_compute. reflexivity.
Defined.

Section Restart.

Context {flt dbl : Type} {A : Arith flt dbl}.

(** ** Starting a stopped session again *)

Lemma start_succeeds_idle (st st' : @State flt dbl) sampleRate chunkDurationMs
    isMono emitSilence env :
  start_succeeds st sampleRate chunkDurationMs isMono emitSilence env st' ->
  running_ (obj st) = false.
Proof.
  intros [(deviceId & gain & H) | (mute & inc & incCount & exc & excCount & H)];
    [unfold StartMicrophone in H | unfold StartSystemAudio in H];
    destruct (running_ (obj st)); [discriminate | reflexivity | discriminate | reflexivity].
Qed.

(** A successful start stores three fresh resources, alive afterwards. *)
Lemma start_succeeds_resources (st st' : @State flt dbl) sampleRate chunkDurationMs
    isMono emitSilence env :
  start_succeeds st sampleRate chunkDurationMs isMono emitSilence env st' ->
  let n := next_handle (os st) in
  audioClient_ (obj st') = Some n /\
  mixFormat_ (obj st') = Some (S n, device_format env) /\
  captureClient_ (obj st') = Some (S (S n)) /\
  os st' = {| next_handle := S (S (S n));
              live := (CaptureClient, S (S n)) :: (MixFormat, S n) :: (AudioClient, n)
                      :: live (os st) |}.
Proof.
  intros H. pose proof (start_succeeds_idle H) as Hidle.
  destruct H as [(deviceId & gain & H) | (mute & inc & incCount & exc & excCount & H)].
  - apply StartMicrophone_effect in H; [|exact Hidle].
    destruct H as (_ & _ & Hok & _). exact (Hok eq_refl).
  - apply StartSystemAudio_effect in H; [|exact Hidle].
    destruct H as (_ & _ & Hok & _). exact (Hok eq_refl).
Qed.

Lemma is_live_cons (k k' : ResKind) (h h' : Handle) (n : Handle)
    (l : list (ResKind * Handle)) :
  is_live k h {| next_handle := n; live := (k', h') :: l |}
  = (ResKind_eqb k' k && Nat.eqb h' h) || is_live k h {| next_handle := n; live := l |}.
Proof. reflexivity. Qed.

(** X3. A session is started, stopped and started again, both times with
    success.  The second start stores three new resources in the fields, and
    the three resources of the first session are abandoned: they are still
    alive, no field holds them any more, and they stay alive when the
    session is destroyed. *)
Theorem restart_abandons_first_resources
    (st0 st1 st3 : @State flt dbl)
    (sampleRate1 chunkDurationMs1 sampleRate2 chunkDurationMs2 : dbl)
    (isMono1 emitSilence1 isMono2 emitSilence2 : bool) (env1 env2 : Outcome)
    (Hfirst : start_succeeds st0 sampleRate1 chunkDurationMs1 isMono1 emitSilence1 env1 st1)
    (Hsecond : start_succeeds (snd (Stop st1)) sampleRate2 chunkDurationMs2
                 isMono2 emitSilence2 env2 st3) :
  forall k h,
    field_of k (obj st1) = Some h ->
    is_live k h (os st1) = true /\
    field_of k (obj st3) = Some (3 + h)%nat /\
    is_live k h (os st3) = true /\
    is_live k h (os (WasapiCapture_delete st3)) = true.
Proof.
  intros k h Hk.
  destruct (start_succeeds_resources Hfirst) as (Ha1 & Hm1 & Hc1 & Hos1).
  destruct (start_succeeds_resources Hsecond) as (Ha3 & Hm3 & Hc3 & Hos3).
  destruct (Stop_keeps_resources st1) as (Hos2 & _).
  rewrite Hos2, Hos1 in Ha3, Hm3, Hc3, Hos3. cbn [next_handle live] in Ha3, Hm3, Hc3, Hos3.
  set (n := next_handle (os st0)) in *.
  assert (Hlive3 : is_live k h (os st3) = true).
  { rewrite Hos3, !is_live_cons.
    destruct k; cbn [field_of] in Hk; [rewrite Ha1 in Hk | rewrite Hc1 in Hk
                                       | rewrite Hm1 in Hk; cbn in Hk];
      inversion Hk; subst h; cbn [ResKind_eqb andb orb]; rewrite Nat.eqb_refl;
      cbn [andb orb]; rewrite ?orb_true_r; reflexivity. }
  split.
  { rewrite Hos1, !is_live_cons.
    destruct k; cbn [field_of] in Hk; [rewrite Ha1 in Hk | rewrite Hc1 in Hk
                                       | rewrite Hm1 in Hk; cbn in Hk];
      inversion Hk; subst h; cbn [ResKind_eqb andb orb]; rewrite Nat.eqb_refl;
      cbn [andb orb]; rewrite ?orb_true_r; reflexivity. }
  split.
  { destruct k; cbn [field_of] in *; [rewrite Ha1 in Hk | rewrite Hc1 in Hk
                                       | rewrite Hm1 in Hk; cbn in Hk];
      inversion Hk; subst h; rewrite ?Ha3, ?Hc3, ?Hm3; reflexivity. }
  split; [exact Hlive3|].
  unfold WasapiCapture_delete.
  destruct (Stop_keeps_resources st3) as (Hos4 & Ha4 & Hm4 & Hc4 & _).
  rewrite !is_live_release_field, !obj_release_field, Hos4, Ha4, Hm4, Hc4, Hlive3.
  rewrite Ha3, Hm3, Hc3. cbn [option_map fst andb].
  destruct k; cbn [field_of] in Hk; [rewrite Ha1 in Hk | rewrite Hc1 in Hk
                                     | rewrite Hm1 in Hk; cbn in Hk];
    inversion Hk; subst h; cbn [ResKind_eqb andb negb]; try reflexivity.
  - replace (Nat.eqb n (S (S (S n)))) with false by (symmetry; apply Nat.eqb_neq; lia).
    reflexivity.
  - replace (Nat.eqb (S (S n)) (S (S (S (S (S n)))))) with false
      by (symmetry; apply Nat.eqb_neq; lia).
    reflexivity.
  - replace (Nat.eqb (S n) (S (S (S (S n))))) with false
      by (symmetry; apply Nat.eqb_neq; lia).
    reflexivity.
Qed.

End Restart.

Lemma restart_abandons_first_resources_witness :
  let st1 := Samples.running_mic in
  let st3 := Samples.state_of
               (StartSystemAudio (d_of_size 48000) (d_of_size 200) false true true
                  None 0 None 0 (Samples.all_ok Samples.stereo_48k) (snd (Stop st1)))
               (snd (Stop st1)) in
  is_live AudioClient 0%nat (os st1) = true /\
  field_of AudioClient (obj st3) = Some 3%nat /\
  is_live AudioClient 0%nat (os st3) = true /\
  is_live AudioClient 0%nat (os (WasapiCapture_delete st3)) = true.
Proof.
  intros st1 st3.
  apply (@restart_abandons_first_resources _ _ IEEE Samples.created st1 st3
           (d_of_size 48000) (d_of_size 200) (d_of_size 48000) (d_of_size 200)
           true true true true
           (Samples.all_ok Samples.stereo_48k) (Samples.all_ok Samples.stereo_48k)).
  - left. exists None, (d_of_size 1). vm_compute. reflexivity.
  - right. exists false, None, 0, None, 0. vm_compute. reflexivity.
  - reflexivity.
Defined.

Section WorkerTraces.

Context {flt dbl : Type} {A : Arith flt dbl}.

(** ** The callbacks of the worker, in order *)

Lemma data_allowed_worker_only (o o' : @WasapiCapture flt dbl) (l : list Event) :
  worker_only o o' -> forallb (data_allowed o') l = forallb (data_allowed o) l.
Proof. unfold worker_only. intros ->. reflexivity. Qed.

Lemma emit_chunks_trace (samplesNeeded : N) (fuel : nat) :
  forall st st' : @State flt dbl,
    emit_chunks fuel samplesNeeded st = Ok st' ->
    os st' = os st /\
    exists datas,
      out st' = out st ++ datas /\ forallb (data_allowed (obj st)) datas = true.
Proof.
  induction fuel as [|fuel IH]; intros st st'; cbn [emit_chunks];
    destruct (_ && _) eqn:Htest; try discriminate.
  - intros H; inversion H; subst. split; [reflexivity|]. exists [].
    split; [now rewrite app_nil_r | reflexivity].
  - intros H. apply IH in H. destruct H as (Hos & datas & Hout & Hall).
    apply andb_prop in Htest. destruct Htest as [_ Hcb].
    split; [exact Hos|]. eexists (_ :: datas). split.
    + rewrite Hout. cbn. rewrite <- app_assoc. reflexivity.
    + cbn [forallb]. unfold data_allowed at 1. cbn [is_data andb]. rewrite Hcb.
      exact Hall.
  - intros H; inversion H; subst. split; [reflexivity|]. exists [].
    split; [now rewrite app_nil_r | reflexivity].
Qed.

Lemma ProcessAudioData_trace (data : list flt) (numFrames : N)
    (st st' : @State flt dbl) :
  ProcessAudioData data numFrames st = Ok st' ->
  os st' = os st /\
  exists datas,
    out st' = out st ++ datas /\ forallb (data_allowed (obj st)) datas = true.
Proof.
  assert (Hnil : os st = os st /\
                 exists datas, out st = out st ++ datas /\
                               forallb (data_allowed (obj st)) datas = true)
    by (split; [reflexivity|]; exists []; split; [now rewrite app_nil_r | reflexivity]).
  unfold ProcessAudioData.
  destruct (mixFormat_ (obj st)) as [[h fmt]|]; [|intros H; inversion H; subst; exact Hnil].
  destruct (numFrames =? 0)%N; [intros H; inversion H; subst; exact Hnil|].
  destruct (process_samples _ _ _ _) as [[samples ch]| |]; cbn [bind]; try discriminate.
  intros H. apply emit_chunks_trace in H. exact H.
Qed.

Lemma drain_packets_trace (pks : list PacketObs) :
  forall (st st' : @State flt dbl) (b b' : bool),
    drain_packets pks b st = Ok (b', st') ->
    os st' = os st /\
    exists datas,
      out st' = out st ++ datas /\ forallb (data_allowed (obj st)) datas = true.
Proof.
  assert (Hnil : forall st : @State flt dbl,
             os st = os st /\
             exists datas, out st = out st ++ datas /\
                           forallb (data_allowed (obj st)) datas = true)
    by (intros st; split; [reflexivity|]; exists [];
        split; [now rewrite app_nil_r | reflexivity]).
  induction pks as [|pk rest IH]; intros st st' b b'; cbn [drain_packets].
  - intros H; inversion H; subst; apply Hnil.
  - destruct (negb (running_ (obj st))); [intros H; inversion H; subst; apply Hnil|].
    destruct (FAILED (hr_GetBuffer pk)); [intros H; inversion H; subst; apply Hnil|].
    destruct (pk_data pk) as [data|]; [destruct (negb (pk_silent pk))|]; cbn [bind].
    + destruct (ProcessAudioData _ _ _) as [st2| |] eqn:Hp; cbn [bind]; try discriminate.
      pose proof (ProcessAudioData_worker_only _ _ _ Hp) as Hw.
      apply ProcessAudioData_trace in Hp.
      destruct (FAILED (hr_ReleaseBuffer pk)); [intros H; inversion H; subst; exact Hp|].
      destruct (FAILED (hr_NextPacketSize pk)); [intros H; inversion H; subst; exact Hp|].
      intros H. apply IH in H.
      destruct Hp as (Hos1 & d1 & Hout1 & Hall1), H as (Hos2 & d2 & Hout2 & Hall2).
      split; [congruence|]. exists (d1 ++ d2). split.
      * rewrite Hout2, Hout1. now rewrite app_assoc.
      * rewrite forallb_app, Hall1. rewrite (data_allowed_worker_only _ Hw) in Hall2.
        now rewrite Hall2.
    + destruct (FAILED (hr_ReleaseBuffer pk)); [intros H; inversion H; subst; apply Hnil|].
      destruct (FAILED (hr_NextPacketSize pk)); [intros H; inversion H; subst; apply Hnil|].
      apply IH.
    + destruct (FAILED (hr_ReleaseBuffer pk)); [intros H; inversion H; subst; apply Hnil|].
      destruct (FAILED (hr_NextPacketSize pk)); [intros H; inversion H; subst; apply Hnil|].
      apply IH.
Qed.

Lemma silence_watchdog_trace (chunkDuration : Z) (b : bool) (now : Z)
    (st : @State flt dbl) :
  os (silence_watchdog chunkDuration b now st) = os st /\
  exists datas,
    out (silence_watchdog chunkDuration b now st) = out st ++ datas /\
    forallb (data_allowed (obj st)) datas = true.
Proof.
  assert (Hnil : os st = os st /\
                 exists datas, out st = out st ++ datas /\
                               forallb (data_allowed (obj st)) datas = true)
    by (split; [reflexivity|]; exists []; split; [now rewrite app_nil_r | reflexivity]).
  unfold silence_watchdog.
  destruct (_ && _); [|exact Hnil].
  destruct (_ <=? _); [|exact Hnil].
  destruct (_ && _) eqn:Hguard; cbn.
  - split; [reflexivity|]. eexists [_]. split; [reflexivity|].
    apply andb_prop in Hguard. destruct Hguard as [_ Hcb].
    cbn. unfold data_allowed. cbn. now rewrite Hcb.
  - split; [reflexivity|]. exists []. split; [now rewrite app_nil_r | reflexivity].
Qed.

Lemma CaptureThread_turn_trace (chunkDuration : Z) (ob : IterObs)
    (st st' : @State flt dbl) (go_on : bool) :
  CaptureThread_turn chunkDuration ob st = Ok (go_on, st') ->
  os st' = os st /\
  exists datas tail,
    out st' = out st ++ datas ++ tail /\
    forallb (data_allowed (obj st)) datas = true /\
    (tail = [] \/
     (go_on = false /\ eventCallback_ (obj st) = true /\ tail = [packet_size_error])).
Proof.
  unfold CaptureThread_turn.
  destruct (wait_signaled ob).
  { intros H; inversion H; subst. split; [reflexivity|]. exists [], [].
    split; [now rewrite app_nil_r|]. split; [reflexivity | now left]. }
  destruct (FAILED (hr_GetNextPacketSize ob)).
  { intros H; inversion H; subst. rewrite os_emit_event, out_emit_event.
    split; [reflexivity|]. exists []. eexists. split; [reflexivity|].
    split; [reflexivity|].
    destruct (eventCallback_ (obj st)); [right; repeat split | now left]. }
  destruct (drain_packets _ _ _) as [[b st1]| |] eqn:Hd; cbn [bind]; try discriminate.
  pose proof (drain_packets_worker_only _ _ _ Hd) as Hw.
  apply drain_packets_trace in Hd. destruct Hd as (Hos1 & d1 & Hout1 & Hall1).
  intros H; inversion H; subst.
  set (st2 := if b then upd (set_lastDataTime_ (now_after_packets ob)) st1 else st1).
  assert (Hw2 : worker_only (obj st) (obj st2)).
  { eapply worker_only_trans; [exact Hw|]. subst st2.
    destruct b; [apply worker_only_lastDataTime | apply worker_only_refl]. }
  assert (Hout2 : out st2 = out st1) by (subst st2; destruct b; reflexivity).
  assert (Hos2 : os st2 = os st1) by (subst st2; destruct b; reflexivity).
  destruct (silence_watchdog_trace chunkDuration b (now_watchdog ob) st2)
    as (Hos3 & d2 & Hout3 & Hall2).
  split; [congruence|]. exists (d1 ++ d2), []. split.
  - rewrite Hout3, Hout2, Hout1. now rewrite app_nil_r, app_assoc.
  - split; [|now left]. rewrite forallb_app, Hall1.
    rewrite (data_allowed_worker_only _ Hw2) in Hall2. now rewrite Hall2.
Qed.

Lemma worker_loop_trace (chunkDuration : Z) (obs : list IterObs) :
  forall st st' : @State flt dbl,
    worker_loop chunkDuration obs st = Ok st' ->
    os st' = os st /\
    exists datas tail,
      out st' = out st ++ datas ++ tail /\
      forallb (data_allowed (obj st)) datas = true /\
      (tail = [] \/ (eventCallback_ (obj st) = true /\ tail = [packet_size_error])).
Proof.
  assert (Hnil : forall st : @State flt dbl,
             os st = os st /\
             exists datas tail,
               out st = out st ++ datas ++ tail /\
               forallb (data_allowed (obj st)) datas = true /\
               (tail = [] \/ (eventCallback_ (obj st) = true /\ tail = [packet_size_error])))
    by (intros st; split; [reflexivity|]; exists [], [];
        split; [now rewrite app_nil_r|]; split; [reflexivity | now left]).
  induction obs as [|ob rest IH]; intros st st'; cbn [worker_loop].
  - intros H; inversion H; subst. apply Hnil.
  - destruct (negb (running_ (obj st))); [intros H; inversion H; subst; apply Hnil|].
    destruct (CaptureThread_turn _ _ _) as [[go_on st1]| |] eqn:Ht; cbn [bind];
      try discriminate.
    pose proof (CaptureThread_turn_worker_only _ _ _ Ht) as Hw.
    apply CaptureThread_turn_trace in Ht.
    destruct Ht as (Hos1 & d1 & t1 & Hout1 & Hall1 & Htail1).
    destruct go_on.
    + intros H. apply IH in H. destruct H as (Hos2 & d2 & t2 & Hout2 & Hall2 & Htail2).
      destruct Htail1 as [-> | (Hno & _)]; [|discriminate].
      split; [congruence|]. exists (d1 ++ d2), t2. split.
      * rewrite Hout2, Hout1. now rewrite app_nil_r, !app_assoc.
      * rewrite forallb_app, Hall1.
        rewrite (data_allowed_worker_only _ Hw) in Hall2. rewrite Hall2.
        split; [reflexivity|].
        assert (He : eventCallback_ (obj st1) = eventCallback_ (obj st))
          by (unfold worker_only in Hw; rewrite Hw; reflexivity).
        rewrite He in Htail2. exact Htail2.
    + intros H; inversion H; subst. split; [exact Hos1|]. exists d1, t1.
      split; [exact Hout1|]. split; [exact Hall1|].
      destruct Htail1 as [-> | (_ & He & ->)]; [now left | right; now split].
Qed.

(** A worker run: the platform's resources are untouched; the callbacks are
    data callbacks, made only when a data callback is registered, followed
    by at most one [Error] event, made only when an event callback is. *)
Lemma CaptureThread_trace (start : Z) (obs : list IterObs) (st st' : @State flt dbl) :
  CaptureThread start obs st = Ok st' ->
  os st' = os st /\
  exists datas tail,
    out st' = out st ++ datas ++ tail /\
    forallb (data_allowed (obj st)) datas = true /\
    (tail = [] \/ (eventCallback_ (obj st) = true /\ tail = [packet_size_error])).
Proof.
  unfold CaptureThread.
  destruct (to_int64 _) as [cd| |]; cbn [bind]; try discriminate.
  intros H. apply worker_loop_trace in H. exact H.
Qed.

End WorkerTraces.

Section WorkerProperties.

Context {flt dbl : Type} {A : Arith flt dbl}.

Lemma data_allowed_is_data (o : @WasapiCapture flt dbl) (l : list Event) :
  forallb (data_allowed o) l = true -> forallb is_data l = true.
Proof.
  induction l as [|e l IH]; [reflexivity|]. cbn [forallb]. unfold data_allowed at 1.
  intros H. apply andb_prop in H. destruct H as [H1 H2].
  apply andb_prop in H1. destruct H1 as [-> _]. now rewrite IH.
Qed.

Lemma data_allowed_registered (o : @WasapiCapture flt dbl) (l : list Event) :
  forallb (data_allowed o) l = true -> forallb (registered o) l = true.
Proof.
  induction l as [|e l IH]; [reflexivity|]. cbn [forallb]. unfold data_allowed at 1.
  intros H. apply andb_prop in H. destruct H as [H1 H2].
  apply andb_prop in H1. destruct H1 as [Hd Hcb]. rewrite IH by exact H2.
  destruct e; cbn in *; try discriminate. now rewrite Hcb.
Qed.

(** X4. A run of the worker thread, however it ends: of the session object
    it writes [chunkBuffer_] and [lastDataTime_] and nothing else, so the
    session still reports running when the worker has ended on an error; it
    acquires and releases nothing; and what it calls are data callbacks,
    followed by at most one [Error] event (the failure of
    [GetNextPacketSize]), after which it calls nothing more. *)
Theorem CaptureThread_frame_and_trace (start : Z) (obs : list IterObs)
    (st st' : @State flt dbl)
    (Hrun : CaptureThread start obs st = Ok st') :
  worker_only (obj st) (obj st') /\
  IsRunning st' = IsRunning st /\
  os st' = os st /\
  exists datas tail,
    out st' = out st ++ datas ++ tail /\
    forallb is_data datas = true /\
    (tail = [] \/ tail = [packet_size_error]).
Proof.
  pose proof (CaptureThread_worker_only _ _ _ Hrun) as Hw.
  apply CaptureThread_trace in Hrun.
  destruct Hrun as (Hos & datas & tail & Hout & Hall & Htail).
  split; [exact Hw|]. split.
  { unfold IsRunning. unfold worker_only in Hw. rewrite Hw. reflexivity. }
  split; [exact Hos|]. exists datas, tail. split; [exact Hout|].
  split; [eapply data_allowed_is_data; exact Hall|].
  destruct Htail as [-> | [_ ->]]; [now left | now right].
Qed.

(** X5. No entry point invokes a callback that was not registered when the
    handle was created: whatever a [Start...] call, [Stop], the destructor or
    a run of the worker adds to the trace goes to a callback the object
    holds. *)
Theorem unregistered_callbacks_are_never_invoked (st st' : @State flt dbl) :
  (forall sampleRate chunkDurationMs isMono emitSilence deviceId gain env code,
      StartMicrophone sampleRate chunkDurationMs isMono emitSilence deviceId gain env st
      = Ok (code, st') ->
      exists added,
        out st' = out st ++ added /\ forallb (registered (obj st)) added = true) /\
  (forall sampleRate chunkDurationMs mute isMono emitSilence inc incCount exc excCount env
          code,
      StartSystemAudio sampleRate chunkDurationMs mute isMono emitSilence
        inc incCount exc excCount env st = Ok (code, st') ->
      exists added,
        out st' = out st ++ added /\ forallb (registered (obj st)) added = true) /\
  (exists added,
      out (snd (Stop st)) = out st ++ added /\
      forallb (registered (obj st)) added = true) /\
  (exists added,
      out (WasapiCapture_delete st) = out st ++ added /\
      forallb (registered (obj st)) added = true) /\
  (forall start obs,
      CaptureThread start obs st = Ok st' ->
      exists added,
        out st' = out st ++ added /\ forallb (registered (obj st)) added = true).
Proof.
  assert (Hstop : exists added,
             out (snd (Stop st)) = out st ++ added /\
             forallb (registered (obj st)) added = true).
  { rewrite Stop_trace. eexists. split; [reflexivity|].
    destruct (running_ (obj st)); cbn [andb]; [|reflexivity].
    destruct (eventCallback_ (obj st)) eqn:E; cbn; [now rewrite E | reflexivity]. }
  split; [|split; [|split; [|split]]].
  - intros sampleRate chunkDurationMs isMono emitSilence deviceId gain env code H.
    destruct (running_ (obj st)) eqn:Hr.
    + unfold StartMicrophone in H. rewrite Hr in H. inversion H; subst.
      exists []. split; [now rewrite app_nil_r | reflexivity].
    + apply StartMicrophone_effect in H; [|exact Hr]. tauto.
  - intros sampleRate chunkDurationMs mute isMono emitSilence inc incCount exc excCount env
      code H.
    destruct (running_ (obj st)) eqn:Hr.
    + unfold StartSystemAudio in H. rewrite Hr in H. inversion H; subst.
      exists []. split; [now rewrite app_nil_r | reflexivity].
    + apply StartSystemAudio_effect in H; [|exact Hr]. tauto.
  - exact Hstop.
  - unfold WasapiCapture_delete.
    assert (Hrel : forall k ho (s : @State flt dbl), out (release_field k ho s) = out s)
      by (intros k [h|] s; reflexivity).
    rewrite !Hrel. exact Hstop.
  - intros start obs H. apply CaptureThread_trace in H.
    destruct H as (_ & datas & tail & Hout & Hall & Htail).
    exists (datas ++ tail). split; [exact Hout|].
    rewrite forallb_app, (data_allowed_registered _ _ Hall).
    destruct Htail as [-> | [He ->]]; [reflexivity|]. cbn. now rewrite He.
Qed.

(** X6. The callbacks of a whole session, in order.  A successful
    [Start...] call, a run of the worker and [Stop] give, with every
    callback registered: the metadata callback, the [Started] event, the
    data callbacks of the worker, at most one [Error] event, and the
    [Stopped] event last.  A callback that is not registered is left out. *)
Theorem session_callback_order
    (st st1 st2 : @State flt dbl) (sampleRate chunkDurationMs : dbl)
    (isMono emitSilence : bool) (env : Outcome) (start : Z) (obs : list IterObs)
    (Hstart : start_succeeds st sampleRate chunkDurationMs isMono emitSilence env st1)
    (Hrun : CaptureThread start obs st1 = Ok st2) :
  exists datas tail,
    out (snd (Stop st2))
    = out st
      ++ (if metadataCallback_ (obj st)
          then [EvMetadata (output_rate sampleRate (device_format env))
                  (if isMono then 1%N else nChannels (device_format env))
                  32 true "pcm_f32le"%string]
          else [])
      ++ (if eventCallback_ (obj st) then [EvEvent 0 None] else [])
      ++ datas ++ tail
      ++ (if eventCallback_ (obj st) then [EvEvent 1 None] else []) /\
    forallb is_data datas = true /\
    (tail = [] \/ tail = [packet_size_error]) /\
    IsRunning (snd (Stop st2)) = false.
Proof.
  apply start_succeeds_started in Hstart.
  destruct Hstart as (gain & n & a & c & m & _ & Hobj & Hout).
  pose proof (CaptureThread_worker_only _ _ _ Hrun) as Hw.
  apply CaptureThread_trace in Hrun.
  destruct Hrun as (_ & datas & tail & Hout2 & Hall & Htail).
  exists datas, tail.
  assert (Hr2 : running_ (obj st2) = true)
    by (unfold worker_only in Hw; rewrite Hw, Hobj; reflexivity).
  assert (He2 : eventCallback_ (obj st2) = eventCallback_ (obj st))
    by (unfold worker_only in Hw; rewrite Hw, Hobj; reflexivity).
  split.
  { rewrite Stop_trace, Hr2, He2, Hout2, Hout. cbn [andb].
    now rewrite <- !app_assoc. }
  split; [eapply data_allowed_is_data; exact Hall|].
  split; [destruct Htail as [-> | [_ ->]]; [now left | now right]|].
  apply Stop_leaves_not_running.
Qed.

(** X7. A session whose chunk size is zero (a chunk duration so short that
    [(chunkDurationMs / 1000.0) * outputSampleRate] is below one sample) and
    that has a data callback: the first batch it processes never returns.
    The emission loop tests [chunkBuffer_.size() >= 0], which holds on every
    turn, so the loop calls the data callback with zero bytes for ever; the
    worker is stuck in it. *)
Theorem zero_chunk_size_never_returns
    (st : @State flt dbl) (h : Handle) (fmt : WAVEFORMATEX)
    (data : list flt) (numFrames : N) (samples : list flt) (numChannels : N)
    (Hfmt : mixFormat_ (obj st) = Some (h, fmt))
    (Hframes : numFrames <> 0%N)
    (Hcb : dataCallback_ (obj st) = true)
    (Hsamples : process_samples (obj st) fmt data numFrames = Ok (samples, numChannels))
    (Hzero : size_mul (samplesPerChunk_ (obj st))
               (if isMono_ (obj st) then 1 else nChannels fmt) = 0%N) :
  ProcessAudioData data numFrames st = Diverges /\
  (forall fuel,
      emit_chunks fuel 0 (upd (set_chunkBuffer_ (chunkBuffer_ (obj st) ++ samples)) st)
      = Diverges) /\
  (forall pk rest receivedAudio,
      running_ (obj st) = true ->
      FAILED (hr_GetBuffer pk) = false ->
      pk_data pk = Some data -> pk_silent pk = false ->
      pk_numFramesAvailable pk = numFrames ->
      drain_packets (pk :: rest) receivedAudio st = Diverges).
Proof.
  assert (Hp : ProcessAudioData data numFrames st = Diverges).
  { unfold ProcessAudioData. rewrite Hfmt.
    destruct (numFrames =? 0)%N eqn:Hz; [apply N.eqb_eq in Hz; contradiction|].
    rewrite Hsamples. cbn [bind].
    cbn [obj upd set_chunkBuffer_ samplesPerChunk_ isMono_ chunkBuffer_].
    rewrite (process_samples_channels _ _ _ _ Hsamples), Hzero.
    apply emit_chunks_zero_diverges. exact Hcb. }
  split; [exact Hp|]. split.
  - intros fuel. apply emit_chunks_zero_diverges. exact Hcb.
  - intros pk rest receivedAudio Hrun Hbuf Hdata Hsilent Hn.
    cbn [drain_packets]. rewrite Hrun, Hbuf, Hdata, Hsilent, Hn, Hp. reflexivity.
Qed.

(** X8. The byte length handed to the data callback agrees with the
    samples handed over: in a session whose chunks hold fewer than 2^29
    samples, every data callback of a worker run, audio or silence, is given
    four times the number of its samples.  From 2^29 samples on the
    conversion of the length to [int32_t] no longer holds it: up to 2^30
    samples the length given is negative. *)
Theorem data_callback_length
    (start : Z) (obs : list IterObs) (st st' : @State flt dbl)
    (h : Handle) (fmt : WAVEFORMATEX)
    (Hfmt : mixFormat_ (obj st) = Some (h, fmt))
    (Hrun : CaptureThread start obs st = Ok st') :
  exists added,
    out st' = out st ++ added /\
    ((silentSamples (obj st) < 2 ^ 29)%N ->
     forall samples nbytes,
       In (EvData samples nbytes) added ->
       nbytes = 4 * Z.of_nat (List.length samples)) /\
    ((2 ^ 29 <= silentSamples (obj st) < 2 ^ 30)%N ->
     forall samples nbytes,
       In (EvData samples nbytes) added -> nbytes < 0).
Proof.
  eapply CaptureThread_events in Hrun; [|exact Hfmt].
  destruct Hrun as (added & Hout & Hall). exists added. split; [exact Hout|].
  rewrite Forall_forall in Hall.
  set (n := silentSamples (obj st)) in *.
  split; intros Hn samples nbytes Hin; destruct (Hall _ Hin) as [Hlen Hbytes];
    rewrite Hbytes; unfold to_int32, size_mul, SIZE_MAX_plus_1.
  - rewrite Hlen, N2Z.inj_mod, N2Z.inj_mul, N2Z.inj_pow, N_nat_Z.
    change (Z.of_N 2) with 2. change (Z.of_N 64) with 64. change (Z.of_N 4) with 4.
    assert (H0 : 0 <= Z.of_N n < 2 ^ 29).
    { split; [lia|]. change (2 ^ 29) with (Z.of_N (2 ^ 29)). lia. }
    rewrite (Z.mod_small (Z.of_N n * 4)) by lia.
    rewrite (Z.mod_small (Z.of_N n * 4)) by lia.
    replace (Z.of_N n * 4 <? 2 ^ 31) with true by (symmetry; apply Z.ltb_lt; lia).
    lia.
  - rewrite N2Z.inj_mod, N2Z.inj_mul, N2Z.inj_pow.
    change (Z.of_N 2) with 2. change (Z.of_N 64) with 64. change (Z.of_N 4) with 4.
    assert (H0 : 2 ^ 29 <= Z.of_N n < 2 ^ 30).
    { change (2 ^ 29) with (Z.of_N (2 ^ 29)). change (2 ^ 30) with (Z.of_N (2 ^ 30)). lia. }
    rewrite (Z.mod_small (Z.of_N n * 4)) by lia.
    rewrite (Z.mod_small (Z.of_N n * 4)) by lia.
    replace (Z.of_N n * 4 <? 2 ^ 31) with false by (symmetry; apply Z.ltb_ge; lia).
    lia.
Qed.

(** X9. Neither [Stop] nor a [Start...] call empties the accumulator.  The
    samples left in [chunkBuffer_] when a session stops are still there when
    the handle is started again, and they are the first samples the new
    session hands to the data callback, ahead of its own. *)
Theorem restart_keeps_buffered_samples
    (st st' : @State flt dbl) (sampleRate chunkDurationMs : dbl)
    (isMono emitSilence : bool) (env : Outcome)
    (Hstart : start_succeeds (snd (Stop st)) sampleRate chunkDurationMs
                isMono emitSilence env st') :
  chunkBuffer_ (obj st') = chunkBuffer_ (obj st) /\
  forall data numFrames samples numChannels,
    numFrames <> 0%N ->
    dataCallback_ (obj st') = true ->
    process_samples (obj st') (device_format env) data numFrames
    = Ok (samples, numChannels) ->
    let samplesNeeded :=
      size_mul (samplesPerChunk_ (obj st'))
        (if isMono then 1 else nChannels (device_format env)) in
    (0 < samplesNeeded)%N ->
    exists chunks st'',
      ProcessAudioData data numFrames st' = Ok st'' /\
      out st'' = out st' ++ map (fun c => EvData c (to_int32 (size_mul samplesNeeded 4)))
                               chunks /\
      List.concat chunks ++ chunkBuffer_ (obj st'') = chunkBuffer_ (obj st) ++ samples.
Proof.
  apply start_succeeds_started in Hstart.
  destruct Hstart as (gain & n & a & c & m & _ & Hobj & _).
  destruct (Stop_keeps_resources st) as (_ & _ & _ & _ & Hbuf).
  assert (Hkeep : chunkBuffer_ (obj st') = chunkBuffer_ (obj st))
    by (rewrite Hobj; exact Hbuf).
  split; [exact Hkeep|].
  intros data numFrames samples numChannels Hframes Hcb Hsamples samplesNeeded Hpos.
  assert (Hfmt : mixFormat_ (obj st') = Some (m, device_format env))
    by (rewrite Hobj; reflexivity).
  assert (Hmono : isMono_ (obj st') = isMono) by (rewrite Hobj; reflexivity).
  unfold ProcessAudioData. rewrite Hfmt.
  destruct (numFrames =? 0)%N eqn:Hz; [apply N.eqb_eq in Hz; contradiction|].
  rewrite Hsamples. cbn [bind].
  cbn [obj upd set_chunkBuffer_ samplesPerChunk_ isMono_ chunkBuffer_].
  rewrite (process_samples_channels _ _ _ _ Hsamples), Hmono. fold samplesNeeded.
  set (st1 := upd (set_chunkBuffer_ (chunkBuffer_ (obj st') ++ samples)) st').
  destruct (@emit_chunks_drains _ _ samplesNeeded
              (S (List.length (chunkBuffer_ (obj st1)))) Hpos st1 Hcb ltac:(lia))
    as (chunks & st'' & Hrun & Hout & _ & Hcat & _).
  exists chunks, st''. subst st1. cbn in Hrun, Hout, Hcat. rewrite Hkeep in Hcat. auto.
Qed.

End WorkerProperties.

Lemma CaptureThread_frame_and_trace_witness :
  let st' := Scenarios.after
               (CaptureThread 0 [Samples.quiet_turn 5000000; Scenarios.failing_turn;
                                 Samples.quiet_turn 9000000] Samples.running_1ms)
               Samples.running_1ms in
  IsRunning st' = true /\
  out st' = out Samples.running_1ms
            ++ [EvData (repeat (S754_zero false) 48) 192; packet_size_error].
Proof.
  intros st'.
  destruct (@CaptureThread_frame_and_trace _ _ IEEE 0
              [Samples.quiet_turn 5000000; Scenarios.failing_turn;
               Samples.quiet_turn 9000000] Samples.running_1ms st')
    as (_ & Hrun & _).
  - vm_compute. reflexivity.
  - split; [exact Hrun | vm_compute; reflexivity].
Defined.

Lemma unregistered_callbacks_are_never_invoked_witness :
  let st' := Scenarios.after
               (CaptureThread 0 [Scenarios.ramp_turn 50 1000000; Scenarios.failing_turn]
                  Scenarios.running_mute)
               Scenarios.running_mute in
  exists added,
    out st' = out Scenarios.running_mute ++ added /\
    forallb (registered (obj Scenarios.running_mute)) added = true.
Proof.
  intros st'.
  apply (proj2 (proj2 (proj2 (proj2
           (@unregistered_callbacks_are_never_invoked _ _ IEEE
              Scenarios.running_mute st')))) 0
           [Scenarios.ramp_turn 50 1000000; Scenarios.failing_turn]).
  vm_compute. reflexivity.
Defined.

Lemma session_callback_order_witness :
  let st2 := Scenarios.after
               (CaptureThread 0 [Scenarios.ramp_turn 50 1000000; Scenarios.failing_turn]
                  Samples.running_1ms)
               Samples.running_1ms in
  exists datas tail,
    out (snd (Stop st2))
    = [EvMetadata (B64.of_Z 48000) 1 32 true "pcm_f32le"%string; EvEvent 0 None]
      ++ datas ++ tail ++ [EvEvent 1 None] /\
    forallb is_data datas = true /\
    (tail = [] \/ tail = [packet_size_error]) /\
    IsRunning (snd (Stop st2)) = false.
Proof.
  intros st2.
  apply (@session_callback_order _ _ IEEE Samples.created Samples.running_1ms st2
           (B64.of_Z 48000) (B64.of_Z 1) true true (Samples.all_ok Samples.stereo_48k)
           0 [Scenarios.ramp_turn 50 1000000; Scenarios.failing_turn]).
  - left. exists None, (B64.of_Z 1). vm_compute. reflexivity.
  - vm_compute. reflexivity.
Defined.

Lemma zero_chunk_size_never_returns_witness :
  samplesPerChunk_ (obj Scenarios.running_zero_chunk) = 0%N /\
  ProcessAudioData (Samples.ramp 4) 2 Scenarios.running_zero_chunk = Diverges.
Proof.
  split; [vm_compute; reflexivity|].
  refine (proj1 (@zero_chunk_size_never_returns _ _ IEEE Scenarios.running_zero_chunk
                   1%nat Samples.stereo_48k (Samples.ramp 4) 2 [] 1 _ _ _ _ _)).
  - vm_compute. reflexivity.
  - discriminate.
  - vm_compute. reflexivity.
  - vm_compute. reflexivity.
  - vm_compute. reflexivity.
Defined.

Lemma data_callback_length_witness :
  let st' := Scenarios.after
               (CaptureThread 0 [Scenarios.ramp_turn 50 1000000;
                                 Samples.quiet_turn 5000000] Samples.running_1ms)
               Samples.running_1ms in
  exists added,
    out st' = out Samples.running_1ms ++ added /\
    forall samples nbytes,
      In (EvData samples nbytes) added -> nbytes = 4 * Z.of_nat (List.length samples).
Proof.
  intros st'.
  destruct (@data_callback_length _ _ IEEE 0
              [Scenarios.ramp_turn 50 1000000; Samples.quiet_turn 5000000]
              Samples.running_1ms st' 1%nat Samples.stereo_48k)
    as (added & Hout & Hsmall & _).
  - reflexivity.
  - vm_compute. reflexivity.
  - exists added. split; [exact Hout|]. apply Hsmall. vm_compute. reflexivity.
Defined.

Lemma restart_keeps_buffered_samples_witness :
  let st' := Samples.state_of
               (StartSystemAudio (B64.of_Z 48000) (B64.of_Z 1) false true true
                  None 0 None 0 (Samples.all_ok Samples.stereo_48k)
                  (snd (Stop Scenarios.running_1ms_fed)))
               (snd (Stop Scenarios.running_1ms_fed)) in
  chunkBuffer_ (obj st') = chunkBuffer_ (obj Scenarios.running_1ms_fed) /\
  chunkBuffer_ (obj Scenarios.running_1ms_fed)
  = [Samples.f32 193 (-1); Samples.f32 197 (-1)].
Proof.
  intros st'. split; [|vm_compute; reflexivity].
  apply (@restart_keeps_buffered_samples _ _ IEEE Scenarios.running_1ms_fed st'
           (B64.of_Z 48000) (B64.of_Z 1) true true (Samples.all_ok Samples.stereo_48k)).
  right. exists false, None, 0, None, 0. vm_compute. reflexivity.
Defined.

(** * The C interface *)

Section ComInit.

(** ** COM initialisation of the calling thread *)

Lemma EnsureComInitialized_done (hrs : list HRESULT) (t : ComThread) :
  comInitialized t = true ->
  fold_left (fun t hr => EnsureComInitialized hr t) hrs t = t.
Proof.
  intros Ht. induction hrs as [|hr hrs IH]; [reflexivity|]. cbn [fold_left].
  unfold EnsureComInitialized at 2. rewrite Ht. cbn [negb]. exact IH.
Qed.

Lemma FAILED_SUCCEEDED (hr : HRESULT) : SUCCEEDED hr = negb (FAILED hr).
Proof. unfold SUCCEEDED, FAILED. destruct (Z.ltb_spec hr 0), (Z.leb_spec 0 hr); lia || reflexivity. Qed.

Lemma EnsureComInitialized_fresh (hr : HRESULT) (pre : list HRESULT) :
  EnsureComInitialized hr {| comInitialized := false; coinit_calls := pre |}
  = {| comInitialized := SUCCEEDED hr; coinit_calls := pre ++ [hr] |}.
Proof.
  unfold EnsureComInitialized. cbn [comInitialized negb coinit_calls].
  destruct (SUCCEEDED hr) eqn:Hs; cbn [orb]; [reflexivity|].
  replace (hr =? S_FALSE) with false; [reflexivity|].
  symmetry. unfold SUCCEEDED in Hs. unfold S_FALSE. apply Z.eqb_neq.
  apply Z.leb_gt in Hs. lia.
Qed.

Lemma EnsureComInitialized_from (hrs : list HRESULT) :
  forall pre,
    let t := fold_left (fun t hr => EnsureComInitialized hr t) hrs
               {| comInitialized := false; coinit_calls := pre |} in
    (comInitialized t = false /\ coinit_calls t = pre ++ hrs /\
     forallb FAILED hrs = true) \/
    (exists failed ok rest,
        hrs = failed ++ ok :: rest /\ forallb FAILED failed = true /\
        SUCCEEDED ok = true /\
        comInitialized t = true /\ coinit_calls t = pre ++ failed ++ [ok]).
Proof.
  induction hrs as [|hr hrs IH]; intros pre.
  - left. cbn. now rewrite app_nil_r.
  - cbn [fold_left]. rewrite EnsureComInitialized_fresh.
    destruct (SUCCEEDED hr) eqn:Hs.
    + right. exists [], hr, hrs. rewrite EnsureComInitialized_done by reflexivity.
      repeat split; assumption.
    + assert (Hf : FAILED hr = true)
        by (rewrite FAILED_SUCCEEDED in Hs; now destruct (FAILED hr)).
      destruct (IH (pre ++ [hr]))
        as [(H1 & H2 & H3) | (failed & ok & rest & H1 & H2 & H3 & H4 & H5)].
      * left. split; [exact H1|]. split; [now rewrite H2, <- app_assoc|].
        cbn [forallb]. now rewrite Hf, H3.
      * right. exists (hr :: failed), ok, rest. subst hrs.
        split; [reflexivity|]. split; [cbn [forallb]; now rewrite Hf, H2|].
        split; [exact H3|]. split; [exact H4|]. rewrite H5, <- app_assoc. reflexivity.
Qed.

(** X12. [EnsureComInitialized] over the life of a thread.  Whatever
    [CoInitializeEx] answers, the thread calls it at each entry until it
    first succeeds and never again: the calls made are the failed answers
    followed by at most one success, and the flag [comInitialized] is set
    exactly when that success has happened.  A failure (a thread already in
    a single-threaded apartment answers RPC_E_CHANGED_MODE) is tried again
    at every entry; the test [hr == S_FALSE] adds nothing, S_FALSE being a
    success code. *)
Theorem EnsureComInitialized_calls (hrs : list HRESULT) :
  let t := fold_left (fun t hr => EnsureComInitialized hr t) hrs new_thread in
  ((comInitialized t = false /\ coinit_calls t = hrs /\ forallb FAILED hrs = true) \/
   (exists failed ok rest,
       hrs = failed ++ ok :: rest /\ forallb FAILED failed = true /\
       SUCCEEDED ok = true /\
       comInitialized t = true /\ coinit_calls t = failed ++ [ok])) /\
  (forall hr t0,
      comInitialized (EnsureComInitialized hr t0)
      = comInitialized t0 || SUCCEEDED hr).
Proof.
  split.
  - exact (EnsureComInitialized_from hrs []).
  - intros hr t0. destruct t0 as [[|] pre]; [reflexivity|].
    now rewrite EnsureComInitialized_fresh.
Qed.

End ComInit.

Section Mta.

(** ** The MTA cookie *)

(** X13. The module keeps at most one reference on the multi-threaded
    apartment.  After any sequence of [InitializeMTAThread] and
    [CleanupMTAThread] calls, starting with no cookie, the number of
    [CoIncrementMTAUsage] calls not yet undone is one if the cookie is set
    and zero if it is not: repeated initialisation does not add references,
    cleanup gives the one reference back, and cleanup without
    initialisation does nothing.  [InitializeMTAThread] answers true
    exactly when the cookie is set afterwards. *)
Theorem mta_usage_is_zero_or_one (calls : list MtaCall) :
  let s := fold_left mta_step calls {| g_mtaCookie := None; mta_usage := 0 |} in
  mta_usage s = match g_mtaCookie s with Some _ => 1%nat | None => 0%nat end /\
  (forall hr cookie,
      fst (InitializeMTAThread hr cookie s) = true <->
      g_mtaCookie (snd (InitializeMTAThread hr cookie s)) <> None) /\
  mta_usage (CleanupMTAThread s) = 0%nat /\
  g_mtaCookie (CleanupMTAThread s) = None.
Proof.
  assert (Hinv : forall calls s0,
             mta_usage s0 = match g_mtaCookie s0 with Some _ => 1%nat | None => 0%nat end ->
             let s := fold_left mta_step calls s0 in
             mta_usage s = match g_mtaCookie s with Some _ => 1%nat | None => 0%nat end).
  { clear calls. induction calls as [|c calls IH]; intros s0 H0; [exact H0|].
    cbn [fold_left]. apply IH. destruct s0 as [[c0|] u]; cbn in H0; subst u;
      destruct c as [hr cookie|]; cbn; try reflexivity.
    destruct (SUCCEEDED hr); reflexivity. }
  intros s.
  assert (Hs : mta_usage s = match g_mtaCookie s with Some _ => 1%nat | None => 0%nat end)
    by (apply Hinv; reflexivity).
  destruct s as [[c0|] u]; cbn in Hs; subst u; cbn.
  - repeat split; try reflexivity. discriminate.
  - split; [reflexivity|]. split; [|split; reflexivity].
    intros hr cookie. destruct (SUCCEEDED hr); cbn; split; congruence.
Qed.

End Mta.

Section Histories.

Context {flt dbl : Type} {A : Arith flt dbl}.

(** ** Histories of a handle *)

Lemma count_code_app (code : Z) (l1 l2 : list (@Event flt dbl)) :
  count_code code (l1 ++ l2) = (count_code code l1 + count_code code l2)%nat.
Proof. unfold count_code. now rewrite filter_app, length_app. Qed.

(** The lifecycle events of the tail of a [Start...] call. *)
Lemma finish_start_lifecycle (init_message : string) (env : Outcome)
    (st0 : @State flt dbl) (r : HRESULT * @State flt dbl)
    (code : Z) (st' : @State flt dbl) :
  negotiation_frame st0 (snd r) ->
  finish_start init_message env r = Ok (code, st') ->
  eventCallback_ (obj st') = eventCallback_ (obj st0) /\
  running_ (obj st') = (if code =? 0 then true else running_ (obj st0)) /\
  exists added,
    out st' = out st0 ++ added /\
    count_code 1 added = 0%nat /\
    count_code 0 added = (if (code =? 0) && eventCallback_ (obj st0) then 1%nat else 0%nat).
Proof.
  destruct r as [hr st1]. cbn [snd]. intros [Hout Hobj] Hfin.
  assert (Hev : eventCallback_ (obj st1) = eventCallback_ (obj st0))
    by (rewrite Hobj; reflexivity).
  assert (Hrun : running_ (obj st1) = running_ (obj st0))
    by (rewrite Hobj; reflexivity).
  assert (Herr : forall c m (s1 : @State flt dbl),
             c <> 0 ->
             eventCallback_ (obj s1) = eventCallback_ (obj st0) ->
             running_ (obj s1) = running_ (obj st0) ->
             (exists pre, out s1 = out st0 ++ pre /\ count_code 1 pre = 0%nat /\
                          count_code 0 pre = 0%nat) ->
             eventCallback_ (obj (emit_event 2 (Some m) s1)) = eventCallback_ (obj st0) /\
             running_ (obj (emit_event 2 (Some m) s1))
             = (if c =? 0 then true else running_ (obj st0)) /\
             exists added,
               out (emit_event 2 (Some m) s1) = out st0 ++ added /\
               count_code 1 added = 0%nat /\
               count_code 0 added
               = (if (c =? 0) && eventCallback_ (obj st0) then 1%nat else 0%nat)).
  { intros c m s1 Hc He Hr (pre & Hpre & H1 & H0).
    rewrite obj_emit_event, out_emit_event.
    apply Z.eqb_neq in Hc. rewrite Hc. cbn [andb].
    split; [exact He|]. split; [exact Hr|].
    exists (pre ++ (if eventCallback_ (obj s1) then [EvEvent 2 (Some m)] else [])).
    split; [rewrite Hpre; now rewrite app_assoc|].
    rewrite !count_code_app, H1, H0.
    destruct (eventCallback_ (obj s1)); split; reflexivity. }
  assert (Hnil : exists pre, out st1 = out st0 ++ pre /\ count_code 1 pre = 0%nat /\
                             count_code 0 pre = 0%nat)
    by (exists []; rewrite app_nil_r; repeat split; exact Hout).
  unfold finish_start in Hfin.
  destruct (FAILED hr).
  { inversion Hfin; subst. apply Herr; auto. discriminate. }
  unfold FinalizeInitialization in Hfin.
  destruct (mixFormat_ (obj st1)) as [[hfmt fmt]|] eqn:Hfmt; cbn [bind] in Hfin.
  2:{ cbn in Hfin. inversion Hfin; subst. apply Herr; auto. discriminate. }
  destruct (to_size_t _) as [n| |]; cbn [bind] in Hfin; try discriminate.
  cbn [FAILED S_OK] in Hfin. change (0 <? 0) with false in Hfin. cbv iota in Hfin.
  match type of Hfin with
  | context [emit_event 2 _ ?s] => set (s2 := s) in *
  end.
  assert (He2 : eventCallback_ (obj s2) = eventCallback_ (obj st0))
    by (subst s2; cbn; destruct (metadataCallback_ _); cbn; exact Hev).
  assert (Hr2 : running_ (obj s2) = running_ (obj st0))
    by (subst s2; cbn; destruct (metadataCallback_ _); cbn; exact Hrun).
  assert (Hpre2 : exists pre, out s2 = out st0 ++ pre /\ count_code 1 pre = 0%nat /\
                              count_code 0 pre = 0%nat).
  { subst s2. cbn. destruct (metadataCallback_ _); cbn.
    - eexists [_]. rewrite Hout. repeat split.
    - exact Hnil. }
  destruct (FAILED (hr_Start env)).
  { inversion Hfin; subst. apply Herr; auto. discriminate. }
  inversion Hfin; subst. clear Hfin. cbn [Z.eqb andb].
  cbn [obj upd set_captureThread_ eventCallback_ running_ out].
  rewrite obj_emit_event, out_emit_event.
  cbn [obj upd set_stopEvent_ set_running_ eventCallback_ running_ out].
  split; [exact He2|]. split; [reflexivity|].
  destruct Hpre2 as (pre & Hpre & H1 & H0).
  exists (pre ++ (if eventCallback_ (obj s2) then [EvEvent 0 None] else [])).
  split; [rewrite Hpre; now rewrite app_assoc|].
  rewrite !count_code_app, H1, H0, He2.
  destruct (eventCallback_ (obj st0)); split; reflexivity.
Qed.

(** What a [Start...] call does to the lifecycle of a session. *)
Lemma Start_lifecycle (st st' : @State flt dbl) (code : Z) :
  (exists sampleRate chunkDurationMs isMono emitSilence deviceId gain env,
      StartMicrophone sampleRate chunkDurationMs isMono emitSilence deviceId gain env st
      = Ok (code, st')) \/
  (exists sampleRate chunkDurationMs mute isMono emitSilence inc incCount exc excCount env,
      StartSystemAudio sampleRate chunkDurationMs mute isMono emitSilence
        inc incCount exc excCount env st = Ok (code, st')) ->
  eventCallback_ (obj st') = eventCallback_ (obj st) /\
  running_ (obj st') = (if code =? 0 then true else running_ (obj st)) /\
  exists added,
    out st' = out st ++ added /\
    count_code 1 added = 0%nat /\
    count_code 0 added = (if (code =? 0) && eventCallback_ (obj st) then 1%nat else 0%nat).
Proof.
  assert (Hbusy : running_ (obj st) = true -> code = -2 -> st' = st ->
                  eventCallback_ (obj st') = eventCallback_ (obj st) /\
                  running_ (obj st') = (if code =? 0 then true else running_ (obj st)) /\
                  exists added,
                    out st' = out st ++ added /\
                    count_code 1 added = 0%nat /\
                    count_code 0 added
                    = (if (code =? 0) && eventCallback_ (obj st) then 1%nat else 0%nat)).
  { intros Hr -> ->. cbn. split; [reflexivity|]. split; [reflexivity|].
    exists []. rewrite app_nil_r. repeat split. }
  intros [(sampleRate & chunkDurationMs & isMono & emitSilence & deviceId & gain & env & H)
         |(sampleRate & chunkDurationMs & mute & isMono & emitSilence & inc & incCount
           & exc & excCount & env & H)].
  - unfold StartMicrophone in H. destruct (running_ (obj st)) eqn:Hr.
    { inversion H; subst. now apply Hbusy. }
    match type of H with
    | finish_start _ _ (InitializeMicrophone ?d ?e ?s) = _ =>
        destruct (InitializeMicrophone_resources d e s) as (_ & H2 & _)
    end.
    eapply finish_start_lifecycle in H; [|exact H2]. cbn in H. rewrite Hr in H. exact H.
  - unfold StartSystemAudio in H. destruct (running_ (obj st)) eqn:Hr.
    { inversion H; subst. now apply Hbusy. }
    match type of H with
    | finish_start _ _ ?r = _ =>
        match r with
        | context [InitializeSystemLoopback _ ?s] =>
            assert (H2 : negotiation_frame s (snd r))
        end
    end.
    { destruct (has_processes inc incCount);
        [apply InitializeProcessLoopback_resources|].
      destruct (has_processes exc excCount);
        [apply InitializeProcessLoopback_resources
        |apply InitializeSystemLoopback_resources]. }
    eapply finish_start_lifecycle in H; [|exact H2]. cbn in H. rewrite Hr in H. exact H.
Qed.

Lemma count_code_data (code : Z) (o : @WasapiCapture flt dbl) (datas : list Event) :
  forallb (data_allowed o) datas = true -> count_code code datas = 0%nat.
Proof.
  induction datas as [|e l IH]; [reflexivity|]. cbn [forallb]. intros H.
  apply andb_prop in H. destruct H as [He Hl].
  change (e :: l) with ([e] ++ l). rewrite count_code_app, (IH Hl).
  destruct e; cbn in He; try discriminate. reflexivity.
Qed.

(** A handle that points to a session keeps doing so, whatever is called
    on it. *)
Lemma step_keeps_handle (s : Step) (st : @State flt dbl) (h' : AudioRecorderHandle) :
  step s (Some st) = Ok h' -> exists st', h' = Some st'.
Proof.
  destruct s; cbn [step audio_start_system_audio audio_start_microphone audio_stop].
  - destruct (StartSystemAudio _ _ _ _ _ _ _ _ _ _ _) as [[c s1]| |]; cbn; try discriminate.
    intros H; inversion H; eauto.
  - destruct (StartMicrophone _ _ _ _ _ _ _ _) as [[c s1]| |]; cbn; try discriminate.
    intros H; inversion H; eauto.
  - destruct (Stop st) as [c s1]. cbn. intros H; inversion H; eauto.
  - destruct (running_ (obj st)); [|intros H; inversion H; eauto].
    destruct (CaptureThread _ _ _) as [s1| |]; cbn; try discriminate.
    intros H; inversion H; eauto.
Qed.

Lemma Start_keeps_invariants (st st' : @State flt dbl) (code : Z) :
  (exists sampleRate chunkDurationMs isMono emitSilence deviceId gain env,
      StartMicrophone sampleRate chunkDurationMs isMono emitSilence deviceId gain env st
      = Ok (code, st')) \/
  (exists sampleRate chunkDurationMs mute isMono emitSilence inc incCount exc excCount env,
      StartSystemAudio sampleRate chunkDurationMs mute isMono emitSilence
        inc incCount exc excCount env st = Ok (code, st')) ->
  (holds_resources st -> holds_resources st') /\
  (events_balanced st -> events_balanced st').
Proof.
  intros H. pose proof H as HL. apply Start_lifecycle in HL.
  destruct HL as (Hev & Hrun & added & Hout & H1 & H0).
  destruct (running_ (obj st)) eqn:Hr.
  - assert (Hsame : st' = st).
    { destruct H as [(? & ? & ? & ? & ? & ? & ? & H)
                    |(? & ? & ? & ? & ? & ? & ? & ? & ? & ? & H)];
        [unfold StartMicrophone in H | unfold StartSystemAudio in H];
        rewrite Hr in H; inversion H; reflexivity. }
    subst st'. tauto.
  - split.
    + intros _ Hr'. rewrite Hrun in Hr'. destruct (code =? 0) eqn:Hc; [|discriminate].
      apply Z.eqb_eq in Hc. subst code.
      assert (Hres : exists fmt,
                       let n := next_handle (os st) in
                       audioClient_ (obj st') = Some n /\
                       mixFormat_ (obj st') = Some (S n, fmt) /\
                       captureClient_ (obj st') = Some (S (S n)) /\
                       os st' = {| next_handle := S (S (S n));
                                   live := (CaptureClient, S (S n)) :: (MixFormat, S n)
                                           :: (AudioClient, n) :: live (os st) |}).
      { destruct H as [(? & ? & ? & ? & ? & ? & env & H)
                      |(? & ? & ? & ? & ? & ? & ? & ? & ? & env & H)].
        - apply StartMicrophone_effect in H; [|exact Hr].
          destruct H as (_ & _ & Hok & _). exists (device_format env). exact (Hok eq_refl).
        - apply StartSystemAudio_effect in H; [|exact Hr].
          destruct H as (_ & _ & Hok & _). exists (device_format env). exact (Hok eq_refl). }
      destruct Hres as (fmt & Ha & Hm & Hc & Hos).
      eexists _, _, _, _. split; [exact Ha|]. split; [exact Hm|]. split; [exact Hc|].
      rewrite Hos. unfold is_live. cbn [live existsb fst snd ResKind_eqb andb orb].
      rewrite !Nat.eqb_refl. cbn. rewrite ?orb_true_r. repeat split.
    + unfold events_balanced. intros Hbal. rewrite Hr in Hbal. cbn [andb] in Hbal.
      rewrite Hout, !count_code_app, H1, H0, Hrun, Hev, Hbal.
      destruct (code =? 0); cbn [andb]; lia.
Qed.

Lemma step_keeps_invariants (s : Step) (st st' : @State flt dbl) :
  step s (Some st) = Ok (Some st') ->
  (holds_resources st -> holds_resources st') /\
  (events_balanced st -> events_balanced st') /\
  eventCallback_ (obj st') = eventCallback_ (obj st).
Proof.
  destruct s; cbn [step audio_start_system_audio audio_start_microphone audio_stop].
  - destruct (StartSystemAudio _ _ _ _ _ _ _ _ _ _ _) as [[c s1]| |] eqn:Hs; cbn;
      try discriminate.
    intros H; inversion H; subst.
    assert (Hany : (exists sampleRate chunkDurationMs isMono emitSilence deviceId gain env,
                       StartMicrophone sampleRate chunkDurationMs isMono emitSilence
                         deviceId gain env st = Ok (c, st')) \/
                   (exists sampleRate chunkDurationMs mute isMono emitSilence inc incCount
                           exc excCount env,
                       StartSystemAudio sampleRate chunkDurationMs mute isMono emitSilence
                         inc incCount exc excCount env st = Ok (c, st')))
      by (right; do 10 eexists; exact Hs).
    pose proof Hany as HL. apply Start_lifecycle in HL. destruct HL as (He & _).
    apply Start_keeps_invariants in Hany. destruct Hany as [H1 H2]. auto.
  - destruct (StartMicrophone _ _ _ _ _ _ _ _) as [[c s1]| |] eqn:Hs; cbn;
      try discriminate.
    intros H; inversion H; subst.
    assert (Hany : (exists sampleRate chunkDurationMs isMono emitSilence deviceId gain env,
                       StartMicrophone sampleRate chunkDurationMs isMono emitSilence
                         deviceId gain env st = Ok (c, st')) \/
                   (exists sampleRate chunkDurationMs mute isMono emitSilence inc incCount
                           exc excCount env,
                       StartSystemAudio sampleRate chunkDurationMs mute isMono emitSilence
                         inc incCount exc excCount env st = Ok (c, st')))
      by (left; do 7 eexists; exact Hs).
    pose proof Hany as HL. apply Start_lifecycle in HL. destruct HL as (He & _).
    apply Start_keeps_invariants in Hany. destruct Hany as [H1 H2]. auto.
  - destruct (Stop st) as [c s1] eqn:Hs. cbn. intros H; inversion H; subst.
    assert (Hst : st' = snd (Stop st)) by now rewrite Hs.
    pose proof (Stop_leaves_not_running st) as Hnr. pose proof (Stop_trace st) as Htr.
    rewrite <- Hst in Hnr, Htr.
    assert (Hev : eventCallback_ (obj st') = eventCallback_ (obj st)).
    { rewrite Hst. unfold Stop. destruct (running_ (obj st)); cbn [negb snd]; [|reflexivity].
      rewrite obj_emit_event. destruct (captureThread_ _); reflexivity. }
    split; [|split; [|exact Hev]].
    + intros _ Hr. congruence.
    + unfold events_balanced. intros Hbal. rewrite Hnr, Htr, !count_code_app.
      cbn [andb]. destruct (running_ (obj st) && eventCallback_ (obj st));
        cbn in Hbal |- *; lia.
  - destruct (running_ (obj st)) eqn:Hr.
    2:{ intros H; inversion H; subst. tauto. }
    destruct (CaptureThread _ _ _) as [s1| |] eqn:Hc; cbn; try discriminate.
    intros H; inversion H; subst.
    pose proof (CaptureThread_worker_only _ _ _ Hc) as Hw.
    apply CaptureThread_trace in Hc.
    destruct Hc as (Hos & datas & tail & Hout & Hall & Htail).
    unfold worker_only in Hw.
    split; [|split; [|rewrite Hw; reflexivity]].
    + unfold holds_resources. rewrite Hos, Hw. cbn. auto.
    + unfold events_balanced. intros Hbal.
      assert (Hr' : running_ (obj st') = running_ (obj st)) by (rewrite Hw; reflexivity).
      assert (He' : eventCallback_ (obj st') = eventCallback_ (obj st))
        by (rewrite Hw; reflexivity).
      rewrite Hr', He', Hout, !count_code_app, !(count_code_data _ _ _ Hall), Hbal.
      destruct Htail as [-> | [_ ->]]; cbn; lia.
Qed.

Lemma history_keeps_invariants (steps : list Step) :
  forall (st : @State flt dbl) (h' : AudioRecorderHandle),
    history steps (Some st) = Ok h' ->
    exists st',
      h' = Some st' /\
      (holds_resources st -> holds_resources st') /\
      (events_balanced st -> events_balanced st') /\
      eventCallback_ (obj st') = eventCallback_ (obj st).
Proof.
  induction steps as [|s rest IH]; intros st h'; cbn [history].
  - intros H; inversion H; subst. exists st. tauto.
  - destruct (step s (Some st)) as [h1| |] eqn:Hs; cbn [bind]; try discriminate.
    destruct (step_keeps_handle _ _ Hs) as (st1 & ->).
    apply step_keeps_invariants in Hs. destruct Hs as (H1 & H2 & H3).
    intros H. apply IH in H. destruct H as (st' & -> & H4 & H5 & H6).
    exists st'. split; [reflexivity|]. split; [tauto|]. split; [tauto | congruence].
Qed.

End Histories.

Section HandleTheorems.

Context {flt dbl : Type} {A : Arith flt dbl}.

Lemma created_invariants (d e m : bool) (hr : HRESULT) (t : ComThread) (p : Platform) :
  exists st : @State flt dbl,
    snd (audio_create d e m hr t p) = Some st /\
    holds_resources st /\ events_balanced st /\ eventCallback_ (obj st) = e.
Proof.
  eexists. split; [reflexivity|]. split; [|split; [|reflexivity]].
  - intros Hr. discriminate Hr.
  - reflexivity.
Qed.

(** X14. At any point of the life of a handle (any sequence of
    [audio_start_system_audio], [audio_start_microphone] and [audio_stop]
    calls and of worker runs after [audio_create]) the handle still points
    to its session, and while the session is running its audio client, mix
    format and capture client are set and alive: the worker never meets a
    null capture client.  [audio_destroy] then releases what the three
    fields hold. *)
Theorem running_session_holds_its_resources
    (dataCallback eventCallback metadataCallback : bool) (hr : HRESULT)
    (t : ComThread) (p : Platform) (steps : list Step)
    (handle : @AudioRecorderHandle flt dbl)
    (Hhistory : history steps
                  (snd (audio_create dataCallback eventCallback metadataCallback hr t p))
                = Ok handle) :
  exists st,
    handle = Some st /\
    holds_resources st /\
    exists p' tr',
      audio_destroy handle = Some (p', tr') /\
      forall k h, field_of k (obj st) = Some h -> is_live k h p' = false.
Proof.
  destruct (created_invariants dataCallback eventCallback metadataCallback hr t p)
    as (st0 & Hst0 & Hres & _).
  rewrite Hst0 in Hhistory. apply history_keeps_invariants in Hhistory.
  destruct Hhistory as (st & -> & Hres' & _).
  exists st. split; [reflexivity|]. split; [auto|].
  eexists _, _. split; [reflexivity|].
  intros k h Hk. apply WasapiCapture_delete_releases.
  destruct (Stop_keeps_resources st) as (_ & Ha & Hm & Hc & _).
  destruct k; cbn [field_of] in *; congruence.
Qed.

(** X15. Over the life of a handle, [Started] and [Stopped] events come in
    pairs.  At any point the callback trace holds as many [Started] events
    as [Stopped] events, plus one while a session is running with an event
    callback registered; and once the handle is destroyed the two numbers
    are equal: a session that reported [Started] reports [Stopped], also
    when the host never calls [audio_stop]. *)
Theorem Started_and_Stopped_events_pair_up
    (dataCallback eventCallback metadataCallback : bool) (hr : HRESULT)
    (t : ComThread) (p : Platform) (steps : list Step)
    (handle : @AudioRecorderHandle flt dbl)
    (Hhistory : history steps
                  (snd (audio_create dataCallback eventCallback metadataCallback hr t p))
                = Ok handle) :
  exists st,
    handle = Some st /\
    count_code 0 (out st)
    = (count_code 1 (out st)
       + (if audio_is_running handle && eventCallback then 1 else 0))%nat /\
    exists p' tr',
      audio_destroy handle = Some (p', tr') /\
      count_code 0 tr' = count_code 1 tr'.
Proof.
  destruct (created_invariants dataCallback eventCallback metadataCallback hr t p)
    as (st0 & Hst0 & _ & Hbal & Hev0).
  rewrite Hst0 in Hhistory. apply history_keeps_invariants in Hhistory.
  destruct Hhistory as (st & -> & _ & Hbal' & Hev).
  specialize (Hbal' Hbal). unfold events_balanced in Hbal'. rewrite Hev, Hev0 in Hbal'.
  exists st. split; [reflexivity|]. split; [exact Hbal'|].
  eexists _, _. split; [reflexivity|].
  unfold WasapiCapture_delete.
  assert (Hrel : forall k ho (s : @State flt dbl), out (release_field k ho s) = out s)
    by (intros k [h|] s; reflexivity).
  rewrite !Hrel.
  rewrite (Stop_not_running (snd (Stop st))) by apply Stop_leaves_not_running.
  cbn [snd]. rewrite Stop_trace, !count_code_app.
  assert (He : eventCallback_ (obj st) = eventCallback) by congruence.
  rewrite He. cbn [audio_is_running IsRunning] in Hbal'.
  destruct (running_ (obj st) && eventCallback); cbn in Hbal' |- *; lia.
Qed.

End HandleTheorems.

Lemma EnsureComInitialized_calls_witness :
  coinit_calls (fold_left (fun t hr => EnsureComInitialized hr t)
                  [-2147417850; S_FALSE; S_OK] new_thread)
  = [-2147417850; S_FALSE].
Proof.
  destruct (proj1 (EnsureComInitialized_calls [-2147417850; S_FALSE; S_OK]))
    as [(Hno & _) | (failed & ok & rest & _ & _ & _ & _ & _)];
    [discriminate Hno | reflexivity].
Defined.

Lemma mta_usage_is_zero_or_one_witness :
  mta_usage (fold_left mta_step
               [Call_InitializeMTAThread S_OK 7%nat; Call_InitializeMTAThread S_OK 8%nat;
                Call_CleanupMTAThread; Call_InitializeMTAThread E_FAIL 9%nat]
               {| g_mtaCookie := None; mta_usage := 0 |})
  = 0%nat.
Proof.
  exact (proj1 (mta_usage_is_zero_or_one
                  [Call_InitializeMTAThread S_OK 7%nat; Call_InitializeMTAThread S_OK 8%nat;
                   Call_CleanupMTAThread; Call_InitializeMTAThread E_FAIL 9%nat])).
Defined.

Lemma running_session_holds_its_resources_witness :
  let handle := Histories.handle_after
                  (history Histories.two_sessions Histories.fresh_handle) in
  exists st,
    handle = Some st /\
    holds_resources st /\
    exists p' tr',
      audio_destroy handle = Some (p', tr') /\
      forall k h, field_of k (obj st) = Some h -> is_live k h p' = false.
Proof.
  intros handle.
  apply (@running_session_holds_its_resources _ _ IEEE true true true S_OK new_thread
           Samples.no_resources Histories.two_sessions handle).
  vm_compute. reflexivity.
Defined.

Lemma Started_and_Stopped_events_pair_up_witness :
  let handle := Histories.handle_after
                  (history Histories.two_sessions Histories.fresh_handle) in
  exists st,
    handle = Some st /\
    count_code 0 (out st)
    = (count_code 1 (out st) + (if audio_is_running handle && true then 1 else 0))%nat /\
    exists p' tr',
      audio_destroy handle = Some (p', tr') /\
      count_code 0 tr' = count_code 1 tr'.
Proof.
  intros handle.
  apply (@Started_and_Stopped_events_pair_up _ _ IEEE true true true S_OK new_thread
           Samples.no_resources Histories.two_sessions handle).
  vm_compute. reflexivity.
Defined.

Section CompletionHandler.

(** * The activation completion handler *)

Lemma wrap_LONG_small (z : Z) : - 2 ^ 31 <= z < 2 ^ 31 -> wrap_LONG z = z.
Proof. intros H. unfold wrap_LONG. rewrite Z.mod_small; lia. Qed.

Lemma to_ULONG_small (z : Z) : 0 <= z < 2 ^ 32 -> to_ULONG z = z.
Proof. intros H. unfold to_ULONG. apply Z.mod_small. exact H. Qed.

Lemma reference_change_cons (c : HandlerCall) (calls : list HandlerCall) :
  reference_change (c :: calls)
  = (if takes_reference c then 1 else 0) - (if drops_reference c then 1 else 0)
    + reference_change calls.
Proof.
  unfold reference_change. cbn [filter].
  destruct (takes_reference c), (drops_reference c); cbn [List.length]; lia.
Qed.

Lemma handler_run_deleted (calls : list HandlerCall) (s s' : HandlerState) :
  this s = None -> handler_run calls s = Ok s' -> calls = [] /\ s' = s.
Proof.
  intros Hs. destruct calls as [|c rest]; cbn [handler_run].
  - intros H; inversion H; auto.
  - destruct c; cbn [handler_step]; unfold AddRef, Release, QueryInterface,
      ActivateCompleted, Wait; rewrite Hs; cbn; discriminate.
Qed.

Lemma handler_run_count (calls : list HandlerCall) :
  forall (s s' : HandlerState) (h : ActivationCompletionHandler),
    this s = Some h ->
    0 < refCount_ h ->
    refCount_ h + Z.of_nat (List.length calls) < 2 ^ 31 ->
    handler_run calls s = Ok s' ->
    match this s' with
    | Some h' => refCount_ h' = refCount_ h + reference_change calls /\ 0 < refCount_ h'
    | None => refCount_ h + reference_change calls = 0
    end.
Proof.
  induction calls as [|c rest IH]; intros s s' h Hs Hpos Hlen; cbn [handler_run].
  - intros H; inversion H; subst. rewrite Hs. unfold reference_change. cbn. lia.
  - cbn [List.length] in Hlen. rewrite reference_change_cons.
    assert (Hadd : wrap_LONG (refCount_ h + 1) = refCount_ h + 1)
      by (apply wrap_LONG_small; lia).
    assert (Hsub : wrap_LONG (refCount_ h - 1) = refCount_ h - 1)
      by (apply wrap_LONG_small; lia).
    destruct c; cbn [handler_step takes_reference drops_reference].
    + unfold AddRef. rewrite Hs, Hadd. cbn [bind snd]. intros H.
      eapply IH in H; [|reflexivity|cbn; lia|cbn; lia].
      cbn [refCount_ set_refCount_] in H. destruct (this s'); lia.
    + unfold Release. rewrite Hs, Hsub, to_ULONG_small by lia.
      destruct (refCount_ h - 1 =? 0) eqn:Hz; cbn [bind snd]; intros H.
      * apply handler_run_deleted in H; [|reflexivity]. destruct H as [-> ->].
        cbn [this]. apply Z.eqb_eq in Hz. unfold reference_change. cbn. lia.
      * apply Z.eqb_neq in Hz.
        eapply IH in H; [|reflexivity|cbn; lia|cbn; lia].
        cbn [refCount_ set_refCount_] in H. destruct (this s'); lia.
    + unfold QueryInterface. rewrite Hs.
      destruct riid; cbn [takes_reference].
      * unfold AddRef. rewrite Hs, Hadd. cbn [bind snd]. intros H.
        eapply IH in H; [|reflexivity|cbn; lia|cbn; lia].
        cbn [refCount_ set_refCount_] in H. destruct (this s'); lia.
      * unfold AddRef. rewrite Hs, Hadd. cbn [bind snd]. intros H.
        eapply IH in H; [|reflexivity|cbn; lia|cbn; lia].
        cbn [refCount_ set_refCount_] in H. destruct (this s'); lia.
      * cbn [bind snd]. intros H.
        eapply IH in H; [|exact Hs|lia|lia]. destruct (this s'); lia.
    + unfold ActivateCompleted. rewrite Hs. cbn [bind snd]. intros H.
      eapply IH in H; [|reflexivity|cbn; lia|cbn; lia].
      cbn [refCount_] in H. destruct (this s'); lia.
    + unfold Wait. rewrite Hs. cbn [bind snd]. intros H.
      eapply IH in H; [|reflexivity|lia|lia]. destruct (this s'); lia.
Qed.

(** X16. The reference count of the completion handler.  After any
    sequence of calls on a new handler that is defined (none comes after
    the handler has destroyed itself), the handler exists exactly when the
    references taken ([AddRef], [QueryInterface] for [IUnknown] or the
    handler interface), plus the one of the constructor, outnumber the
    [Release] calls, and its count is their difference; it is destroyed by
    the [Release] that makes them equal.  A [QueryInterface] for any other
    interface answers E_NOINTERFACE with a null pointer and takes no
    reference. *)
Theorem handler_reference_count (event_created : bool) (calls : list HandlerCall)
    (s : HandlerState)
    (Hlen : Z.of_nat (List.length calls) < 2 ^ 31 - 1)
    (Hrun : handler_run calls (new_handler event_created) = Ok s) :
  match this s with
  | Some h => refCount_ h = references calls /\ 0 < references calls
  | None => references calls = 0
  end /\
  (forall guid h,
      this s = Some h ->
      QueryInterface (IID_other guid) s = Ok ((E_NOINTERFACE, false), s)).
Proof.
  split.
  - eapply handler_run_count in Hrun;
      [|reflexivity|cbn [refCount_ ActivationCompletionHandler_new]; lia..].
    cbn [refCount_ ActivationCompletionHandler_new] in Hrun.
    unfold references. destruct (this s); lia.
  - intros guid h Hs. unfold QueryInterface. now rewrite Hs.
Qed.

Lemma operation_calls_app (l1 l2 : list ComCall) :
  operation_calls (l1 ++ l2) = operation_calls l1 ++ operation_calls l2.
Proof. apply filter_app. Qed.

Lemma last_cons {X : Type} (l : list X) :
  forall x d, last (x :: l) d = last l x.
Proof.
  induction l as [|y l IH]; intros x d; [reflexivity|].
  change (last (x :: y :: l) d) with (last (y :: l) d). now rewrite !IH.
Qed.

Lemma handler_run_operation (calls : list HandlerCall) :
  forall (s s' : HandlerState) (h : ActivationCompletionHandler),
    this s = Some h ->
    handler_run calls s = Ok s' ->
    let stored := last (map Some (activations calls)) (operation_ h) in
    let done := match activations calls with
                | [] => completed_ h
                | _ => true
                end in
    match this s' with
    | Some h' =>
        operation_ h' = stored /\ completed_ h' = done /\
        completionEvent_ h' = completionEvent_ h /\
        operation_calls (com_calls s')
        = operation_calls (com_calls s) ++ map operation_AddRef (activations calls)
    | None =>
        operation_calls (com_calls s')
        = operation_calls (com_calls s) ++ map operation_AddRef (activations calls)
          ++ match stored with
             | Some op => [operation_Release op]
             | None => []
             end
    end.
Proof.
  induction calls as [|c rest IH]; intros s s' h Hs; cbn [handler_run].
  - intros H; inversion H; subst. rewrite Hs. cbn. now rewrite app_nil_r.
  - assert (Hsame : forall s1 h1,
               this s1 = Some h1 ->
               operation_ h1 = operation_ h -> completed_ h1 = completed_ h ->
               completionEvent_ h1 = completionEvent_ h ->
               operation_calls (com_calls s1) = operation_calls (com_calls s) ->
               activations (c :: rest) = activations rest ->
               handler_run rest s1 = Ok s' ->
               let stored := last (map Some (activations (c :: rest))) (operation_ h) in
               let done := match activations (c :: rest) with
                           | [] => completed_ h
                           | _ => true
                           end in
               match this s' with
               | Some h' =>
                   operation_ h' = stored /\ completed_ h' = done /\
                   completionEvent_ h' = completionEvent_ h /\
                   operation_calls (com_calls s')
                   = operation_calls (com_calls s)
                     ++ map operation_AddRef (activations (c :: rest))
               | None =>
                   operation_calls (com_calls s')
                   = operation_calls (com_calls s)
                     ++ map operation_AddRef (activations (c :: rest))
                     ++ match stored with
                        | Some op => [operation_Release op]
                        | None => []
                        end
               end).
    { intros s1 h1 Hs1 Hop Hdone Hevt Hcalls Hact H. rewrite Hact.
      apply (IH s1 s' h1 Hs1) in H. rewrite Hop, Hdone, Hevt, Hcalls in H. exact H. }
    destruct c; cbn [handler_step].
    + unfold AddRef. rewrite Hs. cbn [bind snd]. intros H.
      eapply Hsame in H; [exact H | reflexivity | reflexivity..].
    + unfold Release. rewrite Hs.
      destruct (to_ULONG _ =? 0); cbn [bind snd]; intros H.
      * apply handler_run_deleted in H; [|reflexivity]. destruct H as [-> ->].
        cbn [this com_calls activations flat_map map last app].
        rewrite operation_calls_app. f_equal.
        unfold ActivationCompletionHandler_delete. cbn [completionEvent_ operation_ set_refCount_].
        rewrite operation_calls_app.
        destruct (completionEvent_ h), (operation_ h); reflexivity.
      * eapply Hsame in H; [exact H | reflexivity | reflexivity..].
    + unfold QueryInterface. rewrite Hs. destruct riid.
      * unfold AddRef. rewrite Hs. cbn [bind snd]. intros H.
        eapply Hsame in H; [exact H | reflexivity | reflexivity..].
      * unfold AddRef. rewrite Hs. cbn [bind snd]. intros H.
        eapply Hsame in H; [exact H | reflexivity | reflexivity..].
      * cbn [bind snd]. intros H.
        eapply Hsame in H; [exact H | exact Hs | reflexivity..].
    + unfold ActivateCompleted. rewrite Hs. cbn [bind snd]. intros H.
      eapply IH in H; [|reflexivity].
      cbn [operation_ completed_ completionEvent_ com_calls] in H.
      rewrite operation_calls_app in H. cbn [operation_calls filter app] in H.
      cbn [activations flat_map app map].
      fold (activations rest).
      rewrite last_cons.
      assert (Hdone : match activations rest with [] => true | _ :: _ => true end = true)
        by (destruct (activations rest); reflexivity).
      rewrite Hdone in H. rewrite <- !app_assoc in H. exact H.
    + unfold Wait. rewrite Hs. cbn [bind snd]. intros H.
      eapply Hsame in H; [exact H | reflexivity | reflexivity | reflexivity | reflexivity | | reflexivity].
      cbn [com_calls]. rewrite operation_calls_app. cbn. now rewrite app_nil_r.
Qed.

(** X17. The operation the handler keeps.  [ActivateCompleted] stores the
    operation it is given and takes a reference on it; after any defined
    sequence of calls on a new handler, [Wait] answers S_OK exactly when
    [ActivateCompleted] has been called, whatever the timeout, and
    [GetOperation] is the operation of the last such call.  When the handler
    destroys itself it releases that operation, once, so an operation stored
    by a single [ActivateCompleted] call is released as often as it was
    referenced; an operation stored by an earlier call is not released. *)
Theorem handler_keeps_and_releases_the_operation (event_created : bool)
    (calls : list HandlerCall) (s : HandlerState)
    (Hrun : handler_run calls (new_handler event_created) = Ok s) :
  let stored := last (map Some (activations calls)) None in
  match this s with
  | Some h =>
      GetOperation s = Ok stored /\
      (forall timeout,
          exists s', Wait timeout s
                     = Ok (match activations calls with [] => E_FAIL | _ => S_OK end, s')) /\
      operation_calls (com_calls s) = map operation_AddRef (activations calls)
  | None =>
      operation_calls (com_calls s)
      = map operation_AddRef (activations calls)
        ++ match stored with
           | Some op => [operation_Release op]
           | None => []
           end
  end.
Proof.
  intros stored.
  eapply handler_run_operation in Hrun; [|reflexivity].
  cbn [new_handler com_calls operation_calls filter app operation_ completed_
       ActivationCompletionHandler_new] in Hrun.
  fold stored in Hrun.
  destruct (this s) as [h|] eqn:Hs; [|exact Hrun].
  destruct Hrun as (Hop & Hdone & _ & Hcalls).
  split; [unfold GetOperation; now rewrite Hs, Hop|]. split; [|exact Hcalls].
  intros timeout. unfold Wait. rewrite Hs, Hdone. eexists.
  destruct (activations calls); reflexivity.
Qed.

End CompletionHandler.

Lemma handler_reference_count_witness :
  let calls := [Call_AddRef; Call_ActivateCompleted 5%nat; Call_Wait 5000;
                Call_Release; Call_Release] in
  references calls = 0 /\
  handler_run calls (new_handler true)
  = Ok {| this := None;
          com_calls := [operation_AddRef 5%nat; SetEvent_completionEvent;
                        WaitForSingleObject_completionEvent 5000;
                        CloseHandle_completionEvent; operation_Release 5%nat] |}.
Proof.
  intros calls. split; [|reflexivity].
  exact (proj1 (@handler_reference_count true calls _ eq_refl eq_refl)).
Defined.

Lemma handler_keeps_and_releases_the_operation_witness :
  let calls := [Call_AddRef; Call_ActivateCompleted 5%nat; Call_Wait 5000;
                Call_Release; Call_Release] in
  operation_calls
    [operation_AddRef 5%nat; SetEvent_completionEvent;
     WaitForSingleObject_completionEvent 5000;
     CloseHandle_completionEvent; operation_Release 5%nat]
  = [operation_AddRef 5%nat; operation_Release 5%nat].
Proof.
  intros calls.
  exact (@handler_keeps_and_releases_the_operation true calls
           {| this := None;
              com_calls := [operation_AddRef 5%nat; SetEvent_completionEvent;
                            WaitForSingleObject_completionEvent 5000;
                            CloseHandle_completionEvent; operation_Release 5%nat] |}
           eq_refl).
Defined.

(** * Device enumeration *)

Section DeviceList.

Import Devices.

Lemma list_endpoints_entries (default : PlatformString) (input : bool)
    (ds : list DeviceObs) :
  forall h l h',
    list_endpoints default input ds h = (l, h') ->
    Forall (fun i => well_formed_entry i /\ isInput i = input) l /\
    (List.length l <= List.length ds)%nat.
Proof.
  induction ds as [|d rest IH]; intros h l h'; cbn [list_endpoints].
  - intros H; inversion H; subst. split; [constructor | reflexivity].
  - destruct (SUCCEEDED (hr_Item d)).
    2:{ intros H. apply IH in H. cbn [List.length]. split; [tauto | lia]. }
    destruct (GetDeviceInfo d no_info input h) as [[ok info] h1] eqn:Hinfo.
    destruct ok.
    2:{ intros H. apply IH in H. cbn [List.length]. split; [tauto | lia]. }
    destruct (list_endpoints default input rest h1) as [more h2] eqn:Hmore.
    intros H; inversion H; subst. apply IH in Hmore. destruct Hmore as [Hall Hlen].
    split; [|cbn [List.length]; lia].
    constructor; [|exact Hall].
    unfold GetDeviceInfo in Hinfo.
    destruct (if SUCCEEDED (hr_GetId d) then _ else _) as [u h3].
    destruct (if SUCCEEDED (hr_OpenPropertyStore d) then _ else _) as [[n m] h4].
    inversion Hinfo as [[Hok Hi Hh]]. clear Hinfo.
    destruct u as [u|]; [|discriminate]. destruct n as [n|]; [|discriminate].
    destruct (SUCCEEDED (hr_GetIdAgain d)); unfold well_formed_entry; cbn; auto.
Qed.

Lemma list_flow_entries (f : FlowObs) (input : bool) (h : Heap)
    (l : list AudioDeviceInfo) (h' : Heap) :
  list_flow f input h = (l, h') ->
  Forall (fun i => well_formed_entry i /\ isInput i = input) l /\
  (List.length l <= List.length (endpoints f))%nat.
Proof.
  unfold list_flow. destruct (SUCCEEDED (hr_EnumAudioEndpoints f)).
  - apply list_endpoints_entries.
  - intros H; inversion H; subst. split; [constructor | cbn; lia].
Qed.

Lemma to_int32_small (n : N) : Z.of_N n < 2 ^ 31 -> to_int32 n = Z.of_N n.
Proof.
  intros H. unfold to_int32. rewrite Z.mod_small by lia.
  replace (Z.of_N n <? 2 ^ 31) with true by (symmetry; apply Z.ltb_lt; lia).
  reflexivity.
Qed.

(** X18. What [audio_list_devices] hands to the host.  With a null
    out-pointer it returns -1, writes nothing and allocates nothing.
    Otherwise it returns 0; the array is null exactly when there is nothing
    to list, and the count is the number of its entries; every entry has an
    identifier and a name (an endpoint that lacks one is left out), and is
    marked either input or output; the inputs come first, then the outputs,
    each at most as many as the platform has endpoints of that kind. *)
Theorem audio_list_devices_contract (hr : HRESULT) (t : ComThread) (e : EnumObs)
    (h : Heap) :
  (forall devices count,
      devices && count = false ->
      audio_list_devices devices count hr t e h = (EnsureComInitialized hr t, -1, None, h)) /\
  exists arr n h',
    audio_list_devices true true hr t e h
    = (EnsureComInitialized hr t, 0, Some (arr, n), h') /\
    (arr = None <-> entries_of arr = []) /\
    (Z.of_nat (List.length (entries_of arr)) < 2 ^ 31 ->
     n = Z.of_nat (List.length (entries_of arr))) /\
    Forall well_formed_entry (entries_of arr) /\
    exists inputs outputs,
      entries_of arr = inputs ++ outputs /\
      Forall (fun i => isInput i = true) inputs /\
      Forall (fun i => isInput i = false) outputs /\
      (List.length inputs <= List.length (endpoints (capture e)))%nat /\
      (List.length outputs <= List.length (endpoints (render e)))%nat.
Proof.
  split.
  - intros devices count Hnull. unfold audio_list_devices.
    destruct devices, count; try discriminate; reflexivity.
  - unfold audio_list_devices. cbn [negb orb].
    assert (Hlist : exists inputs outputs h',
               ListAllDevices e h = (inputs ++ outputs, h') /\
               Forall (fun i => well_formed_entry i /\ isInput i = true) inputs /\
               Forall (fun i => well_formed_entry i /\ isInput i = false) outputs /\
               (List.length inputs <= List.length (endpoints (capture e)))%nat /\
               (List.length outputs <= List.length (endpoints (render e)))%nat).
    { unfold ListAllDevices. destruct (FAILED (hr_ListEnumerator e)).
      - exists [], [], h. repeat split; try constructor; cbn; lia.
      - destruct (list_flow (capture e) true h) as [inputs h1] eqn:H1.
        destruct (list_flow (render e) false h1) as [outputs h2] eqn:H2.
        apply list_flow_entries in H1, H2. exists inputs, outputs, h2. tauto. }
    destruct Hlist as (inputs & outputs & h1 & Hlist & Hin & Hout & Hlin & Hlout).
    rewrite Hlist.
    assert (Hwf : Forall well_formed_entry (inputs ++ outputs)).
    { apply Forall_app. split; [eapply Forall_impl; [|exact Hin]
                               |eapply Forall_impl; [|exact Hout]]; cbn; tauto. }
    assert (Hi : Forall (fun i => isInput i = true) inputs)
      by (eapply Forall_impl; [|exact Hin]; cbn; tauto).
    assert (Ho : Forall (fun i => isInput i = false) outputs)
      by (eapply Forall_impl; [|exact Hout]; cbn; tauto).
    destruct (inputs ++ outputs) as [|x l] eqn:Hl.
    + exists None, 0, h1. split; [reflexivity|]. cbn [entries_of].
      split; [tauto|]. split; [reflexivity|]. split; [constructor|].
      exists inputs, outputs. rewrite Hl. auto.
    + destruct (malloc h1) as [b h2] eqn:Hm.
      exists (Some (b, x :: l)), (to_int32 (N.of_nat (List.length (x :: l)))), h2.
      split; [reflexivity|]. cbn [entries_of].
      split; [split; discriminate|].
      split; [intros Hn; rewrite to_int32_small; lia|].
      split; [exact Hwf|].
      exists inputs, outputs. rewrite Hl. auto.
Qed.

(** ** Allocation and release *)

Lemma ascending_le (bs : list nat) : forall lo hi, ascending lo hi bs -> (lo <= hi)%nat.
Proof.
  induction bs as [|b rest IH]; intros lo hi; cbn [ascending]; [tauto|].
  intros [Hlo Hrest]. apply IH in Hrest. lia.
Qed.

Lemma ascending_app (a : list nat) :
  forall lo mid hi b,
    ascending lo mid a -> ascending mid hi b -> ascending lo hi (a ++ b).
Proof.
  induction a as [|x a IH]; intros lo mid hi b; cbn [ascending app].
  - intros Hlo Hb. destruct b as [|y b]; cbn [ascending] in *; [lia|].
    destruct Hb as [Hy Hb]. split; [lia | exact Hb].
  - intros [Hx Ha] Hb. split; [exact Hx|]. eapply IH; eassumption.
Qed.

Lemma ascending_weaken (bs : list nat) :
  forall lo lo' hi, (lo' <= lo)%nat -> ascending lo hi bs -> ascending lo' hi bs.
Proof.
  destruct bs as [|b rest]; intros lo lo' hi Hle; cbn [ascending]; [lia|].
  intros [Hb Hrest]. split; [lia | exact Hrest].
Qed.

Lemma ascending_range (bs : list nat) :
  forall lo hi, ascending lo hi bs -> forall b, In b bs -> (lo <= b < hi)%nat.
Proof.
  induction bs as [|x rest IH]; intros lo hi; cbn [ascending]; [intros _ b []|].
  intros [Hx Hrest] b [-> | Hin].
  - apply ascending_le in Hrest. lia.
  - specialize (IH _ _ Hrest b Hin). lia.
Qed.

Lemma ascending_NoDup (bs : list nat) : forall lo hi, ascending lo hi bs -> NoDup bs.
Proof.
  induction bs as [|x rest IH]; intros lo hi; cbn [ascending]; [constructor|].
  intros [Hx Hrest]. constructor; [|eapply IH; exact Hrest].
  intros Hin. apply (ascending_range _ _ _ Hrest) in Hin. lia.
Qed.

(** The strings [_strdup] hands out, as blocks. *)
Lemma strdup_blocks (allocated : bool) (s : string) (h : Heap) :
  let r := _strdup allocated s h in
  blocks (snd r) = rev (block_of (fst r)) ++ blocks h /\
  ascending (next_block h) (next_block (snd r)) (block_of (fst r)) /\
  (is_set (fst r) = allocated).
Proof.
  unfold _strdup, malloc. destruct allocated; cbn; repeat split; lia.
Qed.

Lemma GetDeviceInfo_blocks (d : DeviceObs) (input : bool) (h : Heap)
    (ok : bool) (info : AudioDeviceInfo) (h' : Heap) :
  GetDeviceInfo d no_info input h = (ok, info, h') ->
  blocks h' = rev (owned info) ++ blocks h /\
  ascending (next_block h) (next_block h') (owned info) /\
  (all_or_nothing d = true -> SUCCEEDED (hr_Item d) = true -> ok = false ->
   owned info = []).
Proof.
  unfold GetDeviceInfo, all_or_nothing.
  replace (FAILED (hr_Item d)) with (negb (SUCCEEDED (hr_Item d)))
    by (rewrite FAILED_SUCCEEDED; now destruct (FAILED _)).
  pose proof (strdup_blocks (uid_allocated d) (WideToUtf8 (device_id d)) h) as Hu.
  destruct (SUCCEEDED (hr_GetId d)).
  - destruct (_strdup (uid_allocated d) _ h) as [u h1]. cbn [fst snd] in Hu.
    destruct Hu as (Hb1 & Ha1 & Hs1).
    pose proof (strdup_blocks (name_allocated d)
                  (WideToUtf8 (GetDeviceProperty (FriendlyName d))) h1) as Hn.
    destruct (SUCCEEDED (hr_OpenPropertyStore d)).
    + destruct (_strdup (name_allocated d) _ h1) as [n h2]. cbn [fst snd] in Hn.
      destruct Hn as (Hb2 & Ha2 & Hs2).
      pose proof (strdup_blocks (manufacturer_allocated d)
                    (WideToUtf8 (GetDeviceProperty (DeviceDesc d))) h2) as Hm.
      destruct (_strdup (manufacturer_allocated d) _ h2) as [m h3]. cbn [fst snd] in Hm.
      destruct Hm as (Hb3 & Ha3 & Hs3).
      intros H; inversion H; subst. clear H. unfold owned. cbn [uid name manufacturer].
      split; [rewrite Hb3, Hb2, Hb1, !rev_app_distr, <- !app_assoc; reflexivity|].
      split; [eapply ascending_app; [exact Ha1|]; eapply ascending_app; eassumption|].
      rewrite <- Hs1, <- Hs2, <- Hs3. intros Hall Hitem Hno. rewrite Hitem in Hall.
      destruct u, n, m; cbn in *; try discriminate; reflexivity.
    + intros H; inversion H; subst. clear H. unfold owned. cbn [uid name manufacturer].
      cbn [block_of app]. rewrite app_nil_r.
      split; [exact Hb1|]. split; [exact Ha1|].
      rewrite <- Hs1. intros Hall Hitem Hno. rewrite Hitem in Hall.
      destruct u; cbn in *; [discriminate|reflexivity].
  - pose proof (strdup_blocks (name_allocated d)
                  (WideToUtf8 (GetDeviceProperty (FriendlyName d))) h) as Hn.
    destruct (SUCCEEDED (hr_OpenPropertyStore d)).
    + destruct (_strdup (name_allocated d) _ h) as [n h2]. cbn [fst snd] in Hn.
      destruct Hn as (Hb2 & Ha2 & Hs2).
      pose proof (strdup_blocks (manufacturer_allocated d)
                    (WideToUtf8 (GetDeviceProperty (DeviceDesc d))) h2) as Hm.
      destruct (_strdup (manufacturer_allocated d) _ h2) as [m h3]. cbn [fst snd] in Hm.
      destruct Hm as (Hb3 & Ha3 & Hs3).
      intros H; inversion H; subst. clear H. unfold owned. cbn [uid name manufacturer no_info].
      cbn [block_of app].
      split; [rewrite Hb3, Hb2, !rev_app_distr, <- !app_assoc; reflexivity|].
      split; [eapply ascending_app; eassumption|].
      rewrite <- Hs2, <- Hs3. intros Hall Hitem Hno. rewrite Hitem in Hall.
      destruct n, m; cbn in *; try discriminate; reflexivity.
    + intros H; inversion H; subst. clear H. unfold owned. cbn.
      repeat split; lia.
Qed.

Lemma owned_set_isDefault (v : bool) (info : AudioDeviceInfo) :
  owned (set_isDefault v info) = owned info.
Proof. reflexivity. Qed.

Lemma list_endpoints_blocks (default : PlatformString) (input : bool)
    (ds : list DeviceObs) :
  forall h l h',
    forallb all_or_nothing ds = true ->
    list_endpoints default input ds h = (l, h') ->
    blocks h' = rev (flat_map owned l) ++ blocks h /\
    ascending (next_block h) (next_block h') (flat_map owned l).
Proof.
  induction ds as [|d rest IH]; intros h l h' Hall; cbn [list_endpoints].
  - intros H; inversion H; subst. cbn. split; [reflexivity | lia].
  - cbn [forallb] in Hall. apply andb_prop in Hall. destruct Hall as [Hd Hrest].
    destruct (SUCCEEDED (hr_Item d)) eqn:Hitem; [|apply IH; exact Hrest].
    destruct (GetDeviceInfo d no_info input h) as [[ok info] h1] eqn:Hinfo.
    apply GetDeviceInfo_blocks in Hinfo. destruct Hinfo as (Hb & Ha & Hnone).
    destruct ok.
    + destruct (list_endpoints default input rest h1) as [more h2] eqn:Hmore.
      intros H; inversion H; subst. clear H.
      apply IH in Hmore; [|exact Hrest]. destruct Hmore as (Hb2 & Ha2).
      cbn [flat_map].
      assert (Ho : owned (if SUCCEEDED (hr_GetIdAgain d)
                          then set_isDefault
                                 (wstring_eqb (wide default) (device_id_again d)) info
                          else info) = owned info)
        by (destruct (SUCCEEDED (hr_GetIdAgain d)); reflexivity).
      rewrite Ho. split.
      * rewrite Hb2, Hb, rev_app_distr, <- app_assoc. reflexivity.
      * eapply ascending_app; eassumption.
    + intros H. apply IH in H; [|exact Hrest]. destruct H as (Hb2 & Ha2).
      rewrite (Hnone Hd Hitem eq_refl) in Hb, Ha. cbn in Hb, Ha.
      split; [congruence|]. eapply ascending_weaken; [exact Ha | exact Ha2].
Qed.

Lemma ListAllDevices_blocks (e : EnumObs) (h : Heap) (l : list AudioDeviceInfo)
    (h' : Heap) :
  forallb all_or_nothing (endpoints (capture e)) = true ->
  forallb all_or_nothing (endpoints (render e)) = true ->
  ListAllDevices e h = (l, h') ->
  blocks h' = rev (flat_map owned l) ++ blocks h /\
  ascending (next_block h) (next_block h') (flat_map owned l).
Proof.
  intros Hc Hr. unfold ListAllDevices, list_flow.
  assert (Hnil : forall h0 : Heap,
             blocks h0 = rev (flat_map owned []) ++ blocks h0 /\
             ascending (next_block h0) (next_block h0) (flat_map owned []))
    by (intros h0; cbn; split; [reflexivity | lia]).
  destruct (FAILED (hr_ListEnumerator e)); [intros H; inversion H; subst; apply Hnil|].
  assert (H1 : forall f input h0 l0 h0',
             forallb all_or_nothing (endpoints f) = true ->
             (if SUCCEEDED (hr_EnumAudioEndpoints f)
              then list_endpoints (GetDefaultDeviceId (default_device f)) input
                     (endpoints f) h0
              else ([], h0)) = (l0, h0') ->
             blocks h0' = rev (flat_map owned l0) ++ blocks h0 /\
             ascending (next_block h0) (next_block h0') (flat_map owned l0)).
  { intros f input h0 l0 h0' Hf. destruct (SUCCEEDED (hr_EnumAudioEndpoints f)).
    - apply list_endpoints_blocks. exact Hf.
    - intros H; inversion H; subst. apply Hnil. }
  destruct (if SUCCEEDED (hr_EnumAudioEndpoints (capture e)) then _ else _)
    as [inputs h1] eqn:Hin.
  destruct (if SUCCEEDED (hr_EnumAudioEndpoints (render e)) then _ else _)
    as [outputs h2] eqn:Hout.
  apply H1 in Hin; [|exact Hc]. apply H1 in Hout; [|exact Hr].
  intros H; inversion H; subst. clear H.
  destruct Hin as [Hb1 Ha1], Hout as [Hb2 Ha2].
  rewrite flat_map_app. split.
  - rewrite Hb2, Hb1, rev_app_distr, <- app_assoc. reflexivity.
  - eapply ascending_app; eassumption.
Qed.

Lemma free_spec (b : nat) (h : Heap) :
  In b (blocks h) ->
  free b h = Ok {| next_block := next_block h; blocks := filter (without [b]) (blocks h) |}.
Proof.
  intros Hin. unfold free.
  assert (He : existsb (Nat.eqb b) (blocks h) = true).
  { apply existsb_exists. exists b. split; [exact Hin | apply Nat.eqb_refl]. }
  rewrite He. do 2 f_equal. apply filter_ext. intros x. unfold without. cbn.
  rewrite orb_false_r, Nat.eqb_sym. reflexivity.
Qed.

Lemma without_app (a b : list nat) (x : nat) :
  without (a ++ b) x = without a x && without b x.
Proof. unfold without. rewrite existsb_app. now destruct (existsb _ a), (existsb _ b). Qed.

Lemma without_In (bs : list nat) (x : nat) : without bs x = false <-> In x bs.
Proof.
  unfold without. rewrite negb_false_iff, existsb_exists. split.
  - intros (y & Hy & He). apply Nat.eqb_eq in He. now subst.
  - intros H. exists x. split; [exact H | apply Nat.eqb_refl].
Qed.

Lemma free_cstring_spec (s : cstring) (h : Heap) :
  incl (block_of s) (blocks h) ->
  free_cstring s h
  = Ok {| next_block := next_block h; blocks := filter (without (block_of s)) (blocks h) |}.
Proof.
  intros Hin. destruct s as [[b str]|]; cbn [free_cstring block_of].
  - apply free_spec. apply Hin. now left.
  - destruct h as [n bs]. cbn. f_equal. f_equal. symmetry. apply filter_all. reflexivity.
Qed.

Lemma In_filter_without (bs : list nat) (l : list nat) (x : nat) :
  In x l -> ~ In x bs -> In x (filter (without bs) l).
Proof.
  intros Hl Hbs. apply filter_In. split; [exact Hl|].
  destruct (without bs x) eqn:E; [reflexivity|]. apply without_In in E. contradiction.
Qed.

Lemma NoDup_app_disjoint {X : Type} (a b : list X) :
  NoDup (a ++ b) -> NoDup b /\ forall x, In x a -> In x b -> False.
Proof.
  induction a as [|y a IH]; cbn [app]; intros H; [split; [exact H | intros x []]|].
  inversion H as [|? ? Hy Hrest]; subst. destruct (IH Hrest) as [Hb Hdis].
  split; [exact Hb|]. intros x [-> | Hx] Hxb.
  - apply Hy. rewrite in_app_iff. tauto.
  - exact (Hdis x Hx Hxb).
Qed.

Lemma free_entries_spec (l : list AudioDeviceInfo) :
  forall h,
    NoDup (flat_map owned l) ->
    incl (flat_map owned l) (blocks h) ->
    free_entries l h
    = Ok {| next_block := next_block h;
            blocks := filter (without (flat_map owned l)) (blocks h) |}.
Proof.
  induction l as [|info rest IH]; intros h Hnd Hincl; cbn [free_entries flat_map].
  - destruct h as [n bs]. cbn. do 2 f_equal. symmetry. apply filter_all. reflexivity.
  - cbn [flat_map] in Hnd, Hincl. unfold owned at 1 in Hnd. unfold owned at 1 in Hincl.
    unfold owned at 1.
    set (bu := block_of (uid info)) in *. set (bn := block_of (name info)) in *.
    set (bm := block_of (manufacturer info)) in *.
    set (br := flat_map owned rest) in *.
    assert (Hall : forall x, In x ((bu ++ bn ++ bm) ++ br) -> In x (blocks h))
      by (intros x Hx; apply Hincl; exact Hx).
    rewrite <- !app_assoc in Hnd.
    destruct (NoDup_app_disjoint _ _ Hnd) as [Hnd1 D1].
    destruct (NoDup_app_disjoint _ _ Hnd1) as [Hnd2 D2].
    destruct (NoDup_app_disjoint _ _ Hnd2) as [Hnd3 D3].
    rewrite free_cstring_spec by (intros x Hx; apply Hall; rewrite !in_app_iff; tauto).
    cbn [bind].
    rewrite free_cstring_spec.
    2:{ cbn [blocks]. intros x Hx. fold bn in Hx. apply In_filter_without.
        - apply Hall. rewrite !in_app_iff. tauto.
        - fold bu. intros Hu. apply (D1 x Hu). rewrite !in_app_iff. tauto. }
    cbn [bind blocks next_block].
    rewrite free_cstring_spec.
    2:{ cbn [blocks]. intros x Hx. fold bm in Hx.
        apply In_filter_without; [apply In_filter_without|].
        - apply Hall. rewrite !in_app_iff. tauto.
        - fold bu. intros Hu. apply (D1 x Hu). rewrite !in_app_iff. tauto.
        - fold bn. intros Hn. apply (D2 x Hn). rewrite !in_app_iff. tauto. }
    cbn [bind blocks next_block].
    rewrite IH.
    + cbn [blocks next_block]. do 2 f_equal. rewrite !filter_and.
      apply filter_ext. intros x. fold bu bn bm br. rewrite !without_app.
      now rewrite !andb_assoc.
    + exact Hnd3.
    + fold br. cbn [blocks]. intros x Hx.
      apply In_filter_without; [apply In_filter_without; [apply In_filter_without|]|].
      * apply Hall. rewrite !in_app_iff. tauto.
      * fold bu. intros Hu. apply (D1 x Hu). rewrite !in_app_iff. tauto.
      * fold bn. intros Hn. apply (D2 x Hn). rewrite !in_app_iff. tauto.
      * fold bm. intros Hm. exact (D3 x Hm Hx).
Qed.

(** X19. Listing and freeing.  When every endpoint the platform shows
    either gets both an identifier and a name or gets no string at all,
    [audio_list_devices] followed by [audio_free_device_list] on the array
    and the count it returned is defined (nothing is freed twice, nothing
    is read past the end of the array) and leaves the heap with exactly the
    blocks it had: every string and the array are freed. *)
Theorem list_then_free_gives_back (hr : HRESULT) (t : ComThread) (e : EnumObs) (h : Heap)
    (Hwf : heap_wf h)
    (Hcapture : forallb all_or_nothing (endpoints (capture e)) = true)
    (Hrender : forallb all_or_nothing (endpoints (render e)) = true)
    (Hcount : forall l h', ListAllDevices e h = (l, h') ->
                           Z.of_nat (List.length l) < 2 ^ 31) :
  exists t' arr n h' h'',
    audio_list_devices true true hr t e h = (t', 0, Some (arr, n), h') /\
    audio_free_device_list arr n h' = Ok h'' /\
    blocks h'' = blocks h.
Proof.
  unfold audio_list_devices. cbn [negb orb].
  destruct (ListAllDevices e h) as [l h1] eqn:Hl.
  specialize (Hcount l h1 eq_refl).
  apply ListAllDevices_blocks in Hl; [|assumption..]. destruct Hl as [Hb Ha].
  destruct l as [|x l'].
  - eexists _, _, _, _, _. split; [reflexivity|]. split; [reflexivity|].
    cbn in Hb. exact Hb.
  - set (l := x :: l') in *.
    unfold malloc.
    eexists _, _, _, _, _. split; [reflexivity|].
    unfold audio_free_device_list.
    rewrite to_int32_small by lia. rewrite nat_N_Z, Z.ltb_irrefl, Nat2Z.id, firstn_all.
    set (O := flat_map owned l) in *.
    pose proof (ascending_NoDup _ _ _ Ha) as Hnd.
    pose proof (ascending_range _ _ _ Ha) as Hrange.
    rewrite free_entries_spec.
    2:{ exact Hnd. }
    2:{ cbn [blocks]. intros b Hin. right. rewrite Hb, in_app_iff, <- in_rev. now left. }
    cbn [bind blocks next_block].
    assert (Hfiltered : filter (without O) (next_block h1 :: blocks h1)
                        = next_block h1 :: blocks h).
    { cbn [filter].
      assert (Hnb : without O (next_block h1) = true).
      { destruct (without O (next_block h1)) eqn:E; [reflexivity|].
        apply without_In in E. apply Hrange in E. lia. }
      rewrite Hnb. f_equal. rewrite Hb, filter_app.
      rewrite (filter_none (without O) (rev O)).
      - cbn [app]. apply filter_all. intros b Hin.
        destruct (without O b) eqn:E; [reflexivity|].
        apply without_In in E. apply Hrange in E.
        unfold heap_wf in Hwf. rewrite Forall_forall in Hwf. specialize (Hwf b Hin). lia.
      - intros b Hin. apply without_In. now apply in_rev. }
    unfold O in Hfiltered. rewrite Hfiltered.
    rewrite free_spec by (cbn; now left).
    split; [reflexivity|]. cbn [blocks filter].
    assert (Hself : without [next_block h1] (next_block h1) = false)
      by (apply without_In; now left).
    rewrite Hself. apply filter_all. intros b Hin.
    destruct (without [next_block h1] b) eqn:E; [reflexivity|].
    apply without_In in E. destruct E as [E | []]. subst b.
    unfold heap_wf in Hwf. rewrite Forall_forall in Hwf. specialize (Hwf _ Hin).
    apply ascending_le in Ha. lia.
Qed.

(** ** The default flag *)

Lemma wstring_eqb_eq (a b : wstring) : wstring_eqb a b = true -> a = b.
Proof.
  revert b. induction a as [|x a IH]; intros [|y b]; cbn; try discriminate; [reflexivity|].
  intros H. apply andb_prop in H. destruct H as [Hx Hab].
  apply N.eqb_eq in Hx. subst. f_equal. now apply IH.
Qed.

Lemma list_endpoints_defaults (default : PlatformString) (input : bool)
    (ds : list DeviceObs) :
  forall h l h',
    list_endpoints default input ds h = (l, h') ->
    (List.length (filter isDefault l)
     <= List.length (filter (fun d => wstring_eqb (wide default) (device_id_again d)) ds))%nat.
Proof.
  induction ds as [|d rest IH]; intros h l h'; cbn [list_endpoints].
  - intros H; inversion H; subst. reflexivity.
  - cbn [filter].
    assert (Hskip : forall h0,
               list_endpoints default input rest h0 = (l, h') ->
               (List.length (filter isDefault l)
                <= List.length
                     (if wstring_eqb (wide default) (device_id_again d)
                      then d :: filter (fun d => wstring_eqb (wide default)
                                                   (device_id_again d)) rest
                      else filter (fun d => wstring_eqb (wide default)
                                              (device_id_again d)) rest))%nat).
    { intros h0 H. apply IH in H. destruct (wstring_eqb _ _); cbn [List.length]; lia. }
    destruct (SUCCEEDED (hr_Item d)); [|apply Hskip].
    destruct (GetDeviceInfo d no_info input h) as [[ok info] h1] eqn:Hinfo.
    destruct ok; [|apply Hskip].
    destruct (list_endpoints default input rest h1) as [more h2] eqn:Hmore.
    intros H; inversion H; subst. clear H. apply IH in Hmore.
    assert (Hinfo' : isDefault info = false).
    { unfold GetDeviceInfo in Hinfo.
      destruct (if SUCCEEDED (hr_GetId d) then _ else _) as [u h3].
      destruct (if SUCCEEDED (hr_OpenPropertyStore d) then _ else _) as [[n m] h4].
      inversion Hinfo. reflexivity. }
    cbn [filter].
    destruct (SUCCEEDED (hr_GetIdAgain d)).
    + cbn [isDefault set_isDefault].
      destruct (wstring_eqb (wide default) (device_id_again d)); cbn [List.length]; lia.
    + rewrite Hinfo'. destruct (wstring_eqb _ _); cbn [List.length]; lia.
Qed.

Lemma filter_value_NoDup {X Y : Type} (f : X -> Y) (p : X -> bool) (v : Y) (l : list X) :
  (forall x, p x = true -> f x = v) ->
  NoDup (map f l) ->
  (List.length (filter p l) <= 1)%nat.
Proof.
  intros Hp. induction l as [|x l IH]; intros Hnd; [cbn; lia|].
  cbn [map] in Hnd. inversion Hnd as [|? ? Hx Hrest]; subst. cbn [filter].
  destruct (p x) eqn:E; [|auto].
  cbn [List.length].
  assert (Hnone : filter p l = []).
  { apply filter_none. intros y Hy. destruct (p y) eqn:Ey; [|reflexivity].
    exfalso. apply Hx. rewrite (Hp x E), <- (Hp y Ey). now apply in_map. }
  rewrite Hnone. cbn. lia.
Qed.

(** X20. The default flag.  When the endpoints of the capture collection
    have pairwise different identifiers, at most one input in the list is
    flagged as default, and likewise for the outputs and the render
    collection.  An entry is flagged only if its identifier is the one of
    the default endpoint of its kind: when that lookup fails (the
    identifier is empty) no endpoint with an identifier is flagged. *)
Theorem at_most_one_default (e : EnumObs) (h : Heap) :
  (NoDup (map device_id_again (endpoints (capture e))) ->
   (List.length (defaults true (fst (ListAllDevices e h))) <= 1)%nat) /\
  (NoDup (map device_id_again (endpoints (render e))) ->
   (List.length (defaults false (fst (ListAllDevices e h))) <= 1)%nat) /\
  (wide (GetDefaultDeviceId (default_device (capture e))) = [] ->
   Forall (fun d => device_id_again d <> []) (endpoints (capture e)) ->
   defaults true (fst (ListAllDevices e h)) = []).
Proof.
  assert (Hflow : forall f input h0 l h0',
             list_flow f input h0 = (l, h0') ->
             Forall (fun i => isInput i = input) l /\
             (List.length (filter isDefault l)
              <= List.length
                   (filter (fun d => wstring_eqb
                                       (wide (GetDefaultDeviceId (default_device f)))
                                       (device_id_again d)) (endpoints f)))%nat).
  { intros f input h0 l h0' H. split.
    - apply list_flow_entries in H. destruct H as [H _].
      eapply Forall_impl; [|exact H]. cbn. tauto.
    - unfold list_flow in H. destruct (SUCCEEDED (hr_EnumAudioEndpoints f)).
      + eapply list_endpoints_defaults. exact H.
      + inversion H; subst. cbn. lia. }
  assert (Hsplit : forall input (inputs outputs : list AudioDeviceInfo),
             Forall (fun i => isInput i = true) inputs ->
             Forall (fun i => isInput i = false) outputs ->
             defaults input (inputs ++ outputs)
             = filter isDefault (if input then inputs else outputs)).
  { intros input inputs outputs Hi Ho. unfold defaults. rewrite filter_app.
    assert (Hsame : forall (b : bool) l,
               Forall (fun i => isInput i = b) l ->
               filter (fun i => isDefault i && Bool.eqb (isInput i) b) l
               = filter isDefault l).
    { intros b l Hl. apply filter_ext_in. intros i Hin.
      rewrite Forall_forall in Hl. rewrite (Hl i Hin), Bool.eqb_reflx.
      apply andb_true_r. }
    assert (Hother : forall (b : bool) l,
               Forall (fun i => isInput i = negb b) l ->
               filter (fun i => isDefault i && Bool.eqb (isInput i) b) l = []).
    { intros b l Hl. apply filter_none. intros i Hin.
      rewrite Forall_forall in Hl. rewrite (Hl i Hin).
      destruct b; cbn; apply andb_false_r. }
    destruct input.
    - rewrite (Hsame true inputs Hi), (Hother true outputs Ho). apply app_nil_r.
    - rewrite (Hother false inputs Hi), (Hsame false outputs Ho). reflexivity. }
  unfold ListAllDevices. destruct (FAILED (hr_ListEnumerator e)).
  { cbn. repeat split; intros; try lia; reflexivity. }
  destruct (list_flow (capture e) true h) as [inputs h1] eqn:H1.
  destruct (list_flow (render e) false h1) as [outputs h2] eqn:H2.
  apply Hflow in H1, H2. destruct H1 as [Hi Hci], H2 as [Ho Hco]. cbn [fst].
  split; [|split].
  - intros Hnd. rewrite (Hsplit true _ _ Hi Ho).
    etransitivity; [exact Hci|].
    apply filter_value_NoDup
      with (f := device_id_again)
           (v := wide (GetDefaultDeviceId (default_device (capture e)))); [|exact Hnd].
    intros d Hd. symmetry. now apply wstring_eqb_eq.
  - intros Hnd. rewrite (Hsplit false _ _ Hi Ho).
    etransitivity; [exact Hco|].
    apply filter_value_NoDup
      with (f := device_id_again)
           (v := wide (GetDefaultDeviceId (default_device (render e)))); [|exact Hnd].
    intros d Hd. symmetry. now apply wstring_eqb_eq.
  - intros Hempty Hids. rewrite (Hsplit true _ _ Hi Ho).
    rewrite (filter_none _ (endpoints (capture e))) in Hci.
    + destruct (filter isDefault inputs); [reflexivity|].
      cbn [List.length] in Hci. lia.
    + intros d Hd. rewrite Hempty. rewrite Forall_forall in Hids.
      specialize (Hids d Hd). destruct (device_id_again d); [contradiction | reflexivity].
Qed.


(** ** Strings of an endpoint that is left out *)

Lemma GetDeviceInfo_leak (d : DeviceObs) (input : bool) (h : Heap)
    (ok : bool) (info : AudioDeviceInfo) (h' : Heap) :
  GetDeviceInfo d no_info input h = (ok, info, h') ->
  all_or_nothing d = false ->
  ok = false /\ owned info <> [].
Proof.
  unfold GetDeviceInfo, all_or_nothing.
  pose proof (strdup_blocks (uid_allocated d) (WideToUtf8 (device_id d)) h) as Hu.
  destruct (SUCCEEDED (hr_GetId d)).
  - destruct (_strdup (uid_allocated d) _ h) as [u h1]. cbn [fst snd] in Hu.
    destruct Hu as (_ & _ & Hs1).
    pose proof (strdup_blocks (name_allocated d)
                  (WideToUtf8 (GetDeviceProperty (FriendlyName d))) h1) as Hn.
    destruct (SUCCEEDED (hr_OpenPropertyStore d)).
    + destruct (_strdup (name_allocated d) _ h1) as [n h2]. cbn [fst snd] in Hn.
      destruct Hn as (_ & _ & Hs2).
      pose proof (strdup_blocks (manufacturer_allocated d)
                    (WideToUtf8 (GetDeviceProperty (DeviceDesc d))) h2) as Hm.
      destruct (_strdup (manufacturer_allocated d) _ h2) as [m h3]. cbn [fst snd] in Hm.
      destruct Hm as (_ & _ & Hs3).
      intros H; inversion H; subst. clear H. unfold owned. cbn [uid name manufacturer].
      rewrite <- Hs1, <- Hs2, <- Hs3. intros Hall.
      destruct (FAILED (hr_Item d)); [discriminate|].
      destruct u as [[]|], n as [[]|], m as [[]|]; cbn in *;
        try discriminate; split; congruence.
    + intros H; inversion H; subst. clear H. unfold owned. cbn [uid name manufacturer].
      rewrite <- Hs1. intros Hall.
      destruct (FAILED (hr_Item d)); [discriminate|].
      destruct u as [[]|]; cbn in *; try discriminate; split; congruence.
  - pose proof (strdup_blocks (name_allocated d)
                  (WideToUtf8 (GetDeviceProperty (FriendlyName d))) h) as Hn.
    destruct (SUCCEEDED (hr_OpenPropertyStore d)).
    + destruct (_strdup (name_allocated d) _ h) as [n h2]. cbn [fst snd] in Hn.
      destruct Hn as (_ & _ & Hs2).
      pose proof (strdup_blocks (manufacturer_allocated d)
                    (WideToUtf8 (GetDeviceProperty (DeviceDesc d))) h2) as Hm.
      destruct (_strdup (manufacturer_allocated d) _ h2) as [m h3]. cbn [fst snd] in Hm.
      destruct Hm as (_ & _ & Hs3).
      intros H; inversion H; subst. clear H. unfold owned.
      cbn [uid name manufacturer no_info].
      rewrite <- Hs2, <- Hs3. intros Hall.
      destruct (FAILED (hr_Item d)); [discriminate|].
      destruct n as [[]|], m as [[]|]; cbn in *; try discriminate; split; congruence.
    + intros H; inversion H; subst. clear H. intros Hall.
      destruct (FAILED (hr_Item d)); cbn in Hall; discriminate.
Qed.

Lemma allocation_nil (h : Heap) : allocation h h [] [].
Proof. unfold allocation. cbn. repeat split; try lia. intros x []. Qed.

Lemma allocation_app (h1 h2 h3 : Heap) (l1 l2 : list AudioDeviceInfo) (a1 a2 : list nat) :
  allocation h1 h2 l1 a1 -> allocation h2 h3 l2 a2 ->
  allocation h1 h3 (l1 ++ l2) (a1 ++ a2).
Proof.
  intros (Hb1 & Ha1 & Ho1 & Hi1) (Hb2 & Ha2 & Ho2 & Hi2). unfold allocation.
  rewrite flat_map_app. repeat split.
  - rewrite Hb2, Hb1, rev_app_distr, <- app_assoc. reflexivity.
  - eapply ascending_app; eassumption.
  - eapply ascending_app; eassumption.
  - intros x Hx. rewrite in_app_iff in *. destruct Hx; [left; auto | right; auto].
Qed.

Lemma lost_app_l (h1 h2 h3 : Heap) (l1 l2 : list AudioDeviceInfo) (a1 a2 : list nat) :
  allocation h1 h2 l1 a1 -> allocation h2 h3 l2 a2 ->
  lost l1 a1 -> lost (l1 ++ l2) (a1 ++ a2).
Proof.
  intros (_ & Ha1 & _ & _) (_ & _ & Ho2 & _) (b & Hb & Hnot).
  exists b. rewrite flat_map_app, !in_app_iff. split; [now left|].
  intros [Hin | Hin]; [exact (Hnot Hin)|].
  apply (ascending_range _ _ _ Ha1) in Hb. apply (ascending_range _ _ _ Ho2) in Hin. lia.
Qed.

Lemma lost_app_r (h1 h2 h3 : Heap) (l1 l2 : list AudioDeviceInfo) (a1 a2 : list nat) :
  allocation h1 h2 l1 a1 -> allocation h2 h3 l2 a2 ->
  lost l2 a2 -> lost (l1 ++ l2) (a1 ++ a2).
Proof.
  intros (_ & _ & Ho1 & _) (_ & Ha2 & _ & _) (b & Hb & Hnot).
  exists b. rewrite flat_map_app, !in_app_iff. split; [now right|].
  intros [Hin | Hin]; [|exact (Hnot Hin)].
  apply (ascending_range _ _ _ Ha2) in Hb. apply (ascending_range _ _ _ Ho1) in Hin. lia.
Qed.

Lemma list_endpoints_allocation (default : PlatformString) (input : bool)
    (ds : list DeviceObs) :
  forall h l h',
    list_endpoints default input ds h = (l, h') ->
    exists alloc,
      allocation h h' l alloc /\
      (forall d, In d ds -> all_or_nothing d = false -> lost l alloc).
Proof.
  induction ds as [|d rest IH]; intros h l h'; cbn [list_endpoints].
  - intros H; inversion H; subst. exists []. split; [apply allocation_nil | intros d []].
  - destruct (SUCCEEDED (hr_Item d)) eqn:Hitem.
    2:{ intros H. apply IH in H. destruct H as (alloc & Hal & Hlost).
        exists alloc. split; [exact Hal|]. intros d' [<- | Hin] Hleak.
        - unfold all_or_nothing in Hleak. rewrite FAILED_SUCCEEDED in Hitem.
          apply negb_false_iff in Hitem. rewrite Hitem in Hleak. discriminate.
        - exact (Hlost d' Hin Hleak). }
    destruct (GetDeviceInfo d no_info input h) as [[ok info] h1] eqn:Hinfo.
    pose proof (GetDeviceInfo_leak _ _ _ Hinfo) as Hleak1.
    apply GetDeviceInfo_blocks in Hinfo. destruct Hinfo as (Hb & Ha & _).
    destruct ok.
    + destruct (list_endpoints default input rest h1) as [more h2] eqn:Hmore.
      intros H; inversion H; subst. clear H.
      apply IH in Hmore. destruct Hmore as (alloc & Hal & Hlost).
      set (info' := if SUCCEEDED (hr_GetIdAgain d) then _ else info).
      assert (Ho : owned info' = owned info)
        by (unfold info'; destruct (SUCCEEDED (hr_GetIdAgain d)); reflexivity).
      assert (Hone : allocation h h1 [info'] (owned info)).
      { unfold allocation. cbn [flat_map]. rewrite app_nil_r, Ho.
        repeat split; try assumption. intros x Hx. exact Hx. }
      exists (owned info ++ alloc). split.
      * exact (allocation_app Hone Hal).
      * intros d' [<- | Hin] Hleak.
        -- destruct (Hleak1 Hleak) as [Hok _]. discriminate.
        -- exact (lost_app_r Hone Hal (Hlost d' Hin Hleak)).
    + intros H. apply IH in H. destruct H as (alloc & Hal & Hlost).
      assert (Hone : allocation h h1 [] (owned info)).
      { unfold allocation. cbn [flat_map]. repeat split; try assumption.
        - cbn [ascending]. eapply ascending_le. exact Ha.
        - intros x []. }
      exists (owned info ++ alloc). split.
      * exact (allocation_app Hone Hal).
      * intros d' [<- | Hin] Hleak.
        -- destruct (Hleak1 Hleak) as [_ Hne].
           apply (lost_app_l Hone Hal). destruct (owned info) as [|b bs] eqn:E;
             [congruence|]. exists b. split; [now left | intros []].
        -- exact (lost_app_r Hone Hal (Hlost d' Hin Hleak)).
Qed.

Lemma ListAllDevices_allocation (e : EnumObs) (h : Heap) (l : list AudioDeviceInfo)
    (h' : Heap) :
  ListAllDevices e h = (l, h') ->
  exists alloc,
    allocation h h' l alloc /\
    (forall d, In d (visited e) -> all_or_nothing d = false -> lost l alloc).
Proof.
  unfold ListAllDevices, visited, list_flow.
  destruct (FAILED (hr_ListEnumerator e)).
  { intros H; inversion H; subst. exists []. split; [apply allocation_nil | intros d []]. }
  assert (H1 : forall f input h0 l0 h0',
             (if SUCCEEDED (hr_EnumAudioEndpoints f)
              then list_endpoints (GetDefaultDeviceId (default_device f)) input
                     (endpoints f) h0
              else ([], h0)) = (l0, h0') ->
             exists alloc,
               allocation h0 h0' l0 alloc /\
               (forall d,
                   In d (if SUCCEEDED (hr_EnumAudioEndpoints f) then endpoints f else []) ->
                   all_or_nothing d = false -> lost l0 alloc)).
  { intros f input h0 l0 h0'. destruct (SUCCEEDED (hr_EnumAudioEndpoints f)).
    - apply list_endpoints_allocation.
    - intros H; inversion H; subst. exists [].
      split; [apply allocation_nil | intros d []]. }
  destruct (if SUCCEEDED (hr_EnumAudioEndpoints (capture e)) then _ else _)
    as [inputs h1] eqn:Hin.
  destruct (if SUCCEEDED (hr_EnumAudioEndpoints (render e)) then _ else _)
    as [outputs h2] eqn:Hout.
  apply H1 in Hin, Hout.
  destruct Hin as (a1 & Hal1 & Hl1), Hout as (a2 & Hal2 & Hl2).
  intros H; inversion H; subst. clear H.
  exists (a1 ++ a2). split; [exact (allocation_app Hal1 Hal2)|].
  intros d Hd Hleak. rewrite in_app_iff in Hd. destruct Hd as [Hd | Hd].
  - exact (lost_app_l Hal1 Hal2 (Hl1 d Hd Hleak)).
  - exact (lost_app_r Hal1 Hal2 (Hl2 d Hd Hleak)).
Qed.

(** X21. Strings that are never freed.  When [ListAllDevices] visits an
    endpoint for which [GetDeviceInfo] duplicates a string but not both
    the identifier and the name (the property store cannot be opened, say,
    or [_strdup] fails for one of them), the endpoint is left out of the
    list and its strings stay allocated: after [audio_list_devices] and
    [audio_free_device_list] the heap holds every block it had and at
    least one more. *)
Theorem strings_of_a_dropped_endpoint_are_never_freed (hr : HRESULT) (t : ComThread)
    (e : EnumObs) (h : Heap) (d : DeviceObs)
    (Hwf : heap_wf h)
    (Hvisited : In d (visited e))
    (Hdropped : all_or_nothing d = false)
    (Hcount : forall l h', ListAllDevices e h = (l, h') ->
                           Z.of_nat (List.length l) < 2 ^ 31) :
  exists t' arr n h' h'',
    audio_list_devices true true hr t e h = (t', 0, Some (arr, n), h') /\
    audio_free_device_list arr n h' = Ok h'' /\
    incl (blocks h) (blocks h'') /\
    exists b, In b (blocks h'') /\ ~ In b (blocks h).
Proof.
  unfold audio_list_devices. cbn [negb orb].
  destruct (ListAllDevices e h) as [l h1] eqn:Hl.
  specialize (Hcount l h1 eq_refl).
  apply ListAllDevices_allocation in Hl.
  destruct Hl as (alloc & (Hb & Ha & Ho & Hincl) & Hlost).
  destruct (Hlost d Hvisited Hdropped) as (b & Hballoc & Hbnot).
  pose proof (ascending_range _ _ _ Ha b Hballoc) as Hbrange.
  assert (Hfresh : ~ In b (blocks h)).
  { intros Hin. unfold heap_wf in Hwf. rewrite Forall_forall in Hwf.
    specialize (Hwf b Hin). lia. }
  destruct l as [|x l'].
  - eexists _, _, _, _, _. split; [reflexivity|]. split; [reflexivity|].
    rewrite Hb. split.
    + intros y Hy. rewrite in_app_iff. now right.
    + exists b. split; [|exact Hfresh]. rewrite in_app_iff, <- in_rev. now left.
  - set (l := x :: l') in *.
    unfold malloc.
    eexists _, _, _, _, _. split; [reflexivity|].
    unfold audio_free_device_list.
    rewrite to_int32_small by lia. rewrite nat_N_Z, Z.ltb_irrefl, Nat2Z.id, firstn_all.
    pose proof (ascending_NoDup _ _ _ Ho) as Hnd.
    pose proof (ascending_range _ _ _ Ho) as Hrange.
    rewrite free_entries_spec.
    2:{ exact Hnd. }
    2:{ cbn [blocks]. intros y Hin. right. rewrite Hb, in_app_iff, <- in_rev.
        left. now apply Hincl. }
    cbn [bind blocks next_block].
    assert (Hkept : forall y, In y (blocks h) \/ y = b ->
                              In y (filter (without (flat_map owned l))
                                      (next_block h1 :: blocks h1))).
    { intros y Hy. apply In_filter_without.
      - right. rewrite Hb, in_app_iff, <- in_rev. destruct Hy as [Hy | ->]; tauto.
      - intros Hin. destruct Hy as [Hy | ->]; [|exact (Hbnot Hin)].
        apply Hrange in Hin. unfold heap_wf in Hwf. rewrite Forall_forall in Hwf.
        specialize (Hwf y Hy). lia. }
    assert (Harr : without (flat_map owned l) (next_block h1) = true).
    { destruct (without _ (next_block h1)) eqn:E; [reflexivity|].
      apply without_In in E. apply Hrange in E. lia. }
    rewrite free_spec by (cbn [blocks filter]; rewrite Harr; now left).
    split; [reflexivity|]. cbn [blocks].
    assert (Hkept' : forall y, In y (blocks h) \/ y = b ->
                               In y (filter (without [next_block h1])
                                       (filter (without (flat_map owned l))
                                          (next_block h1 :: blocks h1)))).
    { intros y Hy. apply In_filter_without; [exact (Hkept y Hy)|].
      intros [E | []]. destruct Hy as [Hy | ->]; [|lia].
      unfold heap_wf in Hwf. rewrite Forall_forall in Hwf. specialize (Hwf y Hy).
      apply ascending_le in Ha. lia. }
    split.
    + intros y Hy. apply Hkept'. now left.
    + exists b. split; [apply Hkept'; now right | exact Hfresh].
Qed.

End DeviceList.

Lemma audio_list_devices_contract_witness :
  exists arr n h',
    Devices.audio_list_devices true true S_OK new_thread DeviceSamples.three_devices
      DeviceSamples.used_heap
    = (EnsureComInitialized S_OK new_thread, 0, Some (arr, n), h') /\
    n = 3 /\
    Forall Devices.well_formed_entry (Devices.entries_of arr).
Proof.
  destruct (proj2 (audio_list_devices_contract S_OK new_thread
                     DeviceSamples.three_devices DeviceSamples.used_heap))
    as (arr & n & h' & Hcall & _ & Hn & Hwf & _).
  exists arr, n, h'. split; [exact Hcall|]. split; [|exact Hwf].
  vm_compute in Hcall. inversion Hcall. reflexivity.
Defined.

Lemma list_then_free_gives_back_witness :
  exists t' arr n h' h'',
    Devices.audio_list_devices true true S_OK new_thread DeviceSamples.three_devices
      DeviceSamples.used_heap = (t', 0, Some (arr, n), h') /\
    Devices.audio_free_device_list arr n h' = Ok h'' /\
    Devices.blocks h'' = [2; 0]%nat.
Proof.
  apply (@list_then_free_gives_back S_OK new_thread DeviceSamples.three_devices
           DeviceSamples.used_heap).
  - repeat constructor.
  - reflexivity.
  - reflexivity.
  - intros l h' H. vm_compute in H. inversion H. vm_compute. reflexivity.
Defined.

Lemma at_most_one_default_witness :
  (List.length (Devices.defaults true
                  (fst (Devices.ListAllDevices DeviceSamples.three_devices
                          DeviceSamples.empty_heap))) <= 1)%nat.
Proof.
  apply (proj1 (at_most_one_default DeviceSamples.three_devices DeviceSamples.empty_heap)).
  cbn. constructor; [intros [H | []]; discriminate H|].
  constructor; [intros [] | constructor].
Defined.

Lemma strings_of_a_dropped_endpoint_are_never_freed_witness :
  exists t' arr n h' h'',
    Devices.audio_list_devices true true S_OK new_thread DeviceSamples.one_nameless
      DeviceSamples.used_heap = (t', 0, Some (arr, n), h') /\
    Devices.audio_free_device_list arr n h' = Ok h'' /\
    incl [2; 0]%nat (Devices.blocks h'') /\
    exists b, In b (Devices.blocks h'') /\ ~ In b [2; 0]%nat.
Proof.
  apply (@strings_of_a_dropped_endpoint_are_never_freed S_OK new_thread
           DeviceSamples.one_nameless DeviceSamples.used_heap
           (DeviceSamples.nameless "mic1")).
  - repeat constructor.
  - left. reflexivity.
  - reflexivity.
  - intros l h' H. vm_compute in H. inversion H. vm_compute. reflexivity.
Defined.
